(** * Grid-Tools: the NMF multi-block topology engine

    A shallow embedding of [inc/nmf.hpp] (namespace [NMF]) and of the
    face-assembly pass of [src/glue.cc] (constructor [GridTool::XF::MESH::MESH]),
    followed by the properties of the specification that were checked against
    them.

    Conventions of the embedding:
    - [size_t] is a [Z] in [0, 2^64); every arithmetic operation of the source
      on [size_t] is followed by [wrap].
    - [int] is a [Z] in [-2^31, 2^31).
    - a [std::vector] is a [list]; [at] is a checked access.
    - a C++ member function that may throw returns a [result]; the state
      reached at the [throw] is kept, since the object survives it.
    - a pointer into a block ([EDGE*], [SURF*]) is the pair of the address of
      the block and the 0-based position inside its array; the address of a
      block allocated by [readFromFile] is the 1-based slot of [m_blk] that
      owns it. *)

From Stdlib Require Import ZArith String Ascii Bool Lia Arith List.
From Stdlib Require Import Setoid Morphisms.
Import ListNotations.
Open Scope string_scope.
Open Scope list_scope.
Open Scope Z_scope.

Set Implicit Arguments.

(* ================================================================== *)
(** ** Machine integers *)

(** Arithmetic on [size_t] is modulo 2^64. *)
Definition wrap (z : Z) : Z := z mod 2 ^ 64.

(** [size_t] -> [long long]. *)
Definition to_llong (z : Z) : Z :=
  let w := z mod 2 ^ 64 in if w <? 2 ^ 63 then w else w - 2 ^ 64.

(** [size_t] -> [int]. *)
Definition to_int (z : Z) : Z :=
  let w := z mod 2 ^ 32 in if w <? 2 ^ 31 then w else w - 2 ^ 32.

Definition INT_MAX : Z := 2 ^ 31 - 1.
Definition SIZE_MAX : Z := 2 ^ 64 - 1.

(* ================================================================== *)
(** ** Characters and strings of the C library *)

Module Cstr.

Definition code (c : ascii) : Z := Z.of_nat (nat_of_ascii c).

(** [::toupper] in the "C" locale. *)
Definition toupper (c : ascii) : ascii :=
let n := nat_of_ascii c in
if ((97 <=? n) && (n <=? 122))%nat then ascii_of_nat (n - 32) else c.

(** [std::isspace] in the "C" locale; also the class [\s] of the regexes. *)
Definition isspace (c : ascii) : bool :=
let n := nat_of_ascii c in
((n =? 32) || ((9 <=? n) && (n <=? 13)))%nat.

(** The class [\d]. *)
Definition isdigit (c : ascii) : bool :=
let n := nat_of_ascii c in ((48 <=? n) && (n <=? 57))%nat.

Definition digit_val (c : ascii) : Z := code c - 48.

Definition digit_char (d : Z) : ascii := ascii_of_nat (Z.to_nat (48 + d)).

Fixpoint map (f : ascii -> ascii) (s : string) : string :=
match s with
| EmptyString => EmptyString
| String c r => String (f c) (map f r)
end.

Fixpoint forallb (p : ascii -> bool) (s : string) : bool :=
match s with
| EmptyString => true
| String c r => p c && forallb p r
end.

(** The longest prefix of [s] whose characters satisfy [p], and the rest. *)
Fixpoint span (p : ascii -> bool) (s : string) : string * string :=
match s with
| EmptyString => (EmptyString, EmptyString)
| String c r =>
if p c then let '(a, b) := span p r in (String c a, b)
else (EmptyString, s)
end.

Definition dropWhile (p : ascii -> bool) (s : string) : string :=
snd (span p s).

(** The value of a string of decimal digits, most significant first. *)
Fixpoint digits_value (acc : Z) (s : string) : Z :=
match s with
| EmptyString => acc
| String c r => digits_value (10 * acc + digit_val c) r
end.

Fixpoint to_digits (fuel : nat) (n : Z) (acc : string) : string :=
match fuel with
| O => acc
| S f =>
let acc' := String (digit_char (n mod 10)) acc in
if n / 10 =? 0 then acc' else to_digits f (n / 10) acc'
end.

(** [std::to_string] and [operator<<] on an integer: decimal, no padding. *)
Definition to_string (n : Z) : string :=
if n <? 0
then String "-" (to_digits (S (Z.to_nat (Z.log2 (- n)))) (- n) EmptyString)
else to_digits (S (Z.to_nat (Z.log2 n))) n EmptyString.

Fixpoint spaces (n : nat) : string :=
match n with
| O => EmptyString
| S m => String " " (spaces m)
end.

(** [os << std::setw(w) << std::right << s]. *)
Definition setw_right (w : nat) (s : string) : string :=
(spaces (w - String.length s) ++ s)%string.

(** [os << std::setw(w) << std::left << s]. *)
Definition setw_left (w : nat) (s : string) : string :=
(s ++ spaces (w - String.length s))%string.

(** The lines of a text, split at ['\n'] (the newline is dropped). *)
Fixpoint split_lines (s : string) : list string :=
match s with
| EmptyString => [EmptyString]
| String c r =>
if Ascii.eqb c "010" then EmptyString :: split_lines r
else match split_lines r with
| [] => [String c EmptyString]
| l :: ls => String c l :: ls
end
end.

Definition endl : string := String "010" EmptyString.

End Cstr.

(* ================================================================== *)
(** ** Exceptions and results *)

Inductive exn : Type :=
| invalid_argument (what : string)
| runtime_error (what : string)
| length_error (what : string)
| out_of_range (what : string)
| logic_error (what : string).

(** The result of running a member function from a state [S]:
    - [Normal a s]: it returned [a], leaving the object in state [s];
    - [Raised e s]: it threw [e]; [s] is the state at the [throw];
    - [Undefined]: it dereferenced a null pointer;
    - [Diverges]: it entered a loop that never ends. *)
Inductive result (S A : Type) : Type :=
| Normal (a : A) (s : S)
| Raised (e : exn) (s : S)
| Undefined
| Diverges.

Arguments Normal {S A} a s.
Arguments Raised {S A} e s.
Arguments Undefined {S A}.
Arguments Diverges {S A}.

Definition M (S A : Type) : Type := S -> result S A.

Definition ret {S A} (a : A) : M S A := fun s => Normal a s.

Definition bind {S A B} (m : M S A) (f : A -> M S B) : M S B :=
  fun s =>
    match m s with
    | Normal a s' => f a s'
    | Raised e s' => Raised e s'
    | Undefined => Undefined
    | Diverges => Diverges
    end.

Definition throw {S A} (e : exn) : M S A := fun s => Raised e s.
Definition undefined {S A} : M S A := fun _ => Undefined.
Definition get_state {S} : M S S := fun s => Normal s s.
Definition put_state {S} (s : S) : M S unit := fun _ => Normal tt s.
Definition modify {S} (f : S -> S) : M S unit := fun s => Normal tt (f s).

(** A function that may throw but touches no state. *)
Definition lift {S A} (r : exn + A) : M S A :=
  match r with
  | inl e => throw e
  | inr a => ret a
  end.

Notation "x <- m ;; k" := (bind m (fun x => k))
  (at level 61, m at next level, right associativity).
Notation "m ;;; k" := (bind m (fun _ => k))
  (at level 61, right associativity).
Notation "' pat <- m ;; k" := (bind m (fun x => match x with pat => k end))
  (at level 61, pat pattern, m at next level, right associativity).

(** [for (auto x : xs) body(x);] *)
Fixpoint for_each {S X} (xs : list X) (body : X -> M S unit) : M S unit :=
  match xs with
  | [] => ret tt
  | x :: r => body x ;;; for_each r body
  end.

(** The values [lo, lo+1, ..., lo+n-1]. *)
Fixpoint zseq (lo : Z) (n : nat) : list Z :=
  match n with
  | O => []
  | S m => lo :: zseq (lo + 1) m
  end.

(** The values taken by [x] in [for (size_t x = lo; x < hi; ++x)]. *)
Definition range (lo hi : Z) : list Z := zseq lo (Z.to_nat (hi - lo)).

(** [v.at(n)] and [v.at(n) = x] on a vector. *)
Definition at_ {A} (v : list A) (n : Z) : exn + A :=
  if (0 <=? n) && (n <? Z.of_nat (length v))
  then match nth_error v (Z.to_nat n) with
       | Some a => inr a
       | None => inl (out_of_range "vector::_M_range_check")
       end
  else inl (out_of_range "vector::_M_range_check").

Fixpoint set_nth {A} (n : nat) (x : A) (v : list A) : list A :=
  match v, n with
  | [], _ => []
  | _ :: r, O => x :: r
  | a :: r, S m => a :: set_nth m x r
  end.

Definition get0 {A} (d : A) (v : list A) (n : nat) : A := nth n v d.

Definition dquote : string := String "034" EmptyString.

(* ================================================================== *)
(** ** [NMF::Array1D]: a vector with 1-based, possibly negative, indexing *)

Module Array1D.

(** The 0-based position designated by [operator()(long long i)] in a
vector of size [N]. *)
Definition index (N i : Z) : exn + Z :=
if (1 <=? i) && (i <=? N) then inr (i - 1)
else if (- N <=? i) && (i <=? -1) then inr (N + i)
else inl (invalid_argument
(dquote ++ Cstr.to_string i ++ dquote
++ " is not a valid 1-based index.")%string).

Definition get {A} (v : list A) (i : Z) : exn + A :=
match index (Z.of_nat (length v)) i with
| inl e => inl e
| inr n => at_ v n
end.

End Array1D.

(* ================================================================== *)
(** ** [NMF::BC]: the boundary-condition keywords *)

Module BC.

Definition str_formalize (s : string) : string :=
Cstr.map (fun e => if Ascii.eqb e "-" then "_"%char else e)
(Cstr.map Cstr.toupper s).

Definition COLLAPSED : Z := 1.
Definition ONE_TO_ONE : Z := 2.
Definition PATCHED : Z := 3.
Definition POLE_DIR1 : Z := 4.
Definition POLE_DIR2 : Z := 5.
Definition SYM_X : Z := 6.
Definition SYM_Y : Z := 7.
Definition SYM_Z : Z := 8.
Definition UNPROCESSED : Z := 9.
Definition WALL : Z := 10.
Definition SYM : Z := 11.
Definition INFLOW : Z := 12.
Definition OUTFLOW : Z := 13.

Definition isValidBCIdx (x : Z) : bool :=
existsb (Z.eqb x)
[COLLAPSED; ONE_TO_ONE; PATCHED; POLE_DIR1; POLE_DIR2; SYM_X; SYM_Y;
SYM_Z; UNPROCESSED; WALL; SYM; INFLOW; OUTFLOW].

Definition isValidBCStr (x : string) : bool :=
existsb (String.eqb (str_formalize x))
["COLLAPSED"; "ONE_TO_ONE"; "PATCHED"; "POLE_DIR1"; "POLE_DIR2";
"SYM_X"; "SYM_Y"; "SYM_Z"; "UNPROCESSED"; "WALL"; "SYM"; "INFLOW";
"OUTFLOW"].

Fixpoint find {K V} (eqb : K -> K -> bool) (k : K) (m : list (K * V))
: exn + V :=
match m with
| [] => inl (runtime_error "Not found!")
| (k', v) :: r => if eqb k k' then inr v else find eqb k r
end.

Definition idx2str (x : Z) : exn + string :=
find Z.eqb x
[(COLLAPSED, "COLLAPSED"); (ONE_TO_ONE, "ONE_TO_ONE");
(PATCHED, "PATCHED"); (POLE_DIR1, "POLE_DIR1");
(POLE_DIR2, "POLE_DIR2"); (SYM_X, "SYM_X"); (SYM_Y, "SYM_Y");
(SYM_Z, "SYM_Z"); (UNPROCESSED, "UNPROCESSED"); (WALL, "WALL");
(SYM, "SYM"); (INFLOW, "INFLOW"); (OUTFLOW, "OUTFLOW")].

Definition str2idx (x : string) : exn + Z :=
find String.eqb (str_formalize x)
[("COLLAPSED", COLLAPSED); ("ONE_TO_ONE", ONE_TO_ONE);
("PATCHED", PATCHED); ("POLE_DIR1", POLE_DIR1);
("POLE_DIR2", POLE_DIR2); ("SYM_X", SYM_X); ("SYM_Y", SYM_Y);
("SYM_Z", SYM_Z); ("UNPROCESSED", UNPROCESSED); ("WALL", WALL);
("SYM", SYM); ("SYMMETRY", SYM); ("INFLOW", INFLOW);
("OUTFLOW", OUTFLOW)].

End BC.

(* ================================================================== *)
(** ** [NMF::CELL], [NMF::HEX_CELL] *)

Module CELL.

Record t : Type := mk {
m_cell : Z;        (* 1-based sequence *)
m_node : list Z;   (* 1-based sequence *)
m_face : list Z    (* 1-based sequence *)
}.

(** [CELL(bool is3D)]. *)
Definition new (is3D : bool) : t :=
mk 0 (repeat 0 (if is3D then 8 else 4)) (repeat 0 (if is3D then 6 else 4)).

Definition CellSeq (c : t) : Z := m_cell c.
Definition set_CellSeq (c : t) (v : Z) : t := mk v (m_node c) (m_face c).

Definition NodeSeq (c : t) (n : Z) : exn + Z := at_ (m_node c) (n - 1).
Definition FaceSeq (c : t) (n : Z) : exn + Z := at_ (m_face c) (n - 1).

End CELL.

Definition HEX_CELL : CELL.t := CELL.new true.

(* ================================================================== *)
(** ** [NMF::DIM] and [NMF::BLOCK] *)

Module BLOCK.

Record t : Type := mk {
m_is3D : bool;
m_dim : Z;
idx : Z;                   (* 1-based global index *)
m_nI : Z; m_nJ : Z; m_nK : Z
}.

(** [BLOCK(int nI, int nJ, int nK)]. *)
Definition new (nI nJ nK : Z) : exn + t :=
if (nI <? 2) || (nJ <? 2) || (nK <? 2)
then inl (invalid_argument "Invalid dimension.")
else inr (mk true 3 0 (wrap nI) (wrap nJ) (wrap nK)).

Definition is3D (b : t) : bool := m_is3D b.
Definition index (b : t) : Z := idx b.
Definition set_index (b : t) (v : Z) : t :=
mk (m_is3D b) (m_dim b) v (m_nI b) (m_nJ b) (m_nK b).
Definition IDIM (b : t) : Z := m_nI b.
Definition JDIM (b : t) : Z := m_nJ b.
Definition KDIM (b : t) : Z := m_nK b.

Definition node_num (b : t) : Z :=
if is3D b then wrap (wrap (IDIM b * JDIM b) * KDIM b)
else wrap (IDIM b * JDIM b).

Definition face_num (b : t) : Z :=
let ret := 0 in
if is3D b then
let ret := wrap (ret + wrap (wrap (wrap (IDIM b - 1) * JDIM b) * KDIM b)) in
let ret := wrap (ret + wrap (wrap (IDIM b * wrap (JDIM b - 1)) * KDIM b)) in
let ret := wrap (ret + wrap (wrap (IDIM b * JDIM b) * wrap (KDIM b - 1))) in
ret
else
let ret := wrap (ret + wrap (wrap (IDIM b - 1) * JDIM b)) in
let ret := wrap (ret + wrap (IDIM b * wrap (JDIM b - 1))) in
ret.

Definition cell_num (b : t) : Z :=
if is3D b
then wrap (wrap (wrap (IDIM b - 1) * wrap (JDIM b - 1)) * wrap (KDIM b - 1))
else wrap (wrap (IDIM b - 1) * wrap (JDIM b - 1)).

End BLOCK.

(* ================================================================== *)
(** ** [NMF::Block3D] *)

(** [EDGE*] and [SURF*]: the address of the owning block and the 0-based
    position in its [m_edge] or [m_surf]; [None] is [nullptr]. *)
Record ptr : Type := mkptr { p_block : Z; p_pos : Z }.

Definition ptr_eqb (p q : ptr) : bool :=
  (p_block p =? p_block q) && (p_pos p =? p_pos q).

(** [v[n] = f(v[n])] on a vector, for [n] inside it. *)
Fixpoint upd_nth {A} (n : nat) (f : A -> A) (v : list A) : list A :=
  match v, n with
  | [], _ => []
  | a :: r, O => f a :: r
  | a :: r, S m => a :: upd_nth m f r
  end.

Module EDGE.

Record t : Type := mk {
local_index : Z;      (* 1..12, 0 when uninitialized *)
global_index : Z;     (* 1-based, 0 when uninitialized *)
dependentBlock : option Z;
dependentSurf : list (option ptr)
}.

Definition default : t := mk 0 0 None [None; None].

Definition set_local_index (v : Z) (e : t) : t :=
mk v (global_index e) (dependentBlock e) (dependentSurf e).
Definition set_dependentBlock (v : option Z) (e : t) : t :=
mk (local_index e) (global_index e) v (dependentSurf e).
Definition set_dependentSurf (v : list (option ptr)) (e : t) : t :=
mk (local_index e) (global_index e) (dependentBlock e) v.
Definition set_global_index (v : Z) (e : t) : t :=
mk (local_index e) v (dependentBlock e) (dependentSurf e).

End EDGE.

Module SURF.

Record t : Type := mk {
local_index : Z;      (* 1..6, 0 when uninitialized *)
includedEdge : list (option ptr);
counterpartEdge : list (option ptr);
dependentBlock : option Z;
neighbourSurf : option ptr
}.

Definition default : t :=
mk 0 [None; None; None; None] [None; None; None; None] None None.

Definition set_local_index (v : Z) (s : t) : t :=
mk v (includedEdge s) (counterpartEdge s) (dependentBlock s)
(neighbourSurf s).
Definition set_dependentBlock (v : option Z) (s : t) : t :=
mk (local_index s) (includedEdge s) (counterpartEdge s) v
(neighbourSurf s).
Definition set_includedEdge (v : list (option ptr)) (s : t) : t :=
mk (local_index s) v (counterpartEdge s) (dependentBlock s)
(neighbourSurf s).
Definition set_neighbourSurf (v : option ptr) (s : t) : t :=
mk (local_index s) (includedEdge s) (counterpartEdge s)
(dependentBlock s) v.

End SURF.

Module Block3D.

Definition NumOfEdge : Z := 12.
Definition NumOfSurf : Z := 6.

Record t : Type := mk {
base : BLOCK.t;
m_cell : list CELL.t;
m_edge : list EDGE.t;
m_surf : list SURF.t
}.

Definition IDIM (b : t) : Z := BLOCK.IDIM (base b).
Definition JDIM (b : t) : Z := BLOCK.JDIM (base b).
Definition KDIM (b : t) : Z := BLOCK.KDIM (base b).
Definition index (b : t) : Z := BLOCK.index (base b).
Definition cell_num (b : t) : Z := BLOCK.cell_num (base b).
Definition face_num (b : t) : Z := BLOCK.face_num (base b).

Definition set_index (v : Z) (b : t) : t :=
mk (BLOCK.set_index (base b) v) (m_cell b) (m_edge b) (m_surf b).
Definition set_m_cell (v : list CELL.t) (b : t) : t :=
mk (base b) v (m_edge b) (m_surf b).
Definition set_m_edge (v : list EDGE.t) (b : t) : t :=
mk (base b) (m_cell b) v (m_surf b).
Definition set_m_surf (v : list SURF.t) (b : t) : t :=
mk (base b) (m_cell b) (m_edge b) v.

(** [&m_edge[n]] and [&m_surf[n]] inside the block at address [this]. *)
Definition edge_ptr (this n : Z) : option ptr := Some (mkptr this n).
Definition surf_ptr (this n : Z) : option ptr := Some (mkptr this n).

(** The two initialisation loops of the constructor. *)
Definition init_edges (this : Z) (es : list EDGE.t) : list EDGE.t :=
fold_left
(fun es i =>
upd_nth i (fun e => EDGE.set_dependentBlock (Some this)
(EDGE.set_local_index (Z.of_nat i + 1) e)) es)
(seq 0 (length es)) es.

Definition init_surfs (this : Z) (ss : list SURF.t) : list SURF.t :=
fold_left
(fun ss i =>
upd_nth i (fun s => SURF.set_dependentBlock (Some this)
(SURF.set_local_index (Z.of_nat i + 1) s)) ss)
(seq 0 (length ss)) ss.

(** [m_surf[n].includedEdge = { &m_edge[a], &m_edge[b], &m_edge[c], &m_edge[d] }]. *)
Definition wire_surf (this : Z) (n : nat) (a b c d : Z)
(ss : list SURF.t) : list SURF.t :=
upd_nth n (SURF.set_includedEdge
[edge_ptr this a; edge_ptr this b;
edge_ptr this c; edge_ptr this d]) ss.

(** [m_edge[n].dependentSurf = { &m_surf[a], &m_surf[b] }]. *)
Definition wire_edge (this : Z) (n : nat) (a b : Z)
(es : list EDGE.t) : list EDGE.t :=
upd_nth n (EDGE.set_dependentSurf [surf_ptr this a; surf_ptr this b]) es.

(** [Block3D(int nI, int nJ, int nK)], building the object at address
[this].  The allocation of the arrays is taken to succeed: in the source
[m_cell(cell_num())] throws [std::length_error] when the number of cells
exceeds [max_size()] and [std::bad_alloc] when memory runs out, after
[BLOCK] has accepted the dimensions; the model has neither outcome, so
that an [inr] here describes the block whenever the constructor
returns one. *)
Definition new (this : Z) (nI nJ nK : Z) : exn + t :=
match BLOCK.new nI nJ nK with
| inl e => inl e
| inr b =>
let cells := repeat HEX_CELL (Z.to_nat (BLOCK.cell_num b)) in
let es := repeat EDGE.default (Z.to_nat NumOfEdge) in
let ss := repeat SURF.default (Z.to_nat NumOfSurf) in
let es := init_edges this es in
let ss := init_surfs this ss in
(* Connection between frame edges and surrounding surfaces *)
let ss := wire_surf this 0 4 8 7 11 ss in
let ss := wire_surf this 1 5 10 6 9 ss in
let ss := wire_surf this 2 0 9 3 8 ss in
let ss := wire_surf this 3 1 11 2 10 ss in
let ss := wire_surf this 4 0 4 1 5 ss in
let ss := wire_surf this 5 2 7 3 6 ss in
let es := wire_edge this 0 2 4 es in
let es := wire_edge this 1 4 3 es in
let es := wire_edge this 2 3 5 es in
let es := wire_edge this 3 5 2 es in
let es := wire_edge this 4 0 4 es in
let es := wire_edge this 5 4 1 es in
let es := wire_edge this 6 1 5 es in
let es := wire_edge this 7 5 0 es in
let es := wire_edge this 8 0 2 es in
let es := wire_edge this 9 2 1 es in
let es := wire_edge this 10 1 3 es in
let es := wire_edge this 11 3 0 es in
inr (mk b cells es ss)
end.

(** The position in [m_cell] computed by [cell(i, j, k)]. *)
Definition cell_pos (b : t) (i j k : Z) : Z :=
let i0 := wrap (i - 1) in
let j0 := wrap (j - 1) in
let k0 := wrap (k - 1) in
wrap (i0 + wrap (wrap (IDIM b - 1)
* wrap (j0 + wrap (wrap (JDIM b - 1) * k0)))).

Definition cell (b : t) (i j k : Z) : exn + CELL.t :=
at_ (m_cell b) (cell_pos b i j k).

(** [cell(i, j, k).CellSeq() = v]. *)
Definition set_cell_CellSeq (b : t) (i j k v : Z) : exn + t :=
match cell b i j k with
| inl e => inl e
| inr c =>
inr (set_m_cell
(set_nth (Z.to_nat (cell_pos b i j k)) (CELL.set_CellSeq c v)
(m_cell b)) b)
end.

(** The position designated by [edge(int n)]. *)
Definition edge_pos (n : Z) : exn + Z :=
if (1 <=? n) && (n <=? NumOfEdge) then inr (n - 1)
else if (- NumOfEdge <=? n) && (n <=? -1) then inr (NumOfEdge + n)
else inl (invalid_argument
(dquote ++ Cstr.to_string n ++ dquote
++ " is not a valid edge index for a 3D block.")%string).

Definition edge (b : t) (n : Z) : exn + EDGE.t :=
match edge_pos n with
| inl e => inl e
| inr p => at_ (m_edge b) p
end.

(** The position designated by [surf(int n)]. *)
Definition surf_pos (n : Z) : exn + Z :=
if (1 <=? n) && (n <=? NumOfSurf) then inr (n - 1)
else if (- NumOfSurf <=? n) && (n <=? -1) then inr (NumOfSurf + n)
else inl (invalid_argument
(dquote ++ Cstr.to_string n ++ dquote
++ " is not a valid 1-based surface index for a block.")%string).

Definition surf (b : t) (n : Z) : exn + SURF.t :=
match surf_pos n with
| inl e => inl e
| inr p => at_ (m_surf b) p
end.

End Block3D.

(* ================================================================== *)
(** ** [NMF::Mapping3D::ENTRY] and its [RANGE] *)

Module RANGE.

Record t : Type := mk {
m_blk : Z;    (* Block index, 1-based *)
m_face : Z;   (* Face index, 1..6 *)
m_s1 : Z; m_e1 : Z;   (* Primary direction *)
m_s2 : Z; m_e2 : Z    (* Secondary direction *)
}.

(** [RANGE(size_t *src)]. *)
Definition new (src : list Z) : t :=
mk (nth 0 src 0) (nth 1 src 0) (nth 2 src 0) (nth 3 src 0) (nth 4 src 0)
(nth 5 src 0).

Definition B := m_blk.
Definition F := m_face.
Definition S1 := m_s1.
Definition E1 := m_e1.
Definition S2 := m_s2.
Definition E2 := m_e2.

Definition constains (r : t) (pri sec : Z) : bool :=
let t1 := (m_s1 r <=? pri) && (pri <=? m_e1 r) in
let t2 := (m_s2 r <=? sec) && (sec <=? m_e2 r) in
t1 && t2.

Definition pri_node_num (r : t) : Z := wrap (wrap (m_e1 r - m_s1 r) + 1).
Definition sec_node_num (r : t) : Z := wrap (wrap (m_e2 r - m_s2 r) + 1).
Definition node_num (r : t) : Z := wrap (pri_node_num r * sec_node_num r).

Definition edge_num (r : t) : Z :=
let n_pri := wrap (wrap (pri_node_num r - 1) * sec_node_num r) in
let n_sec := wrap (wrap (sec_node_num r - 1) * pri_node_num r) in
wrap (n_pri + n_sec).

Definition face_num (r : t) : Z :=
wrap (wrap (pri_node_num r - 1) * wrap (sec_node_num r - 1)).

End RANGE.

Module ENTRY.

(** The two classes derived from [ENTRY]. *)
Inductive t : Type :=
| SingleSideEntry (m_bc : Z) (m_rg1 : RANGE.t)
| DoubleSideEntry (m_bc : Z) (m_rg1 : RANGE.t) (m_rg2 : RANGE.t)
(m_swap : bool).

Definition t_ : Type := t.

Definition Type_ (e : t) : Z :=
match e with
| SingleSideEntry bc _ => bc
| DoubleSideEntry bc _ _ _ => bc
end.

Definition Range1 (e : t) : RANGE.t :=
match e with
| SingleSideEntry _ r => r
| DoubleSideEntry _ r _ _ => r
end.

(** [ENTRY(const std::string &t, size_t *s)]: the type of the entry. *)
Definition new_bc (t : string) : exn + Z :=
if BC.isValidBCStr t then BC.str2idx t
else inl (runtime_error
("Unsupported B.C. name: " ++ dquote ++ t ++ dquote)%string).

Definition new_single (t : string) (s : list Z) : exn + t_ :=
match new_bc t with
| inl e => inl e
| inr bc => inr (SingleSideEntry bc (RANGE.new s))
end.

Definition new_double (t : string) (s1 s2 : list Z) (f : bool)
: exn + t_ :=
match new_bc t with
| inl e => inl e
| inr bc => inr (DoubleSideEntry bc (RANGE.new s1) (RANGE.new s2) f)
end.

Definition contains (e : t) (bs fs lpri lsec : Z) : Z :=
match e with
| SingleSideEntry _ rg =>
if (RANGE.B rg =? bs) && (RANGE.F rg =? fs)
&& RANGE.constains rg lpri lsec then 1 else 0
| DoubleSideEntry _ rg1 rg2 _ =>
if (RANGE.B rg1 =? bs) && (RANGE.F rg1 =? fs)
&& RANGE.constains rg1 lpri lsec then 1
else if (RANGE.B rg2 =? bs) && (RANGE.F rg2 =? fs)
&& RANGE.constains rg2 lpri lsec then 2
else 0
end.

End ENTRY.

(* ================================================================== *)
(** ** Streams *)

(** The file system seen by [std::ifstream] and [std::ofstream]. *)
Record filesystem : Type := mkfs {
  fs_file : string -> option string;   (* contents of the readable files *)
  fs_writable : string -> bool         (* paths an [ofstream] can open *)
}.

Definition fs_write (fs : filesystem) (path content : string) : filesystem :=
  mkfs (fun p => if String.eqb p path then Some content else fs_file fs p)
       (fs_writable fs).

(** An open [std::ifstream] read only through [std::getline]: the segments
    of the text, split at newlines, that are still to be read.  The empty
    list is a stream whose [eofbit] or [failbit] is set. *)
Definition ifstream : Type := list string.

(** [std::getline(mfp, s)]: the value of [!mfp.fail()] afterwards, the new
    [s], the new stream.  On a stream that is not good the call fails and
    leaves [s] alone; a last segment that is empty extracts nothing and
    fails with [s] erased; a last segment that is not empty is read and
    sets [eofbit] only. *)
Definition getline (mfp : ifstream) (s : string) : bool * string * ifstream :=
  match mfp with
  | [] => (false, s, [])
  | [x] => (negb (String.eqb x ""), x, [])
  | x :: rest => (true, x, rest)
  end.

(** A [std::stringstream]: the characters written and not yet read, and
    [good()]. *)
Record sstream : Type := mkss { ss_buf : string; ss_good : bool }.

Definition ss_clear (ss : sstream) : sstream := mkss (ss_buf ss) true.

(** [ss << s]. *)
Definition ss_put (ss : sstream) (s : string) : sstream :=
  if ss_good ss then mkss (ss_buf ss ++ s)%string true else ss.

Definition is_empty (s : string) : bool :=
  match s with EmptyString => true | _ => false end.

(** [ss >> str] for a [std::string]: skip white space, then read up to the
    next white space or the end, which sets [eofbit].  A stream that is not
    good, or holds white space only, fails and leaves [str] alone. *)
Definition ss_get_string (ss : sstream) (str : string) : sstream * string :=
  if ss_good ss then
    let r := Cstr.dropWhile Cstr.isspace (ss_buf ss) in
    if is_empty r then (mkss r false, str)
    else
      let '(tok, rest) := Cstr.span (fun c => negb (Cstr.isspace c)) r in
      (mkss rest (negb (is_empty rest)), tok)
  else (ss, str).

(** [ss >> v] for a [size_t]: skip white space, read an optional [+] and
    the decimal digits that follow.  No digit: [v] is 0 and [failbit] is
    set; a value above [SIZE_MAX]: [v] is [SIZE_MAX] and [failbit] is set.
    (A [-] never reaches this extractor: [str_formalize] has turned it into
    [_] beforehand.) *)
Definition ss_get_size_t (ss : sstream) (v : Z) : sstream * Z :=
  if ss_good ss then
    let r := Cstr.dropWhile Cstr.isspace (ss_buf ss) in
    if is_empty r then (mkss r false, v)
    else
      let r := match r with
               | String c r' => if Ascii.eqb c "+" then r' else r
               | EmptyString => r
               end in
      let '(ds, rest) := Cstr.span Cstr.isdigit r in
      if is_empty ds then (mkss rest false, 0)
      else
        let n := Cstr.digits_value 0 ds in
        if n <=? SIZE_MAX then (mkss rest (negb (is_empty rest)), n)
        else (mkss rest false, SIZE_MAX)
  else (ss, v).

(** [for (j = 0; j < n; j++) ss >> c[j];] on a zero-initialised array. *)
Fixpoint ss_get_size_ts (n : nat) (ss : sstream) : sstream * list Z :=
  match n with
  | O => (ss, [])
  | S m =>
      let '(ss, v) := ss_get_size_t ss 0 in
      let '(ss, vs) := ss_get_size_ts m ss in
      (ss, v :: vs)
  end.

(** [std::stoi] on a string of decimal digits. *)
Definition stoi (s : string) : exn + Z :=
  let n := Cstr.digits_value 0 s in
  if n <=? INT_MAX then inr n else inl (out_of_range "stoi").

(** [std::regex_match] against [\s*(\d+)\s*]: the sub-match. *)
Definition regex_match_pattern1 (s : string) : option string :=
  let r := Cstr.dropWhile Cstr.isspace s in
  let '(d, r) := Cstr.span Cstr.isdigit r in
  if is_empty d then None
  else if is_empty (Cstr.dropWhile Cstr.isspace r) then Some d else None.

(** One group [(\d+)\s+] of the second pattern. *)
Definition regex_digits_spaces (s : string) : option (string * string) :=
  let '(d, r) := Cstr.span Cstr.isdigit s in
  if is_empty d then None
  else
    let '(w, r) := Cstr.span Cstr.isspace r in
    if is_empty w then None else Some (d, r).

(** [std::regex_match] against [\s*(\d+)\s+(\d+)\s+(\d+)\s+(\d+)\s*]: the
    four sub-matches. *)
Definition regex_match_pattern2 (s : string)
  : option (string * string * string * string) :=
  let r := Cstr.dropWhile Cstr.isspace s in
  match regex_digits_spaces r with
  | None => None
  | Some (d1, r) =>
  match regex_digits_spaces r with
  | None => None
  | Some (d2, r) =>
  match regex_digits_spaces r with
  | None => None
  | Some (d3, r) =>
      let '(d4, r) := Cstr.span Cstr.isdigit r in
      if is_empty d4 then None
      else if is_empty (Cstr.dropWhile Cstr.isspace r)
           then Some (d1, d2, d3, d4) else None
  end end end.

(* ================================================================== *)
(** ** [NMF::Mapping3D] *)

(** [for (x : xs) acc = body(x, acc);] with a local variable [acc]. *)
Fixpoint foldM {S X A} (xs : list X) (a : A) (body : X -> A -> M S A)
  : M S A :=
  match xs with
  | [] => ret a
  | x :: r => a' <- body x a ;; foldM r a' body
  end.

Module Mapping3D.

Record t : Type := mk {
m_blk : list (option Block3D.t);   (* Array1D<Block3D*> *)
m_entry : list ENTRY.t             (* Array1D<ENTRY*> *)
}.

(** [Mapping3D() = default]. *)
Definition new : t := mk [] [].

Definition set_m_blk (v : list (option Block3D.t)) (m : t) : t :=
mk v (m_entry m).
Definition set_m_entry (v : list ENTRY.t) (m : t) : t :=
mk (m_blk m) v.

Definition nBlk (m : t) : Z := Z.of_nat (length (m_blk m)).

(** Run a member function of the block held by slot [n] of [m_blk]
(0-based); the slot holding [nullptr] is a null dereference. *)
Definition in_block {A} (n : nat) (f : M Block3D.t A) : M t A :=
fun m =>
match nth_error (m_blk m) n with
| Some (Some b) =>
match f b with
| Normal a b' => Normal a (set_m_blk (set_nth n (Some b') (m_blk m)) m)
| Raised e b' => Raised e (set_m_blk (set_nth n (Some b') (m_blk m)) m)
| Undefined => Undefined
| Diverges => Diverges
end
| _ => Undefined
end.

(** [for (auto &blk : m_blk)] with a local variable. *)
Definition for_blocks {A} (a : A) (body : A -> M Block3D.t A) : M t A :=
fun m => foldM (seq 0 (length (m_blk m))) a
(fun n a => in_block n (body a)) m.

(** [release_all()]. *)
Definition release_all : M t unit := modify (fun _ => mk [] []).

Definition isWhite (c : ascii) : bool :=
Ascii.eqb c "010" || Ascii.eqb c " " || Ascii.eqb c "009".

Definition isBlankLine (s : string) : bool := Cstr.forallb isWhite s.

Fixpoint checkStarting (s : string) (c : ascii) : bool :=
match s with
| EmptyString => false
| String e r => if isWhite e then checkStarting r c else Ascii.eqb e c
end.

Definition skippable (s : string) : bool :=
isBlankLine s || checkStarting s "#".

(** [do { std::getline(mfp, s); } while (isBlankLine(s) || checkStarting(s, '#'));]
The new [s] and the new stream, or [None] when the loop never ends:
once the stream has failed every further [getline] leaves [s] alone,
so that a skippable [s] is skipped for ever. *)
Fixpoint skip (mfp : ifstream) (s : string) : option (string * ifstream) :=
match mfp with
| [] => if skippable s then None else Some (s, [])
| x :: rest => if skippable x then skip rest x else Some (x, rest)
end.

(** The body of the loop that reads the dimensions of one block. *)
Definition read_block (NumOfBlk : Z) (s : string) : M t unit :=
match regex_match_pattern2 s with
| None => throw (runtime_error "Failed to match 4 integers.")
| Some (r1, r2, r3, r4) =>
idx <- lift (stoi r1) ;;
i_max <- lift (stoi r2) ;;
j_max <- lift (stoi r3) ;;
k_max <- lift (stoi r4) ;;
if (idx <? 1) || (idx >? NumOfBlk) then
throw (runtime_error ("Invalid order of block: " ++ Cstr.to_string idx)%string)
else if i_max <? 1 then
throw (runtime_error ("Invalid I dimension: " ++ Cstr.to_string i_max)%string)
else if j_max <? 1 then
throw (runtime_error ("Invalid J dimension: " ++ Cstr.to_string j_max)%string)
else if k_max <? 1 then
throw (runtime_error ("Invalid K dimension: " ++ Cstr.to_string k_max)%string)
else
m <- get_state ;;
n <- lift (Array1D.index (nBlk m) idx) ;;
b <- lift (Block3D.new idx i_max j_max k_max) ;;
put_state (set_m_blk (set_nth (Z.to_nat n)
(Some (Block3D.set_index (wrap idx) b)) (m_blk m)) m)
end.

(** [for (int i = 0; i < NumOfBlk; i++) { std::getline(mfp, s); ... }];
returns the locals [s] and [mfp]. *)
Fixpoint read_blocks (n : nat) (NumOfBlk : Z) (mfp : ifstream) (s : string)
: M t (string * ifstream) :=
match n with
| O => ret (s, mfp)
| S n' =>
let '(_, s, mfp) := getline mfp s in
read_block NumOfBlk s ;;;
read_blocks n' NumOfBlk mfp s
end.

(** The body of the loop that reads the connections: one entry is read
from line [s] through the string stream [ss]. *)
Definition read_entry (s : string) (ss : sstream) : M t sstream :=
let s := BC.str_formalize s in
let ss := ss_clear ss in
let ss := ss_put ss s in
let '(ss, bc_str) := ss_get_string ss "" in
bc <- lift (BC.str2idx bc_str) ;;
if bc =? BC.ONE_TO_ONE then
let '(ss, c0) := ss_get_size_ts 6 ss in
let '(ss, c1) := ss_get_size_ts 6 ss in
let '(ss, swp) := ss_get_string ss "" in
ptr <- lift (ENTRY.new_double bc_str c0 c1 (String.eqb swp "TRUE")) ;;
modify (fun m => set_m_entry (m_entry m ++ [ptr]) m) ;;;
ret ss
else
let '(ss, c0) := ss_get_size_ts 6 ss in
ptr <- lift (ENTRY.new_single bc_str c0) ;;
modify (fun m => set_m_entry (m_entry m ++ [ptr]) m) ;;;
ret ss.

(** [do { ... } while (std::getline(mfp, s));] *)
Fixpoint read_connections (mfp : ifstream) (s : string) (ss : sstream)
: M t unit :=
ss <- read_entry s ss ;;
match mfp with
| [] => ret tt
| x :: rest =>
match rest with
| [] => if String.eqb x "" then ret tt else read_connections rest x ss
| _ => read_connections rest x ss
end
end.

(** The two blocks and the two surfaces a [ONE_TO_ONE] entry designates:
the 0-based slots of [B1] and [B2] in [m_blk] and the 0-based
positions of [F1] and [F2] in their [m_surf]. *)
Definition lookup_surfaces (e : ENTRY.t) : M t (Z * Z * Z * Z) :=
match e with
| ENTRY.DoubleSideEntry _ rg1 rg2 _ =>
m <- get_state ;;
n1 <- lift (Array1D.index (nBlk m) (to_llong (RANGE.B rg1))) ;;
n2 <- lift (Array1D.index (nBlk m) (to_llong (RANGE.B rg2))) ;;
match nth_error (m_blk m) (Z.to_nat n1) with
| Some (Some B1) =>
f1 <- lift (Block3D.surf_pos (to_int (RANGE.F rg1))) ;;
match nth_error (m_blk m) (Z.to_nat n2) with
| Some (Some B2) =>
f2 <- lift (Block3D.surf_pos (to_int (RANGE.F rg2))) ;;
ret (n1, f1, n2, f2)
| _ => undefined
end
| _ => undefined
end
| ENTRY.SingleSideEntry _ _ => undefined   (* the dynamic_cast is null *)
end.

(** [F->neighbourSurf = v] for the surface [F] at position [f] of the
block in slot [n]. *)
Definition set_neighbourSurf (n f : Z) (v : option ptr) (m : t) : t :=
set_m_blk
(upd_nth (Z.to_nat n)
(option_map
(fun b => Block3D.set_m_surf
(upd_nth (Z.to_nat f) (SURF.set_neighbourSurf v)
(Block3D.m_surf b)) b))
(m_blk m)) m.

(** The body of the loop that establishes connectivity. *)
Definition connect (e : ENTRY.t) : M t unit :=
if ENTRY.Type_ e =? BC.ONE_TO_ONE then
'(n1, f1, n2, f2) <- lookup_surfaces e ;;
let F1 := mkptr (n1 + 1) f1 in
let F2 := mkptr (n2 + 1) f2 in
modify (set_neighbourSurf n1 f1 (Some F2)) ;;;
modify (set_neighbourSurf n2 f2 (Some F1))
else ret tt.

(** The body of the loop on counterpart information: both branches on
[Swap()] are empty. *)
Definition counterpart (e : ENTRY.t) : M t unit :=
if ENTRY.Type_ e =? BC.ONE_TO_ONE then
lookup_surfaces e ;;; ret tt
else ret tt.

Definition readFromFile (fs : filesystem) (path : string) : M t Z :=
match fs_file fs path with
| None =>
throw (runtime_error
("Can not open target input file: " ++ dquote ++ path
++ dquote ++ ".")%string)
| Some text =>
let mfp := Cstr.split_lines text in
(* Skip header *)
match skip mfp "" with
| None => fun _ => Diverges
| Some (s, mfp) =>
(* Read block nums *)
match regex_match_pattern1 s with
| None =>
throw (runtime_error
"Failed to match the single line, where only the num of blocks is specified.")
| Some r1 =>
NumOfBlk <- lift (stoi r1) ;;
if NumOfBlk <=? 0 then
throw (runtime_error
("Invalid num of blocks: " ++ dquote ++ r1 ++ dquote
++ ".")%string)
else
release_all ;;;
modify (set_m_blk (repeat None (Z.to_nat NumOfBlk))) ;;;
(* Read dimension info of each block *)
'(s, mfp) <- read_blocks (Z.to_nat NumOfBlk) NumOfBlk mfp s ;;
(* Skip separators *)
match skip mfp s with
| None => fun _ => Diverges
| Some (s, mfp) =>
(* Read connections *)
read_connections mfp s (mkss "" true) ;;;
(* Establish connectivity *)
m <- get_state ;;
for_each (m_entry m) connect ;;;
(* Counterpart information *)
for_each (m_entry m) counterpart ;;;
ret 0
end
end end
end.

Definition nCell : M t Z :=
for_blocks 0 (fun ret_ b => Normal (wrap (ret_ + Block3D.cell_num b)) b).

Definition nFace : M t Z :=
ret_ <- for_blocks 0
(fun ret_ b => Normal (wrap (ret_ + Block3D.face_num b)) b) ;;
(* Substract duplicated interface *)
m <- get_state ;;
foldM (m_entry m) ret_
(fun e ret_ =>
if ENTRY.Type_ e =? BC.ONE_TO_ONE
then ret (wrap (ret_ - RANGE.face_num (ENTRY.Range1 e)))
else ret ret_).

(** The cell loops of [numbering()] on one block: [cnt] before, [cnt]
after. *)
Definition index_cells_of_block (cnt : Z) : M Block3D.t Z :=
fun blk =>
let cI := Block3D.IDIM blk in
let cJ := Block3D.JDIM blk in
let cK := Block3D.KDIM blk in
foldM (range 1 cK) cnt (fun k cnt =>
foldM (range 1 cJ) cnt (fun j cnt =>
foldM (range 1 cI) cnt (fun i cnt =>
let cnt := wrap (cnt + 1) in
fun blk =>
match Block3D.set_cell_CellSeq blk i j k cnt with
| inl e => Raised e blk
| inr blk' => Normal cnt blk'
end))) blk.

(** The face loop of [numbering()] on one block: its body is a [TODO]. *)
Definition index_faces_of_block (cnt : Z) : M Block3D.t Z :=
fun blk =>
let cI := Block3D.IDIM blk in
let cJ := Block3D.JDIM blk in
let cK := Block3D.KDIM blk in
Normal cnt blk.

Definition numbering : M t Z :=
(* Indexing of cells *)
cnt <- for_blocks 0 index_cells_of_block ;;
totalCellNum <- nCell ;;
if negb (cnt =? totalCellNum) then
throw (length_error "Inconsistent num of cells detected.")
else
(* Indexing of faces *)
cnt <- for_blocks 0 index_faces_of_block ;;
totalFaceNum <- nFace ;;
if negb (cnt =? totalFaceNum) then
throw (length_error "Inconsistent num of cells detected.")
else
(* Indexing of nodes: TODO *)
ret 0.

(** [f_out << s]: the state is the text written so far. *)
Definition out (s : string) : M string unit :=
modify (fun f => (f ++ s)%string).

Definition out_num (w : nat) (n : Z) : M string unit :=
out (Cstr.setw_right w (Cstr.to_string n)).

Definition write_range_head (r : RANGE.t) : M string unit :=
out_num 6 (RANGE.B r) ;;;
out_num 6 (RANGE.F r) ;;;
out_num 9 (RANGE.S1 r) ;;;
out_num 6 (RANGE.E1 r) ;;;
out_num 9 (RANGE.S2 r) ;;;
out_num 6 (RANGE.E2 r).

Definition write_range_tail (r : RANGE.t) : M string unit :=
out_num 9 (RANGE.B r) ;;;
out_num 6 (RANGE.F r) ;;;
out_num 9 (RANGE.S1 r) ;;;
out_num 6 (RANGE.E1 r) ;;;
out_num 9 (RANGE.S2 r) ;;;
out_num 6 (RANGE.E2 r).

(** The body of the loop on the blocks, for slot [i] (0-based). *)
Definition write_block (m : t) (i : nat) : M string unit :=
out_num 8 (Z.of_nat i + 1) ;;;
match nth_error (m_blk m) i with
| Some (Some b) =>
out_num 8 (Block3D.IDIM b) ;;;
out_num 8 (Block3D.JDIM b) ;;;
out_num 8 (Block3D.KDIM b) ;;;
out Cstr.endl
| _ => undefined
end.

(** The body of the loop on the entries. *)
Definition write_entry (e : ENTRY.t) : M string unit :=
name <- lift (BC.idx2str (ENTRY.Type_ e)) ;;
out (Cstr.setw_left 13 name) ;;;
write_range_head (ENTRY.Range1 e) ;;;
(if ENTRY.Type_ e =? BC.ONE_TO_ONE then
match e with
| ENTRY.DoubleSideEntry _ _ rg2 swap =>
write_range_tail rg2 ;;;
out (Cstr.setw_right 10 (if swap then "TRUE" else "FALSE"))
| ENTRY.SingleSideEntry _ _ => undefined
end
else ret tt) ;;;
out Cstr.endl.

(** Everything [writeToFile] sends to [f_out]. *)
Definition write_text (m : t) : M string unit :=
(* Header *)
out "# ======================== Neutral Map File generated by the Grid-Glue software ==============================" ;;; out Cstr.endl ;;;
out "# ============================================================================================================" ;;; out Cstr.endl ;;;
out "# Block#    IDIM    JDIM    KDIM" ;;; out Cstr.endl ;;;
out "# ------------------------------------------------------------------------------------------------------------" ;;; out Cstr.endl ;;;
(* Block info *)
let NumOfBlk := nBlk m in
out_num 8 NumOfBlk ;;; out Cstr.endl ;;;
for_each (seq 0 (Z.to_nat NumOfBlk)) (write_block m) ;;;
(* Interface and boundary info *)
out "# ============================================================================================================" ;;; out Cstr.endl ;;;
out "# Type           B1    F1       S1    E1       S2    E2       B2    F2       S1    E1       S2    E2      Swap" ;;; out Cstr.endl ;;;
out "# ------------------------------------------------------------------------------------------------------------" ;;; out Cstr.endl ;;;
for_each (m_entry m) write_entry.

(** [writeToFile(path)]: the state is the file system; the text sent to
[f_out] before a [throw] reaches the file when the stream is
destroyed. *)
Definition writeToFile (m : t) (path : string) : M filesystem Z :=
fun fs =>
if fs_writable fs path then
match write_text m "" with
| Normal _ text => Normal 0 (fs_write fs path text)
| Raised e text => Raised e (fs_write fs path text)
| Undefined => Undefined
| Diverges => Diverges
end
else
Raised (runtime_error ("Can not open target output file: " ++ path)%string)
fs.

(** [Mapping3D(const std::string &inp)]. *)
Definition new_from_file (fs : filesystem) (inp : string) : result t unit :=
(readFromFile fs inp ;;; numbering ;;; ret tt) new.

(** [ce->global_index = v] for the edge at position [p] of the block in
slot [n] (both 0-based). *)
Definition set_global_index (n p v : Z) (m : t) : t :=
set_m_blk
(upd_nth (Z.to_nat n)
(option_map
(fun b => Block3D.set_m_edge
(upd_nth (Z.to_nat p) (EDGE.set_global_index v)
(Block3D.m_edge b)) b))
(m_blk m)) m.

(** [s->neighbourSurf] read through a [SURF*]: the surface at position
[p_pos s] of the block at address [p_block s], which is the block in
slot [p_block s - 1]; a pointer to no surface of the model is
dangling. *)
Definition read_neighbourSurf (s : ptr) : M t (option ptr) :=
fun m =>
if (p_block s <? 1) || (p_pos s <? 0) then Undefined
else
match nth_error (m_blk m) (Z.to_nat (p_block s - 1)) with
| Some (Some b) =>
match nth_error (Block3D.m_surf b) (Z.to_nat (p_pos s)) with
| Some f => Normal (SURF.neighbourSurf f) m
| None => Undefined
end
| _ => Undefined
end.

(** The body of the loop on the edges in [coloring()], for edge [j] of
block [i] (both 1-based): [global_cnt] before, [global_cnt] after.
The queue of the search holds the edge alone and nothing is ever pushed
on it, so that the [while] runs its body once. *)
Definition color_edge (i j global_cnt : Z) : M t Z :=
m <- get_state ;;
n <- lift (Array1D.index (nBlk m) (to_llong i)) ;;
pb <- lift (at_ (m_blk m) n) ;;
match pb with
| None => undefined                          (* [b->edge(j)] on [nullptr] *)
| Some b =>
p <- lift (Block3D.edge_pos (to_int j)) ;;
e <- lift (at_ (Block3D.m_edge b) p) ;;
if negb (EDGE.global_index e =? 0) then ret global_cnt
else if global_cnt =? INT_MAX then undefined  (* [++global_cnt] overflows *)
else
let global_cnt := global_cnt + 1 in
modify (set_global_index n p global_cnt) ;;;
match EDGE.dependentSurf e with
| [Some s1; Some s2] =>
read_neighbourSurf s1 ;;;
read_neighbourSurf s2 ;;;
ret global_cnt
| [_; _] => throw (runtime_error "Internal error.")
| _ => undefined
end
end.

(** [coloring()]. *)
Definition coloring : M t unit :=
m <- get_state ;;
foldM (range 1 (nBlk m + 1)) 0
(fun i global_cnt =>
foldM (range 1 (Block3D.NumOfEdge + 1)) global_cnt
(fun j global_cnt => color_edge i j global_cnt)) ;;;
ret tt.

End Mapping3D.

(* ================================================================== *)
(** ** [GridTool::XF::MESH::MESH]: the pass that copies the face info

    [glue.cc] is written against the headers [nmf.h] and [xf.h], which give
    it the blocks, their cells ([cell], [CellSeq], [NodeSeq], [FaceSeq]),
    their surfaces ([surf], [neighbourSurf]) and the face table of the mesh.
    The block interface is the one embedded above; the face table is
    modelled below. *)

Module FACE.

(** Modelled from the spec: the polygon kind of a face record, of which
the pass only ever assigns [QUADRILATERAL] ([xf.h] is missing). *)
Inductive kind : Type := UNSET | QUADRILATERAL.

(** Modelled from the spec: the face record of [xf.h] (missing), with the
fields the pass assigns: ordered node list, left and right cell,
boundary flag, polygon kind. *)
Record t : Type := mk {
atBdry : bool;
type : kind;
includedNode : list Z;
leftCell : Z;
rightCell : Z
}.

Definition set_atBdry (v : bool) (f : t) : t :=
mk v (type f) (includedNode f) (leftCell f) (rightCell f).
Definition set_type (v : kind) (f : t) : t :=
mk (atBdry f) v (includedNode f) (leftCell f) (rightCell f).
Definition set_includedNode (v : list Z) (f : t) : t :=
mk (atBdry f) (type f) v (leftCell f) (rightCell f).
Definition set_leftCell (v : Z) (f : t) : t :=
mk (atBdry f) (type f) (includedNode f) v (rightCell f).
Definition set_rightCell (v : Z) (f : t) : t :=
mk (atBdry f) (type f) (includedNode f) (leftCell f) v.

(** [includedNode.resize(n)]. *)
Definition resize (n : nat) (v : list Z) : list Z :=
firstn n v ++ repeat 0 (n - length v).

End FACE.

Module MESH.

(** The part of the mesh under construction that the pass touches: the
face table and the local bit vector [visited]. *)
Record t : Type := mk {
m_face : list FACE.t;
visited : list bool
}.

(** Modelled from the spec: [face(idx)] of [xf.h] (missing), the checked
access to the face of 1-based global id [idx]. *)
Definition face (idx : Z) : M t FACE.t :=
fun s =>
if idx =? 0 then
Raised (logic_error
(dquote ++ "0" ++ dquote
++ " is invalid when using 1-based index.")%string) s
else lift (at_ (m_face s) (idx - 1)) s.

(** An assignment through the reference [curFace = face(idx)]. *)
Definition upd_face (idx : Z) (f : FACE.t -> FACE.t) : M t unit :=
modify (fun s => mk (upd_nth (Z.to_nat (idx - 1)) f (m_face s)) (visited s)).

(** [curFace.includedNode(r) = v]. *)
Definition set_node (idx : Z) (r : nat) (v : Z) : M t unit :=
upd_face idx
(fun f => FACE.set_includedNode (set_nth (r - 1) v (FACE.includedNode f)) f).

(** [visited[n]]; outside the vector the access is not checked. *)
Definition get_visited (n : Z) : M t bool :=
fun s =>
if (0 <=? n) && (n <? Z.of_nat (length (visited s)))
then Normal (nth (Z.to_nat n) (visited s) false) s
else Undefined.

(** [visited[n] = true]. *)
Definition set_visited (n : Z) : M t unit :=
fun s =>
if (0 <=? n) && (n <? Z.of_nat (length (visited s)))
then Normal tt (mk (m_face s) (set_nth (Z.to_nat n) true (visited s)))
else Undefined.

(** [includedNode.resize(4)] and the four assignments
[includedNode(r) = curCell.NodeSeq(n_r)]. *)
Definition copy_nodes (faceIndex : Z) (curCell : CELL.t) (n1 n2 n3 n4 : Z)
: M t unit :=
upd_face faceIndex
(fun f => FACE.set_includedNode (FACE.resize 4 (FACE.includedNode f)) f) ;;;
v <- lift (CELL.NodeSeq curCell n1) ;; set_node faceIndex 1 v ;;;
v <- lift (CELL.NodeSeq curCell n2) ;; set_node faceIndex 2 v ;;;
v <- lift (CELL.NodeSeq curCell n3) ;; set_node faceIndex 3 v ;;;
v <- lift (CELL.NodeSeq curCell n4) ;; set_node faceIndex 4 v.

(** The body shared by the three loops on internal faces: [curCell] and
[adjCell] are the two cells, [fs] the local face of [curCell] that is
recorded, [n1..n4] the local nodes of [curCell] that bound it. *)
Definition internal_face (curCell adjCell : CELL.t) (fs n1 n2 n3 n4 : Z)
: M t unit :=
faceIndex <- lift (CELL.FaceSeq curCell fs) ;;
face faceIndex ;;;
upd_face faceIndex (FACE.set_atBdry false) ;;;
upd_face faceIndex (FACE.set_type FACE.QUADRILATERAL) ;;;
copy_nodes faceIndex curCell n1 n2 n3 n4 ;;;
upd_face faceIndex (FACE.set_leftCell (CELL.CellSeq adjCell)) ;;;
upd_face faceIndex (FACE.set_rightCell (CELL.CellSeq curCell)) ;;;
set_visited (faceIndex - 1).

(** The body shared by the six loops on the surfaces of block [b]:
[curCell] is the cell behind the face, [fs] its local face on the
surface, [ss] the surface (1..6), [n1..n4] the local nodes. *)
Definition surface_face (b : Block3D.t) (curCell : CELL.t)
(fs ss n1 n2 n3 n4 : Z) : M t unit :=
faceIndex <- lift (CELL.FaceSeq curCell fs) ;;
curFace <- face faceIndex ;;
curSurf <- lift (Block3D.surf b ss) ;;
v <- get_visited (faceIndex - 1) ;;
if v then
if negb (FACE.atBdry curFace) then
(* Second-Round of Double-Sided Case *)
if FACE.leftCell curFace =? 0 then
upd_face faceIndex (FACE.set_leftCell (CELL.CellSeq curCell))
else if FACE.rightCell curFace =? 0 then
upd_face faceIndex (FACE.set_rightCell (CELL.CellSeq curCell))
else
throw (runtime_error
"Double-Sided face should not appear more than twice!")
else
throw (runtime_error "Boundary face shouldn't appear twice!")
else
upd_face faceIndex (FACE.set_type FACE.QUADRILATERAL) ;;;
upd_face faceIndex
(FACE.set_atBdry
(match SURF.neighbourSurf curSurf with None => true | _ => false end)) ;;;
copy_nodes faceIndex curCell n1 n2 n3 n4 ;;;
upd_face faceIndex (FACE.set_leftCell 0) ;;;
upd_face faceIndex (FACE.set_rightCell (CELL.CellSeq curCell)) ;;;
set_visited (faceIndex - 1).

(** The face loops of the constructor for one block. *)
Definition copy_faces_of_block (b : Block3D.t) : M t unit :=
let nI := Block3D.IDIM b in
let nJ := Block3D.JDIM b in
let nK := Block3D.KDIM b in
(* Internal I direction *)
for_each (range 1 nK) (fun k =>
for_each (range 1 nJ) (fun j =>
for_each (range 2 nI) (fun i =>
curCell <- lift (Block3D.cell b i j k) ;;
adjCell <- lift (Block3D.cell b (wrap (i - 1)) j k) ;;
internal_face curCell adjCell 1 1 5 8 4))) ;;;
(* Internal J direction *)
for_each (range 1 nK) (fun k =>
for_each (range 1 nI) (fun i =>
for_each (range 2 nJ) (fun j =>
curCell <- lift (Block3D.cell b i j k) ;;
adjCell <- lift (Block3D.cell b i (wrap (j - 1)) k) ;;
internal_face curCell adjCell 3 6 5 1 2))) ;;;
(* Internal k direction *)
for_each (range 1 nI) (fun i =>
for_each (range 1 nJ) (fun j =>
for_each (range 2 nK) (fun k =>
curCell <- lift (Block3D.cell b i j k) ;;
adjCell <- lift (Block3D.cell b i j (wrap (k - 1))) ;;
internal_face curCell adjCell 5 4 3 2 1))) ;;;
(* I-MIN *)
for_each (range 1 nK) (fun k =>
for_each (range 1 nJ) (fun j =>
curCell <- lift (Block3D.cell b 1 j k) ;;
surface_face b curCell 1 1 1 5 8 4)) ;;;
(* I-MAX *)
for_each (range 1 nK) (fun k =>
for_each (range 1 nJ) (fun j =>
curCell <- lift (Block3D.cell b (wrap (nI - 1)) j k) ;;
surface_face b curCell 2 2 2 3 7 6)) ;;;
(* J-MIN *)
for_each (range 1 nK) (fun k =>
for_each (range 1 nI) (fun i =>
curCell <- lift (Block3D.cell b i 1 k) ;;
surface_face b curCell 3 3 6 5 1 2)) ;;;
(* J-MAX *)
for_each (range 1 nK) (fun k =>
for_each (range 1 nI) (fun i =>
curCell <- lift (Block3D.cell b i (wrap (nJ - 1)) k) ;;
surface_face b curCell 4 4 3 4 8 7)) ;;;
(* K-MIN *)
for_each (range 1 nI) (fun i =>
for_each (range 1 nJ) (fun j =>
curCell <- lift (Block3D.cell b i j 1) ;;
surface_face b curCell 5 5 4 3 2 1)) ;;;
(* K-MAX *)
for_each (range 1 nI) (fun i =>
for_each (range 1 nJ) (fun j =>
curCell <- lift (Block3D.cell b i j (wrap (nK - 1))) ;;
surface_face b curCell 6 6 8 5 6 7)).

(** "Copy face info": [visited] is cleared, then every block is swept,
in the order of the blocks. *)
Definition copy_face_info (blocks : list Block3D.t) : M t unit :=
modify (fun s => mk (m_face s) (repeat false (length (m_face s)))) ;;;
for_each blocks copy_faces_of_block.

End MESH.


(* ================================================================== *)
(** ** [NMF::DIM], [NMF::QUAD_CELL], [NMF::Block2D] *)

Module DIM.

(** [DIM(int dim)]: the members [m_is3D] and [m_dim]. *)
Definition new (dim : Z) : exn + bool * Z :=
if dim =? 2 then inr (false, dim)
else if dim =? 3 then inr (true, dim)
else inl (invalid_argument
("Invalid dimension: " ++ Cstr.to_string dim)%string).

(** [DIM(bool is3d)]. *)
Definition of_bool (is3d : bool) : bool * Z :=
(is3d, if is3d then 3 else 2).

End DIM.

Definition QUAD_CELL : CELL.t := CELL.new false.

Module Block2D.

Definition NumOfEdge : Z := 4.

Module EDGE.

Record t : Type := mk {
local_index : Z;      (* 1..4, 0 when uninitialized *)
global_index : Z;     (* 1-based, 0 when uninitialized *)
dependentBlock : option Z;
neighbourBlock : option Z
}.

Definition default : t := mk 0 0 None None.

Definition set_local_index (v : Z) (e : t) : t :=
mk v (global_index e) (dependentBlock e) (neighbourBlock e).

End EDGE.

Record t : Type := mk {
base : BLOCK.t;
m_cell : list CELL.t;   (* Array1D<QUAD_CELL> *)
m_edge : list EDGE.t    (* Array1D<EDGE> *)
}.

(** [BLOCK(int nI, int nJ)]. *)
Definition new_base (nI nJ : Z) : exn + BLOCK.t :=
if (nI <? 2) || (nJ <? 2)
then inl (invalid_argument "Invalid dimension.")
else
let '(is3D, dim) := DIM.of_bool false in
inr (BLOCK.mk is3D dim 0 (wrap nI) (wrap nJ) 1).

(** The loop of the constructor. *)
Definition init_edges (es : list EDGE.t) : list EDGE.t :=
fold_left
(fun es i => upd_nth i (EDGE.set_local_index (Z.of_nat i + 1)) es)
(seq 0 (length es)) es.

(** [Block2D(int nI, int nJ)].  The allocation of the arrays is taken to
succeed: in the source [m_cell(cell_num())] throws [std::length_error]
when the number of cells exceeds [max_size()] and [std::bad_alloc] when
memory runs out, after [BLOCK] has accepted the dimensions; the model has
neither outcome, so that an [inr] here describes the block whenever the
constructor returns one. *)
Definition new (nI nJ : Z) : exn + t :=
match new_base nI nJ with
| inl e => inl e
| inr b =>
let cells := repeat QUAD_CELL (Z.to_nat (BLOCK.cell_num b)) in
let es := repeat EDGE.default (Z.to_nat NumOfEdge) in
inr (mk b cells (init_edges es))
end.

Definition IDIM (b : t) : Z := BLOCK.IDIM (base b).
Definition JDIM (b : t) : Z := BLOCK.JDIM (base b).
Definition KDIM (b : t) : Z := BLOCK.KDIM (base b).
Definition node_num (b : t) : Z := BLOCK.node_num (base b).
Definition face_num (b : t) : Z := BLOCK.face_num (base b).
Definition cell_num (b : t) : Z := BLOCK.cell_num (base b).

(** The position in [m_cell] computed by [cell(i, j)]. *)
Definition cell_pos (b : t) (i j : Z) : Z :=
let i0 := wrap (i - 1) in
let j0 := wrap (j - 1) in
wrap (i0 + wrap (wrap (IDIM b - 1) * j0)).

Definition cell (b : t) (i j : Z) : exn + CELL.t :=
at_ (m_cell b) (cell_pos b i j).

(** The position designated by [edge(int n)]. *)
Definition edge_pos (n : Z) : exn + Z :=
if (1 <=? n) && (n <=? NumOfEdge) then inr (n - 1)
else if (- NumOfEdge <=? n) && (n <=? -1) then inr (NumOfEdge + n)
else inl (invalid_argument
(dquote ++ Cstr.to_string n ++ dquote
 ++ " is not a valid edge index for a 2D block.")%string).

Definition edge (b : t) (n : Z) : exn + EDGE.t :=
match edge_pos n with
| inl e => inl e
| inr p => at_ (m_edge b) p
end.

End Block2D.
(* ================================================================== *)
(** ** [GridTool::COMMON]: the containers of [common.h] *)

Module COMMON.

(** [wrong_index(idx, reason)] and [wrong_string(str, reason)]: the
[std::logic_error] whose message quotes the index or the string. *)
Definition wrong_index (idx : Z) (reason : string) : exn :=
logic_error (dquote ++ Cstr.to_string idx ++ dquote ++ " " ++ reason ++ ".").

Definition wrong_string (str reason : string) : exn :=
logic_error (dquote ++ str ++ dquote ++ " " ++ reason ++ ".").

Module Array1D.

Definition index_is_zero : exn :=
wrong_index 0 "is invalid when using 1-based index".

(** [operator()(int i)]: the sum [size() + i] is taken in [size_t]. *)
Definition get {A} (v : list A) (i : Z) : exn + A :=
if i >=? 1 then at_ v (i - 1)
else if i <=? -1 then at_ v (wrap (Z.of_nat (length v) + i))
else inl index_is_zero.

(** [contains(x)], for the [operator==] of the elements. *)
Fixpoint contains {A} (eqb : A -> A -> bool) (v : list A) (x : A) : bool :=
match v with
| [] => false
| y :: r => if eqb x y then true else contains eqb r x
end.

(** The loop of [contains(a, b)], entered with the two flags. *)
Fixpoint contains2_loop {A} (eqb : A -> A -> bool) (a b : A)
(flag_a flag_b : bool) (v : list A) : bool :=
match v with
| [] => false
| x :: r =>
let flag_a := if negb flag_a && eqb a x then true else flag_a in
let flag_b := if negb flag_b && eqb b x then true else flag_b in
if flag_a && flag_b then true
else contains2_loop eqb a b flag_a flag_b r
end.

(** [contains(a, b)]. *)
Definition contains2 {A} (eqb : A -> A -> bool) (v : list A) (a b : A)
: bool :=
contains2_loop eqb a b false false v.

End Array1D.

Module ArrayND.

Record t (A : Type) : Type := mk {
m_Nx : Z; m_Ny : Z; m_Nz : Z;
m_data : list A;
m_NXY : Z
}.

Definition nI {A} (a : t A) : Z := m_Nx a.
Definition nJ {A} (a : t A) : Z := m_Ny a.
Definition nK {A} (a : t A) : Z := m_Nz a.

(** [ArrayND(nx, val)], [ArrayND(nx, ny, val)] and
[ArrayND(nx, ny, nz, val)]: the members are initialised first, the
dimensions are checked in the body.  The allocation of [m_data] is taken
to succeed: in the source it throws [std::length_error] when the number
of elements exceeds [max_size()] and [std::bad_alloc] when memory runs
out; the model has neither outcome, so that an [inr] here describes the
array whenever the constructor returns one. *)
Definition new1 {A} (nx : Z) (val : A) : exn + t A :=
let a := mk nx 1 1 (repeat val (Z.to_nat nx)) nx in
if nI a =? 0 then inl (wrong_index 0 "in I-dim") else inr a.

Definition new2 {A} (nx ny : Z) (val : A) : exn + t A :=
let a := mk nx ny 1 (repeat val (Z.to_nat (wrap (nx * ny))))
(wrap (nx * ny)) in
if nI a =? 0 then inl (wrong_index 0 "in I-dim")
else if nJ a =? 0 then inl (wrong_index 0 "in J-dim")
else inr a.

Definition new3 {A} (nx ny nz : Z) (val : A) : exn + t A :=
let a := mk nx ny nz (repeat val (Z.to_nat (wrap (wrap (nx * ny) * nz))))
(wrap (nx * ny)) in
if nI a =? 0 then inl (wrong_index 0 "in I-dim")
else if nJ a =? 0 then inl (wrong_index 0 "in J-dim")
else if nK a =? 0 then inl (wrong_index 0 "in K-dim")
else inr a.

(** The 0-based internal index. *)
Definition idx2 {A} (a : t A) (i j : Z) : Z :=
wrap (i + wrap (m_Nx a * j)).

Definition idx3 {A} (a : t A) (i j k : Z) : Z :=
wrap (wrap (i + wrap (m_Nx a * j)) + wrap (m_NXY a * k)).

(** [m_data[n]], read and written: [operator[]] does not check [n], and
an access outside the vector has no defined result ([None]). *)
Definition data_get {A} (a : t A) (n : Z) : option A :=
nth_error (m_data a) (Z.to_nat n).

Definition data_set {A} (a : t A) (n : Z) (v : A) : option (t A) :=
if n <? Z.of_nat (length (m_data a))
then Some (mk (m_Nx a) (m_Ny a) (m_Nz a)
(set_nth (Z.to_nat n) v (m_data a)) (m_NXY a))
else None.

(** [at(i, j)], [at(i, j, k)]: 0-based. *)
Definition at2 {A} (a : t A) (i j : Z) : option A := data_get a (idx2 a i j).
Definition at3 {A} (a : t A) (i j k : Z) : option A :=
data_get a (idx3 a i j k).
Definition set_at2 {A} (a : t A) (i j : Z) (v : A) : option (t A) :=
data_set a (idx2 a i j) v.
Definition set_at3 {A} (a : t A) (i j k : Z) (v : A) : option (t A) :=
data_set a (idx3 a i j k) v.

(** [operator()(i, j)], [operator()(i, j, k)]: 1-based. *)
Definition get2 {A} (a : t A) (i j : Z) : option A :=
at2 a (wrap (i - 1)) (wrap (j - 1)).
Definition get3 {A} (a : t A) (i j k : Z) : option A :=
at3 a (wrap (i - 1)) (wrap (j - 1)) (wrap (k - 1)).
Definition set2 {A} (a : t A) (i j : Z) (v : A) : option (t A) :=
set_at2 a (wrap (i - 1)) (wrap (j - 1)) v.
Definition set3 {A} (a : t A) (i j k : Z) (v : A) : option (t A) :=
set_at3 a (wrap (i - 1)) (wrap (j - 1)) (wrap (k - 1)) v.

End ArrayND.

End COMMON.

(* ================================================================== *)
(** * Properties *)

(** ** Vocabulary of the statements *)

(** The state a run ends in, when it ends by a [return] or a [throw]. *)
Definition final_state {S A} (r : result S A) : option S :=
  match r with
  | Normal _ s => Some s
  | Raised _ s => Some s
  | _ => None
  end.

(** [m] keeps the invariant [P] of the state, however it ends. *)
Definition preserves {S A} (P : S -> Prop) (m : M S A) : Prop :=
  forall s, P s ->
    match m s with
    | Normal _ s' => P s'
    | Raised _ s' => P s'
    | _ => True
    end.

Section Wiring.

(** The block at address [this]. *)
Variable this : Z.
Variable b : Block3D.t.

Definition deref_edge (p : option ptr) : option EDGE.t :=
match p with
| Some p =>
if p_block p =? this
then nth_error (Block3D.m_edge b) (Z.to_nat (p_pos p)) else None
| None => None
end.

Definition deref_surf (p : option ptr) : option SURF.t :=
match p with
| Some p =>
if p_block p =? this
then nth_error (Block3D.m_surf b) (Z.to_nat (p_pos p)) else None
| None => None
end.

(** The NMF indices of the edges that surface [s] (1..6) points to, in
the order of [includedEdge]. *)
Definition surf_edges (s : Z) : list (option Z) :=
match nth_error (Block3D.m_surf b) (Z.to_nat (s - 1)) with
| Some sf =>
map (fun p => option_map EDGE.local_index (deref_edge p))
(SURF.includedEdge sf)
| None => []
end.

(** The NMF indices of the surfaces that edge [e] (1..12) points to. *)
Definition edge_surfs (e : Z) : list (option Z) :=
match nth_error (Block3D.m_edge b) (Z.to_nat (e - 1)) with
| Some ed =>
map (fun p => option_map SURF.local_index (deref_surf p))
(EDGE.dependentSurf ed)
| None => []
end.

(** The canonical wiring between the surfaces and the edges of a block. *)
Definition wired : Prop :=
(surf_edges 1 = [Some 5; Some 9; Some 8; Some 12]
/\ surf_edges 2 = [Some 6; Some 11; Some 7; Some 10]
/\ surf_edges 3 = [Some 1; Some 10; Some 4; Some 9]
/\ surf_edges 4 = [Some 2; Some 12; Some 3; Some 11]
/\ surf_edges 5 = [Some 1; Some 5; Some 2; Some 6]
/\ surf_edges 6 = [Some 3; Some 8; Some 4; Some 7])
/\ (forall e, 1 <= e <= 12 ->
exists s1 s2,
edge_surfs e = [Some s1; Some s2] /\ s1 <> s2
/\ forall s, 1 <= s <= 6 ->
(In (Some e) (surf_edges s) <-> s = s1 \/ s = s2)).

End Wiring.

(** What the wiring of a block is read from. *)
Definition wiring_view (b : Block3D.t)
  : list (Z * list (option ptr)) * list (Z * list (option ptr)) :=
  (map (fun s => (SURF.local_index s, SURF.includedEdge s)) (Block3D.m_surf b),
   map (fun e => (EDGE.local_index e, EDGE.dependentSurf e)) (Block3D.m_edge b)).

(** Every allocated block of the mapping satisfies [Q]; the address of the
    block in slot [n] (0-based) is [n + 1]. *)
Definition all_blocks (Q : Z -> Block3D.t -> Prop) (m : Mapping3D.t) : Prop :=
  forall n b, nth_error (Mapping3D.m_blk m) n = Some (Some b) ->
              Q (Z.of_nat n + 1) b.

Definition all_wired : Mapping3D.t -> Prop := all_blocks wired.

(** The view of a block just built at address [this]. *)
Definition expected_view (this : Z)
  : list (Z * list (option ptr)) * list (Z * list (option ptr)) :=
  let p := fun n => Some (mkptr this n) in
  ([(1, [p 4; p 8; p 7; p 11]); (2, [p 5; p 10; p 6; p 9]);
    (3, [p 0; p 9; p 3; p 8]); (4, [p 1; p 11; p 2; p 10]);
    (5, [p 0; p 4; p 1; p 5]); (6, [p 2; p 7; p 3; p 6])],
   [(1, [p 2; p 4]); (2, [p 4; p 3]); (3, [p 3; p 5]); (4, [p 5; p 2]);
    (5, [p 0; p 4]); (6, [p 4; p 1]); (7, [p 1; p 5]); (8, [p 5; p 0]);
    (9, [p 0; p 2]); (10, [p 2; p 1]); (11, [p 1; p 3]); (12, [p 3; p 0])]).

Definition viewed (this : Z) (b : Block3D.t) : Prop :=
  wiring_view b = expected_view this.

Definition all_viewed : Mapping3D.t -> Prop := all_blocks viewed.

(** What [readFromFile] leaves in a slot: a block of at least 2 x 2 x 2
    nodes that knows its index, whose cells carry no id yet and whose
    edges carry no global index. *)
Definition fresh_block (this : Z) (b : Block3D.t) : Prop :=
  exists nI nJ nK,
    2 <= nI <= INT_MAX /\ 2 <= nJ <= INT_MAX /\ 2 <= nK <= INT_MAX
    /\ Block3D.base b = BLOCK.mk true 3 this nI nJ nK
    /\ Block3D.m_cell b = repeat HEX_CELL (Z.to_nat (Block3D.cell_num b))
    /\ map EDGE.global_index (Block3D.m_edge b) = repeat 0 12.

Definition all_fresh : Mapping3D.t -> Prop := all_blocks fresh_block.

(** The block whose arrays hold exactly the expected view. *)
Definition view_block (this : Z) : Block3D.t :=
  Block3D.mk (BLOCK.mk true 3 0 2 2 2) []
    (map (fun x => EDGE.mk (fst x) 0 None (snd x)) (snd (expected_view this)))
    (map (fun x => SURF.mk (fst x) (snd x) [] None None)
         (fst (expected_view this))).


(** ** Concrete inputs *)

(** The text made of the given lines, each ended by a newline. *)
Fixpoint text (lines : list string) : string :=
  match lines with
  | [] => ""
  | l :: r => (l ++ Cstr.endl ++ text r)%string
  end.

(** A file system that holds one file. *)
Definition one_file (path content : string) : filesystem :=
  mkfs (fun p => if String.eqb p path then Some content else None)
       (fun _ => true).

(** Scenario 1 of the specification: a single unit cube, six walls. *)
Definition nmf_cube : string :=
  text ["# one block";
        "1";
        "1 2 2 2";
        "";
        "WALL 1 1 1 2 1 2";
        "WALL 1 2 1 2 1 2";
        "WALL 1 3 1 2 1 2";
        "WALL 1 4 1 2 1 2";
        "WALL 1 5 1 2 1 2";
        "WALL 1 6 1 2 1 2"].

(** The model [readFromFile] builds from a text, when it returns. *)
Definition parse (content : string) : option Mapping3D.t :=
  match Mapping3D.readFromFile (one_file "in.nmf" content) "in.nmf"
          Mapping3D.new with
  | Normal _ m => Some m
  | _ => None
  end.

(** ** Counting *)

(** Equations between wrapped expressions are decided modulo 2^64. *)
Definition eqm64 : Z -> Z -> Prop := eqm (2 ^ 64).

#[local] Instance eqm64_equiv : Equivalence eqm64 := eqm_setoid (2 ^ 64).
#[local] Instance add_eqm64 : Proper (eqm64 ==> eqm64 ==> eqm64) Z.add :=
  Zplus_eqm (2 ^ 64).
#[local] Instance sub_eqm64 : Proper (eqm64 ==> eqm64 ==> eqm64) Z.sub :=
  Zminus_eqm (2 ^ 64).
#[local] Instance mul_eqm64 : Proper (eqm64 ==> eqm64 ==> eqm64) Z.mul :=
  Zmult_eqm (2 ^ 64).


Definition zsum (l : list Z) : Z := fold_right Z.add 0 l.

(** The blocks held by a list of slots, in the order of the slots. *)
Definition slot_blocks (bs : list (option Block3D.t)) : list Block3D.t :=
  flat_map (fun o => match o with Some b => [b] | None => [] end) bs.

(** The blocks of a mapping, in the order of their slots. *)
Definition blocks (m : Mapping3D.t) : list Block3D.t :=
  slot_blocks (Mapping3D.m_blk m).

(** No slot of [m_blk] holds [nullptr]. *)
Definition allocated (m : Mapping3D.t) : Prop :=
  Forall (fun o : option Block3D.t => o <> None) (Mapping3D.m_blk m).

(** [BLOCK::face_num()] of a 3-D block, over the integers: the expression
    that claim C4 writes out.  Its three terms are the numbers of unit
    segments of the lattice of nodes along I, along J and along K. *)
Definition block_faces (b : Block3D.t) : Z :=
  let nI := Block3D.IDIM b in
  let nJ := Block3D.JDIM b in
  let nK := Block3D.KDIM b in
  (nI - 1) * nJ * nK + nI * (nJ - 1) * nK + nI * nJ * (nK - 1).

(** The quantity subtracted for an entry: [(e1-s1)*(e2-s2)] of the first
    range of a [ONE_TO_ONE] entry, nothing for the others. *)
Definition entry_overlap (e : ENTRY.t) : Z :=
  if ENTRY.Type_ e =? BC.ONE_TO_ONE then
    let r := ENTRY.Range1 e in
    (RANGE.E1 r - RANGE.S1 r) * (RANGE.E2 r - RANGE.S2 r)
  else 0.

(** Following the spec's words (the per-block face count, a face being a
    quadrilateral): the quadrilaterals of the lattice of a block of
    [nI] x [nJ] x [nK] nodes, those normal to I, to J and to K. *)
Definition block_quad_faces (b : Block3D.t) : Z :=
  let nI := Block3D.IDIM b in
  let nJ := Block3D.JDIM b in
  let nK := Block3D.KDIM b in
  nI * (nJ - 1) * (nK - 1) + (nI - 1) * nJ * (nK - 1)
  + (nI - 1) * (nJ - 1) * nK.

(** The number of cells of a block, over the integers. *)
Definition block_cells (b : Block3D.t) : Z :=
  (Block3D.IDIM b - 1) * (Block3D.JDIM b - 1) * (Block3D.KDIM b - 1).

(** ** The cell sweep *)

(** The cells [l] once the first [t] of them have received the ids
    [c + 1, ..., c + t]. *)
Fixpoint number_cells (c : Z) (t : nat) (l : list CELL.t) : list CELL.t :=
  match t, l with
  | S t', x :: r => CELL.set_CellSeq x (c + 1) :: number_cells (c + 1) t' r
  | _, _ => l
  end.

(** The slots [bs] once the cells of their blocks have been numbered in
    sequence from [c + 1] on. *)
Fixpoint number_blocks (c : Z) (bs : list (option Block3D.t))
  : list (option Block3D.t) :=
  match bs with
  | [] => []
  | Some b :: r =>
      Some (Block3D.set_m_cell
              (number_cells c (length (Block3D.m_cell b)) (Block3D.m_cell b)) b)
        :: number_blocks (c + block_cells b) r
  | None :: r => None :: number_blocks c r
  end.

(** A block as the constructor builds it when its cells fit in memory:
    three dimensions of at least 2 nodes and one cell record per cell. *)
Definition block_wf (b : Block3D.t) : Prop :=
  BLOCK.m_is3D (Block3D.base b) = true
  /\ 2 <= Block3D.IDIM b /\ 2 <= Block3D.JDIM b /\ 2 <= Block3D.KDIM b
  /\ block_cells b < 2 ^ 64
  /\ length (Block3D.m_cell b) = Z.to_nat (block_cells b).

(** A model whose blocks are all allocated and well formed, with fewer
    than 2^64 cells in all. *)
Definition model_wf (m : Mapping3D.t) : Prop :=
  allocated m
  /\ Forall block_wf (blocks m)
  /\ zsum (map block_cells (blocks m)) < 2 ^ 64.

(** Following the spec's words: the sum over the blocks of the per-block
    face count minus the sum over the [ONE_TO_ONE] entries of
    [(e1-s1)*(e2-s2)], which the specification equates with the number of
    face records. *)
Definition spec_face_count (m : Mapping3D.t) : Z :=
  zsum (map block_quad_faces (blocks m))
  - zsum (map entry_overlap (Mapping3D.m_entry m)).

(** The value [nFace()] returns. *)
Definition nFace_value (m : Mapping3D.t) : Z :=
  wrap (zsum (map block_faces (blocks m))
        - zsum (map entry_overlap (Mapping3D.m_entry m))).

(** The cells of the model once [numbering()] has swept them. *)
Definition cells_numbered (m : Mapping3D.t) : Mapping3D.t :=
  Mapping3D.set_m_blk (number_blocks 0 (Mapping3D.m_blk m)) m.

(** The position of cell [(i, j, k)] in the storage of block [b], over the
    integers. *)
Definition cell_offset (b : Block3D.t) (i j k : Z) : Z :=
  (i - 1) + (Block3D.IDIM b - 1) * ((j - 1) + (Block3D.JDIM b - 1) * (k - 1)).

(** The number of cells of the blocks in the slots before slot [p]. *)
Definition cells_before (m : Mapping3D.t) (p : nat) : Z :=
  zsum (map block_cells (slot_blocks (firstn p (Mapping3D.m_blk m)))).

(** The cell ids of the model, block after block, each block in the order
    of its storage. *)
Definition cell_ids (m : Mapping3D.t) : list Z :=
  flat_map (fun b => map CELL.CellSeq (Block3D.m_cell b)) (blocks m).

(** No node, face or edge of the model carries a global id. *)
Definition no_face_node_ids (m : Mapping3D.t) : Prop :=
  Forall (fun b =>
            Forall (fun c => CELL.m_node c = repeat 0 8
                             /\ CELL.m_face c = repeat 0 6)
                   (Block3D.m_cell b)
            /\ Forall (fun e => EDGE.global_index e = 0) (Block3D.m_edge b))
         (blocks m).

(** No entry of the model is a [ONE_TO_ONE] interface. *)
Definition no_interface (m : Mapping3D.t) : Prop :=
  Forall (fun e => ENTRY.Type_ e <> BC.ONE_TO_ONE) (Mapping3D.m_entry m).

(** Scenario 2 of the specification: two unit cubes glued on the I-MAX
    surface of the first and the I-MIN surface of the second. *)
Definition nmf_two_cubes : string :=
  text ["2";
        "1 2 2 2";
        "2 2 2 2";
        "ONE_TO_ONE 1 2 1 2 1 2 2 1 1 2 1 2 FALSE";
        "WALL 1 1 1 2 1 2";
        "WALL 1 3 1 2 1 2";
        "WALL 1 4 1 2 1 2";
        "WALL 1 5 1 2 1 2";
        "WALL 1 6 1 2 1 2";
        "WALL 2 2 1 2 1 2";
        "WALL 2 3 1 2 1 2";
        "WALL 2 4 1 2 1 2";
        "WALL 2 5 1 2 1 2";
        "WALL 2 6 1 2 1 2"].

(** One unit cube and one [ONE_TO_ONE] entry whose first range spans
    3 x 4 quads: as many as [face_num()] counts for the cube. *)
Definition nmf_no_face_left : string :=
  text ["1";
        "1 2 2 2";
        "ONE_TO_ONE 1 1 1 4 1 5 1 2 1 4 1 5 FALSE"].

(** ** Pairing of surfaces *)

(** The surface at position [f] of the block in slot [n] (both 0-based). *)
Definition surface_at (m : Mapping3D.t) (n f : Z) : option SURF.t :=
  match nth_error (Mapping3D.m_blk m) (Z.to_nat n) with
  | Some (Some b) => nth_error (Block3D.m_surf b) (Z.to_nat f)
  | _ => None
  end.

(** Its [neighbourSurf]. *)
Definition neighbour_at (m : Mapping3D.t) (n f : Z) : option ptr :=
  match surface_at m n f with
  | Some s => SURF.neighbourSurf s
  | None => None
  end.

(** The two surfaces a double-sided entry designates in a mapping of [N]
    slots, as (slot, position) pairs: [m_blk(B)] and [surf(F)] applied to
    the fields of its two ranges. *)
Definition designated (N : Z) (e : ENTRY.t) : option (Z * Z * Z * Z) :=
  match e with
  | ENTRY.DoubleSideEntry _ rg1 rg2 _ =>
      match Array1D.index N (to_llong (RANGE.B rg1)),
            Array1D.index N (to_llong (RANGE.B rg2)),
            Block3D.surf_pos (to_int (RANGE.F rg1)),
            Block3D.surf_pos (to_int (RANGE.F rg2)) with
      | inr n1, inr n2, inr f1, inr f2 => Some (n1, f1, n2, f2)
      | _, _, _, _ => None
      end
  | ENTRY.SingleSideEntry _ _ => None
  end.

(** The surfaces named by the [ONE_TO_ONE] entries of a list, with
    repetitions. *)
Definition named_surfaces (N : Z) (es : list ENTRY.t) : list (Z * Z) :=
  flat_map
    (fun e =>
       if ENTRY.Type_ e =? BC.ONE_TO_ONE then
         match designated N e with
         | Some (n1, f1, n2, f2) => [(n1, f1); (n2, f2)]
         | None => []
         end
       else []) es.

(** Every allocated block has its six surfaces. *)
Definition six_surfaces (m : Mapping3D.t) : Prop :=
  forall n b, nth_error (Mapping3D.m_blk m) n = Some (Some b) ->
              length (Block3D.m_surf b) = 6%nat.

(** Scenario 5 of the specification: two entries claim surface 2 of
    block 1. *)
Definition nmf_surface_named_twice : string :=
  text ["3";
        "1 2 2 2";
        "2 2 2 2";
        "3 2 2 2";
        "ONE_TO_ONE 1 2 1 2 1 2 2 1 1 2 1 2 FALSE";
        "ONE_TO_ONE 1 2 1 2 1 2 3 1 1 2 1 2 FALSE"].

(** Scenario 6 of the specification: 2 x 3 quads on block 1 against 3 x 3
    quads on block 2. *)
Definition nmf_area_mismatch : string :=
  text ["2";
        "1 2 3 4";
        "2 2 4 4";
        "ONE_TO_ONE 1 2 1 3 1 4 2 1 1 4 1 4 FALSE"].

(** Two dimension lines carry the block id 1; no line carries 2. *)
Definition nmf_duplicate_block_id : string :=
  text ["2";
        "1 2 2 2";
        "1 3 3 3";
        "WALL 1 1 1 3 1 3"].

(** A block of 100000 x 2 x 2 nodes with a wall over its whole J-MIN
    surface. *)
Definition nmf_long_block : string :=
  text ["1";
        "1 100000 2 2";
        "WALL 1 3 1 100000 1 2"].

(** The text [writeToFile] produces for a model. *)
Definition emit (m : Mapping3D.t) : option string :=
  match Mapping3D.writeToFile m "out.nmf" (one_file "in.nmf" "") with
  | Normal _ fs => fs_file fs "out.nmf"
  | _ => None
  end.

(** Parse, write, parse again. *)
Definition reparse (content : string) : option Mapping3D.t :=
  match parse content with
  | Some m => match emit m with Some t => parse t | None => None end
  | None => None
  end.

(** The dimensions in the slots of a model. *)
Definition slot_dims (m : Mapping3D.t) : list (option (Z * Z * Z)) :=
  map (option_map (fun b => (Block3D.IDIM b, Block3D.JDIM b, Block3D.KDIM b)))
      (Mapping3D.m_blk m).

(** The face ids recorded in the cells of a model. *)
Definition face_ids (m : Mapping3D.t) : list (list Z) :=
  flat_map (fun b => map CELL.m_face (Block3D.m_cell b)) (blocks m).

(** Two entries that designate the same blocks and faces, whatever their
    extents and swap flags. *)
Definition same_surfaces (e e' : ENTRY.t) : Prop :=
  match e, e' with
  | ENTRY.DoubleSideEntry bc r1 r2 _, ENTRY.DoubleSideEntry bc' r1' r2' _ =>
      bc = bc' /\ RANGE.B r1 = RANGE.B r1' /\ RANGE.F r1 = RANGE.F r1'
      /\ RANGE.B r2 = RANGE.B r2' /\ RANGE.F r2 = RANGE.F r2'
  | ENTRY.SingleSideEntry bc _, ENTRY.SingleSideEntry bc' _ => bc = bc'
  | _, _ => False
  end.

(** ** The visits of the face pass *)

(** One turn of one of the nine face loops on a block: the cell whose
    face is recorded, the cell on the other side for an internal face, the
    local face of the cell, the surface of the block for a surface face,
    and the four local nodes in the order they are copied. *)
Record visit : Type := mkvisit {
  v_block : Block3D.t;
  v_cur : Z * Z * Z;
  v_adj : option (Z * Z * Z);
  v_face : Z;
  v_surf : Z;
  v_nodes : list Z
}.

Definition cell_at (b : Block3D.t) (p : Z * Z * Z) : exn + CELL.t :=
  let '(i, j, k) := p in Block3D.cell b i j k.

(** What the body of the loop does on a visit. *)
Definition visit_step (v : visit) : M MESH.t unit :=
  let n := fun r => nth r (v_nodes v) 0 in
  curCell <- lift (cell_at (v_block v) (v_cur v)) ;;
  match v_adj v with
  | Some a =>
      adjCell <- lift (cell_at (v_block v) a) ;;
      MESH.internal_face curCell adjCell (v_face v) (n 0%nat) (n 1%nat)
                         (n 2%nat) (n 3%nat)
  | None =>
      MESH.surface_face (v_block v) curCell (v_face v) (v_surf v)
                        (n 0%nat) (n 1%nat) (n 2%nat) (n 3%nat)
  end.

(** The direction of a face, numbered as the surface it is parallel to on
    the low side: 1 for I, 3 for J, 5 for K. *)
Definition internal_visit (b : Block3D.t) (d i j k : Z) : visit :=
  if d =? 1 then
    mkvisit b (i, j, k) (Some (wrap (i - 1), j, k)) 1 0 [1; 5; 8; 4]
  else if d =? 3 then
    mkvisit b (i, j, k) (Some (i, wrap (j - 1), k)) 3 0 [6; 5; 1; 2]
  else
    mkvisit b (i, j, k) (Some (i, j, wrap (k - 1))) 5 0 [4; 3; 2; 1].

(** The node ordering of the faces of surface [s] (1..6), in the local
    numbering of the cell behind the face. *)
Definition surface_nodes (s : Z) : list Z :=
  if s =? 1 then [1; 5; 8; 4]
  else if s =? 2 then [2; 3; 7; 6]
  else if s =? 3 then [6; 5; 1; 2]
  else if s =? 4 then [3; 4; 8; 7]
  else if s =? 5 then [4; 3; 2; 1]
  else [8; 5; 6; 7].

Definition surface_visit (b : Block3D.t) (s i j k : Z) : visit :=
  mkvisit b (i, j, k) None s s (surface_nodes s).

(** The visits of the nine loops on a block, in the order of the loops. *)
Definition visits_of_block (b : Block3D.t) : list visit :=
  let nI := Block3D.IDIM b in
  let nJ := Block3D.JDIM b in
  let nK := Block3D.KDIM b in
  flat_map (fun k => flat_map (fun j =>
     map (fun i => internal_visit b 1 i j k) (range 2 nI))
     (range 1 nJ)) (range 1 nK)
  ++ flat_map (fun k => flat_map (fun i =>
       map (fun j => internal_visit b 3 i j k) (range 2 nJ))
       (range 1 nI)) (range 1 nK)
  ++ flat_map (fun i => flat_map (fun j =>
       map (fun k => internal_visit b 5 i j k) (range 2 nK))
       (range 1 nJ)) (range 1 nI)
  ++ flat_map (fun k =>
       map (fun j => surface_visit b 1 1 j k) (range 1 nJ)) (range 1 nK)
  ++ flat_map (fun k =>
       map (fun j => surface_visit b 2 (wrap (nI - 1)) j k) (range 1 nJ))
       (range 1 nK)
  ++ flat_map (fun k =>
       map (fun i => surface_visit b 3 i 1 k) (range 1 nI)) (range 1 nK)
  ++ flat_map (fun k =>
       map (fun i => surface_visit b 4 i (wrap (nJ - 1)) k) (range 1 nI))
       (range 1 nK)
  ++ flat_map (fun i =>
       map (fun j => surface_visit b 5 i j 1) (range 1 nJ)) (range 1 nI)
  ++ flat_map (fun i =>
       map (fun j => surface_visit b 6 i j (wrap (nK - 1))) (range 1 nJ))
       (range 1 nI).

(** The visits of the whole pass. *)
Definition visits (blocks : list Block3D.t) : list visit :=
  flat_map visits_of_block blocks.

(** The global id of the face a visit records, when the lookups succeed. *)
Definition face_index (v : visit) : option Z :=
  match cell_at (v_block v) (v_cur v) with
  | inr c =>
      match CELL.FaceSeq c (v_face v) with
      | inr f => Some f
      | inl _ => None
      end
  | inl _ => None
  end.

(** The record of the face of global id [f]. *)
Definition face_of (s : MESH.t) (f : Z) : option FACE.t :=
  if f <=? 0 then None else nth_error (MESH.m_face s) (Z.to_nat (f - 1)).

(** The four node ids of a cell at the given local positions. *)
Definition nodes_of (c : CELL.t) (ns : list Z) : list (exn + Z) :=
  map (CELL.NodeSeq c) ns.

(** The state in which the sweep of the blocks starts. *)
Definition cleared (s : MESH.t) : MESH.t :=
  MESH.mk (MESH.m_face s) (repeat false (length (MESH.m_face s))).

(** Whether the flag [visited] of the face of global id [f] is set. *)
Definition seen (s : MESH.t) (f : Z) : bool :=
  (0 <? f) && nth (Z.to_nat (f - 1)) (MESH.visited s) false.

(** Whether visit [u] records the face of global id [f]. *)
Definition on_face (f : Z) (u : visit) : bool :=
  match face_index u with
  | Some g => g =? f
  | None => false
  end.

(** No visit of [us] records the face that [v] records. *)
Definition no_visit_of (v : visit) (us : list visit) : bool :=
  match face_index v with
  | Some f => forallb (fun u => negb (on_face f u)) us
  | None => false
  end.

(** No visit of [us] from one of the three loops on internal faces records
    the face that [v] records. *)
Definition no_internal_visit_of (v : visit) (us : list visit) : bool :=
  match face_index v with
  | Some f =>
      forallb (fun u => negb (on_face f u)
                        || match v_adj u with None => true | Some _ => false end)
              us
  | None => false
  end.

(** The face-node-ordering table, by surface: 1 I-MIN, 2 I-MAX, 3 J-MIN,
    4 J-MAX, 5 K-MIN, 6 K-MAX. *)
Definition ordering (s : Z) : list Z :=
  match s with
  | 1 => [1; 5; 8; 4]
  | 2 => [2; 3; 7; 6]
  | 3 => [6; 5; 1; 2]
  | 4 => [3; 4; 8; 7]
  | 5 => [4; 3; 2; 1]
  | 6 => [8; 5; 6; 7]
  | _ => []
  end.

(** The face that cell [cur] of block [b] has on its local side [fs] is
    recorded in [st] as an internal face between [adj] on the left and
    [cur] on the right, with the nodes of [cur] at the local positions
    [ns], in this order. *)
Definition internal_face_recorded (st : MESH.t) (b : Block3D.t)
           (cur adj : Z * Z * Z) (fs : Z) (ns : list Z) : Prop :=
  exists c a f l,
    cell_at b cur = inr c /\ cell_at b adj = inr a /\
    CELL.FaceSeq c fs = inr f /\ nodes_of c ns = map inr l /\
    face_of st f
    = Some (FACE.mk false FACE.QUADRILATERAL l
                    (CELL.CellSeq a) (CELL.CellSeq c)).

(** The face that cell [cur] of block [b] has on surface [s] is recorded
    in [st] with the nodes of [cur] at the local positions [ns], [cur] as
    right cell and [left] as left cell; it is a boundary face when the
    surface has no neighbour. *)
Definition surface_face_recorded (st : MESH.t) (b : Block3D.t)
           (cur : Z * Z * Z) (s : Z) (ns : list Z) (left : Z) : Prop :=
  exists c f l sf,
    cell_at b cur = inr c /\ CELL.FaceSeq c s = inr f /\
    nodes_of c ns = map inr l /\ Block3D.surf b s = inr sf /\
    face_of st f
    = Some (FACE.mk (match SURF.neighbourSurf sf with
                     | None => true
                     | Some _ => false
                     end)
                    FACE.QUADRILATERAL l left (CELL.CellSeq c)).

(** The id of cell [cur] of block [b] is not 0. *)
Definition cell_numbered (b : Block3D.t) (cur : Z * Z * Z) : bool :=
  match cell_at b cur with
  | inr c => negb (CELL.CellSeq c =? 0)
  | inl _ => false
  end.

(** The pass up to and including the visit [v] that follows [pre]. *)
Definition pass_until (pre : list visit) (v : visit) : M MESH.t unit :=
  for_each (pre ++ [v]) visit_step.

(** The cells that have an internal face in direction [d] (1 for I, 3 for
    J, 5 for K) on their low side: the coordinate of the direction starts
    at 2, the two others at 1, all end at the last cell. *)
Definition has_internal_face (b : Block3D.t) (d i j k : Z) : Prop :=
  (d = 1 \/ d = 3 \/ d = 5)
  /\ (if d =? 1 then 2 else 1) <= i <= Block3D.IDIM b - 1
  /\ (if d =? 3 then 2 else 1) <= j <= Block3D.JDIM b - 1
  /\ (if d =? 5 then 2 else 1) <= k <= Block3D.KDIM b - 1.

(** What a state [s'] keeps of [s] away from face [f]. *)
Definition same_elsewhere (f : Z) (s s' : MESH.t) : Prop :=
  forall g, g <> f -> face_of s' g = face_of s g /\ seen s' g = seen s g.

(** The four local nodes a visit copies. *)
Definition copied (v : visit) : list Z :=
  [nth 0 (v_nodes v) 0; nth 1 (v_nodes v) 0;
   nth 2 (v_nodes v) 0; nth 3 (v_nodes v) 0].


(** A block of two cells side by side in I, with its cells, nodes and
    faces numbered by hand: the cells are 1 and 2, the face they share is
    face 2. *)
Definition slab : Block3D.t :=
  match Block3D.new 1 3 2 2 with
  | inr b =>
      Block3D.set_m_cell
        [CELL.mk 1 [1; 2; 5; 4; 7; 8; 11; 10] [1; 2; 3; 4; 5; 6];
         CELL.mk 2 [2; 3; 6; 5; 8; 9; 12; 11] [2; 7; 8; 9; 10; 11]] b
  | inl _ => Block3D.mk (BLOCK.mk true 3 0 3 2 2) [] [] []
  end.

(** The eleven faces of [slab] before and after the pass. *)
Definition slab_faces : MESH.t :=
  MESH.mk (repeat (FACE.mk false FACE.UNSET [] 0 0) 11) [].

Definition slab_assembled : MESH.t :=
  match MESH.copy_face_info [slab] slab_faces with
  | Normal _ s => s
  | _ => slab_faces
  end.
(* ------------------------------------------------------------------ *)
(** ** Vocabulary of the further properties *)

(** What [str_formalize] does to one character. *)
Definition formalize_char (c : ascii) : ascii :=
  (fun e => if Ascii.eqb e "-" then "_"%char else e) (Cstr.toupper c).

(** The six fields of a range are values of a [size_t]. *)
Definition size_t_range (r : RANGE.t) : bool :=
  List.forallb (fun x => (0 <=? x) && (x <=? SIZE_MAX))
    [RANGE.B r; RANGE.F r; RANGE.S1 r; RANGE.E1 r; RANGE.S2 r; RANGE.E2 r].

(** An entry as the parser builds it: its type is one of the thirteen
    boundary conditions, it is double-sided exactly when the type is
    [ONE_TO_ONE], and the fields of its ranges are values of a [size_t]. *)
Definition entry_ok (e : ENTRY.t) : bool :=
  BC.isValidBCIdx (ENTRY.Type_ e)
  && match e with
     | ENTRY.SingleSideEntry bc r =>
         negb (bc =? BC.ONE_TO_ONE) && size_t_range r
     | ENTRY.DoubleSideEntry bc r1 r2 _ =>
         (bc =? BC.ONE_TO_ONE) && size_t_range r1 && size_t_range r2
     end.

(** The number of blocks a file declares: the number on its first line
    that is neither blank nor a comment. *)
Definition declared_blocks (content : string) : option Z :=
  match Mapping3D.skip (Cstr.split_lines content) "" with
  | Some (s, _) =>
      match regex_match_pattern1 s with
      | Some r1 => match stoi r1 with inr n => Some n | inl _ => None end
      | None => None
      end
  | None => None
  end.

(** A block of one cell at address [this], numbered by hand: its cell is
    [c] and its surface [s] (1..6), when [s] is not 0, has the neighbour
    [nb]. *)
Definition cube_with (this : Z) (c : CELL.t) (s : Z) (nb : ptr) : Block3D.t :=
  match Block3D.new this 2 2 2 with
  | inr b =>
      Block3D.set_m_surf
        (if s =? 0 then Block3D.m_surf b
         else upd_nth (Z.to_nat (s - 1)) (SURF.set_neighbourSurf (Some nb))
                      (Block3D.m_surf b))
        (Block3D.set_m_cell [c] b)
  | inl _ => Block3D.mk (BLOCK.mk true 3 0 2 2 2) [] [] []
  end.

(** Two cubes glued on the I-MAX surface of the first and the I-MIN
    surface of the second: the face they share is face 2. *)
Definition glued_cubes : list Block3D.t :=
  [cube_with 1 (CELL.mk 1 [1; 2; 5; 4; 7; 8; 11; 10] [1; 2; 3; 4; 5; 6])
             2 (mkptr 2 0);
   cube_with 2 (CELL.mk 2 [2; 3; 6; 5; 8; 9; 12; 11] [2; 7; 8; 9; 10; 11])
             1 (mkptr 1 1)].

(** A cube whose cell carries the same id, 1, for its I-MIN and its I-MAX
    face. *)
Definition cube_face_twice : list Block3D.t :=
  [cube_with 1 (CELL.mk 1 [1; 2; 5; 4; 7; 8; 11; 10] [1; 1; 3; 4; 5; 6])
             0 (mkptr 0 0)].

(** Two glued cubes, the second of which carries the id of the shared
    face, 2, for its I-MAX face as well. *)
Definition glued_face_thrice : list Block3D.t :=
  [cube_with 1 (CELL.mk 1 [1; 2; 5; 4; 7; 8; 11; 10] [1; 2; 3; 4; 5; 6])
             2 (mkptr 2 0);
   cube_with 2 (CELL.mk 2 [2; 3; 6; 5; 8; 9; 12; 11] [2; 2; 8; 9; 10; 11])
             1 (mkptr 1 1)].

(** The state a run ends in, or the given state when it does not end. *)
Definition state_after {S A} (r : result S A) (d : S) : S :=
  match final_state r with Some s => s | None => d end.

(** ** The file [writeToFile] writes *)

(** What [f_out << std::setw(w) << std::right << n] writes. *)
Definition field (w : nat) (n : Z) : string :=
  Cstr.setw_right w (Cstr.to_string n).

(** The line of the block in slot [i] (0-based). *)
Definition block_line (i : nat) (b : Block3D.t) : string :=
  (field 8 (Z.of_nat i + 1) ++ field 8 (Block3D.IDIM b)
   ++ field 8 (Block3D.JDIM b) ++ field 8 (Block3D.KDIM b))%string.

Fixpoint block_lines (i : nat) (bs : list Block3D.t) : list string :=
  match bs with
  | [] => []
  | b :: r => block_line i b :: block_lines (S i) r
  end.

(** The columns of the first and of the second range of an entry. *)
Definition range_head (r : RANGE.t) : string :=
  (field 6 (RANGE.B r) ++ field 6 (RANGE.F r) ++ field 9 (RANGE.S1 r)
   ++ field 6 (RANGE.E1 r) ++ field 9 (RANGE.S2 r)
   ++ field 6 (RANGE.E2 r))%string.

Definition range_tail (r : RANGE.t) : string :=
  (field 9 (RANGE.B r) ++ field 6 (RANGE.F r) ++ field 9 (RANGE.S1 r)
   ++ field 6 (RANGE.E1 r) ++ field 9 (RANGE.S2 r)
   ++ field 6 (RANGE.E2 r))%string.

(** The name [idx2str] gives, empty when it gives none. *)
Definition bc_name (x : Z) : string :=
  match BC.idx2str x with inr s => s | inl _ => "" end.

(** The line of an entry. *)
Definition entry_line (e : ENTRY.t) : string :=
  (Cstr.setw_left 13 (bc_name (ENTRY.Type_ e))
   ++ range_head (ENTRY.Range1 e)
   ++ match e with
      | ENTRY.DoubleSideEntry _ _ r2 sw =>
          range_tail r2
          ++ Cstr.setw_right 10 (if sw then "TRUE" else "FALSE")
      | ENTRY.SingleSideEntry _ _ => ""
      end)%string.

Definition header_lines : list string :=
  ["# ======================== Neutral Map File generated by the Grid-Glue software ==============================";
   "# ============================================================================================================";
   "# Block#    IDIM    JDIM    KDIM";
   "# ------------------------------------------------------------------------------------------------------------"].

Definition separator_lines : list string :=
  ["# ============================================================================================================";
   "# Type           B1    F1       S1    E1       S2    E2       B2    F2       S1    E1       S2    E2      Swap";
   "# ------------------------------------------------------------------------------------------------------------"].

(** The lines of the file, in order. *)
Definition file_lines (m : Mapping3D.t) : list string :=
  header_lines ++ [field 8 (Mapping3D.nBlk m)]
  ++ block_lines 0 (blocks m)
  ++ separator_lines ++ map entry_line (Mapping3D.m_entry m).

(** A number that takes fewer than [w] characters: in a column of width
    [w] it is set off from what precedes by a blank. *)
Definition narrow (w : nat) (n : Z) : bool :=
  (0 <=? n) && (n <? 10 ^ Z.of_nat (w - 1)).

(** The dimensions of a block are at least 2 and narrower than their
    columns. *)
Definition block_fits (b : Block3D.t) : bool :=
  (2 <=? Block3D.IDIM b) && narrow 8 (Block3D.IDIM b)
  && (2 <=? Block3D.JDIM b) && narrow 8 (Block3D.JDIM b)
  && (2 <=? Block3D.KDIM b) && narrow 8 (Block3D.KDIM b).

(** The fields of an entry are narrower than their columns; the first
    one, which follows the name, need not be. *)
Definition range_head_fits (r : RANGE.t) : bool :=
  narrow 6 (RANGE.F r) && narrow 9 (RANGE.S1 r) && narrow 6 (RANGE.E1 r)
  && narrow 9 (RANGE.S2 r) && narrow 6 (RANGE.E2 r).

Definition range_tail_fits (r : RANGE.t) : bool :=
  narrow 9 (RANGE.B r) && narrow 6 (RANGE.F r) && narrow 9 (RANGE.S1 r)
  && narrow 6 (RANGE.E1 r) && narrow 9 (RANGE.S2 r) && narrow 6 (RANGE.E2 r).

Definition entry_fits (e : ENTRY.t) : bool :=
  match e with
  | ENTRY.SingleSideEntry _ r => range_head_fits r
  | ENTRY.DoubleSideEntry _ r1 r2 _ => range_head_fits r1 && range_tail_fits r2
  end.

(** A model [writeToFile] can write and [readFromFile] can read back: its
    slots are allocated, and it has the shape of a parsed model, with
    every number narrower than the column it is written in. *)
Definition round_trips (m : Mapping3D.t) : Prop :=
  allocated m
  /\ 1 <= Mapping3D.nBlk m <= INT_MAX
  /\ List.forallb block_fits (blocks m) = true
  /\ Mapping3D.m_entry m <> []
  /\ List.forallb entry_ok (Mapping3D.m_entry m) = true
  /\ List.forallb entry_fits (Mapping3D.m_entry m) = true
  /\ forall e, In e (Mapping3D.m_entry m) ->
               ENTRY.Type_ e = BC.ONE_TO_ONE ->
               designated (Mapping3D.nBlk m) e <> None.

(** A property of characters that blanks and digits have. *)
Definition blank_or_digit_ok (p : ascii -> bool) : Prop :=
  p " "%char = true /\ forall c, Cstr.isdigit c = true -> p c = true.

(** A character of a line. *)
Definition not_newline (c : ascii) : bool := negb (Ascii.eqb c "010").


(** The first character of [s], if any, fails [p]. *)
Definition stops (p : ascii -> bool) (s : string) : Prop :=
  match s with EmptyString => True | String c _ => p c = false end.

(** A sequence of numbers, each in its column. *)
Fixpoint fields (l : list (nat * Z)) : string :=
  match l with
  | [] => ""
  | (w, n) :: r => (field w n ++ fields r)%string
  end.

(** The columns of the two ranges. *)
Definition head_columns (r : RANGE.t) : list (nat * Z) :=
  [(6%nat, RANGE.B r); (6%nat, RANGE.F r); (9%nat, RANGE.S1 r);
   (6%nat, RANGE.E1 r); (9%nat, RANGE.S2 r); (6%nat, RANGE.E2 r)].

Definition tail_columns (r : RANGE.t) : list (nat * Z) :=
  [(9%nat, RANGE.B r); (6%nat, RANGE.F r); (9%nat, RANGE.S1 r);
   (6%nat, RANGE.E1 r); (9%nat, RANGE.S2 r); (6%nat, RANGE.E2 r)].

(** A character that [str_formalize] leaves as it is. *)
Definition fixed (c : ascii) : bool := Ascii.eqb (formalize_char c) c.

(** The block [readFromFile] builds in slot [i] from the line of [b]. *)
Definition rebuilt (i : nat) (b : Block3D.t) : Block3D.t :=
  match Block3D.new (Z.of_nat i + 1) (Block3D.IDIM b) (Block3D.JDIM b)
                    (Block3D.KDIM b) with
  | inr b' => Block3D.set_index (wrap (Z.of_nat i + 1)) b'
  | inl _ => b
  end.

Fixpoint rebuild (i : nat) (bs : list Block3D.t) : list Block3D.t :=
  match bs with
  | [] => []
  | b :: r => rebuilt i b :: rebuild (S i) r
  end.

(** ** The colours [coloring()] gives *)

(** The edges numbered from [c + 1] on, in the order of their storage. *)
Fixpoint number_edges (c : Z) (es : list EDGE.t) : list EDGE.t :=
  match es with
  | [] => []
  | e :: r => EDGE.set_global_index (c + 1) e :: number_edges (c + 1) r
  end.

(** The blocks with their edges numbered, twelve to a block, from [c + 1]
    on in the order of the slots. *)
Fixpoint colour_blocks (c : Z) (bs : list (option Block3D.t))
  : list (option Block3D.t) :=
  match bs with
  | [] => []
  | o :: r =>
      option_map (fun b => Block3D.set_m_edge
                             (number_edges c (Block3D.m_edge b)) b) o
      :: colour_blocks (c + 12) r
  end.

(** The model with edge [j] of block [i] (both 1-based) coloured
    [12 * (i - 1) + j], and nothing else changed. *)
Definition coloured (m : Mapping3D.t) : Mapping3D.t :=
  Mapping3D.set_m_blk (colour_blocks 0 (Mapping3D.m_blk m)) m.

(** The colours of the edges of a model, block after block. *)
Definition edge_colours (m : Mapping3D.t) : list (list Z) :=
  map (fun b => map EDGE.global_index (Block3D.m_edge b)) (blocks m).

(** The edges of a block in the slot [n] of [m] replaced by [es]. *)
Definition with_edges (n : nat) (es : list EDGE.t) (m : Mapping3D.t)
  : Mapping3D.t :=
  Mapping3D.set_m_blk
    (upd_nth n (option_map (Block3D.set_m_edge es)) (Mapping3D.m_blk m)) m.

(** ** The points of a range *)

(** The points [(pri, sec)] with [pri < n1] and [sec < n2] that
    [constains] accepts. *)
Definition range_points (r : RANGE.t) (n1 n2 : nat) : list (Z * Z) :=
  filter (fun x => RANGE.constains r (fst x) (snd x))
         (list_prod (zseq 0 n1) (zseq 0 n2)).

(** ** Comments and blank lines in a file *)

(** The lines of a file that describes [m]: the lines [cs1], the number
    of blocks, the lines of the blocks, the lines [cs2], the lines of the
    entries, and the lines [tail]. *)
Definition lines_with (cs1 cs2 : list string) (m : Mapping3D.t)
    (tail : list string) : list string :=
  cs1 ++ field 8 (Mapping3D.nBlk m)
  :: block_lines 0 (blocks m) ++ cs2
     ++ map entry_line (Mapping3D.m_entry m) ++ tail.

(** No line holds a newline. *)
Definition lines_ok (ls : list string) : Prop :=
  Forall (fun l => Cstr.forallb not_newline l = true) ls.

(** The line of a block with the index [idx] and the dimensions [nI],
    [nJ] and [nK], in columns as [writeToFile] sets them. *)
Definition dims_line (idx nI nJ nK : Z) : string :=
  (field 8 idx ++ field 8 nI ++ field 8 nJ ++ field 8 nK)%string.
(* ------------------------------------------------------------------ *)
(** ** Generic facts on lists and on the monad *)

Lemma nth_error_upd_nth_eq {A} (f : A -> A) (v : list A) (n : nat) :
  nth_error (upd_nth n f v) n = option_map f (nth_error v n).
Proof.
  revert n; induction v as [|a v IH]; intros [|n]; simpl; auto.
Qed.

Lemma nth_error_upd_nth_neq {A} (f : A -> A) (v : list A) (n k : nat) :
  n <> k -> nth_error (upd_nth n f v) k = nth_error v k.
Proof.
  revert n k; induction v as [|a v IH]; intros [|n] [|k] H; simpl; auto;
    try contradiction.
Qed.

Lemma length_upd_nth {A} (f : A -> A) (v : list A) (n : nat) :
  length (upd_nth n f v) = length v.
Proof.
  revert n; induction v as [|a v IH]; intros [|n]; simpl; auto.
Qed.

Lemma nth_error_set_nth_eq {A} (x : A) (v : list A) (n : nat) :
  (n < length v)%nat -> nth_error (set_nth n x v) n = Some x.
Proof.
  revert n; induction v as [|a v IH]; intros [|n] H; simpl in *;
    try lia; auto.
  apply IH; lia.
Qed.

Lemma nth_error_set_nth_neq {A} (x : A) (v : list A) (n k : nat) :
  n <> k -> nth_error (set_nth n x v) k = nth_error v k.
Proof.
  revert n k; induction v as [|a v IH]; intros [|n] [|k] H; simpl; auto;
    try contradiction.
Qed.

Lemma length_set_nth {A} (x : A) (v : list A) (n : nat) :
  length (set_nth n x v) = length v.
Proof.
  revert n; induction v as [|a v IH]; intros [|n]; simpl; auto.
Qed.

Lemma map_upd_nth_same {A B} (g : A -> B) (f : A -> A) (v : list A) n :
  (forall a, g (f a) = g a) -> map g (upd_nth n f v) = map g v.
Proof.
  intros H; revert n; induction v as [|a v IH]; intros [|n]; simpl;
    rewrite ?H, ?IH; auto.
Qed.

Lemma preserves_ret {S A} (P : S -> Prop) (a : A) : preserves P (ret a).
Proof. intros s H; exact H. Qed.

Lemma preserves_throw {S A} (P : S -> Prop) e : preserves P (@throw S A e).
Proof. intros s H; exact H. Qed.

Lemma preserves_lift {S A} (P : S -> Prop) (r : exn + A) :
  preserves P (@lift S A r).
Proof. destruct r; intros s H; exact H. Qed.

Lemma preserves_undefined {S A} (P : S -> Prop) :
  preserves P (@undefined S A).
Proof. intros s H; exact I. Qed.

Lemma preserves_get {S} (P : S -> Prop) : preserves P (@get_state S).
Proof. intros s H; exact H. Qed.

Lemma preserves_modify {S} (P : S -> Prop) (f : S -> S) :
  (forall s, P s -> P (f s)) -> preserves P (modify f).
Proof. intros Hf s H; apply Hf, H. Qed.

Lemma preserves_bind {S A B} (P : S -> Prop) (m : M S A) (f : A -> M S B) :
  preserves P m -> (forall a, preserves P (f a)) -> preserves P (bind m f).
Proof.
  intros Hm Hf s H. unfold bind. specialize (Hm s H).
  destruct (m s); auto. apply Hf, Hm.
Qed.

Lemma preserves_for_each {S X} (P : S -> Prop) (xs : list X)
      (body : X -> M S unit) :
  (forall x, preserves P (body x)) -> preserves P (for_each xs body).
Proof.
  intros Hb; induction xs as [|x xs IH]; simpl.
  - apply preserves_ret.
  - apply preserves_bind; auto.
Qed.

Lemma preserves_foldM {S X A} (P : S -> Prop) (xs : list X) (a : A)
      (body : X -> A -> M S A) :
  (forall x a, preserves P (body x a)) -> preserves P (foldM xs a body).
Proof.
  intros Hb; revert a; induction xs as [|x xs IH]; intros a; simpl.
  - apply preserves_ret.
  - apply preserves_bind; auto.
Qed.

Lemma preserves_bind_lift {S A B} (P : S -> Prop) (r : exn + A)
      (f : A -> M S B) :
  (forall a, r = inr a -> preserves P (f a)) -> preserves P (bind (lift r) f).
Proof.
  intros Hf s H. unfold bind, lift. destruct r as [e|a]; simpl; auto.
  apply Hf; auto.
Qed.

Create HintDb pres.

#[local] Hint Resolve preserves_ret preserves_throw preserves_lift
  preserves_undefined preserves_get : pres.
(* ------------------------------------------------------------------ *)
(** ** The wiring of a block *)

Lemma surf_edges_view this b b' s :
  wiring_view b = wiring_view b' -> surf_edges this b s = surf_edges this b' s.
Proof.
  unfold wiring_view; intros H; injection H as Hs He.
  unfold surf_edges.
  assert (Hn : forall n, option_map SURF.includedEdge (nth_error (Block3D.m_surf b) n)
                 = option_map SURF.includedEdge (nth_error (Block3D.m_surf b') n)).
  { intros n.
    assert (H1 := f_equal (fun l => option_map snd (nth_error l n)) Hs).
    simpl in H1. rewrite !nth_error_map in H1.
    destruct (nth_error (Block3D.m_surf b) n), (nth_error (Block3D.m_surf b') n);
      simpl in *; congruence. }
  assert (Hd : forall p, option_map EDGE.local_index (deref_edge this b p)
                 = option_map EDGE.local_index (deref_edge this b' p)).
  { intros [p|]; simpl; auto. destruct (p_block p =? this); auto.
    assert (H1 := f_equal (fun l => option_map fst (nth_error l (Z.to_nat (p_pos p)))) He).
    simpl in H1. rewrite !nth_error_map in H1.
    destruct (nth_error (Block3D.m_edge b) _), (nth_error (Block3D.m_edge b') _);
      simpl in *; congruence. }
  specialize (Hn (Z.to_nat (s - 1))).
  destruct (nth_error (Block3D.m_surf b) _), (nth_error (Block3D.m_surf b') _);
    simpl in Hn; try congruence.
  injection Hn as Hn. rewrite Hn. apply map_ext; intros; apply Hd.
Qed.

Lemma edge_surfs_view this b b' e :
  wiring_view b = wiring_view b' -> edge_surfs this b e = edge_surfs this b' e.
Proof.
  unfold wiring_view; intros H; injection H as Hs He.
  unfold edge_surfs.
  assert (Hn : forall n, option_map EDGE.dependentSurf (nth_error (Block3D.m_edge b) n)
                 = option_map EDGE.dependentSurf (nth_error (Block3D.m_edge b') n)).
  { intros n.
    assert (H1 := f_equal (fun l => option_map snd (nth_error l n)) He).
    simpl in H1. rewrite !nth_error_map in H1.
    destruct (nth_error (Block3D.m_edge b) n), (nth_error (Block3D.m_edge b') n);
      simpl in *; congruence. }
  assert (Hd : forall p, option_map SURF.local_index (deref_surf this b p)
                 = option_map SURF.local_index (deref_surf this b' p)).
  { intros [p|]; simpl; auto. destruct (p_block p =? this); auto.
    assert (H1 := f_equal (fun l => option_map fst (nth_error l (Z.to_nat (p_pos p)))) Hs).
    simpl in H1. rewrite !nth_error_map in H1.
    destruct (nth_error (Block3D.m_surf b) _), (nth_error (Block3D.m_surf b') _);
      simpl in *; congruence. }
  specialize (Hn (Z.to_nat (e - 1))).
  destruct (nth_error (Block3D.m_edge b) _), (nth_error (Block3D.m_edge b') _);
    simpl in Hn; try congruence.
  injection Hn as Hn. rewrite Hn. apply map_ext; intros; apply Hd.
Qed.

Lemma wired_view this b b' :
  wiring_view b = wiring_view b' -> wired this b -> wired this b'.
Proof.
  intros H. unfold wired.
  rewrite !(@surf_edges_view this b b' _ H).
  intros [H1 H2]; split; auto.
  intros e He. destruct (H2 e He) as (s1 & s2 & Ha & Hb & Hc).
  exists s1, s2. rewrite <- (@edge_surfs_view this b b' e H).
  repeat split; auto.
  - rewrite <- (@surf_edges_view this b b' _ H). apply Hc; auto.
  - rewrite <- (@surf_edges_view this b b' _ H). apply Hc; auto.
Qed.

Lemma view_block_wired this : wired this (view_block this).
Proof.
  unfold wired, surf_edges, edge_surfs; simpl.
  unfold deref_edge, deref_surf; simpl. rewrite !Z.eqb_refl. simpl.
  split; [repeat split|].
  intros e He.
  assert (E : e = 1 \/ e = 2 \/ e = 3 \/ e = 4 \/ e = 5 \/ e = 6 \/ e = 7
              \/ e = 8 \/ e = 9 \/ e = 10 \/ e = 11 \/ e = 12) by lia.
  repeat (destruct E as [E|E]); subst e; simpl; rewrite ?Z.eqb_refl; simpl;
    (eexists; eexists; split; [reflexivity|]; split; [lia|]);
    intros s Hs;
    assert (Es : s = 1 \/ s = 2 \/ s = 3 \/ s = 4 \/ s = 5 \/ s = 6) by lia;
    repeat (destruct Es as [Es|Es]); subst s; simpl; rewrite ?Z.eqb_refl; simpl;
    (split; [intros H; repeat (destruct H as [H|H]; try discriminate H);
                lia || auto
            | intros [H|H]; try discriminate H; auto 10]).
Qed.

Lemma viewed_wired this b :
  wiring_view b = expected_view this -> wired this b.
Proof.
  intros H. apply (@wired_view this (view_block this) b).
  - rewrite H. reflexivity.
  - apply view_block_wired.
Qed.

Lemma new_view this nI nJ nK b :
  Block3D.new this nI nJ nK = inr b -> wiring_view b = expected_view this.
Proof.
  unfold Block3D.new. destruct (BLOCK.new nI nJ nK); [discriminate|].
  intros H; injection H as <-. reflexivity.
Qed.

Lemma set_cell_CellSeq_view b i j k v b' :
  Block3D.set_cell_CellSeq b i j k v = inr b' -> wiring_view b' = wiring_view b.
Proof.
  unfold Block3D.set_cell_CellSeq. destruct (Block3D.cell b i j k); [discriminate|].
  intros H; injection H as <-. reflexivity.
Qed.

Lemma index_cells_of_block_view v cnt :
  preserves (fun b => wiring_view b = v) (Mapping3D.index_cells_of_block cnt).
Proof.
  intros b Hb. unfold Mapping3D.index_cells_of_block.
  pose (P := fun b : Block3D.t => wiring_view b = v).
  change (match foldM (range 1 (Block3D.KDIM b)) cnt
                  (fun k cnt => foldM (range 1 (Block3D.JDIM b)) cnt
                     (fun j cnt => foldM (range 1 (Block3D.IDIM b)) cnt
                        (fun i cnt blk =>
                           match Block3D.set_cell_CellSeq blk i j k (wrap (cnt + 1)) with
                           | inl e => Raised e blk
                           | inr blk' => Normal (wrap (cnt + 1)) blk'
                           end))) b with
          | Normal _ s' => P s' | Raised _ s' => P s' | _ => True end).
  apply (preserves_foldM (P := P)); [|exact Hb].
  intros k c. apply preserves_foldM. intros j c'. apply preserves_foldM.
  intros i c'' blk Hblk.
  destruct (Block3D.set_cell_CellSeq blk i j k (wrap (c'' + 1))) eqn:E; auto.
  unfold P. rewrite (@set_cell_CellSeq_view _ _ _ _ _ _ E). exact Hblk.
Qed.

Lemma in_block_viewed {A} n (f : M Block3D.t A) :
  (forall v, preserves (fun b => wiring_view b = v) f) ->
  preserves all_viewed (Mapping3D.in_block n f).
Proof.
  intros Hf m Hm. unfold Mapping3D.in_block.
  destruct (nth_error (Mapping3D.m_blk m) n) as [[b|]|] eqn:E; auto.
  specialize (Hf _ b eq_refl).
  assert (Hn : (n < length (Mapping3D.m_blk m))%nat)
    by (apply nth_error_Some; congruence).
  assert (K : forall b', wiring_view b' = wiring_view b ->
            all_viewed (Mapping3D.set_m_blk
                          (set_nth n (Some b') (Mapping3D.m_blk m)) m)).
  { intros b' Hb' k bk Hk. simpl in Hk.
    destruct (Nat.eq_dec n k) as [->|Hnk].
    - rewrite nth_error_set_nth_eq in Hk by auto. injection Hk as <-.
      unfold viewed. rewrite Hb'. apply Hm; auto.
    - rewrite nth_error_set_nth_neq in Hk by auto. apply Hm; auto. }
  destruct (f b); auto.
Qed.

Lemma for_blocks_viewed {A} (a : A) (body : A -> M Block3D.t A) :
  (forall a v, preserves (fun b => wiring_view b = v) (body a)) ->
  preserves all_viewed (Mapping3D.for_blocks a body).
Proof.
  intros Hb m Hm. unfold Mapping3D.for_blocks.
  apply (preserves_foldM (P := all_viewed)); auto.
  intros n c. apply in_block_viewed. intros v; apply Hb.
Qed.

Lemma readonly_block_view {A} (g : Block3D.t -> A) v :
  preserves (fun b => wiring_view b = v) (fun b => Normal (g b) b).
Proof. intros b Hb; exact Hb. Qed.

Lemma nCell_viewed : preserves all_viewed Mapping3D.nCell.
Proof.
  apply for_blocks_viewed. intros a v b Hb; exact Hb.
Qed.

Lemma nFace_viewed : preserves all_viewed Mapping3D.nFace.
Proof.
  unfold Mapping3D.nFace. apply preserves_bind.
  - apply for_blocks_viewed. intros a v b Hb; exact Hb.
  - intros a. apply preserves_bind; auto with pres.
    intros m. apply preserves_foldM. intros e r.
    destruct (ENTRY.Type_ e =? BC.ONE_TO_ONE); auto with pres.
Qed.

Lemma numbering_viewed : preserves all_viewed Mapping3D.numbering.
Proof.
  unfold Mapping3D.numbering.
  apply preserves_bind.
  { apply for_blocks_viewed. intros; apply index_cells_of_block_view. }
  intros cnt. apply preserves_bind; [apply nCell_viewed|].
  intros total. destruct (negb (cnt =? total)); auto with pres.
  apply preserves_bind.
  { apply for_blocks_viewed. intros a v b Hb; exact Hb. }
  intros cnt'. apply preserves_bind; [apply nFace_viewed|].
  intros tf. destruct (negb (cnt' =? tf)); auto with pres.
Qed.


(* ------------------------------------------------------------------ *)
(** ** Invariants of the blocks through [readFromFile] *)

Section ParsedBlocks.

(** A property of the block at an address that the constructor
establishes and that pairing surfaces does not disturb. *)
Variable Q : Z -> Block3D.t -> Prop.

Hypothesis Q_new : forall idx i j k b,
1 <= idx <= INT_MAX -> 1 <= i <= INT_MAX -> 1 <= j <= INT_MAX ->
1 <= k <= INT_MAX ->
Block3D.new idx i j k = inr b -> Q idx (Block3D.set_index (wrap idx) b).

Hypothesis Q_neighbour : forall this b f v,
Q this b ->
Q this (Block3D.set_m_surf
(upd_nth f (SURF.set_neighbourSurf v) (Block3D.m_surf b)) b).

Lemma set_neighbourSurf_all n f v m :
all_blocks Q m -> all_blocks Q (Mapping3D.set_neighbourSurf n f v m).
Proof.
intros Hm k bk Hk. unfold Mapping3D.set_neighbourSurf in Hk. simpl in Hk.
destruct (Nat.eq_dec (Z.to_nat n) k) as [<-|Hnk].
- rewrite nth_error_upd_nth_eq in Hk.
destruct (nth_error (Mapping3D.m_blk m) (Z.to_nat n)) as [[b|]|] eqn:E;
simpl in Hk; try discriminate.
injection Hk as <-. apply Q_neighbour. apply Hm; auto.
- rewrite nth_error_upd_nth_neq in Hk by auto. apply Hm; auto.
Qed.

Lemma lookup_surfaces_all e :
preserves (all_blocks Q) (Mapping3D.lookup_surfaces e).
Proof.
unfold Mapping3D.lookup_surfaces. destruct e; auto with pres.
apply preserves_bind; auto with pres. intros m.
apply preserves_bind; auto with pres. intros n1.
apply preserves_bind; auto with pres. intros n2.
destruct (nth_error _ _) as [[b1|]|]; auto with pres.
apply preserves_bind; auto with pres. intros f1.
destruct (nth_error _ _) as [[b2|]|]; auto with pres.
apply preserves_bind; auto with pres.
Qed.

Lemma connect_all e : preserves (all_blocks Q) (Mapping3D.connect e).
Proof.
unfold Mapping3D.connect.
destruct (ENTRY.Type_ e =? BC.ONE_TO_ONE); auto with pres.
apply preserves_bind; [apply lookup_surfaces_all|].
intros [[[n1 f1] n2] f2].
apply preserves_bind; intros; apply preserves_modify;
intros; apply set_neighbourSurf_all; auto.
Qed.

Lemma counterpart_all e : preserves (all_blocks Q) (Mapping3D.counterpart e).
Proof.
unfold Mapping3D.counterpart.
destruct (ENTRY.Type_ e =? BC.ONE_TO_ONE); auto with pres.
apply preserves_bind; [apply lookup_surfaces_all|]. auto with pres.
Qed.

Lemma read_entry_all s ss :
preserves (all_blocks Q) (Mapping3D.read_entry s ss).
Proof.
unfold Mapping3D.read_entry.
destruct (ss_get_string _ _) as [ss1 bc_str].
apply preserves_bind; auto with pres. intros bc.
destruct (bc =? BC.ONE_TO_ONE).
- destruct (ss_get_size_ts 6 ss1) as [ss2 c0].
destruct (ss_get_size_ts 6 ss2) as [ss3 c1].
destruct (ss_get_string ss3 "") as [ss4 swp].
apply preserves_bind; auto with pres. intros p.
apply preserves_bind; auto with pres.
apply preserves_modify. intros m Hm; exact Hm.
- destruct (ss_get_size_ts 6 ss1) as [ss2 c0].
apply preserves_bind; auto with pres. intros p.
apply preserves_bind; auto with pres.
apply preserves_modify. intros m Hm; exact Hm.
Qed.

Lemma read_connections_all mfp s ss :
preserves (all_blocks Q) (Mapping3D.read_connections mfp s ss).
Proof.
revert s ss; induction mfp as [|x rest IH]; intros s ss; simpl.
- apply preserves_bind; [apply read_entry_all|]. auto with pres.
- apply preserves_bind; [apply read_entry_all|]. intros ss'.
destruct rest; [destruct (String.eqb x "")|]; auto with pres.
Qed.

Lemma stoi_bound s n : stoi s = inr n -> n <= INT_MAX.
Proof.
unfold stoi. destruct (Cstr.digits_value 0 s <=? INT_MAX) eqn:E;
[|discriminate].
intros H; injection H as <-. apply Z.leb_le; auto.
Qed.

Lemma read_block_all N s :
preserves (all_blocks Q) (Mapping3D.read_block N s).
Proof.
unfold Mapping3D.read_block.
destruct (regex_match_pattern2 s) as [[[[r1 r2] r3] r4]|]; auto with pres.
apply preserves_bind_lift. intros idx B1.
apply preserves_bind_lift. intros i_max B2.
apply preserves_bind_lift. intros j_max B3.
apply preserves_bind_lift. intros k_max B4.
apply stoi_bound in B1, B2, B3, B4.
destruct ((idx <? 1) || (idx >? N)) eqn:Hidx; auto with pres.
destruct (i_max <? 1) eqn:Hi; auto with pres.
destruct (j_max <? 1) eqn:Hj; auto with pres.
destruct (k_max <? 1) eqn:Hk; auto with pres.
intros m Hm. unfold bind, lift, ret, get_state, put_state, throw; simpl.
destruct (Array1D.index (Mapping3D.nBlk m) idx) as [e1|n] eqn:En;
simpl; auto.
destruct (Block3D.new idx i_max j_max k_max) as [e1|b] eqn:Eb; simpl; auto.
apply Z.ltb_ge in Hi, Hj, Hk.
assert (Hidx1 : 1 <= idx)
by (apply orb_false_iff in Hidx as [H1 _]; apply Z.ltb_ge in H1; lia).
intros k bk Hkk. simpl in Hkk.
unfold Array1D.index in En.
destruct ((1 <=? idx) && (idx <=? Mapping3D.nBlk m)) eqn:E1.
- injection En as <-.
destruct (Nat.eq_dec (Z.to_nat (idx - 1)) k) as [<-|Hnk].
+ destruct (nth_error (Mapping3D.m_blk m) (Z.to_nat (idx - 1))) eqn:E2.
* rewrite nth_error_set_nth_eq in Hkk
by (apply nth_error_Some; congruence).
injection Hkk as <-.
replace (Z.of_nat (Z.to_nat (idx - 1)) + 1) with idx by lia.
apply Q_new with (i := i_max) (j := j_max) (k := k_max); auto; lia.
* apply nth_error_None in E2.
assert (Hl := length_set_nth (Some (Block3D.set_index (wrap idx) b))
(Mapping3D.m_blk m) (Z.to_nat (idx - 1))).
assert (nth_error (set_nth (Z.to_nat (idx - 1))
(Some (Block3D.set_index (wrap idx) b)) (Mapping3D.m_blk m))
(Z.to_nat (idx - 1)) = None)
by (apply nth_error_None; lia).
congruence.
+ rewrite nth_error_set_nth_neq in Hkk by auto. apply Hm; auto.
- destruct ((- Mapping3D.nBlk m <=? idx) && (idx <=? -1)) eqn:E3;
[|discriminate].
apply andb_true_iff in E3 as [_ E3]. apply Z.leb_le in E3. lia.
Qed.

Lemma read_blocks_all n N mfp s :
preserves (all_blocks Q) (Mapping3D.read_blocks n N mfp s).
Proof.
revert mfp s; induction n as [|n IH]; intros mfp s; simpl.
- auto with pres.
- destruct (getline mfp s) as [[ok s'] mfp'].
apply preserves_bind; [apply read_block_all|]. intros; apply IH.
Qed.

Lemma readFromFile_all fs path :
preserves (all_blocks Q) (Mapping3D.readFromFile fs path).
Proof.
unfold Mapping3D.readFromFile.
destruct (fs_file fs path) as [text|]; auto with pres.
destruct (Mapping3D.skip _ _) as [[s mfp]|]; [|intros ? ?; exact I].
destruct (regex_match_pattern1 s) as [r1|]; auto with pres.
apply preserves_bind; auto with pres. intros N.
destruct (N <=? 0); auto with pres.
apply preserves_bind.
{ apply preserves_modify. intros _ _ k bk Hk. destruct k; discriminate. }
intros _. apply preserves_bind.
{ apply preserves_modify. intros m _ k bk Hk. simpl in Hk.
apply nth_error_In, repeat_spec in Hk. discriminate. }
intros _. apply preserves_bind; [apply read_blocks_all|].
intros [s' mfp'].
destruct (Mapping3D.skip mfp' s') as [[s'' mfp'']|]; [|intros ? ?; exact I].
apply preserves_bind; [apply read_connections_all|]. intros _.
apply preserves_bind; auto with pres. intros m.
apply preserves_bind.
{ apply preserves_for_each. apply connect_all. }
intros _. apply preserves_bind; auto with pres.
apply preserves_for_each. apply counterpart_all.
Qed.

(** A successful [readFromFile] does not depend on the object it is
called on: [release_all] empties it first. *)
Lemma readFromFile_fresh fs path m0 r m :
Mapping3D.readFromFile fs path m0 = Normal r m ->
Mapping3D.readFromFile fs path Mapping3D.new = Normal r m.
Proof.
unfold Mapping3D.readFromFile.
destruct (fs_file fs path) as [text|]; [|discriminate].
destruct (Mapping3D.skip _ _) as [[s mfp]|]; [|discriminate].
destruct (regex_match_pattern1 s) as [r1|]; [|discriminate].
destruct (stoi r1) as [e|N]; [discriminate|].
cbn [bind lift ret]. destruct (N <=? 0); [discriminate|].
cbn [bind Mapping3D.release_all modify]. intros H; exact H.
Qed.

Lemma readFromFile_establishes fs path m0 r m :
Mapping3D.readFromFile fs path m0 = Normal r m -> all_blocks Q m.
Proof.
intros H. apply readFromFile_fresh in H.
assert (K := @readFromFile_all fs path Mapping3D.new).
rewrite H in K. apply K. intros n b Hn. destruct n; discriminate.
Qed.

End ParsedBlocks.

(* ------------------------------------------------------------------ *)
(** ** C8: the wiring holds for every block, at every stage *)

Lemma viewed_new idx i j k b :
  Block3D.new idx i j k = inr b -> viewed idx (Block3D.set_index (wrap idx) b).
Proof. intros H. apply new_view in H. exact H. Qed.

Lemma viewed_neighbour this b f v :
  viewed this b ->
  viewed this (Block3D.set_m_surf
                 (upd_nth f (SURF.set_neighbourSurf v) (Block3D.m_surf b)) b).
Proof.
  unfold viewed, wiring_view; simpl. intros <-. f_equal.
  apply map_upd_nth_same. intros s; reflexivity.
Qed.

Lemma readFromFile_viewed fs path m0 r m :
  Mapping3D.readFromFile fs path m0 = Normal r m -> all_viewed m.
Proof.
  apply readFromFile_establishes.
  - intros; eapply viewed_new; eauto.
  - apply viewed_neighbour.
Qed.

Lemma all_viewed_wired m : all_viewed m -> all_wired m.
Proof. intros H n b Hn. apply viewed_wired, H, Hn. Qed.

(** C8. Every block built by the constructor [Block3D(nI, nJ, nK)] has the
    canonical wiring: surface 1 holds the edges (5,9,8,12), surface 2
    (6,11,7,10), surface 3 (1,10,4,9), surface 4 (2,12,3,11), surface 5
    (1,5,2,6) and surface 6 (3,8,4,7), in that order, and the two
    [dependentSurf] of each of the twelve edges are exactly the two surfaces
    whose [includedEdge] holds that edge.  [readFromFile] and [numbering] do
    not rewire: the blocks of a parsed mapping are wired, and still are in
    the state [numbering] ends in. *)
Theorem C8_surface_edge_wiring :
  (forall this nI nJ nK b,
      Block3D.new this nI nJ nK = inr b -> wired this b)
  /\ (forall fs path m0 r m,
         Mapping3D.readFromFile fs path m0 = Normal r m ->
         all_wired m
         /\ forall m', final_state (Mapping3D.numbering m) = Some m' ->
                       all_wired m').
Proof.
  split.
  - intros this nI nJ nK b H. apply viewed_wired. apply (@new_view _ _ _ _ _ H).
  - intros fs path m0 r m H.
    assert (Hv := @readFromFile_viewed _ _ _ _ _ H).
    split; [apply all_viewed_wired; exact Hv|].
    intros m' Hm'. apply all_viewed_wired.
    assert (K := @numbering_viewed _ Hv).
    destruct (Mapping3D.numbering m); simpl in Hm'; try discriminate;
      injection Hm' as <-; exact K.
Qed.

(** The theorem at the unit cube of scenario 1. *)
Lemma C8_surface_edge_wiring_witness :
  (exists b, Block3D.new 1 2 2 2 = inr b /\ wired 1 b)
  /\ (exists m, parse nmf_cube = Some m /\ all_wired m).
Proof.
  split.
  - eexists; split; [reflexivity|].
    apply (proj1 C8_surface_edge_wiring 1 2 2 2). reflexivity.
  - eexists; split; [vm_compute; reflexivity|].
    apply (proj2 C8_surface_edge_wiring (one_file "in.nmf" nmf_cube) "in.nmf"
                 Mapping3D.new 0).
    vm_compute; reflexivity.
Defined.

(* ------------------------------------------------------------------ *)
(** ** Loops over the blocks *)

Lemma wrap_wrap a : wrap (wrap a) = wrap a.
Proof. unfold wrap. apply Z.mod_mod. lia. Qed.

Lemma wrap_add_l a b : wrap (wrap a + b) = wrap (a + b).
Proof. unfold wrap. apply Zplus_mod_idemp_l. Qed.

Lemma wrap_add_r a b : wrap (a + wrap b) = wrap (a + b).
Proof. unfold wrap. apply Zplus_mod_idemp_r. Qed.

Lemma wrap_sub_l a b : wrap (wrap a - b) = wrap (a - b).
Proof. unfold wrap. apply Zminus_mod_idemp_l. Qed.

Lemma wrap_sub_r a b : wrap (a - wrap b) = wrap (a - b).
Proof. unfold wrap. apply Zminus_mod_idemp_r. Qed.

Lemma wrap_mul_l a b : wrap (wrap a * b) = wrap (a * b).
Proof. unfold wrap. apply Zmult_mod_idemp_l. Qed.

Lemma wrap_mul_r a b : wrap (a * wrap b) = wrap (a * b).
Proof. unfold wrap. apply Zmult_mod_idemp_r. Qed.

Lemma wrap_small a : 0 <= a < 2 ^ 64 -> wrap a = a.
Proof. intros H. unfold wrap. apply Z.mod_small. exact H. Qed.

Lemma wrap_range a : 0 <= wrap a < 2 ^ 64.
Proof. unfold wrap. apply Z.mod_pos_bound. lia. Qed.

Ltac wrap_norm :=
  repeat rewrite ?wrap_add_l, ?wrap_add_r, ?wrap_sub_l, ?wrap_sub_r,
    ?wrap_mul_l, ?wrap_mul_r, ?wrap_wrap.

Lemma wrap_eqm64 a : eqm64 (wrap a) a.
Proof. apply Zmod_eqm. Qed.

Lemma eqm64_wrap a b : eqm64 a b -> wrap a = wrap b.
Proof. intros H; exact H. Qed.

Ltac wrap_ring :=
  apply eqm64_wrap; rewrite ?wrap_eqm64;
  match goal with |- eqm64 ?a ?b => replace a with b by ring end;
  reflexivity.

Lemma set_nth_same {A} (v : list A) n x :
  nth_error v n = Some x -> set_nth n x v = v.
Proof.
  revert n; induction v as [|a v IH]; intros [|n] H; simpl in *;
    try discriminate; try congruence.
  f_equal; auto.
Qed.

Lemma m_set_m_blk_same m : Mapping3D.set_m_blk (Mapping3D.m_blk m) m = m.
Proof. destruct m; reflexivity. Qed.

(** One turn of [for (auto &blk : m_blk)]: the loop on the slots from
    [length done] on, when the slots before are [done]. *)
Lemma for_blocks_step {A} (body : A -> M Block3D.t A) done o rest a m :
  Mapping3D.m_blk m = done ++ o :: rest ->
  foldM (seq (length done) (S (length rest))) a
        (fun n a => Mapping3D.in_block n (body a)) m
  = match o with
    | None => Undefined
    | Some b =>
        match body a b with
        | Normal a' b' =>
            foldM (seq (S (length done)) (length rest)) a'
                  (fun n a => Mapping3D.in_block n (body a))
                  (Mapping3D.set_m_blk (done ++ Some b' :: rest) m)
        | Raised e b' =>
            Raised e (Mapping3D.set_m_blk (done ++ Some b' :: rest) m)
        | Undefined => Undefined
        | Diverges => Diverges
        end
    end.
Proof.
  intros Hm. simpl. unfold bind at 1. unfold Mapping3D.in_block at 1.
  rewrite Hm. rewrite nth_error_app2 by lia. rewrite Nat.sub_diag. simpl.
  destruct o as [b|]; auto.
  assert (Hs : forall b', set_nth (length done) (Some b') (done ++ Some b :: rest)
                          = done ++ Some b' :: rest).
  { intros b'. clear. induction done; simpl; auto. f_equal; auto. }
  destruct (body a b); rewrite ?Hs; auto.
Qed.

(** A loop on the blocks that only reads them. *)
Lemma for_blocks_readonly {A} (f : A -> Block3D.t -> A) a m :
  allocated m ->
  Mapping3D.for_blocks a (fun a b => Normal (f a b) b) m
  = Normal (fold_left f (blocks m) a) m.
Proof.
  unfold Mapping3D.for_blocks, allocated, blocks, slot_blocks.
  assert (G : forall rest done a m,
             Mapping3D.m_blk m = done ++ rest ->
             Forall (fun o : option Block3D.t => o <> None) rest ->
             foldM (seq (length done) (length rest)) a
                   (fun n a => Mapping3D.in_block n (fun b => Normal (f a b) b)) m
             = Normal (fold_left f
                         (flat_map (fun o => match o with Some b => [b] | None => [] end) rest) a) m).
  { induction rest as [|o rest IH]; intros done a0 m0 Hm Hall.
    - reflexivity.
    - cbn [length].
      rewrite (@for_blocks_step A (fun a b => Normal (f a b) b) done o rest a0 m0 Hm).
      inversion Hall as [|? ? Ho Hrest]; subst.
      destruct o as [b|]; [|congruence].
      rewrite <- Hm, m_set_m_blk_same.
      replace (S (length done)) with (length (done ++ [Some b]))
        by (rewrite length_app; simpl; lia).
      rewrite IH; auto. rewrite <- app_assoc. exact Hm. }
  intros Hall. apply (G (Mapping3D.m_blk m) [] a m); auto.
Qed.

(** A loop on the blocks that meets a slot holding [nullptr]. *)
Lemma for_blocks_null {A} (f : A -> Block3D.t -> A) a m :
  ~ allocated m ->
  Mapping3D.for_blocks a (fun a b => Normal (f a b) b) m = Undefined.
Proof.
  unfold Mapping3D.for_blocks, allocated.
  assert (G : forall rest done a m,
             Mapping3D.m_blk m = done ++ rest ->
             ~ Forall (fun o : option Block3D.t => o <> None) rest ->
             foldM (seq (length done) (length rest)) a
                   (fun n a => Mapping3D.in_block n (fun b => Normal (f a b) b)) m
             = Undefined).
  { induction rest as [|o rest IH]; intros done a0 m0 Hm Hall.
    - exfalso. apply Hall. constructor.
    - cbn [length].
      rewrite (@for_blocks_step A (fun a b => Normal (f a b) b) done o rest a0 m0 Hm).
      destruct o as [b|]; [|reflexivity].
      rewrite <- Hm, m_set_m_blk_same.
      replace (S (length done)) with (length (done ++ [Some b]))
        by (rewrite length_app; simpl; lia).
      apply IH.
      + rewrite <- app_assoc. exact Hm.
      + intros H. apply Hall. constructor; [discriminate | exact H]. }
  intros Hall. apply (G (Mapping3D.m_blk m) [] a m); auto.
Qed.

Lemma foldM_ext {S X A} (f g : X -> A -> M S A) xs a s :
  (forall x a s, f x a s = g x a s) -> foldM xs a f s = foldM xs a g s.
Proof.
  intros H; revert a s; induction xs as [|x xs IH]; intros a s; simpl; auto.
  unfold bind. rewrite H. destruct (g x a s); auto.
Qed.

Lemma foldM_pure {S X A} (g : X -> A -> A) xs a (s : S) :
  foldM xs a (fun x a => ret (g x a)) s
  = Normal (fold_left (fun a x => g x a) xs a) s.
Proof.
  revert a; induction xs as [|x xs IH]; intros a; simpl; auto.
  unfold bind, ret at 1. apply IH.
Qed.

(* ------------------------------------------------------------------ *)
(** ** C4: the number of faces *)

Lemma face_num_3D b :
  BLOCK.m_is3D (Block3D.base b) = true ->
  Block3D.face_num b = wrap (block_faces b).
Proof.
  intros H. unfold Block3D.face_num, BLOCK.face_num, BLOCK.is3D. rewrite H.
  unfold block_faces, Block3D.IDIM, Block3D.JDIM, Block3D.KDIM.
  wrap_ring.
Qed.

Lemma range_face_num r :
  RANGE.face_num r
  = wrap ((RANGE.E1 r - RANGE.S1 r) * (RANGE.E2 r - RANGE.S2 r)).
Proof.
  unfold RANGE.face_num, RANGE.pri_node_num, RANGE.sec_node_num,
    RANGE.E1, RANGE.S1, RANGE.E2, RANGE.S2.
  wrap_ring.
Qed.

Lemma sum_faces bs a :
  Forall (fun b => BLOCK.m_is3D (Block3D.base b) = true) bs ->
  fold_left (fun r b => wrap (r + Block3D.face_num b)) bs (wrap a)
  = wrap (a + zsum (map block_faces bs)).
Proof.
  revert a; induction bs as [|b bs IH]; intros a H; simpl.
  - f_equal; lia.
  - inversion H; subst. rewrite face_num_3D by auto. wrap_norm.
    rewrite IH by auto. f_equal; lia.
Qed.

Lemma sub_overlaps es a :
  fold_left (fun r e => if ENTRY.Type_ e =? BC.ONE_TO_ONE
                        then wrap (r - RANGE.face_num (ENTRY.Range1 e))
                        else r) es (wrap a)
  = wrap (a - zsum (map entry_overlap es)).
Proof.
  revert a; induction es as [|e es IH]; intros a; simpl.
  - f_equal; lia.
  - destruct (ENTRY.Type_ e =? BC.ONE_TO_ONE) eqn:E.
    + assert (Ho : entry_overlap e
                   = (RANGE.E1 (ENTRY.Range1 e) - RANGE.S1 (ENTRY.Range1 e))
                     * (RANGE.E2 (ENTRY.Range1 e) - RANGE.S2 (ENTRY.Range1 e)))
        by (unfold entry_overlap; rewrite E; reflexivity).
      rewrite range_face_num, Ho. wrap_norm. rewrite IH. f_equal; lia.
    + assert (Ho : entry_overlap e = 0)
        by (unfold entry_overlap; rewrite E; reflexivity).
      rewrite IH, Ho. f_equal; lia.
Qed.

Lemma nFace_returns m :
  allocated m ->
  Forall (fun b => BLOCK.m_is3D (Block3D.base b) = true) (blocks m) ->
  Mapping3D.nFace m
  = Normal (nFace_value m) m.
Proof.
  intros Ha H3. unfold nFace_value, Mapping3D.nFace. unfold bind at 1.
  rewrite for_blocks_readonly by auto.
  unfold bind, get_state.
  rewrite (@foldM_ext _ _ _ _
             (fun e r => ret (if ENTRY.Type_ e =? BC.ONE_TO_ONE
                              then wrap (r - RANGE.face_num (ENTRY.Range1 e))
                              else r)))
    by (intros e r s; destruct (ENTRY.Type_ e =? BC.ONE_TO_ONE); reflexivity).
  rewrite foldM_pure. f_equal.
  change 0 with (wrap 0) at 1. rewrite sum_faces by auto.
  rewrite sub_overlaps. f_equal; lia.
Qed.

Lemma nFace_null m : ~ allocated m -> Mapping3D.nFace m = Undefined.
Proof.
  intros H. unfold Mapping3D.nFace. unfold bind at 1.
  now rewrite for_blocks_null.
Qed.

(* ------------------------------------------------------------------ *)
(** ** The cell sweep of [numbering()] on one block *)

Lemma number_cells_nth c t l :
  nth_error (number_cells c t l) t = nth_error l t.
Proof.
  revert c l; induction t as [|t IH]; intros c [|x l]; simpl; auto.
Qed.

Lemma number_cells_length c t l : length (number_cells c t l) = length l.
Proof.
  revert c l; induction t as [|t IH]; intros c [|x l]; simpl; auto.
Qed.

Lemma number_cells_step c t l x :
  nth_error l t = Some x ->
  set_nth t (CELL.set_CellSeq x (c + Z.of_nat t + 1)) (number_cells c t l)
  = number_cells c (S t) l.
Proof.
  revert c l; induction t as [|t IH]; intros c [|y l] H; simpl in *;
    try discriminate.
  - injection H as ->. f_equal. f_equal. lia.
  - f_equal. rewrite <- (IH (c + 1) l H). f_equal. f_equal. lia.
Qed.

Lemma number_cells_all_nth c t l p x :
  (p < t)%nat -> nth_error l p = Some x ->
  nth_error (number_cells c t l) p
  = Some (CELL.set_CellSeq x (c + Z.of_nat p + 1)).
Proof.
  revert c l p; induction t as [|t IH]; intros c [|y l] [|p] Hp H;
    simpl in *; try discriminate; try lia.
  - injection H as ->. do 2 f_equal. lia.
  - rewrite (IH (c + 1) l p) by (auto; lia).
    do 2 f_equal. lia.
Qed.

Lemma offset_arith a b c i j k :
  1 <= i < a -> 1 <= j < b -> 1 <= k < c ->
  0 <= (b - 1) * (k - 1)
  /\ 0 <= (j - 1) + (b - 1) * (k - 1) < (b - 1) * (c - 1)
  /\ (b - 1) * (c - 1) <= (a - 1) * (b - 1) * (c - 1)
  /\ 0 <= (a - 1) * ((j - 1) + (b - 1) * (k - 1))
  /\ 0 <= (i - 1) + (a - 1) * ((j - 1) + (b - 1) * (k - 1))
       < (a - 1) * (b - 1) * (c - 1)
  /\ k - 1 <= (b - 1) * (k - 1)
  /\ b - 1 <= (b - 1) * (c - 1)
  /\ a - 1 <= (a - 1) * (b - 1) * (c - 1).
Proof.
  intros Hi Hj Hk.
  assert (H1 : 0 <= (b - 1) * (k - 1)) by (apply Z.mul_nonneg_nonneg; lia).
  assert (H2 : (b - 1) * (k - 1) <= (b - 1) * (c - 2))
    by (apply Z.mul_le_mono_nonneg_l; lia).
  assert (H3 : (b - 1) * (c - 2) = (b - 1) * (c - 1) - (b - 1)) by ring.
  assert (H4 : 0 <= (j - 1) + (b - 1) * (k - 1) < (b - 1) * (c - 1)) by lia.
  assert (H5 : 1 * ((b - 1) * (c - 1)) <= (a - 1) * ((b - 1) * (c - 1))).
  { apply Z.mul_le_mono_nonneg_r; [|lia].
    apply Z.mul_nonneg_nonneg; lia. }
  assert (H6 : 0 <= (a - 1) * ((j - 1) + (b - 1) * (k - 1)))
    by (apply Z.mul_nonneg_nonneg; lia).
  assert (H7 : (a - 1) * ((j - 1) + (b - 1) * (k - 1))
               <= (a - 1) * ((b - 1) * (c - 1) - 1))
    by (apply Z.mul_le_mono_nonneg_l; lia).
  assert (H8 : (a - 1) * ((b - 1) * (c - 1) - 1)
               = (a - 1) * (b - 1) * (c - 1) - (a - 1)) by ring.
  assert (H9 : (a - 1) * ((b - 1) * (c - 1)) = (a - 1) * (b - 1) * (c - 1))
    by ring.
  assert (H10 : 1 * (k - 1) <= (b - 1) * (k - 1))
    by (apply Z.mul_le_mono_nonneg_r; lia).
  assert (H11 : (b - 1) * 1 <= (b - 1) * (c - 1))
    by (apply Z.mul_le_mono_nonneg_l; lia).
  assert (H12 : (a - 1) * 1 <= (a - 1) * ((b - 1) * (c - 1)))
    by (apply Z.mul_le_mono_nonneg_l; lia).
  repeat split; lia.
Qed.

Section CellSweep.

(** The block before the sweep and the value of [cnt] on entry. *)
Variable b0 : Block3D.t.
Variable c0 : Z.

Let nI := Block3D.IDIM b0.
Let nJ := Block3D.JDIM b0.
Let nK := Block3D.KDIM b0.

Hypothesis Hwf : block_wf b0.
Hypothesis Hc0 : 0 <= c0.
Hypothesis Hfit : c0 + block_cells b0 < 2 ^ 64.

(** The block once its first [t] cells are numbered. *)
Let B (t : Z) : Block3D.t :=
Block3D.set_m_cell (number_cells c0 (Z.to_nat t) (Block3D.m_cell b0)) b0.

Let P (i j k : Z) : Z := cell_offset b0 i j k.

(** The body of the innermost loop. *)
Let body (k j i cnt : Z) : M Block3D.t Z :=
fun blk =>
match Block3D.set_cell_CellSeq blk i j k (wrap (cnt + 1)) with
| inl e => Raised e blk
| inr blk' => Normal (wrap (cnt + 1)) blk'
end.

Lemma dims_bounds :
2 <= nI /\ 2 <= nJ /\ 2 <= nK
/\ (nI - 1) * (nJ - 1) * (nK - 1) < 2 ^ 64
/\ Z.of_nat (length (Block3D.m_cell b0)) = (nI - 1) * (nJ - 1) * (nK - 1).
Proof.
destruct Hwf as (_ & H1 & H2 & H3 & H4 & H5).
unfold block_cells in H4, H5.
change (Block3D.IDIM b0) with nI in H1, H4, H5.
change (Block3D.JDIM b0) with nJ in H2, H4, H5.
change (Block3D.KDIM b0) with nK in H3, H4, H5.
repeat split; auto. rewrite H5. rewrite Z2Nat.id; auto.
repeat apply Z.mul_nonneg_nonneg; lia.
Qed.

Lemma offset_bounds i j k :
1 <= i < nI -> 1 <= j < nJ -> 1 <= k < nK ->
0 <= P i j k < (nI - 1) * (nJ - 1) * (nK - 1).
Proof.
intros Hi Hj Hk. unfold P, cell_offset.
change (Block3D.IDIM b0) with nI. change (Block3D.JDIM b0) with nJ.
apply (offset_arith Hi Hj Hk).
Qed.

Lemma cell_pos_offset t i j k :
1 <= i < nI -> 1 <= j < nJ -> 1 <= k < nK ->
Block3D.cell_pos (B t) i j k = P i j k.
Proof.
intros Hi Hj Hk.
destruct dims_bounds as (H1 & H2 & H3 & H4 & _).
destruct (offset_arith Hi Hj Hk) as (A1 & A2 & A3 & A4 & A5 & A6 & A7 & A8).
unfold Block3D.cell_pos, B, Block3D.IDIM, Block3D.JDIM; simpl.
change (BLOCK.IDIM (Block3D.base b0)) with nI.
change (BLOCK.JDIM (Block3D.base b0)) with nJ.
unfold P, cell_offset.
change (Block3D.IDIM b0) with nI.
change (Block3D.JDIM b0) with nJ.
rewrite (wrap_small (a := i - 1)) by lia.
rewrite (wrap_small (a := j - 1)) by lia.
rewrite (wrap_small (a := k - 1)) by lia.
rewrite (wrap_small (a := nI - 1)) by lia.
rewrite (wrap_small (a := nJ - 1)) by lia.
rewrite (wrap_small (a := (nJ - 1) * (k - 1))) by lia.
rewrite (wrap_small (a := j - 1 + (nJ - 1) * (k - 1))) by lia.
rewrite (wrap_small (a := (nI - 1) * (j - 1 + (nJ - 1) * (k - 1)))) by lia.
rewrite wrap_small by lia. reflexivity.
Qed.

(** One turn of the innermost loop numbers the next cell. *)
Lemma body_step i j k :
1 <= i < nI -> 1 <= j < nJ -> 1 <= k < nK ->
body k j i (c0 + P i j k) (B (P i j k))
= Normal (c0 + (P i j k + 1)) (B (P i j k + 1)).
Proof.
intros Hi Hj Hk.
replace (c0 + (P i j k + 1)) with (c0 + P i j k + 1) by lia.
destruct dims_bounds as (H1 & H2 & H3 & H4 & H5).
assert (Hp := offset_bounds Hi Hj Hk).
assert (Hfit' : c0 + (nI - 1) * (nJ - 1) * (nK - 1) < 2 ^ 64)
by exact Hfit.
unfold body, Block3D.set_cell_CellSeq, Block3D.cell.
rewrite cell_pos_offset by auto.
rewrite (wrap_small (a := c0 + P i j k + 1)) by lia.
unfold at_. unfold B at 1 2. simpl Block3D.m_cell.
rewrite number_cells_length.
replace ((0 <=? P i j k) && (P i j k <? Z.of_nat (length (Block3D.m_cell b0))))
with true
by (symmetry; apply andb_true_iff; split;
[apply Z.leb_le|apply Z.ltb_lt]; lia).
rewrite number_cells_nth.
destruct (nth_error (Block3D.m_cell b0) (Z.to_nat (P i j k))) as [x|] eqn:E.
- f_equal. unfold B, Block3D.set_m_cell. simpl. f_equal.
replace (Z.to_nat (P i j k + 1)) with (S (Z.to_nat (P i j k))) by lia.
rewrite <- (@number_cells_step c0 (Z.to_nat (P i j k)) _ x E).
do 2 f_equal. lia.
- apply nth_error_None in E. lia.
Qed.

Lemma offset_next_i i j k : P (i + 1) j k = P i j k + 1.
Proof. unfold P, cell_offset. ring. Qed.

Lemma offset_next_j j k : P 1 (j + 1) k = P nI j k.
Proof. unfold P, cell_offset, nI. ring. Qed.

Lemma offset_next_k k : P 1 1 (k + 1) = P 1 nJ k.
Proof. unfold P, cell_offset, nI, nJ. ring. Qed.

Lemma loop_i n : forall i j k,
1 <= i -> i + Z.of_nat n <= nI -> 1 <= j < nJ -> 1 <= k < nK ->
foldM (zseq i n) (c0 + P i j k) (body k j) (B (P i j k))
= Normal (c0 + P (i + Z.of_nat n) j k) (B (P (i + Z.of_nat n) j k)).
Proof.
induction n as [|n IH]; intros i j k Hi Hn Hj Hk.
- simpl. replace (i + 0) with i by lia. reflexivity.
- cbn [zseq foldM]. unfold bind.
rewrite body_step by lia.
rewrite <- offset_next_i.
rewrite IH by lia.
replace (i + 1 + Z.of_nat n) with (i + Z.of_nat (S n)) by lia.
reflexivity.
Qed.

Lemma loop_j n : forall j k,
1 <= j -> j + Z.of_nat n <= nJ -> 1 <= k < nK ->
foldM (zseq j n) (c0 + P 1 j k)
(fun j cnt => foldM (range 1 nI) cnt (body k j)) (B (P 1 j k))
= Normal (c0 + P 1 (j + Z.of_nat n) k) (B (P 1 (j + Z.of_nat n) k)).
Proof.
destruct dims_bounds as (H1 & H2 & H3 & _).
induction n as [|n IH]; intros j k Hj Hn Hk.
- simpl. replace (j + 0) with j by lia. reflexivity.
- cbn [zseq foldM]. unfold bind. unfold range.
rewrite loop_i by lia.
replace (1 + Z.of_nat (Z.to_nat (nI - 1))) with nI by lia.
rewrite <- offset_next_j.
rewrite IH by lia.
replace (j + 1 + Z.of_nat n) with (j + Z.of_nat (S n)) by lia.
reflexivity.
Qed.

Lemma loop_k n : forall k,
1 <= k -> k + Z.of_nat n <= nK ->
foldM (zseq k n) (c0 + P 1 1 k)
(fun k cnt => foldM (range 1 nJ) cnt
(fun j cnt => foldM (range 1 nI) cnt (body k j))) (B (P 1 1 k))
= Normal (c0 + P 1 1 (k + Z.of_nat n)) (B (P 1 1 (k + Z.of_nat n))).
Proof.
destruct dims_bounds as (H1 & H2 & H3 & _).
induction n as [|n IH]; intros k Hk Hn.
- simpl. replace (k + 0) with k by lia. reflexivity.
- cbn [zseq foldM]. unfold bind. unfold range at 1.
rewrite loop_j by lia.
replace (1 + Z.of_nat (Z.to_nat (nJ - 1))) with nJ by lia.
rewrite <- offset_next_k.
rewrite IH by lia.
replace (k + 1 + Z.of_nat n) with (k + Z.of_nat (S n)) by lia.
reflexivity.
Qed.

(** The three loops number every cell of the block, in storage order. *)
Lemma index_cells_of_block_spec :
Mapping3D.index_cells_of_block c0 b0
= Normal (c0 + block_cells b0)
(Block3D.set_m_cell
(number_cells c0 (length (Block3D.m_cell b0)) (Block3D.m_cell b0))
b0).
Proof.
destruct dims_bounds as (H1 & H2 & H3 & H4 & H5).
unfold Mapping3D.index_cells_of_block.
change (Block3D.IDIM b0) with nI. change (Block3D.JDIM b0) with nJ.
change (Block3D.KDIM b0) with nK.
assert (E0 : P 1 1 1 = 0) by (unfold P, cell_offset; ring).
assert (EB : B 0 = b0) by (unfold B; destruct b0; reflexivity).
assert (EN : P 1 1 nK = block_cells b0)
by (unfold P, cell_offset, block_cells, nI, nJ, nK; ring).
assert (K := @loop_k (Z.to_nat (nK - 1)) 1).
rewrite E0, EB in K. replace (c0 + 0) with c0 in K by lia.
replace (1 + Z.of_nat (Z.to_nat (nK - 1))) with nK in K by lia.
unfold range at 1.
unfold body in K. rewrite K by lia.
rewrite EN. f_equal. unfold B. f_equal. f_equal.
unfold block_cells. change (Block3D.IDIM b0) with nI.
change (Block3D.JDIM b0) with nJ. change (Block3D.KDIM b0) with nK. lia.
Qed.

End CellSweep.

(* ------------------------------------------------------------------ *)
(** ** The cell sweep of [numbering()] on the whole model *)

Lemma slot_blocks_app a b : slot_blocks (a ++ b) = slot_blocks a ++ slot_blocks b.
Proof. unfold slot_blocks. apply flat_map_app. Qed.

Lemma zsum_app a b : zsum (a ++ b) = zsum a + zsum b.
Proof. induction a; simpl; lia. Qed.

Lemma block_cells_nonneg b : block_wf b -> 0 <= block_cells b.
Proof.
  intros (_ & H1 & H2 & H3 & _). unfold block_cells.
  repeat apply Z.mul_nonneg_nonneg; lia.
Qed.

Lemma zsum_cells_nonneg bs :
  Forall block_wf bs -> 0 <= zsum (map block_cells bs).
Proof.
  induction 1 as [|b bs Hb _ IH]; simpl; [lia|].
  apply block_cells_nonneg in Hb. lia.
Qed.

Lemma sweep_blocks rest : forall done c m,
  Mapping3D.m_blk m = done ++ rest ->
  Forall (fun o : option Block3D.t => o <> None) rest ->
  Forall block_wf (slot_blocks rest) ->
  0 <= c -> c + zsum (map block_cells (slot_blocks rest)) < 2 ^ 64 ->
  foldM (seq (length done) (length rest)) c
        (fun n a => Mapping3D.in_block n (Mapping3D.index_cells_of_block a)) m
  = Normal (c + zsum (map block_cells (slot_blocks rest)))
           (Mapping3D.set_m_blk (done ++ number_blocks c rest) m).
Proof.
  induction rest as [|o rest IH]; intros done c m Hm Hall Hwf Hc Hfit.
  - rewrite app_nil_r in Hm. cbn [number_blocks slot_blocks flat_map map zsum fold_right length seq foldM].
    rewrite app_nil_r, <- Hm, m_set_m_blk_same.
    replace (c + 0) with c by lia. reflexivity.
  - cbn [length].
    rewrite (@for_blocks_step Z Mapping3D.index_cells_of_block done o rest c m Hm).
    inversion Hall as [|? ? Ho Hrest]; subst.
    destruct o as [b|]; [|congruence].
    simpl in Hwf, Hfit. inversion Hwf as [|? ? Hb Hwf']; subst.
    assert (Hn := zsum_cells_nonneg Hwf').
    assert (Hbn := block_cells_nonneg Hb).
    rewrite index_cells_of_block_spec by (auto; lia).
    set (b' := Block3D.set_m_cell _ b).
    replace (S (length done)) with (length (done ++ [Some b']))
      by (rewrite length_app; simpl; lia).
    rewrite IH; auto; try lia.
    + simpl. f_equal; [lia|].
      unfold Mapping3D.set_m_blk; simpl. rewrite <- app_assoc. reflexivity.
    + simpl. rewrite <- app_assoc. reflexivity.
Qed.

Lemma index_cells_spec m :
  model_wf m ->
  Mapping3D.for_blocks 0 Mapping3D.index_cells_of_block m
  = Normal (zsum (map block_cells (blocks m))) (cells_numbered m).
Proof.
  intros (Ha & Hwf & Hfit). unfold Mapping3D.for_blocks.
  assert (K := @sweep_blocks (Mapping3D.m_blk m) [] 0 m eq_refl Ha Hwf).
  cbn [length app] in K. rewrite Z.add_0_l in K. apply K; [lia|exact Hfit].
Qed.

(** The sweep touches nothing but the cells. *)
Lemma number_blocks_base c bs :
  map Block3D.base (slot_blocks (number_blocks c bs))
  = map Block3D.base (slot_blocks bs).
Proof.
  revert c; induction bs as [|[b|] bs IH]; intros c; simpl; auto.
  f_equal. apply IH.
Qed.

Lemma number_blocks_allocated c bs :
  Forall (fun o : option Block3D.t => o <> None) bs ->
  Forall (fun o : option Block3D.t => o <> None) (number_blocks c bs).
Proof.
  intros H; revert c; induction H as [|[b|] bs Ho _ IH]; intros c; simpl;
    constructor; auto; congruence.
Qed.

Lemma cells_numbered_allocated m : allocated m -> allocated (cells_numbered m).
Proof. intros H. apply number_blocks_allocated, H. Qed.

Lemma fold_cell_num bs a :
  fold_left (fun r b => wrap (r + Block3D.cell_num b)) bs a
  = fold_left (fun r x => wrap (r + BLOCK.cell_num x)) (map Block3D.base bs) a.
Proof. revert a; induction bs; intros; simpl; auto. Qed.

Lemma cell_num_3D b :
  BLOCK.m_is3D (Block3D.base b) = true ->
  Block3D.cell_num b = wrap (block_cells b).
Proof.
  intros H. unfold Block3D.cell_num, BLOCK.cell_num, BLOCK.is3D. rewrite H.
  unfold block_cells, Block3D.IDIM, Block3D.JDIM, Block3D.KDIM. wrap_ring.
Qed.

Lemma sum_cells bs a :
  Forall (fun b => BLOCK.m_is3D (Block3D.base b) = true) bs ->
  fold_left (fun r b => wrap (r + Block3D.cell_num b)) bs (wrap a)
  = wrap (a + zsum (map block_cells bs)).
Proof.
  revert a; induction bs as [|b bs IH]; intros a H; simpl.
  - f_equal; lia.
  - inversion H; subst. rewrite cell_num_3D by auto. wrap_norm.
    rewrite IH by auto. f_equal; lia.
Qed.

Lemma wf_is3D bs :
  Forall block_wf bs ->
  Forall (fun b => BLOCK.m_is3D (Block3D.base b) = true) bs.
Proof. apply Forall_impl. intros b (H & _); exact H. Qed.

Lemma nCell_returns m :
  allocated m ->
  Forall (fun b => BLOCK.m_is3D (Block3D.base b) = true) (blocks m) ->
  Mapping3D.nCell m = Normal (wrap (zsum (map block_cells (blocks m)))) m.
Proof.
  intros Ha H3. unfold Mapping3D.nCell.
  rewrite for_blocks_readonly by auto. f_equal.
  change 0 with (wrap 0) at 1. rewrite sum_cells by auto. f_equal; lia.
Qed.

Lemma is3D_by_base bs bs' :
  map Block3D.base bs' = map Block3D.base bs ->
  Forall (fun b => BLOCK.m_is3D (Block3D.base b) = true) bs ->
  Forall (fun b => BLOCK.m_is3D (Block3D.base b) = true) bs'.
Proof.
  revert bs; induction bs' as [|b' bs' IH]; intros [|b bs] E H;
    simpl in E; try discriminate; constructor.
  - inversion H; subst. injection E as E1 E2. rewrite E1; auto.
  - inversion H; subst. injection E as E1 E2. eapply IH; eauto.
Qed.

Lemma sums_by_base (f : Block3D.t -> Z) (g : BLOCK.t -> Z) bs bs' :
  (forall b, f b = g (Block3D.base b)) ->
  map Block3D.base bs' = map Block3D.base bs ->
  zsum (map f bs') = zsum (map f bs).
Proof.
  intros Hf E.
  assert (K : forall l, map f l = map g (map Block3D.base l)).
  { intros l. rewrite map_map. apply map_ext; auto. }
  rewrite !K, E. reflexivity.
Qed.

Lemma cells_numbered_blocks_base m :
  map Block3D.base (blocks (cells_numbered m)) = map Block3D.base (blocks m).
Proof. apply number_blocks_base. Qed.

Lemma cells_numbered_nFace_value m :
  nFace_value (cells_numbered m) = nFace_value m.
Proof.
  unfold nFace_value. f_equal. f_equal.
  apply sums_by_base with
    (g := fun x => (BLOCK.IDIM x - 1) * BLOCK.JDIM x * BLOCK.KDIM x
                   + BLOCK.IDIM x * (BLOCK.JDIM x - 1) * BLOCK.KDIM x
                   + BLOCK.IDIM x * BLOCK.JDIM x * (BLOCK.KDIM x - 1)).
  - reflexivity.
  - apply cells_numbered_blocks_base.
Qed.

Lemma cells_numbered_cells m :
  zsum (map block_cells (blocks (cells_numbered m)))
  = zsum (map block_cells (blocks m)).
Proof.
  apply sums_by_base with
    (g := fun x => (BLOCK.IDIM x - 1) * (BLOCK.JDIM x - 1) * (BLOCK.KDIM x - 1)).
  - reflexivity.
  - apply cells_numbered_blocks_base.
Qed.

(** What [numbering()] does on a well-formed model: it numbers the cells
    and then compares 0 with [nFace()]. *)
Lemma numbering_outcome m :
  model_wf m ->
  Mapping3D.numbering m
  = if nFace_value m =? 0
    then Normal 0 (cells_numbered m)
    else Raised (length_error "Inconsistent num of cells detected.")
                (cells_numbered m).
Proof.
  intros Hwf. assert (Hwf' := Hwf). destruct Hwf' as (Ha & Hb & Hfit).
  assert (H3 := wf_is3D Hb).
  assert (H3' : Forall (fun b => BLOCK.m_is3D (Block3D.base b) = true)
                       (blocks (cells_numbered m)))
    by (eapply is3D_by_base; [apply cells_numbered_blocks_base|exact H3]).
  assert (Ha' := cells_numbered_allocated Ha).
  assert (Hn := zsum_cells_nonneg Hb).
  unfold Mapping3D.numbering. unfold bind at 1.
  rewrite index_cells_spec by auto.
  unfold bind at 1. rewrite nCell_returns by auto.
  rewrite cells_numbered_cells.
  rewrite wrap_small by lia. rewrite Z.eqb_refl. cbn [negb].
  unfold bind at 1.
  assert (Hf : Mapping3D.for_blocks 0 Mapping3D.index_faces_of_block
                 (cells_numbered m) = Normal 0 (cells_numbered m)).
  { change Mapping3D.index_faces_of_block
      with (fun (a : Z) (b : Block3D.t) => @Normal Block3D.t Z a b).
    rewrite (@for_blocks_readonly Z (fun a _ => a)) by auto.
    f_equal. generalize (blocks (cells_numbered m)).
    induction l; simpl; auto. }
  rewrite Hf. unfold bind at 1. rewrite nFace_returns by auto.
  rewrite cells_numbered_nFace_value.
  destruct (nFace_value m =? 0) eqn:E.
  - apply Z.eqb_eq in E. rewrite E. reflexivity.
  - rewrite Z.eqb_sym, E. reflexivity.
Qed.

(* ------------------------------------------------------------------ *)
(** ** What [readFromFile] leaves in the blocks *)

Lemma int_fits a : 0 <= a <= INT_MAX -> wrap a = a.
Proof.
  intros H. apply wrap_small. unfold INT_MAX in H.
  assert (2 ^ 31 < 2 ^ 64) by (apply Z.pow_lt_mono_r; lia). lia.
Qed.

Lemma fresh_new idx i j k b :
  1 <= idx <= INT_MAX -> 1 <= i <= INT_MAX -> 1 <= j <= INT_MAX ->
  1 <= k <= INT_MAX ->
  Block3D.new idx i j k = inr b ->
  fresh_block idx (Block3D.set_index (wrap idx) b).
Proof.
  intros Hidx Hi Hj Hk. unfold Block3D.new, BLOCK.new.
  destruct ((i <? 2) || (j <? 2) || (k <? 2)) eqn:E; [discriminate|].
  apply orb_false_iff in E as [E E3]. apply orb_false_iff in E as [E1 E2].
  apply Z.ltb_ge in E1, E2, E3.
  intros H; injection H as <-.
  exists i, j, k. rewrite !int_fits by lia.
  repeat split; try lia; reflexivity.
Qed.

Lemma fresh_neighbour this b f v :
  fresh_block this b ->
  fresh_block this
    (Block3D.set_m_surf
       (upd_nth f (SURF.set_neighbourSurf v) (Block3D.m_surf b)) b).
Proof. intros H; exact H. Qed.

Lemma readFromFile_all_fresh fs path m0 r m :
  Mapping3D.readFromFile fs path m0 = Normal r m -> all_fresh m.
Proof.
  apply readFromFile_establishes.
  - apply fresh_new.
  - apply fresh_neighbour.
Qed.

Lemma all_blocks_Forall (Q : Z -> Block3D.t -> Prop) (R : Block3D.t -> Prop) m :
  (forall this b, Q this b -> R b) -> all_blocks Q m -> Forall R (blocks m).
Proof.
  intros HQR Hm. apply Forall_forall. intros b Hb.
  unfold blocks, slot_blocks in Hb. apply in_flat_map in Hb as (o & Ho & Hb).
  destruct o as [b'|]; [|contradiction]. destruct Hb as [->|[]].
  apply In_nth_error in Ho as (n & Hn). eapply HQR, Hm, Hn.
Qed.

Lemma fresh_is3D this b :
  fresh_block this b -> BLOCK.m_is3D (Block3D.base b) = true.
Proof. intros (nI & nJ & nK & _ & _ & _ & Hb & _). rewrite Hb; reflexivity. Qed.

Lemma fresh_cells_nonneg this b : fresh_block this b -> 0 <= block_cells b.
Proof.
  intros (nI & nJ & nK & H1 & H2 & H3 & Hb & _).
  unfold block_cells, Block3D.IDIM, Block3D.JDIM, Block3D.KDIM.
  rewrite Hb; simpl. repeat apply Z.mul_nonneg_nonneg; lia.
Qed.

Lemma fresh_block_wf this b :
  fresh_block this b -> block_cells b < 2 ^ 64 -> block_wf b.
Proof.
  intros Hf Hlt. assert (Hn := fresh_cells_nonneg Hf).
  assert (H3 := fresh_is3D Hf).
  destruct Hf as (nI & nJ & nK & H1 & H2 & H3' & Hb & Hc & _).
  unfold block_wf, Block3D.IDIM, Block3D.JDIM, Block3D.KDIM.
  rewrite Hb; simpl. repeat split; try lia.
  rewrite Hc, repeat_length, cell_num_3D by auto.
  rewrite wrap_small by lia. reflexivity.
Qed.

Lemma zsum_bound (f : Block3D.t -> Z) bs T :
  Forall (fun b => 0 <= f b) bs -> zsum (map f bs) < T ->
  Forall (fun b => f b < T) bs.
Proof.
  induction 1 as [|b bs Hb Hbs IH]; intros HT; simpl in *; constructor.
  - assert (0 <= zsum (map f bs)).
    { clear - Hbs. induction Hbs; simpl; lia. }
    lia.
  - apply IH. lia.
Qed.

(** A parsed model is well formed as soon as no block is missing and its
    cells can be counted in a [size_t]. *)
Lemma parsed_model_wf m :
  all_fresh m -> allocated m ->
  zsum (map block_cells (blocks m)) < 2 ^ 64 -> model_wf m.
Proof.
  intros Hf Ha HT. repeat split; auto.
  assert (Hn : Forall (fun b => 0 <= block_cells b) (blocks m))
    by (eapply all_blocks_Forall; [|exact Hf]; intros; eapply fresh_cells_nonneg; eauto).
  assert (Hlt := zsum_bound _ Hn HT).
  assert (Hfr : Forall (fun b => exists this, fresh_block this b) (blocks m))
    by (eapply all_blocks_Forall; [|exact Hf]; intros; eexists; eauto).
  apply Forall_forall. intros b Hb.
  rewrite Forall_forall in Hlt, Hfr.
  destruct (Hfr b Hb) as (this & Hthis).
  eapply fresh_block_wf; eauto.
Qed.

(* ------------------------------------------------------------------ *)
(** ** The ids after the sweep *)

Lemma zseq_app a n k : zseq a (n + k) = zseq a n ++ zseq (a + Z.of_nat n) k.
Proof.
  revert a; induction n as [|n IH]; intros a; simpl.
  - f_equal. lia.
  - f_equal. rewrite IH. do 2 f_equal. lia.
Qed.

Lemma number_cells_ids c l :
  map CELL.CellSeq (number_cells c (length l) l) = zseq (c + 1) (length l).
Proof.
  revert c; induction l as [|x l IH]; intros c; simpl; auto.
  f_equal. apply IH.
Qed.

Lemma number_blocks_ids c bs :
  Forall block_wf (slot_blocks bs) ->
  flat_map (fun b => map CELL.CellSeq (Block3D.m_cell b))
           (slot_blocks (number_blocks c bs))
  = zseq (c + 1) (Z.to_nat (zsum (map block_cells (slot_blocks bs)))).
Proof.
  revert c; induction bs as [|[b|] bs IH]; intros c Hwf; simpl in *; auto.
  inversion Hwf as [|? ? Hb Hwf']; subst.
  assert (Hn := zsum_cells_nonneg Hwf').
  assert (Hbn := block_cells_nonneg Hb).
  destruct Hb as (_ & _ & _ & _ & _ & Hlen).
  rewrite number_cells_ids, IH by auto.
  rewrite Z2Nat.inj_add by lia. rewrite zseq_app.
  rewrite Hlen. do 2 f_equal. lia.
Qed.

Lemma number_cells_keep (Pc : CELL.t -> Prop) c t l :
  (forall x v, Pc x -> Pc (CELL.set_CellSeq x v)) ->
  Forall Pc l -> Forall Pc (number_cells c t l).
Proof.
  intros HP; revert c l; induction t as [|t IH]; intros c l Hl; simpl; auto.
  destruct l as [|x l]; auto. inversion Hl; subst. constructor; auto.
Qed.

Lemma number_blocks_keep (R : Block3D.t -> Prop) c bs :
  (forall b c, R b ->
     R (Block3D.set_m_cell
          (number_cells c (length (Block3D.m_cell b)) (Block3D.m_cell b)) b)) ->
  Forall R (slot_blocks bs) -> Forall R (slot_blocks (number_blocks c bs)).
Proof.
  intros HR; revert c; induction bs as [|[b|] bs IH]; intros c H; simpl in *;
    auto.
  inversion H; subst. constructor; auto.
Qed.

Lemma fresh_no_ids this b :
  fresh_block this b ->
  Forall (fun c => CELL.m_node c = repeat 0 8 /\ CELL.m_face c = repeat 0 6)
         (Block3D.m_cell b)
  /\ Forall (fun e => EDGE.global_index e = 0) (Block3D.m_edge b).
Proof.
  intros (nI & nJ & nK & _ & _ & _ & _ & Hc & He). split.
  - rewrite Hc. apply Forall_forall. intros c Hin.
    apply repeat_spec in Hin. subst c. split; reflexivity.
  - apply Forall_forall. intros e Hin.
    apply (in_map EDGE.global_index) in Hin. rewrite He in Hin.
    apply repeat_spec in Hin. exact Hin.
Qed.

Lemma cells_numbered_no_ids m :
  all_fresh m -> no_face_node_ids (cells_numbered m).
Proof.
  intros Hf. unfold no_face_node_ids, blocks, cells_numbered; simpl.
  apply number_blocks_keep.
  - intros b c [Hc He]. split; auto. simpl.
    apply number_cells_keep; auto.
  - eapply all_blocks_Forall; [|exact Hf]. intros; eapply fresh_no_ids; eauto.
Qed.

Lemma number_blocks_nth c bs : forall p b,
  nth_error bs p = Some (Some b) ->
  nth_error (number_blocks c bs) p
  = Some (Some (Block3D.set_m_cell
                  (number_cells
                     (c + zsum (map block_cells (slot_blocks (firstn p bs))))
                     (length (Block3D.m_cell b)) (Block3D.m_cell b)) b)).
Proof.
  revert c; induction bs as [|o bs IH]; intros c [|p] b H; simpl in *;
    try discriminate.
  - injection H as ->. simpl. do 4 f_equal. lia.
  - destruct o as [b1|]; simpl.
    + rewrite (IH _ _ _ H). do 4 f_equal. lia.
    + rewrite (IH _ _ _ H). reflexivity.
Qed.

Lemma slot_blocks_In bs p b :
  nth_error bs p = Some (Some b) -> In b (slot_blocks bs).
Proof.
  intros H. apply nth_error_In in H. unfold slot_blocks.
  apply in_flat_map. exists (Some b). split; simpl; auto.
Qed.

(** The id of cell [(i, j, k)] of the block in slot [p] after the sweep. *)
Lemma cells_numbered_cell m p b i j k :
  model_wf m ->
  nth_error (Mapping3D.m_blk m) p = Some (Some b) ->
  1 <= i < Block3D.IDIM b -> 1 <= j < Block3D.JDIM b ->
  1 <= k < Block3D.KDIM b ->
  exists b' c,
    nth_error (Mapping3D.m_blk (cells_numbered m)) p = Some (Some b')
    /\ Block3D.base b' = Block3D.base b
    /\ Block3D.cell b' i j k = inr c
    /\ CELL.CellSeq c = cells_before m p + cell_offset b i j k + 1.
Proof.
  intros (Ha & Hwf & HT) Hp Hi Hj Hk.
  assert (Hb : block_wf b).
  { rewrite Forall_forall in Hwf. apply Hwf. eapply slot_blocks_In; eauto. }
  set (c0 := cells_before m p).
  assert (Hpos := @cell_pos_offset b c0 Hb
                    (Z.of_nat (length (Block3D.m_cell b))) i j k Hi Hj Hk).
  cbv beta zeta in Hpos. rewrite Nat2Z.id in Hpos.
  assert (Hoff := @offset_bounds b i j k Hi Hj Hk).
  cbv beta zeta in Hoff.
  destruct (dims_bounds Hb) as (_ & _ & _ & _ & Hlen).
  destruct (nth_error (Block3D.m_cell b) (Z.to_nat (cell_offset b i j k)))
    as [x|] eqn:E; [|apply nth_error_None in E; lia].
  exists (Block3D.set_m_cell
            (number_cells c0 (length (Block3D.m_cell b)) (Block3D.m_cell b)) b),
         (CELL.set_CellSeq x (c0 + cell_offset b i j k + 1)).
  split; [|split; [reflexivity|split; [|reflexivity]]].
  - unfold cells_numbered; simpl.
    rewrite (number_blocks_nth 0 _ _ Hp). rewrite Z.add_0_l. reflexivity.
  - unfold Block3D.cell. rewrite Hpos.
    unfold at_. simpl Block3D.m_cell. rewrite number_cells_length.
    replace ((0 <=? cell_offset b i j k)
             && (cell_offset b i j k <? Z.of_nat (length (Block3D.m_cell b))))
      with true
      by (symmetry; apply andb_true_iff; split;
          [apply Z.leb_le|apply Z.ltb_lt]; lia).
    rewrite (@number_cells_all_nth c0 _ _ _ x) by (auto; lia).
    do 3 f_equal. lia.
Qed.

(* ------------------------------------------------------------------ *)
(** ** The pass that establishes connectivity *)

Lemma index_range N i n : Array1D.index N i = inr n -> 0 <= n < N.
Proof.
  unfold Array1D.index.
  destruct ((1 <=? i) && (i <=? N)) eqn:E1.
  - intros H; injection H as <-. apply andb_true_iff in E1 as [A B].
    apply Z.leb_le in A, B. lia.
  - destruct ((- N <=? i) && (i <=? -1)) eqn:E2; [|discriminate].
    intros H; injection H as <-. apply andb_true_iff in E2 as [A B].
    apply Z.leb_le in A, B. lia.
Qed.

Lemma inr_inj {A B} (a b : B) : @inr A B a = inr b -> a = b.
Proof. intros H; injection H; auto. Qed.

Lemma surf_pos_range i n : Block3D.surf_pos i = inr n -> 0 <= n < 6.
Proof.
  unfold Block3D.surf_pos.
  repeat match goal with
         | |- context [?x <=? ?y] => destruct (Z.leb_spec x y)
         end; cbn [andb]; intros Hn; try discriminate Hn;
    apply inr_inj in Hn; unfold Block3D.NumOfSurf in *; lia.
Qed.

Lemma designated_range N e n1 f1 n2 f2 :
  designated N e = Some (n1, f1, n2, f2) ->
  0 <= n1 < N /\ 0 <= f1 < 6 /\ 0 <= n2 < N /\ 0 <= f2 < 6.
Proof.
  unfold designated. destruct e as [|bc rg1 rg2 sw]; [discriminate|].
  destruct (Array1D.index N (to_llong (RANGE.B rg1))) as [|a1] eqn:E1;
    [discriminate|].
  destruct (Array1D.index N (to_llong (RANGE.B rg2))) as [|a2] eqn:E2;
    [discriminate|].
  destruct (Block3D.surf_pos (to_int (RANGE.F rg1))) as [|b1] eqn:E3;
    [discriminate|].
  destruct (Block3D.surf_pos (to_int (RANGE.F rg2))) as [|b2] eqn:E4;
    [discriminate|].
  intros H; injection H as <- <- <- <-.
  apply index_range in E1, E2. apply surf_pos_range in E3, E4. auto.
Qed.

(** What [lookup_surfaces] returns when it returns. *)
Lemma lookup_surfaces_normal e m x m' :
  Mapping3D.lookup_surfaces e m = Normal x m' ->
  m' = m /\ designated (Mapping3D.nBlk m) e = Some x.
Proof.
  unfold Mapping3D.lookup_surfaces, designated.
  destruct e as [|bc rg1 rg2 sw]; [discriminate|].
  unfold bind, get_state, lift, ret, throw, undefined.
  destruct (Array1D.index _ (to_llong (RANGE.B rg1))) as [|n1]; [discriminate|].
  destruct (Array1D.index _ (to_llong (RANGE.B rg2))) as [|n2]; [discriminate|].
  destruct (nth_error _ (Z.to_nat n1)) as [[b1|]|]; try discriminate.
  destruct (Block3D.surf_pos (to_int (RANGE.F rg1))) as [|f1]; [discriminate|].
  destruct (nth_error _ (Z.to_nat n2)) as [[b2|]|]; try discriminate.
  destruct (Block3D.surf_pos (to_int (RANGE.F rg2))) as [|f2]; [discriminate|].
  intros H; injection H as <- <-. auto.
Qed.

(** It does return when the entry designates surfaces of allocated
    blocks. *)
Lemma lookup_surfaces_total e m x :
  allocated m -> designated (Mapping3D.nBlk m) e = Some x ->
  Mapping3D.lookup_surfaces e m = Normal x m.
Proof.
  intros Ha. unfold Mapping3D.lookup_surfaces, designated.
  destruct e as [|bc rg1 rg2 sw]; [discriminate|].
  unfold bind, get_state, lift, ret, throw, undefined.
  destruct (Array1D.index _ (to_llong (RANGE.B rg1))) as [|n1] eqn:E1;
    [discriminate|].
  destruct (Array1D.index _ (to_llong (RANGE.B rg2))) as [|n2] eqn:E2;
    [discriminate|].
  destruct (Block3D.surf_pos (to_int (RANGE.F rg1))) as [|f1]; [discriminate|].
  destruct (Block3D.surf_pos (to_int (RANGE.F rg2))) as [|f2]; [discriminate|].
  intros H; injection H as <-.
  apply index_range in E1, E2. unfold Mapping3D.nBlk in E1, E2.
  assert (K : forall n, 0 <= n < Z.of_nat (length (Mapping3D.m_blk m)) ->
            exists b, nth_error (Mapping3D.m_blk m) (Z.to_nat n) = Some (Some b)).
  { intros n Hn.
    destruct (nth_error (Mapping3D.m_blk m) (Z.to_nat n)) as [o|] eqn:E.
    - unfold allocated in Ha. rewrite Forall_forall in Ha.
      assert (Ho := Ha o (nth_error_In _ _ E)).
      destruct o as [b|]; [eauto|congruence].
    - apply nth_error_None in E. lia. }
  destruct (K n1 E1) as (b1 & ->). destruct (K n2 E2) as (b2 & ->).
  reflexivity.
Qed.

Lemma set_neighbourSurf_nBlk n f v m :
  Mapping3D.nBlk (Mapping3D.set_neighbourSurf n f v m) = Mapping3D.nBlk m.
Proof.
  unfold Mapping3D.nBlk, Mapping3D.set_neighbourSurf; simpl.
  rewrite length_upd_nth. reflexivity.
Qed.

Lemma set_neighbourSurf_entry n f v m :
  Mapping3D.m_entry (Mapping3D.set_neighbourSurf n f v m) = Mapping3D.m_entry m.
Proof. reflexivity. Qed.

Lemma set_neighbourSurf_six n f v m :
  six_surfaces m -> six_surfaces (Mapping3D.set_neighbourSurf n f v m).
Proof.
  intros H k b Hk. unfold Mapping3D.set_neighbourSurf in Hk; simpl in Hk.
  destruct (Nat.eq_dec (Z.to_nat n) k) as [<-|Hnk].
  - rewrite nth_error_upd_nth_eq in Hk.
    destruct (nth_error (Mapping3D.m_blk m) (Z.to_nat n)) as [[b0|]|] eqn:E;
      simpl in Hk; try discriminate.
    injection Hk as <-. simpl. rewrite length_upd_nth. eapply H; eauto.
  - rewrite nth_error_upd_nth_neq in Hk by auto. eapply H; eauto.
Qed.

Lemma set_neighbourSurf_allocated n f v m :
  allocated m -> allocated (Mapping3D.set_neighbourSurf n f v m).
Proof.
  unfold allocated, Mapping3D.set_neighbourSurf; simpl.
  generalize (Mapping3D.m_blk m) (Z.to_nat n). clear.
  induction l as [|o l IH]; intros k H; destruct k; simpl; auto;
    inversion H; subst; constructor; auto.
  destruct o; simpl; congruence.
Qed.

(** The effect of one assignment to a [neighbourSurf] on all of them. *)
Lemma neighbour_at_set n f v m n' f' :
  0 <= n -> 0 <= f -> 0 <= n' -> 0 <= f' ->
  neighbour_at (Mapping3D.set_neighbourSurf n f v m) n' f'
  = if (n =? n') && (f =? f')
    then match surface_at m n f with Some _ => v | None => None end
    else neighbour_at m n' f'.
Proof.
  intros Hn Hf Hn' Hf'.
  unfold neighbour_at, surface_at, Mapping3D.set_neighbourSurf; simpl.
  destruct (n =? n') eqn:En.
  - apply Z.eqb_eq in En. subst n'. rewrite nth_error_upd_nth_eq.
    destruct (nth_error (Mapping3D.m_blk m) (Z.to_nat n)) as [[b|]|];
      simpl; try (destruct (f =? f'); reflexivity).
    destruct (f =? f') eqn:Ef; simpl.
    + apply Z.eqb_eq in Ef. subst f'. rewrite nth_error_upd_nth_eq.
      destruct (nth_error (Block3D.m_surf b) (Z.to_nat f)); reflexivity.
    + apply Z.eqb_neq in Ef. rewrite nth_error_upd_nth_neq by lia.
      reflexivity.
  - apply Z.eqb_neq in En. rewrite nth_error_upd_nth_neq by lia.
    reflexivity.
Qed.

Lemma surface_at_set n f v m n' f' :
  surface_at (Mapping3D.set_neighbourSurf n f v m) n' f' = None <->
  surface_at m n' f' = None.
Proof.
  unfold surface_at, Mapping3D.set_neighbourSurf; simpl.
  destruct (Nat.eq_dec (Z.to_nat n) (Z.to_nat n')) as [E|E].
  - rewrite <- E, nth_error_upd_nth_eq.
    destruct (nth_error (Mapping3D.m_blk m) (Z.to_nat n)) as [[b|]|];
      simpl; try tauto.
    rewrite !nth_error_None, length_upd_nth. tauto.
  - rewrite nth_error_upd_nth_neq by auto. tauto.
Qed.

Lemma surface_at_exists m n f b :
  six_surfaces m ->
  nth_error (Mapping3D.m_blk m) (Z.to_nat n) = Some (Some b) ->
  0 <= f < 6 -> surface_at m n f <> None.
Proof.
  intros H6 Hb Hf. unfold surface_at. rewrite Hb.
  apply nth_error_Some. rewrite (H6 _ _ Hb). lia.
Qed.

(** One turn of the loop, when it ends normally. *)
Lemma connect_normal e m m' :
  Mapping3D.connect e m = Normal tt m' ->
  (ENTRY.Type_ e <> BC.ONE_TO_ONE /\ m' = m)
  \/ (ENTRY.Type_ e = BC.ONE_TO_ONE
      /\ exists n1 f1 n2 f2,
           designated (Mapping3D.nBlk m) e = Some (n1, f1, n2, f2)
           /\ Mapping3D.lookup_surfaces e m = Normal (n1, f1, n2, f2) m
           /\ m' = Mapping3D.set_neighbourSurf n2 f2 (Some (mkptr (n1 + 1) f1))
                     (Mapping3D.set_neighbourSurf n1 f1
                        (Some (mkptr (n2 + 1) f2)) m)).
Proof.
  unfold Mapping3D.connect.
  destruct (ENTRY.Type_ e =? BC.ONE_TO_ONE) eqn:E.
  - apply Z.eqb_eq in E. unfold bind at 1.
    destruct (Mapping3D.lookup_surfaces e m) as [[[[n1 f1] n2] f2] m1| | |] eqn:L;
      try discriminate.
    destruct (@lookup_surfaces_normal _ _ _ _ L) as [-> D].
    unfold bind, modify. intros H; injection H as <-.
    right. split; auto. exists n1, f1, n2, f2. auto.
  - apply Z.eqb_neq in E. unfold ret. intros H; injection H as <-. auto.
Qed.

Lemma lookup_surfaces_allocated e m n1 f1 n2 f2 m' :
  Mapping3D.lookup_surfaces e m = Normal (n1, f1, n2, f2) m' ->
  (exists b1, nth_error (Mapping3D.m_blk m) (Z.to_nat n1) = Some (Some b1))
  /\ (exists b2, nth_error (Mapping3D.m_blk m) (Z.to_nat n2) = Some (Some b2)).
Proof.
  unfold Mapping3D.lookup_surfaces.
  destruct e as [|bc rg1 rg2 sw]; [discriminate|].
  unfold bind, get_state, lift, ret, throw, undefined.
  destruct (Array1D.index _ (to_llong (RANGE.B rg1))) as [|a1]; [discriminate|].
  destruct (Array1D.index _ (to_llong (RANGE.B rg2))) as [|a2]; [discriminate|].
  destruct (nth_error _ (Z.to_nat a1)) as [[b1|]|] eqn:E1; try discriminate.
  destruct (Block3D.surf_pos (to_int (RANGE.F rg1))) as [|c1]; [discriminate|].
  destruct (nth_error _ (Z.to_nat a2)) as [[b2|]|] eqn:E2; try discriminate.
  destruct (Block3D.surf_pos (to_int (RANGE.F rg2))) as [|c2]; [discriminate|].
  intros H; injection H as <- <- <- <- <-. rewrite E1, E2. eauto.
Qed.

(** The whole loop, when it ends normally: the surfaces that no entry
    names keep their neighbour, and when no surface is named twice the two
    surfaces of every [ONE_TO_ONE] entry point to each other. *)
Lemma connect_pass es : forall m m',
  six_surfaces m ->
  for_each es Mapping3D.connect m = Normal tt m' ->
  Mapping3D.nBlk m' = Mapping3D.nBlk m
  /\ Mapping3D.m_entry m' = Mapping3D.m_entry m
  /\ six_surfaces m'
  /\ (forall n f, 0 <= n -> 0 <= f ->
        ~ In (n, f) (named_surfaces (Mapping3D.nBlk m) es) ->
        neighbour_at m' n f = neighbour_at m n f)
  /\ (NoDup (named_surfaces (Mapping3D.nBlk m) es) ->
      forall e n1 f1 n2 f2,
        In e es -> ENTRY.Type_ e = BC.ONE_TO_ONE ->
        designated (Mapping3D.nBlk m) e = Some (n1, f1, n2, f2) ->
        neighbour_at m' n1 f1 = Some (mkptr (n2 + 1) f2)
        /\ neighbour_at m' n2 f2 = Some (mkptr (n1 + 1) f1)).
Proof.
  induction es as [|e es IH]; intros m m' H6 Hrun.
  - simpl in Hrun. injection Hrun as <-.
    split; [reflexivity|]. split; [reflexivity|]. split; [assumption|].
    split; [reflexivity|]. intros _ e n1 f1 n2 f2 [].
  - cbn [for_each] in Hrun. unfold bind in Hrun.
    destruct (Mapping3D.connect e m) as [[] m1|ex sx| |] eqn:Hc; try discriminate.
    destruct (@connect_normal _ _ _ Hc) as [[Hty ->]|(Hty & n1 & f1 & n2 & f2 & Hd & Hl & ->)].
    + (* not an interface *)
      destruct (IH _ _ H6 Hrun) as (A1 & A2 & A3 & A4 & A5).
      assert (Hnamed : named_surfaces (Mapping3D.nBlk m) (e :: es)
                       = named_surfaces (Mapping3D.nBlk m) es).
      { unfold named_surfaces; simpl. apply Z.eqb_neq in Hty. rewrite Hty.
        reflexivity. }
      rewrite Hnamed.
      split; [assumption|]. split; [assumption|]. split; [assumption|].
      split; [assumption|].
      intros Hnd e' a1 b1 a2 b2 [<-|Hin] Hty' Hd'; [congruence|].
      eapply A5; eauto.
    + (* an interface *)
      set (m1 := Mapping3D.set_neighbourSurf n2 f2 (Some (mkptr (n1 + 1) f1))
                   (Mapping3D.set_neighbourSurf n1 f1
                      (Some (mkptr (n2 + 1) f2)) m)) in *.
      assert (HN : Mapping3D.nBlk m1 = Mapping3D.nBlk m)
        by (unfold m1; rewrite !set_neighbourSurf_nBlk; reflexivity).
      assert (H61 : six_surfaces m1)
        by (unfold m1; repeat apply set_neighbourSurf_six; auto).
      destruct (IH _ _ H61 Hrun) as (A1 & A2 & A3 & A4 & A5).
      rewrite HN in A1, A4, A5.
      destruct (@designated_range _ _ _ _ _ _ Hd) as (R1 & R2 & R3 & R4).
      destruct (@lookup_surfaces_allocated _ _ _ _ _ _ _ Hl) as [(b1 & Hb1) (b2 & Hb2)].
      assert (Hs1 := @surface_at_exists _ _ _ _ H6 Hb1 R2).
      assert (Hs2 := @surface_at_exists _ _ _ _ H6 Hb2 R4).
      assert (Hnamed : named_surfaces (Mapping3D.nBlk m) (e :: es)
                       = (n1, f1) :: (n2, f2)
                           :: named_surfaces (Mapping3D.nBlk m) es).
      { unfold named_surfaces; simpl. rewrite Hty, Z.eqb_refl, Hd.
        reflexivity. }
      rewrite Hnamed.
      assert (Hm1 : forall n f, 0 <= n -> 0 <= f ->
                neighbour_at m1 n f
                = if (n2 =? n) && (f2 =? f) then Some (mkptr (n1 + 1) f1)
                  else if (n1 =? n) && (f1 =? f) then Some (mkptr (n2 + 1) f2)
                  else neighbour_at m n f).
      { intros n f Hn Hf. unfold m1.
        rewrite neighbour_at_set by lia.
        destruct ((n2 =? n) && (f2 =? f)).
        - destruct (surface_at (Mapping3D.set_neighbourSurf n1 f1
                                  (Some (mkptr (n2 + 1) f2)) m) n2 f2) eqn:E;
            auto.
          apply surface_at_set in E. contradiction.
        - rewrite neighbour_at_set by lia.
          destruct ((n1 =? n) && (f1 =? f)); auto.
          destruct (surface_at m n1 f1); [auto|contradiction]. }
      split; [exact A1|].
      split; [rewrite A2; reflexivity|].
      split; [exact A3|]. split.
      * intros n f Hn Hf Hnot. simpl in Hnot.
        rewrite A4 by tauto. rewrite Hm1 by auto.
        destruct ((n2 =? n) && (f2 =? f)) eqn:E2.
        { apply andb_true_iff in E2 as [X Y]. apply Z.eqb_eq in X, Y.
          subst. tauto. }
        destruct ((n1 =? n) && (f1 =? f)) eqn:E1; auto.
        apply andb_true_iff in E1 as [X Y]. apply Z.eqb_eq in X, Y.
        subst. tauto.
      * intros Hnd e' a1 c1 a2 c2 Hin Hty' Hd'.
        inversion Hnd as [|? ? Hn1 Hnd']; subst.
        inversion Hnd' as [|? ? Hn2 Hnd'']; subst.
        destruct Hin as [<-|Hin].
        { rewrite Hd in Hd'. injection Hd' as <- <- <- <-.
          rewrite !A4 by (auto; try lia; simpl in Hn1; tauto).
          rewrite !Hm1 by lia.
          rewrite !Z.eqb_refl. simpl.
          destruct ((n2 =? n1) && (f2 =? f1)) eqn:E; auto.
          apply andb_true_iff in E as [X Y]. apply Z.eqb_eq in X, Y.
          subst. simpl in Hn1. tauto. }
        { eapply A5; eauto. }
Qed.

(** The two assignments of one turn, read at any surface. *)
Lemma connect_sets e m n1 f1 n2 f2 :
  six_surfaces m ->
  Mapping3D.lookup_surfaces e m = Normal (n1, f1, n2, f2) m ->
  forall n f, 0 <= n -> 0 <= f ->
    neighbour_at (Mapping3D.set_neighbourSurf n2 f2 (Some (mkptr (n1 + 1) f1))
                    (Mapping3D.set_neighbourSurf n1 f1
                       (Some (mkptr (n2 + 1) f2)) m)) n f
    = if (n2 =? n) && (f2 =? f) then Some (mkptr (n1 + 1) f1)
      else if (n1 =? n) && (f1 =? f) then Some (mkptr (n2 + 1) f2)
      else neighbour_at m n f.
Proof.
  intros H6 Hl n f Hn Hf.
  destruct (@lookup_surfaces_normal _ _ _ _ Hl) as [_ Hd].
  destruct (@designated_range _ _ _ _ _ _ Hd) as (R1 & R2 & R3 & R4).
  destruct (@lookup_surfaces_allocated _ _ _ _ _ _ _ Hl)
    as [(b1 & Hb1) (b2 & Hb2)].
  assert (Hs1 := @surface_at_exists _ _ _ _ H6 Hb1 R2).
  assert (Hs2 := @surface_at_exists _ _ _ _ H6 Hb2 R4).
  rewrite neighbour_at_set by lia.
  destruct ((n2 =? n) && (f2 =? f)).
  - destruct (surface_at (Mapping3D.set_neighbourSurf n1 f1
                            (Some (mkptr (n2 + 1) f2)) m) n2 f2) eqn:E; auto.
    apply surface_at_set in E. contradiction.
  - rewrite neighbour_at_set by lia.
    destruct ((n1 =? n) && (f1 =? f)); auto.
    destruct (surface_at m n1 f1); [auto|contradiction].
Qed.

(** The last entry that names a surface decides its neighbour: whatever
    the entries before [e] have set, the two surfaces of [e] point to each
    other at the end of the loop unless a later entry names them. *)
Lemma connect_pass_last pre : forall m m' e post n1 f1 n2 f2,
  six_surfaces m ->
  for_each (pre ++ e :: post) Mapping3D.connect m = Normal tt m' ->
  ENTRY.Type_ e = BC.ONE_TO_ONE ->
  designated (Mapping3D.nBlk m) e = Some (n1, f1, n2, f2) ->
  (~ In (n1, f1) (named_surfaces (Mapping3D.nBlk m) post) ->
   neighbour_at m' n1 f1 = Some (mkptr (n2 + 1) f2))
  /\ (~ In (n2, f2) (named_surfaces (Mapping3D.nBlk m) post) ->
      neighbour_at m' n2 f2 = Some (mkptr (n1 + 1) f1)).
Proof.
  induction pre as [|e0 pre IH]; intros m m' e post n1 f1 n2 f2 H6 Hrun Hty Hd;
    cbn [app for_each] in Hrun; unfold bind in Hrun.
  - destruct (Mapping3D.connect e m) as [[] m1|ex sx| |] eqn:Hc;
      try discriminate.
    destruct (@connect_normal _ _ _ Hc)
      as [[Hty' _]|(_ & a1 & c1 & a2 & c2 & Hd' & Hl & ->)]; [congruence|].
    rewrite Hd in Hd'. injection Hd' as <- <- <- <-.
    destruct (@designated_range _ _ _ _ _ _ Hd) as (R1 & R2 & R3 & R4).
    match type of Hrun with for_each _ _ ?x = _ => set (m1 := x) in * end.
    assert (HN : Mapping3D.nBlk m1 = Mapping3D.nBlk m)
      by (unfold m1; rewrite !set_neighbourSurf_nBlk; reflexivity).
    assert (H61 : six_surfaces m1)
      by (unfold m1; repeat apply set_neighbourSurf_six; auto).
    destruct (@connect_pass _ _ _ H61 Hrun) as (_ & _ & _ & A4 & _).
    rewrite HN in A4.
    split; intros Hnot; rewrite A4 by (auto; lia); unfold m1;
      rewrite (@connect_sets _ _ _ _ _ _ H6 Hl) by lia; rewrite !Z.eqb_refl; cbn [andb];
      [|reflexivity].
    destruct ((n2 =? n1) && (f2 =? f1)) eqn:E; [|reflexivity].
    apply andb_true_iff in E as [X Y]. apply Z.eqb_eq in X, Y. now subst.
  - destruct (Mapping3D.connect e0 m) as [[] m0|ex sx| |] eqn:Hc;
      try discriminate.
    assert (H0 : Mapping3D.nBlk m0 = Mapping3D.nBlk m /\ six_surfaces m0).
    { destruct (@connect_normal _ _ _ Hc)
        as [[_ ->]|(_ & a1 & c1 & a2 & c2 & _ & _ & ->)]; [auto|].
      rewrite !set_neighbourSurf_nBlk. split; [reflexivity|].
      repeat apply set_neighbourSurf_six; auto. }
    destruct H0 as [HN H60]. rewrite <- HN in *.
    eapply IH; eauto.
Qed.

(** The loop never throws on the entries that designate surfaces of
    allocated blocks, whether or not a surface is named twice. *)
Lemma connect_pass_total es : forall m,
  allocated m ->
  (forall e, In e es -> ENTRY.Type_ e = BC.ONE_TO_ONE ->
             designated (Mapping3D.nBlk m) e <> None) ->
  exists m', for_each es Mapping3D.connect m = Normal tt m'.
Proof.
  induction es as [|e es IH]; intros m Ha Hd.
  - exists m. reflexivity.
  - cbn [for_each]. unfold bind.
    assert (Hc : exists m1, Mapping3D.connect e m = Normal tt m1
                            /\ allocated m1
                            /\ Mapping3D.nBlk m1 = Mapping3D.nBlk m).
    { unfold Mapping3D.connect.
      destruct (ENTRY.Type_ e =? BC.ONE_TO_ONE) eqn:E.
      - apply Z.eqb_eq in E.
        destruct (designated (Mapping3D.nBlk m) e) as [[[[n1 f1] n2] f2]|] eqn:D;
          [|exfalso; eapply Hd; eauto; left; auto].
        unfold bind at 1. rewrite (@lookup_surfaces_total _ _ _ Ha D).
        eexists. split; [reflexivity|]. split.
        + repeat apply set_neighbourSurf_allocated; auto.
        + rewrite !set_neighbourSurf_nBlk. reflexivity.
      - exists m. auto. }
    destruct Hc as (m1 & -> & Ha1 & HN).
    apply IH; auto. intros e' Hin Hty. rewrite HN. apply Hd; auto.
    right; auto.
Qed.

(** The loop on counterpart information changes nothing. *)
Lemma counterpart_pass es : forall m m',
  for_each es Mapping3D.counterpart m = Normal tt m' -> m' = m.
Proof.
  induction es as [|e es IH]; intros m m' H.
  - injection H as <-. reflexivity.
  - cbn [for_each] in H. unfold bind in H.
    destruct (Mapping3D.counterpart e m) as [[] m1|ex sx| |] eqn:Hc;
      try discriminate.
    assert (m1 = m).
    { unfold Mapping3D.counterpart in Hc.
      destruct (ENTRY.Type_ e =? BC.ONE_TO_ONE).
      - unfold bind in Hc.
        destruct (Mapping3D.lookup_surfaces e m) as [x m2|ex2 sx2| |] eqn:L;
          try discriminate.
        apply lookup_surfaces_normal in L as [-> _].
        injection Hc as <-. reflexivity.
      - injection Hc as <-. reflexivity. }
    subst m1. apply IH; auto.
Qed.

Lemma viewed_six m : all_viewed m -> six_surfaces m.
Proof.
  intros H n b Hb. specialize (H n b Hb). unfold viewed, wiring_view in H.
  apply (f_equal (fun v => length (fst v))) in H. simpl in H.
  rewrite length_map in H. exact H.
Qed.

Lemma read_blocks_viewed n N mfp s :
  preserves all_viewed (Mapping3D.read_blocks n N mfp s).
Proof. apply read_blocks_all. intros; eapply viewed_new; eauto. Qed.

Lemma read_connections_viewed mfp s ss :
  preserves all_viewed (Mapping3D.read_connections mfp s ss).
Proof. apply read_connections_all. Qed.

(** A successful [readFromFile] ends with the connectivity loop run on the
    entries it has read. *)
Lemma readFromFile_normal_inv fs path m0 r m' :
  Mapping3D.readFromFile fs path m0 = Normal r m' ->
  exists m1, all_viewed m1
             /\ for_each (Mapping3D.m_entry m1) Mapping3D.connect m1
                = Normal tt m'.
Proof.
  unfold Mapping3D.readFromFile.
  destruct (fs_file fs path) as [text|]; [|discriminate].
  destruct (Mapping3D.skip _ _) as [[s mfp]|]; [|discriminate].
  destruct (regex_match_pattern1 s) as [r1|]; [|discriminate].
  destruct (stoi r1) as [e|N]; [discriminate|].
  cbn [bind lift ret]. destruct (N <=? 0); [discriminate|].
  cbn [bind Mapping3D.release_all modify].
  set (mi := Mapping3D.set_m_blk (repeat None (Z.to_nat N))
               {| Mapping3D.m_blk := []; Mapping3D.m_entry := [] |}).
  assert (Hi : all_viewed mi).
  { intros k b Hk. unfold mi in Hk; simpl in Hk.
    apply nth_error_In, repeat_spec in Hk. discriminate. }
  assert (RB := @read_blocks_viewed (Z.to_nat N) N mfp s mi Hi).
  unfold bind at 1.
  destruct (Mapping3D.read_blocks (Z.to_nat N) N mfp s mi)
    as [[s' mfp'] m2|ex2 sx2| |]; try discriminate.
  destruct (Mapping3D.skip mfp' s') as [[s'' mfp'']|]; [|discriminate].
  assert (RC := @read_connections_viewed mfp'' s'' (mkss "" true) m2 RB).
  unfold bind at 1.
  destruct (Mapping3D.read_connections mfp'' s'' (mkss "" true) m2)
    as [[] m3|ex3 sx3| |]; try discriminate.
  unfold bind at 1. unfold get_state. unfold bind at 1.
  destruct (for_each (Mapping3D.m_entry m3) Mapping3D.connect m3)
    as [[] m4|ex4 sx4| |] eqn:FC; try discriminate.
  unfold bind at 1.
  destruct (for_each (Mapping3D.m_entry m3) Mapping3D.counterpart m4)
    as [[] m5|ex5 sx5| |] eqn:CP; try discriminate.
  apply counterpart_pass in CP. subst m5.
  unfold ret. intros H; injection H as _ <-.
  exists m3. auto.
Qed.

(* ------------------------------------------------------------------ *)
(** ** C4, C3, C2: [nFace()] and [numbering()] *)

Ltac solve_concrete :=
  repeat match goal with
         | |- _ /\ _ => split
         | |- Forall _ _ => constructor
         | |- allocated _ => unfold allocated
         | |- model_wf _ => unfold model_wf
         | |- block_wf _ => unfold block_wf
         end;
  try (vm_compute; first [reflexivity | discriminate | intro; discriminate]).

Lemma quad_faces_below bs :
  Forall (fun b => 2 <= Block3D.IDIM b /\ 2 <= Block3D.JDIM b
                   /\ 2 <= Block3D.KDIM b) bs ->
  zsum (map block_quad_faces bs) <= zsum (map block_faces bs)
  /\ 0 <= zsum (map block_quad_faces bs)
  /\ (bs <> [] -> zsum (map block_quad_faces bs) < zsum (map block_faces bs)).
Proof.
  induction 1 as [|b bs (HI & HJ & HK) _ (IH1 & IH2 & IH3)]; simpl.
  - split; [lia|]. split; [lia|]. intros E. exfalso. now apply E.
  - assert (H : 0 <= block_quad_faces b < block_faces b).
    { unfold block_quad_faces, block_faces.
      set (a := Block3D.IDIM b - 1). set (c := Block3D.JDIM b - 1).
      set (d := Block3D.KDIM b - 1).
      replace (Block3D.IDIM b) with (a + 1) by (unfold a; ring).
      replace (Block3D.JDIM b) with (c + 1) by (unfold c; ring).
      replace (Block3D.KDIM b) with (d + 1) by (unfold d; ring).
      assert (Ha : 1 <= a) by (unfold a; lia).
      assert (Hc : 1 <= c) by (unfold c; lia).
      assert (Hd : 1 <= d) by (unfold d; lia).
      assert (0 < a * c) by (apply Z.mul_pos_pos; lia).
      assert (0 < a * d) by (apply Z.mul_pos_pos; lia).
      assert (0 < c * d) by (apply Z.mul_pos_pos; lia).
      assert (0 < a * c * d) by (apply Z.mul_pos_pos; lia).
      assert (E1 : a * (c + 1) * (d + 1) + (a + 1) * c * (d + 1)
                   + (a + 1) * (c + 1) * d
                   = (a + 1) * c * d + a * (c + 1) * d + a * c * (d + 1)
                     + (a * c + a * d + c * d + a + c + d)) by ring.
      assert (E2 : (a + 1) * c * d + a * (c + 1) * d + a * c * (d + 1)
                   = 3 * (a * c * d) + a * c + a * d + c * d) by ring.
      replace (a + 1 - 1) with a by ring.
      replace (c + 1 - 1) with c by ring.
      replace (d + 1 - 1) with d by ring.
      rewrite E1, E2. clearbody a c d. lia. }
    split; [lia|]. split; [lia|]. intros _. lia.
Qed.

Lemma fresh_dims this b :
  fresh_block this b ->
  2 <= Block3D.IDIM b /\ 2 <= Block3D.JDIM b /\ 2 <= Block3D.KDIM b.
Proof.
  intros (nI & nJ & nK & HI & HJ & HK & Hb & _).
  unfold Block3D.IDIM, Block3D.JDIM, Block3D.KDIM. rewrite Hb.
  cbn. lia.
Qed.

Lemma wrap_differ x y o :
  y < x < 2 ^ 64 + y ->
  wrap (x - o) <> wrap (y - o) /\ wrap (x - o) <> y - o.
Proof.
  intros H.
  assert (A : wrap (x - o) <> wrap (y - o)).
  { unfold wrap. intros E.
    assert (Z : (x - o - (y - o)) mod 2 ^ 64 = 0).
    { rewrite Zminus_mod, E, Z.sub_diag. reflexivity. }
    replace (x - o - (y - o)) with (x - y) in Z by ring.
    rewrite Z.mod_small in Z by lia. lia. }
  split; [exact A|]. intros E. apply A. rewrite E.
  symmetry. apply wrap_small. rewrite <- E. unfold wrap.
  apply Z.mod_pos_bound. reflexivity.
Qed.

(** C4. Where the code departs from the claim: the expression summed by
    [nFace()] is not a count of quadrilateral faces.  On every parsed model
    whose slots all hold a block, [nFace()] returns the sum of
    [(nI-1)*nJ*nK + nI*(nJ-1)*nK + nI*nJ*(nK-1)] over the blocks minus
    [(e1-s1)*(e2-s2)] for every [ONE_TO_ONE] entry, modulo 2^64; each block
    has fewer quadrilateral faces than that, so that the result is never
    the number of faces of the specification as soon as the model has a
    block and the sum fits in a [size_t].  On the unit cube of scenario 1 it
    returns 12 where there are 6 faces, on the two glued cubes of scenario 2
    it returns 23 where there are 11.  On a model with a slot that holds
    [nullptr], such as the parsed model of a file that gives the id 1 to
    two dimension lines, it dereferences a null pointer. *)
Theorem C4_nFace_is_not_the_face_count :
  (forall fs path m0 r m,
      Mapping3D.readFromFile fs path m0 = Normal r m -> allocated m ->
      Mapping3D.nFace m
      = Normal (wrap (zsum (map block_faces (blocks m))
                      - zsum (map entry_overlap (Mapping3D.m_entry m)))) m
      /\ zsum (map block_quad_faces (blocks m))
         <= zsum (map block_faces (blocks m))
      /\ (blocks m <> [] -> zsum (map block_faces (blocks m)) < 2 ^ 64 ->
          Mapping3D.nFace m <> Normal (wrap (spec_face_count m)) m
          /\ Mapping3D.nFace m <> Normal (spec_face_count m) m))
  /\ (exists m, parse nmf_cube = Some m
                /\ Mapping3D.nFace m = Normal 12 m
                /\ spec_face_count m = 6)
  /\ (exists m, parse nmf_two_cubes = Some m
                /\ Mapping3D.nFace m = Normal 23 m
                /\ spec_face_count m = 11)
  /\ (forall m, ~ allocated m -> Mapping3D.nFace m = Undefined)
  /\ (exists m, parse nmf_duplicate_block_id = Some m
                /\ ~ allocated m
                /\ Mapping3D.nFace m = Undefined).
Proof.
  split; [|split; [|split; [|split]]].
  - intros fs path m0 r m Hr Ha.
    pose proof (@readFromFile_all_fresh _ _ _ _ _ Hr) as Hf.
    assert (Hn : Mapping3D.nFace m = Normal (nFace_value m) m).
    { apply nFace_returns; auto.
      eapply all_blocks_Forall; [|exact Hf].
      intros this b; apply fresh_is3D. }
    assert (Hd : Forall (fun b => 2 <= Block3D.IDIM b /\ 2 <= Block3D.JDIM b
                                  /\ 2 <= Block3D.KDIM b) (blocks m)).
    { eapply all_blocks_Forall; [|exact Hf]. apply fresh_dims. }
    destruct (quad_faces_below Hd) as (Q1 & Q2 & Q3).
    split; [exact Hn|]. split; [exact Q1|].
    intros Hne Hfit. specialize (Q3 Hne).
    rewrite Hn. unfold nFace_value, spec_face_count.
    destruct (@wrap_differ (zsum (map block_faces (blocks m)))
                (zsum (map block_quad_faces (blocks m)))
                (zsum (map entry_overlap (Mapping3D.m_entry m))))
      as [D1 D2]; [lia|].
    split; intros E; injection E as E; auto.
  - eexists. split; [vm_compute; reflexivity|].
    split; vm_compute; reflexivity.
  - eexists. split; [vm_compute; reflexivity|].
    split; vm_compute; reflexivity.
  - apply nFace_null.
  - eexists. split; [vm_compute; reflexivity|].
    match goal with |- ~ allocated ?m /\ _ =>
      assert (Hn : ~ allocated m)
    end.
    { unfold allocated. cbn [Mapping3D.m_blk]. intros H.
      inversion H as [|? ? _ H']. inversion H' as [|? ? H'' _].
      now apply H''. }
    split; [exact Hn | now apply nFace_null].
Qed.

(** The theorem on the two glued cubes: what [nFace()] returns is not the
    11 faces of scenario 2. *)
Lemma C4_nFace_is_not_the_face_count_witness :
  exists m, parse nmf_two_cubes = Some m
            /\ allocated m /\ blocks m <> []
            /\ spec_face_count m = 11
            /\ Mapping3D.nFace m <> Normal 11 m.
Proof.
  eexists. split; [vm_compute; reflexivity|]. split; [solve_concrete|].
  split; [discriminate|]. split; [vm_compute; reflexivity|].
  match goal with |- Mapping3D.nFace ?m <> _ =>
    destruct (proj1 C4_nFace_is_not_the_face_count
                (one_file "in.nmf" nmf_two_cubes) "in.nmf" Mapping3D.new 0 m
                eq_refl) as (_ & _ & H)
  end.
  - solve_concrete.
  - apply H; [discriminate | vm_compute; reflexivity].
Defined.

(** C3. On a well-formed model the cell sweep of [numbering()] hands out
    the ids 1, 2, ... densely: read block after block in the order of the
    slots, each block in the order of its storage, the ids are exactly
    1 .. total; the cell [(i, j, k)] of the block in slot [p] gets the number
    of cells of the blocks before it plus
    [(i-1) + (nI-1)*((j-1) + (nJ-1)*(k-1)) + 1], so that [i] runs fastest,
    then [j], then [k]; and the count reached is what [nCell()] returns.
    In a parsed model the block in slot [p] is the block of id [p + 1]. *)
Theorem C3_cell_numbering :
  (forall m, model_wf m ->
     exists m',
       final_state (Mapping3D.numbering m) = Some m'
       /\ cell_ids m' = zseq 1 (Z.to_nat (zsum (map block_cells (blocks m))))
       /\ Mapping3D.nCell m' = Normal (zsum (map block_cells (blocks m))) m'
       /\ forall p b i j k,
            nth_error (Mapping3D.m_blk m) p = Some (Some b) ->
            1 <= i < Block3D.IDIM b -> 1 <= j < Block3D.JDIM b ->
            1 <= k < Block3D.KDIM b ->
            exists b' c,
              nth_error (Mapping3D.m_blk m') p = Some (Some b')
              /\ Block3D.base b' = Block3D.base b
              /\ Block3D.cell b' i j k = inr c
              /\ CELL.CellSeq c
                 = cells_before m p + cell_offset b i j k + 1)
  /\ (forall fs path m0 r m p b,
        Mapping3D.readFromFile fs path m0 = Normal r m ->
        nth_error (Mapping3D.m_blk m) p = Some (Some b) ->
        Block3D.index b = Z.of_nat p + 1).
Proof.
  split.
  - intros m Hwf. exists (cells_numbered m).
    assert (Hwf' := Hwf). destruct Hwf' as (Ha & Hb & HT).
    split; [|split; [|split]].
    + rewrite numbering_outcome by auto.
      destruct (nFace_value m =? 0); reflexivity.
    + unfold cell_ids, blocks, cells_numbered; simpl.
      apply number_blocks_ids. exact Hb.
    + rewrite nCell_returns.
      * rewrite cells_numbered_cells, wrap_small; auto.
        split; [apply zsum_cells_nonneg; auto|lia].
      * apply cells_numbered_allocated; auto.
      * eapply is3D_by_base; [apply cells_numbered_blocks_base|].
        apply wf_is3D; auto.
    + intros p b i j k Hp Hi Hj Hk.
      apply cells_numbered_cell; auto.
  - intros fs path m0 r m p b Hr Hp.
    destruct (@readFromFile_all_fresh _ _ _ _ _ Hr p b Hp)
      as (nI & nJ & nK & _ & _ & _ & Hbase & _).
    unfold Block3D.index. rewrite Hbase. reflexivity.
Qed.

(** The theorem on the two glued cubes: the cells get the ids 1 and 2. *)
Lemma C3_cell_numbering_witness :
  exists m, parse nmf_two_cubes = Some m
            /\ model_wf m
            /\ exists m', final_state (Mapping3D.numbering m) = Some m'
                          /\ cell_ids m' = [1; 2].
Proof.
  eexists. split; [vm_compute; reflexivity|].
  match goal with |- model_wf ?m /\ _ =>
    assert (Hwf : model_wf m) by solve_concrete
  end.
  split; [exact Hwf|].
  destruct (proj1 C3_cell_numbering _ Hwf) as (m' & H1 & H2 & _).
  exists m'. split; [exact H1|]. rewrite H2. reflexivity.
Defined.

Lemma faces_positive bs :
  Forall block_wf bs -> bs <> [] -> 0 < zsum (map block_faces bs).
Proof.
  intros H. induction H as [|b bs Hb Hbs IH]; intros Hne; [congruence|].
  simpl.
  assert (0 < block_faces b).
  { destruct Hb as (_ & H1 & H2 & H3 & _). unfold block_faces.
    assert (0 < (Block3D.IDIM b - 1) * Block3D.JDIM b * Block3D.KDIM b)
      by (repeat apply Z.mul_pos_pos; lia).
    assert (0 < Block3D.IDIM b * (Block3D.JDIM b - 1) * Block3D.KDIM b)
      by (repeat apply Z.mul_pos_pos; lia).
    assert (0 < Block3D.IDIM b * Block3D.JDIM b * (Block3D.KDIM b - 1))
      by (repeat apply Z.mul_pos_pos; lia).
    lia. }
  destruct bs as [|b1 bs]; [simpl; lia|].
  assert (0 < zsum (map block_faces (b1 :: bs))) by (apply IH; congruence).
  lia.
Qed.

Lemma no_interface_overlap es :
  Forall (fun e => ENTRY.Type_ e <> BC.ONE_TO_ONE) es ->
  zsum (map entry_overlap es) = 0.
Proof.
  induction 1 as [|e es He _ IH]; simpl; auto.
  unfold entry_overlap at 1. apply Z.eqb_neq in He. rewrite He. lia.
Qed.

(** C2, amended. On every well-formed model for which [nFace()] is not
    zero, [numbering()] numbers all the cells and then throws
    [std::length_error]: the face sweep leaves its counter at 0.  The ids of
    the nodes and faces are left as they were, and in a parsed model none has
    been assigned; the constructor [Mapping3D(inp)] does not return.
    [nFace()] is not zero, in particular, when the model has a block, has no
    [ONE_TO_ONE] entry and its face count fits in a [size_t]. *)
Theorem C2_numbering_throws :
  (forall m, model_wf m -> nFace_value m <> 0 ->
     Mapping3D.nFace m = Normal (nFace_value m) m
     /\ Mapping3D.numbering m
        = Raised (length_error "Inconsistent num of cells detected.")
                 (cells_numbered m)
     /\ cell_ids (cells_numbered m)
        = zseq 1 (Z.to_nat (zsum (map block_cells (blocks m)))))
  /\ (forall fs inp m r,
        Mapping3D.readFromFile fs inp Mapping3D.new = Normal r m ->
        model_wf m -> nFace_value m <> 0 ->
        Mapping3D.new_from_file fs inp
        = Raised (length_error "Inconsistent num of cells detected.")
                 (cells_numbered m)
        /\ no_face_node_ids (cells_numbered m))
  /\ (forall m, model_wf m -> blocks m <> [] -> no_interface m ->
        zsum (map block_faces (blocks m)) < 2 ^ 64 ->
        nFace_value m <> 0).
Proof.
  split; [|split].
  - intros m Hwf Hnz. assert (Hwf' := Hwf). destruct Hwf' as (Ha & Hb & HT).
    split; [|split].
    + apply nFace_returns; auto. apply wf_is3D; auto.
    + rewrite numbering_outcome by auto.
      apply Z.eqb_neq in Hnz. rewrite Hnz. reflexivity.
    + unfold cell_ids, blocks, cells_numbered; simpl.
      apply number_blocks_ids. exact Hb.
  - intros fs inp m r Hr Hwf Hnz. split.
    + unfold Mapping3D.new_from_file. unfold bind at 1. rewrite Hr.
      unfold bind at 1. rewrite numbering_outcome by auto.
      apply Z.eqb_neq in Hnz. rewrite Hnz. reflexivity.
    + apply cells_numbered_no_ids.
      exact (@readFromFile_all_fresh _ _ _ _ _ Hr).
  - intros m (Ha & Hb & HT) Hne Hni Hfit.
    unfold nFace_value. rewrite no_interface_overlap by auto.
    rewrite Z.sub_0_r.
    assert (Hp := faces_positive Hb Hne).
    rewrite wrap_small by lia. lia.
Qed.

(** The theorem on the unit cube of scenario 1. *)
Lemma C2_numbering_throws_witness :
  exists m, parse nmf_cube = Some m
            /\ model_wf m /\ nFace_value m <> 0
            /\ Mapping3D.new_from_file (one_file "in.nmf" nmf_cube) "in.nmf"
               = Raised (length_error "Inconsistent num of cells detected.")
                        (cells_numbered m).
Proof.
  eexists. split; [vm_compute; reflexivity|].
  match goal with |- model_wf ?m /\ _ =>
    assert (Hwf : model_wf m) by solve_concrete;
    assert (Hnz : nFace_value m <> 0) by (vm_compute; discriminate)
  end.
  split; [exact Hwf|]. split; [exact Hnz|].
  apply (proj1 (proj2 C2_numbering_throws) (one_file "in.nmf" nmf_cube)
               "in.nmf" _ 0); auto.
Defined.

(** C2 as stated fails: this model has one block of 2 x 2 x 2 nodes, and
    [numbering()] returns 0, as does the constructor, because [nFace()] is
    12 - 3 * 4 = 0. *)
Lemma C2_numbering_returns_counterexample :
  exists m, parse nmf_no_face_left = Some m
            /\ model_wf m
            /\ map (fun b => (Block3D.IDIM b, Block3D.JDIM b, Block3D.KDIM b))
                   (blocks m) = [(2, 2, 2)]
            /\ Mapping3D.nFace m = Normal 0 m
            /\ Mapping3D.numbering m = Normal 0 (cells_numbered m)
            /\ Mapping3D.new_from_file (one_file "in.nmf" nmf_no_face_left)
                 "in.nmf" = Normal tt (cells_numbered m).
Proof.
  eexists. split; [vm_compute; reflexivity|].
  split; [solve_concrete|].
  repeat split; vm_compute; reflexivity.
Qed.

(* ------------------------------------------------------------------ *)
(** ** C5, C6, C7: what [readFromFile] accepts *)

Lemma connect_pass_designated es : forall m m',
  for_each es Mapping3D.connect m = Normal tt m' ->
  forall e, In e es -> ENTRY.Type_ e = BC.ONE_TO_ONE ->
            designated (Mapping3D.nBlk m) e <> None.
Proof.
  induction es as [|e0 es IH]; intros m m' Hrun e Hin Hty; [destruct Hin|].
  destruct Hin as [->|Hin].
  - cbn [for_each] in Hrun. unfold bind in Hrun.
    destruct (Mapping3D.connect e m) as [[] m1|ex sx| |] eqn:Hc;
      try discriminate.
    destruct (@connect_normal _ _ _ Hc)
      as [[Hty' _]|(_ & n1 & f1 & n2 & f2 & Hd & _)]; congruence.
  - cbn [for_each] in Hrun. unfold bind in Hrun.
    destruct (Mapping3D.connect e0 m) as [[] m1|ex sx| |] eqn:Hc;
      try discriminate.
    assert (HN : Mapping3D.nBlk m1 = Mapping3D.nBlk m).
    { destruct (@connect_normal _ _ _ Hc)
        as [[_ ->]|(_ & n1 & f1 & n2 & f2 & _ & _ & ->)]; auto.
      rewrite !set_neighbourSurf_nBlk. reflexivity. }
    rewrite <- HN. eapply IH; eauto.
Qed.

(** C5, amended. The pass that establishes connectivity never rejects an
    interface list because a surface is named twice: it runs to its end on
    every list whose [ONE_TO_ONE] entries designate surfaces of allocated
    blocks, and a later entry overwrites the [neighbourSurf] an earlier one
    has set: whatever the entries before a [ONE_TO_ONE] entry [e] have
    assigned, at the end of the pass each of the two surfaces of [e] that
    no entry after [e] names points to the other surface of [e].  In the
    model a successful [readFromFile] returns, every [ONE_TO_ONE] entry
    designates two surfaces and, when no surface is named twice, the
    [neighbourSurf] of each of the two points to the other. *)
Theorem C5_surface_pairing :
  (forall fs path m0 r m,
      Mapping3D.readFromFile fs path m0 = Normal r m ->
      forall e, In e (Mapping3D.m_entry m) ->
                ENTRY.Type_ e = BC.ONE_TO_ONE ->
        exists n1 f1 n2 f2,
          designated (Mapping3D.nBlk m) e = Some (n1, f1, n2, f2)
          /\ (NoDup (named_surfaces (Mapping3D.nBlk m) (Mapping3D.m_entry m)) ->
              neighbour_at m n1 f1 = Some (mkptr (n2 + 1) f2)
              /\ neighbour_at m n2 f2 = Some (mkptr (n1 + 1) f1)))
  /\ (forall es m,
         allocated m ->
         (forall e, In e es -> ENTRY.Type_ e = BC.ONE_TO_ONE ->
                    designated (Mapping3D.nBlk m) e <> None) ->
         exists m', for_each es Mapping3D.connect m = Normal tt m')
  /\ (forall pre e post m m' n1 f1 n2 f2,
         six_surfaces m ->
         for_each (pre ++ e :: post) Mapping3D.connect m = Normal tt m' ->
         ENTRY.Type_ e = BC.ONE_TO_ONE ->
         designated (Mapping3D.nBlk m) e = Some (n1, f1, n2, f2) ->
         (~ In (n1, f1) (named_surfaces (Mapping3D.nBlk m) post) ->
          neighbour_at m' n1 f1 = Some (mkptr (n2 + 1) f2))
         /\ (~ In (n2, f2) (named_surfaces (Mapping3D.nBlk m) post) ->
             neighbour_at m' n2 f2 = Some (mkptr (n1 + 1) f1)))
  /\ (forall fs path m0 r m pre e post n1 f1 n2 f2,
         Mapping3D.readFromFile fs path m0 = Normal r m ->
         Mapping3D.m_entry m = pre ++ e :: post ->
         ENTRY.Type_ e = BC.ONE_TO_ONE ->
         designated (Mapping3D.nBlk m) e = Some (n1, f1, n2, f2) ->
         (~ In (n1, f1) (named_surfaces (Mapping3D.nBlk m) post) ->
          neighbour_at m n1 f1 = Some (mkptr (n2 + 1) f2))
         /\ (~ In (n2, f2) (named_surfaces (Mapping3D.nBlk m) post) ->
             neighbour_at m n2 f2 = Some (mkptr (n1 + 1) f1))).
Proof.
  split; [|split; [|split]].
  - intros fs path m0 r m Hr e Hin Hty.
    destruct (@readFromFile_normal_inv _ _ _ _ _ Hr) as (m1 & Hv & Hrun).
    destruct (@connect_pass _ _ _ (viewed_six Hv) Hrun)
      as (A1 & A2 & A3 & A4 & A5).
    rewrite A1, A2 in *.
    assert (Hd := @connect_pass_designated _ _ _ Hrun e Hin Hty).
    destruct (designated (Mapping3D.nBlk m1) e) as [[[[n1 f1] n2] f2]|] eqn:D;
      [|congruence].
    exists n1, f1, n2, f2. split; [reflexivity|].
    intros Hnd. eapply A5; eauto.
  - intros es m Ha Hd. apply connect_pass_total; auto.
  - intros pre e post m m' n1 f1 n2 f2 H6 Hrun Hty Hd.
    eapply connect_pass_last; eauto.
  - intros fs path m0 r m pre e post n1 f1 n2 f2 Hr He Hty Hd.
    destruct (@readFromFile_normal_inv _ _ _ _ _ Hr) as (m1 & Hv & Hrun).
    destruct (@connect_pass _ _ _ (viewed_six Hv) Hrun) as (A1 & A2 & _).
    rewrite A1 in *. rewrite <- A2, He in Hrun.
    eapply connect_pass_last; eauto using viewed_six.
Qed.

(** The theorem on the two glued cubes: surface 2 of block 1 and surface 1
    of block 2 point to each other; and on the three blocks of scenario 5:
    the second entry has overwritten the neighbour the first one gave to
    surface 2 of block 1. *)
Lemma C5_surface_pairing_witness :
  (exists m, parse nmf_two_cubes = Some m
             /\ NoDup (named_surfaces (Mapping3D.nBlk m) (Mapping3D.m_entry m))
             /\ neighbour_at m 0 1 = Some (mkptr 2 0)
             /\ neighbour_at m 1 0 = Some (mkptr 1 1))
  /\ (exists m, parse nmf_surface_named_twice = Some m
                /\ neighbour_at m 0 1 = Some (mkptr 3 0)
                /\ neighbour_at m 2 0 = Some (mkptr 1 1)).
Proof.
  split.
  - eexists. split; [vm_compute; reflexivity|].
    match goal with |- NoDup (named_surfaces (Mapping3D.nBlk ?m) _) /\ _ =>
      assert (Hnd : NoDup (named_surfaces (Mapping3D.nBlk m) (Mapping3D.m_entry m)))
    end.
    { vm_compute. repeat constructor; simpl; intuition discriminate. }
    split; [exact Hnd|].
    match goal with |- neighbour_at ?m _ _ = _ /\ _ =>
      destruct (proj1 C5_surface_pairing (one_file "in.nmf" nmf_two_cubes)
                  "in.nmf" Mapping3D.new 0 m eq_refl
                  (ENTRY.DoubleSideEntry 2 (RANGE.mk 1 2 1 2 1 2)
                                         (RANGE.mk 2 1 1 2 1 2) false))
        as (n1 & f1 & n2 & f2 & Hd & Hp)
    end.
    + left; reflexivity.
    + reflexivity.
    + vm_compute in Hd. injection Hd as <- <- <- <-. apply Hp. exact Hnd.
  - eexists. split; [vm_compute; reflexivity|].
    match goal with |- neighbour_at ?m _ _ = _ /\ _ =>
      destruct (proj2 (proj2 (proj2 C5_surface_pairing))
                  (one_file "in.nmf" nmf_surface_named_twice)
                  "in.nmf" Mapping3D.new 0 m
                  [ENTRY.DoubleSideEntry 2 (RANGE.mk 1 2 1 2 1 2)
                                         (RANGE.mk 2 1 1 2 1 2) false]
                  (ENTRY.DoubleSideEntry 2 (RANGE.mk 1 2 1 2 1 2)
                                         (RANGE.mk 3 1 1 2 1 2) false)
                  [] 0 1 2 0 eq_refl eq_refl eq_refl eq_refl)
        as [H1 H2]
    end.
    split; [apply H1 | apply H2]; intros [].
Defined.

(** C5 as stated fails: two entries name surface 2 of block 1, and
    [readFromFile] returns; the surface ends up paired with block 3 while
    surface 1 of block 2 still points to it. *)
Lemma C5_duplicate_accepted_counterexample :
  exists m, parse nmf_surface_named_twice = Some m
            /\ named_surfaces (Mapping3D.nBlk m) (Mapping3D.m_entry m)
               = [(0, 1); (1, 0); (0, 1); (2, 0)]
            /\ neighbour_at m 0 1 = Some (mkptr 3 0)
            /\ neighbour_at m 1 0 = Some (mkptr 1 1)
            /\ neighbour_at m 2 0 = Some (mkptr 1 1).
Proof.
  eexists. split; [vm_compute; reflexivity|].
  repeat split; vm_compute; reflexivity.
Qed.

Lemma lookup_surfaces_same e e' m :
  same_surfaces e e' ->
  Mapping3D.lookup_surfaces e m = Mapping3D.lookup_surfaces e' m.
Proof.
  destruct e as [bc r|bc r1 r2 sw], e' as [bc' r'|bc' r1' r2' sw']; simpl;
    try tauto.
  intros (_ & -> & -> & -> & ->). reflexivity.
Qed.

Lemma type_same e e' : same_surfaces e e' -> ENTRY.Type_ e = ENTRY.Type_ e'.
Proof.
  destruct e as [bc r|bc r1 r2 sw], e' as [bc' r'|bc' r1' r2' sw']; simpl;
    tauto.
Qed.

(** C6, amended. Parsing never fails on account of the areas of the two
    ranges of a [ONE_TO_ONE] entry: no area is compared.  The constructor
    of the entry accepts any two ranges and stores them as read; the loops
    that establish connectivity and counterpart information depend on the
    block and face indices of the entry only, not on the extents of its
    ranges; and the connectivity loop runs to its end as soon as these
    indices designate surfaces of allocated blocks. *)
Theorem C6_no_area_check :
  (forall c0 c1 f,
      ENTRY.new_double "ONE_TO_ONE" c0 c1 f
      = inr (ENTRY.DoubleSideEntry BC.ONE_TO_ONE (RANGE.new c0) (RANGE.new c1) f))
  /\ (forall e e' m,
         same_surfaces e e' ->
         Mapping3D.connect e m = Mapping3D.connect e' m
         /\ Mapping3D.counterpart e m = Mapping3D.counterpart e' m)
  /\ (forall es m,
         allocated m ->
         (forall e, In e es -> ENTRY.Type_ e = BC.ONE_TO_ONE ->
                    designated (Mapping3D.nBlk m) e <> None) ->
         exists m', for_each es Mapping3D.connect m = Normal tt m').
Proof.
  split; [|split].
  - intros c0 c1 f. reflexivity.
  - intros e e' m Hs. unfold Mapping3D.connect, Mapping3D.counterpart.
    rewrite (type_same _ _ Hs).
    destruct (ENTRY.Type_ e' =? BC.ONE_TO_ONE); auto.
    unfold bind. rewrite (lookup_surfaces_same _ _ m Hs). auto.
  - intros es m Ha Hd. apply connect_pass_total; auto.
Qed.

(** The theorem at two entries on the same surfaces, one with ranges of
    equal areas and one with 2 x 3 against 3 x 3 quads. *)
Lemma C6_no_area_check_witness :
  exists m, parse nmf_area_mismatch = Some m
    /\ same_surfaces
         (ENTRY.DoubleSideEntry 2 (RANGE.mk 1 2 1 3 1 4) (RANGE.mk 2 1 1 4 1 4) false)
         (ENTRY.DoubleSideEntry 2 (RANGE.mk 1 2 1 3 1 4) (RANGE.mk 2 1 1 3 1 4) false)
    /\ Mapping3D.connect
         (ENTRY.DoubleSideEntry 2 (RANGE.mk 1 2 1 3 1 4) (RANGE.mk 2 1 1 4 1 4) false) m
       = Mapping3D.connect
         (ENTRY.DoubleSideEntry 2 (RANGE.mk 1 2 1 3 1 4) (RANGE.mk 2 1 1 3 1 4) false) m.
Proof.
  eexists. split; [vm_compute; reflexivity|].
  assert (Hs : same_surfaces
         (ENTRY.DoubleSideEntry 2 (RANGE.mk 1 2 1 3 1 4) (RANGE.mk 2 1 1 4 1 4) false)
         (ENTRY.DoubleSideEntry 2 (RANGE.mk 1 2 1 3 1 4) (RANGE.mk 2 1 1 3 1 4) false))
    by (simpl; repeat split; reflexivity).
  split; [exact Hs|].
  apply (proj1 (proj2 C6_no_area_check) _ _ _ Hs).
Defined.

(** C6 as stated fails: the entry pairs 2 x 3 quads with 3 x 3 quads, and
    [readFromFile] returns with the entry stored as read and the two
    surfaces paired. *)
Lemma C6_area_mismatch_accepted_counterexample :
  exists m, parse nmf_area_mismatch = Some m
    /\ Mapping3D.m_entry m
       = [ENTRY.DoubleSideEntry BC.ONE_TO_ONE (RANGE.mk 1 2 1 3 1 4)
                                (RANGE.mk 2 1 1 4 1 4) false]
    /\ map (fun e => match e with
                     | ENTRY.DoubleSideEntry _ r1 r2 _ =>
                         (RANGE.face_num r1, RANGE.face_num r2)
                     | ENTRY.SingleSideEntry _ r1 => (RANGE.face_num r1, 0)
                     end) (Mapping3D.m_entry m) = [(6, 9)]
    /\ neighbour_at m 0 1 = Some (mkptr 2 0)
    /\ neighbour_at m 1 0 = Some (mkptr 1 1).
Proof.
  eexists. split; [vm_compute; reflexivity|].
  repeat split; vm_compute; reflexivity.
Qed.

(** C7. Where the code departs from the claim: the id 1 appears on two
    dimension lines and the id 2 on none, and [readFromFile] returns.  The
    second line has replaced the block of the first, slot 2 still holds
    [nullptr], and [numbering()] and [writeToFile] dereference it. *)
Theorem C7_duplicate_block_id_accepted :
  exists m, parse nmf_duplicate_block_id = Some m
            /\ slot_dims m = [Some (3, 3, 3); None]
            /\ Mapping3D.numbering m = Undefined
            /\ Mapping3D.writeToFile m "out.nmf" (one_file "in.nmf" "")
               = Undefined.
Proof.
  eexists. split; [vm_compute; reflexivity|].
  repeat split; vm_compute; reflexivity.
Qed.

(** C1. Where the code departs from the claim: on the unit cube and on the
    two glued cubes the constructor ends in [std::length_error], and the
    six face ids of every cell are still 0. *)
Theorem C1_faces_get_no_id :
  (exists m,
      Mapping3D.new_from_file (one_file "in.nmf" nmf_cube) "in.nmf"
      = Raised (length_error "Inconsistent num of cells detected.") m
      /\ cell_ids m = [1]
      /\ face_ids m = [[0; 0; 0; 0; 0; 0]])
  /\ (exists m,
         Mapping3D.new_from_file (one_file "in.nmf" nmf_two_cubes) "in.nmf"
         = Raised (length_error "Inconsistent num of cells detected.") m
         /\ cell_ids m = [1; 2]
         /\ face_ids m = [[0; 0; 0; 0; 0; 0]; [0; 0; 0; 0; 0; 0]]).
Proof.
  split; eexists; (split; [vm_compute; reflexivity|]);
    split; vm_compute; reflexivity.
Qed.

(** C9. Where the code departs from the claim: the wall ends at node
    100000 of a block of 100000 x 2 x 2 nodes; [writeToFile] sets [E1] in a
    column of 6 characters, right after [S1], so that the second parse reads
    [S1] as 1100000 and shifts the fields that follow.  On the two glued
    cubes, whose numbers fit their columns, the entries and the dimensions
    come back as they were. *)
Theorem C9_round_trip_breaks :
  option_map Mapping3D.m_entry (parse nmf_long_block)
  = Some [ENTRY.SingleSideEntry BC.WALL (RANGE.mk 1 3 1 100000 1 2)]
  /\ option_map slot_dims (parse nmf_long_block) = Some [Some (100000, 2, 2)]
  /\ option_map Mapping3D.m_entry (reparse nmf_long_block)
     = Some [ENTRY.SingleSideEntry BC.WALL (RANGE.mk 1 3 1100000 1 2 0)]
  /\ option_map slot_dims (reparse nmf_long_block) = Some [Some (100000, 2, 2)]
  /\ option_map Mapping3D.m_entry (reparse nmf_two_cubes)
     = option_map Mapping3D.m_entry (parse nmf_two_cubes)
  /\ option_map slot_dims (reparse nmf_two_cubes)
     = option_map slot_dims (parse nmf_two_cubes)
  /\ parse nmf_two_cubes <> None.
Proof.
  repeat split; vm_compute; first [reflexivity | discriminate].
Qed.
(* ------------------------------------------------------------------ *)
(** ** The face pass as a sequence of visits *)

Lemma bind_normal {S A B} (m : M S A) (f : A -> M S B) s b s' :
  bind m f s = Normal b s' ->
  exists a s1, m s = Normal a s1 /\ f a s1 = Normal b s'.
Proof.
  unfold bind. destruct (m s) as [a s1|e s1| |]; try discriminate. eauto.
Qed.

Lemma lift_normal {S A} (r : exn + A) (s : S) a s' :
  lift r s = Normal a s' -> r = inr a /\ s' = s.
Proof.
  destruct r as [e|x]; simpl; unfold throw, ret; intros H;
    [discriminate|injection H as <- <-]; auto.
Qed.

Lemma for_each_ext {S X} (f g : X -> M S unit) xs s :
  (forall x s, f x s = g x s) -> for_each xs f s = for_each xs g s.
Proof.
  intros H; revert s; induction xs as [|x xs IH]; intros s; simpl; auto.
  unfold bind. rewrite H. destruct (g x s) as [[] s1|e s1| |]; auto.
Qed.

Lemma for_each_app {S X} (f : X -> M S unit) l1 l2 s :
  for_each (l1 ++ l2) f s = (for_each l1 f ;;; for_each l2 f) s.
Proof.
  revert s; induction l1 as [|x l1 IH]; intros s; simpl.
  - reflexivity.
  - unfold bind. destruct (f x s) as [[] s1|e s1| |]; auto.
Qed.

Lemma for_each_map {S X Y} (h : X -> Y) (f : Y -> M S unit) xs s :
  for_each (map h xs) f s = for_each xs (fun x => f (h x)) s.
Proof.
  revert s; induction xs as [|x xs IH]; intros s; simpl; auto.
  unfold bind. destruct (f (h x) s) as [[] s1|e s1| |]; auto.
Qed.

Lemma for_each_flat_map {S X Y} (g : X -> list Y) (f : Y -> M S unit) xs s :
  for_each (flat_map g xs) f s = for_each xs (fun x => for_each (g x) f) s.
Proof.
  revert s; induction xs as [|x xs IH]; intros s; simpl; auto.
  rewrite for_each_app. unfold bind.
  destruct (for_each (g x) f s) as [[] s1|e s1| |]; auto.
Qed.

Lemma bind_ext {S A B} (m m' : M S A) (f f' : A -> M S B) s :
  m s = m' s -> (forall a s1, f a s1 = f' a s1) ->
  bind m f s = bind m' f' s.
Proof.
  intros Hm Hf. unfold bind. rewrite Hm.
  destruct (m' s) as [a s1|e s1| |]; auto.
Qed.

(** Two nested loops over a body are the loop over the visits they
    generate. *)
Lemma loops2 (g : Z -> Z -> visit) xs ys s :
  for_each xs (fun x => for_each ys (fun y => visit_step (g x y))) s
  = for_each (flat_map (fun x => map (g x) ys) xs) visit_step s.
Proof.
  rewrite for_each_flat_map. apply for_each_ext. intros x s1.
  rewrite for_each_map. reflexivity.
Qed.

Lemma loops3 (g : Z -> Z -> Z -> visit) xs ys zs s :
  for_each xs (fun x => for_each ys (fun y =>
     for_each zs (fun z => visit_step (g x y z)))) s
  = for_each (flat_map (fun x => flat_map (fun y => map (g x y) zs) ys) xs)
             visit_step s.
Proof.
  rewrite for_each_flat_map. apply for_each_ext. intros x s1.
  apply loops2.
Qed.

Lemma copy_faces_of_block_visits b s :
  MESH.copy_faces_of_block b s = for_each (visits_of_block b) visit_step s.
Proof.
  unfold MESH.copy_faces_of_block, visits_of_block.
  repeat (rewrite for_each_app; apply bind_ext; [|intros [] ?]);
    try (rewrite <- loops3; reflexivity);
    try (rewrite <- loops2; reflexivity).
Qed.

Lemma copy_face_info_visits blocks s :
  MESH.copy_face_info blocks s
  = for_each (visits blocks) visit_step (cleared s).
Proof.
  unfold MESH.copy_face_info, visits. unfold bind, modify.
  fold (cleared s). rewrite for_each_flat_map.
  apply for_each_ext. intros b s1. apply copy_faces_of_block_visits.
Qed.

(* ------------------------------------------------------------------ *)
(** ** One visit *)

Lemma upd_nth_twice {A} (g h : A -> A) n (l : list A) :
  upd_nth n g (upd_nth n h l) = upd_nth n (fun x => g (h x)) l.
Proof.
  revert n; induction l as [|a l IH]; intros [|n]; simpl; auto.
  now rewrite IH.
Qed.

Lemma upd_nth_ext {A} (g h : A -> A) n (l : list A) :
  (forall x, g x = h x) -> upd_nth n g l = upd_nth n h l.
Proof.
  intros E; revert n; induction l as [|a l IH]; intros [|n]; simpl; auto.
  - now rewrite E.
  - now rewrite IH.
Qed.

Lemma resize4_assigned (a b c d : Z) l :
  set_nth 3 d (set_nth 2 c (set_nth 1 b (set_nth 0 a (FACE.resize 4 l))))
  = [a; b; c; d].
Proof.
  destruct l as [|x [|y [|z [|w l]]]]; reflexivity.
Qed.

Lemma copy_nodes_normal f c n1 n2 n3 n4 s s' :
  MESH.copy_nodes f c n1 n2 n3 n4 s = Normal tt s' ->
  exists l, nodes_of c [n1; n2; n3; n4] = map inr l /\
    s' = MESH.mk (upd_nth (Z.to_nat (f - 1)) (FACE.set_includedNode l)
                          (MESH.m_face s)) (MESH.visited s).
Proof.
  unfold MESH.copy_nodes, nodes_of. simpl map.
  destruct (CELL.NodeSeq c n1) as [e|v1]; [discriminate|].
  destruct (CELL.NodeSeq c n2) as [e|v2]; [discriminate|].
  destruct (CELL.NodeSeq c n3) as [e|v3]; [discriminate|].
  destruct (CELL.NodeSeq c n4) as [e|v4]; [discriminate|].
  intros H. exists [v1; v2; v3; v4]. split; [reflexivity|].
  cbv [bind lift ret MESH.set_node MESH.upd_face modify MESH.m_face
       MESH.visited] in H.
  injection H as <-. f_equal.
  rewrite !upd_nth_twice. apply upd_nth_ext. intros x.
  unfold FACE.set_includedNode; simpl. f_equal. apply resize4_assigned.
Qed.

Lemma face_normal f s x s' :
  MESH.face f s = Normal x s' ->
  s' = s /\ 0 < f /\ face_of s f = Some x
  /\ (Z.to_nat (f - 1) < length (MESH.m_face s))%nat.
Proof.
  unfold MESH.face, face_of, at_.
  destruct (f =? 0) eqn:E0; [discriminate|].
  destruct ((0 <=? f - 1) && (f - 1 <? Z.of_nat (length (MESH.m_face s))))
    eqn:Eb; [|discriminate].
  apply andb_prop in Eb as [E1 E2].
  destruct (nth_error (MESH.m_face s) (Z.to_nat (f - 1))) as [y|] eqn:En;
    [|discriminate].
  simpl. unfold ret. intros H; injection H as <- <-.
  assert (E : (f <=? 0) = false) by lia. rewrite E.
  repeat split; auto; lia.
Qed.

Lemma set_visited_normal n s s' :
  MESH.set_visited n s = Normal tt s' ->
  0 <= n /\ (Z.to_nat n < length (MESH.visited s))%nat
  /\ s' = MESH.mk (MESH.m_face s) (set_nth (Z.to_nat n) true (MESH.visited s)).
Proof.
  unfold MESH.set_visited.
  destruct ((0 <=? n) && (n <? Z.of_nat (length (MESH.visited s)))) eqn:Eb;
    [|discriminate].
  apply andb_prop in Eb as [E1 E2]. intros H; injection H as <-.
  repeat split; auto; lia.
Qed.

Lemma get_visited_normal n s v s' :
  MESH.get_visited n s = Normal v s' ->
  s' = s /\ v = nth (Z.to_nat n) (MESH.visited s) false.
Proof.
  unfold MESH.get_visited.
  destruct ((0 <=? n) && (n <? Z.of_nat (length (MESH.visited s))));
    [|discriminate].
  intros H; injection H as <- <-. auto.
Qed.

(** The faces and flags other than those of [f] after an assignment to
    the record and the flag of [f]. *)
Lemma face_of_upd f g h l vis :
  0 < f -> 0 < g -> g <> f ->
  face_of (MESH.mk (upd_nth (Z.to_nat (f - 1)) h l) vis) g
  = face_of (MESH.mk l vis) g.
Proof.
  intros Hf Hg Hn. unfold face_of; simpl.
  destruct (g <=? 0); auto. apply nth_error_upd_nth_neq. lia.
Qed.

Lemma face_of_upd_same f h l vis x :
  face_of (MESH.mk l vis) f = Some x ->
  face_of (MESH.mk (upd_nth (Z.to_nat (f - 1)) h l) vis) f = Some (h x).
Proof.
  unfold face_of; simpl. destruct (f <=? 0); [discriminate|].
  intros H. now rewrite nth_error_upd_nth_eq, H.
Qed.

Lemma face_of_visited l vis vis' g :
  face_of (MESH.mk l vis) g = face_of (MESH.mk l vis') g.
Proof. reflexivity. Qed.

Lemma nth_set_nth_eq {A} (x d : A) v n :
  (n < length v)%nat -> nth n (set_nth n x v) d = x.
Proof.
  revert n; induction v as [|a v IH]; intros [|n] H; simpl in *; try lia; auto.
  apply IH; lia.
Qed.

Lemma nth_set_nth_neq {A} (x d : A) v n k :
  n <> k -> nth k (set_nth n x v) d = nth k v d.
Proof.
  revert n k; induction v as [|a v IH]; intros [|n] [|k] H; simpl; auto;
    try contradiction.
Qed.

Lemma seen_set f l vis :
  0 < f -> (Z.to_nat (f - 1) < length vis)%nat ->
  seen (MESH.mk l (set_nth (Z.to_nat (f - 1)) true vis)) f = true.
Proof.
  intros Hf Hl. unfold seen; simpl.
  rewrite nth_set_nth_eq by auto. rewrite andb_true_r. lia.
Qed.

Lemma seen_set_other f g l l' vis :
  0 < f -> g <> f ->
  seen (MESH.mk l (set_nth (Z.to_nat (f - 1)) true vis)) g
  = seen (MESH.mk l' vis) g.
Proof.
  intros Hf Hn. unfold seen; simpl.
  destruct (0 <? g) eqn:Eg; simpl; auto.
  apply nth_set_nth_neq. lia.
Qed.

Lemma internal_face_normal c a fs n1 n2 n3 n4 s s' :
  MESH.internal_face c a fs n1 n2 n3 n4 s = Normal tt s' ->
  exists f l,
    CELL.FaceSeq c fs = inr f /\ nodes_of c [n1; n2; n3; n4] = map inr l
    /\ face_of s' f
       = Some (FACE.mk false FACE.QUADRILATERAL l
                       (CELL.CellSeq a) (CELL.CellSeq c))
    /\ seen s' f = true /\ same_elsewhere f s s'.
Proof.
  unfold MESH.internal_face. intros H.
  apply bind_normal in H as (f & s1 & Hf & H).
  apply lift_normal in Hf as [Hf ->].
  apply bind_normal in H as (x & s1 & Hx & H).
  apply face_normal in Hx as (-> & Hpos & Hx & Hlen).
  cbv [MESH.upd_face] in H.
  unfold bind at 1 in H. cbv [modify] in H.
  unfold bind at 1 in H. 
  apply bind_normal in H as ([] & s2 & Hc & H).
  apply copy_nodes_normal in Hc as (l & Hl & ->).
  unfold bind at 1 in H. unfold bind at 1 in H.
  apply set_visited_normal in H as (_ & Hv & ->).
  cbv [MESH.m_face MESH.visited] in *.
  exists f, l. split; [auto|]. split; [auto|].
  rewrite !upd_nth_twice. split; [|split].
  - destruct s as [fl vis]. erewrite face_of_upd_same by exact Hx.
    reflexivity.
  - replace (f - 1 + 1 - 1) with (f - 1) in * by lia.
    apply seen_set; auto.
  - intros g Hg. destruct s as [fl vis]. simpl. split.
    + destruct (Z_lt_le_dec 0 g) as [Hg0|Hg0].
      * rewrite face_of_upd by auto. reflexivity.
      * unfold face_of. now replace (g <=? 0) with true by lia.
    + apply seen_set_other; auto.
Qed.

Lemma same_elsewhere_upd f h s :
  0 < f ->
  same_elsewhere f s
    (MESH.mk (upd_nth (Z.to_nat (f - 1)) h (MESH.m_face s)) (MESH.visited s)).
Proof.
  intros Hf g Hg. destruct s as [fl vis]. simpl. split; [|reflexivity].
  destruct (Z_lt_le_dec 0 g) as [Hg0|Hg0].
  - now apply face_of_upd.
  - unfold face_of. now replace (g <=? 0) with true by lia.
Qed.

Lemma surface_face_normal b c fs ss n1 n2 n3 n4 s s' :
  MESH.surface_face b c fs ss n1 n2 n3 n4 s = Normal tt s' ->
  exists f sf,
    CELL.FaceSeq c fs = inr f /\ Block3D.surf b ss = inr sf
    /\ seen s' f = true /\ same_elsewhere f s s'
    /\ if seen s f then
         exists old left right,
           face_of s f = Some old
           /\ face_of s' f
              = Some (FACE.mk (FACE.atBdry old) (FACE.type old)
                              (FACE.includedNode old) left right)
           /\ (FACE.rightCell old <> 0 -> right = FACE.rightCell old)
       else
         exists l,
           nodes_of c [n1; n2; n3; n4] = map inr l
           /\ face_of s' f
              = Some (FACE.mk (match SURF.neighbourSurf sf with
                               | None => true
                               | Some _ => false
                               end)
                              FACE.QUADRILATERAL l 0 (CELL.CellSeq c)).
Proof.
  unfold MESH.surface_face. intros H.
  apply bind_normal in H as (f & s1 & Hf & H).
  apply lift_normal in Hf as [Hf ->].
  apply bind_normal in H as (x & s1 & Hx & H).
  apply face_normal in Hx as (-> & Hpos & Hx & Hlen).
  apply bind_normal in H as (sf & s1 & Hsf & H).
  apply lift_normal in Hsf as [Hsf ->].
  apply bind_normal in H as (v & s1 & Hv & H).
  apply get_visited_normal in Hv as (-> & Hv).
  exists f, sf. split; [auto|]. split; [auto|].
  assert (Hseen : seen s f = v).
  { unfold seen. rewrite <- Hv. replace (0 <? f) with true by lia.
    reflexivity. }
  rewrite Hseen. destruct v.
  - (* second round *)
    assert (Hupd : forall h,
               MESH.upd_face f h s = Normal tt s' ->
               seen s' f = true /\ same_elsewhere f s s'
               /\ face_of s' f = Some (h x)).
    { intros h Hh. cbv [MESH.upd_face modify] in Hh. injection Hh as <-.
      split; [|split].
      - exact Hseen.
      - now apply same_elsewhere_upd.
      - destruct s as [fl vis]. now apply face_of_upd_same. }
    destruct (negb (FACE.atBdry x)); [|discriminate].
    destruct (FACE.leftCell x =? 0) eqn:El.
    + apply Hupd in H as (H1 & H2 & H3). split; [auto|]. split; [auto|].
      exists x, (CELL.CellSeq c), (FACE.rightCell x). auto.
    + destruct (FACE.rightCell x =? 0) eqn:Er; [|discriminate].
      apply Hupd in H as (H1 & H2 & H3). split; [auto|]. split; [auto|].
      exists x, (FACE.leftCell x), (CELL.CellSeq c).
      split; [auto|]. split; [auto|]. lia.
  - (* first round *)
    cbv [MESH.upd_face] in H.
    unfold bind at 1 in H. cbv [modify] in H.
    unfold bind at 1 in H.
    apply bind_normal in H as ([] & s2 & Hc & H).
    apply copy_nodes_normal in Hc as (l & Hl & ->).
    unfold bind at 1 in H. unfold bind at 1 in H.
    apply set_visited_normal in H as (_ & Hvl & ->).
    cbv [MESH.m_face MESH.visited] in *.
    rewrite !upd_nth_twice. split; [|split].
    + apply seen_set; auto.
    + intros g Hg. destruct s as [fl vis]. simpl. split.
      * destruct (Z_lt_le_dec 0 g) as [Hg0|Hg0].
        -- rewrite face_of_upd by auto. reflexivity.
        -- unfold face_of. now replace (g <=? 0) with true by lia.
      * apply seen_set_other; auto.
    + exists l. split; [auto|].
      destruct s as [fl vis]. erewrite face_of_upd_same by exact Hx.
      reflexivity.
Qed.

(* ------------------------------------------------------------------ *)
(** ** A run of visits *)

Lemma face_index_Some v c f :
  cell_at (v_block v) (v_cur v) = inr c -> CELL.FaceSeq c (v_face v) = inr f ->
  face_index v = Some f.
Proof. unfold face_index. now intros -> ->. Qed.

(** A visit that returns leaves all faces but its own as they are. *)
Lemma visit_step_frame v s s' :
  visit_step v s = Normal tt s' ->
  exists f, face_index v = Some f /\ seen s' f = true /\ same_elsewhere f s s'.
Proof.
  unfold visit_step. intros H.
  apply bind_normal in H as (c & s1 & Hc & H).
  apply lift_normal in Hc as [Hc ->].
  destruct (v_adj v) as [a|].
  - apply bind_normal in H as (adj & s1 & Ha & H).
    apply lift_normal in Ha as [Ha ->].
    apply internal_face_normal in H as (f & l & Hf & _ & _ & Hs & He).
    exists f. split; [now apply face_index_Some with c|]. auto.
  - apply surface_face_normal in H as (f & sf & Hf & _ & Hs & He & _).
    exists f. split; [now apply face_index_Some with c|]. auto.
Qed.

Lemma not_on_face f v g :
  negb (on_face f v) = true -> face_index v = Some g -> f <> g.
Proof.
  unfold on_face. intros H E. rewrite E in H.
  destruct (g =? f) eqn:Eg; [discriminate|]. lia.
Qed.

Lemma run_frame f us s s' :
  for_each us visit_step s = Normal tt s' ->
  forallb (fun u => negb (on_face f u)) us = true ->
  face_of s' f = face_of s f /\ seen s' f = seen s f.
Proof.
  revert s; induction us as [|u us IH]; intros s H Hn.
  - simpl in H. injection H as <-. auto.
  - simpl in H, Hn. apply andb_prop in Hn as [Hu Hn].
    apply bind_normal in H as ([] & s1 & H1 & H).
    apply visit_step_frame in H1 as (g & Hg & _ & He).
    destruct (IH _ H Hn) as [E1 E2]. rewrite E1, E2.
    apply He. eapply not_on_face; eauto.
Qed.

(** Later visits from the surface loops keep the nodes, the kind, the
    boundary flag and a non-zero right cell of a face already visited. *)
Lemma run_surface_kept f us bd ty l r : 
  r <> 0 ->
  forall s s' left,
  for_each us visit_step s = Normal tt s' ->
  forallb (fun u => negb (on_face f u)
                    || match v_adj u with None => true | Some _ => false end)
          us = true ->
  seen s f = true ->
  face_of s f = Some (FACE.mk bd ty l left r) ->
  exists left', face_of s' f = Some (FACE.mk bd ty l left' r).
Proof.
  intros Hr. induction us as [|u us IH]; intros s s' left H Hn Hs Hf.
  - simpl in H. injection H as <-. eauto.
  - simpl in H, Hn. apply andb_prop in Hn as [Hu Hn].
    apply bind_normal in H as ([] & s1 & H1 & H).
    destruct (on_face f u) eqn:Eon.
    + simpl in Hu. unfold visit_step in H1.
      apply bind_normal in H1 as (c & s2 & Hc & H1).
      apply lift_normal in Hc as [Hc ->].
      destruct (v_adj u) as [a|]; [discriminate|].
      apply surface_face_normal in H1
        as (g & sf & Hg & _ & Hs1 & He & Hcase).
      assert (g = f) as ->.
      { unfold on_face in Eon.
        rewrite (@face_index_Some _ _ _ Hc Hg) in Eon. lia. }
      rewrite Hs in Hcase.
      destruct Hcase as (old & left1 & right1 & Hold & Hnew & Hright).
      rewrite Hf in Hold. injection Hold as <-. simpl in *.
      rewrite (Hright Hr) in Hnew.
      eapply IH; eauto.
    + apply visit_step_frame in H1 as (g & Hg & _ & He).
      assert (f <> g) as Hfg by (eapply not_on_face; eauto; now rewrite Eon).
      destruct (He f Hfg) as [E1 E2].
      apply (IH s1 s' left H Hn).
      * now rewrite E2.
      * now rewrite E1.
Qed.

Lemma run_split pre v post s0 st :
  for_each (pre ++ v :: post) visit_step s0 = Normal tt st ->
  exists s1 s2,
    for_each pre visit_step s0 = Normal tt s1
    /\ visit_step v s1 = Normal tt s2
    /\ for_each post visit_step s2 = Normal tt st
    /\ pass_until pre v s0 = Normal tt s2.
Proof.
  intros H. rewrite for_each_app in H.
  apply bind_normal in H as ([] & s1 & Hpre & H). simpl in H.
  apply bind_normal in H as ([] & s2 & Hv & Hpost).
  exists s1, s2. repeat split; auto.
  unfold pass_until. rewrite for_each_app. unfold bind. rewrite Hpre.
  simpl. unfold bind. rewrite Hv. reflexivity.
Qed.

Lemma seen_cleared s f : seen (cleared s) f = false.
Proof.
  unfold seen, cleared; simpl. rewrite nth_repeat. apply andb_false_r.
Qed.

Lemma In_zseq x lo n : lo <= x < lo + Z.of_nat n -> In x (zseq lo n).
Proof.
  revert lo; induction n as [|n IH]; intros lo H; simpl.
  - lia.
  - destruct (Z.eq_dec lo x) as [E|E]; [now left|right].
    apply IH. lia.
Qed.

Lemma In_range x lo hi : lo <= x <= hi - 1 -> In x (range lo hi).
Proof. intros H. apply In_zseq. lia. Qed.

Lemma In_loops3 (g : Z -> Z -> Z -> visit) xs ys zs x y z :
  In x xs -> In y ys -> In z zs ->
  In (g x y z) (flat_map (fun x => flat_map (fun y => map (g x y) zs) ys) xs).
Proof.
  intros Hx Hy Hz. apply in_flat_map. exists x. split; [auto|].
  apply in_flat_map. exists y. split; [auto|]. now apply in_map.
Qed.

(** Every cell that has an internal face on its low side is visited for
    it. *)
Lemma internal_faces_visited blocks b d i j k :
  In b blocks -> has_internal_face b d i j k ->
  In (internal_visit b d i j k) (visits blocks).
Proof.
  intros Hb (Hd & Hi & Hj & Hk). unfold visits. apply in_flat_map.
  exists b. split; [auto|]. unfold visits_of_block.
  destruct Hd as [-> | [-> | ->]]; simpl in Hi, Hj, Hk.
  - apply in_or_app. left.
    apply (In_loops3 (fun k j i => internal_visit b 1 i j k));
      now apply In_range.
  - apply in_or_app. right. apply in_or_app. left.
    apply (In_loops3 (fun k i j => internal_visit b 3 i j k));
      now apply In_range.
  - apply in_or_app. right. apply in_or_app. right. apply in_or_app. left.
    apply (In_loops3 (fun i j k => internal_visit b 5 i j k));
      now apply In_range.
Qed.

Lemma cell_wrap_i b i j k :
  Block3D.cell b (wrap i) j k = Block3D.cell b i j k.
Proof.
  unfold Block3D.cell, Block3D.cell_pos. now rewrite wrap_sub_l.
Qed.

Lemma cell_wrap_j b i j k :
  Block3D.cell b i (wrap j) k = Block3D.cell b i j k.
Proof.
  unfold Block3D.cell, Block3D.cell_pos. now rewrite wrap_sub_l.
Qed.

Lemma cell_wrap_k b i j k :
  Block3D.cell b i j (wrap k) = Block3D.cell b i j k.
Proof.
  unfold Block3D.cell, Block3D.cell_pos. now rewrite wrap_sub_l.
Qed.

Lemma no_visit_of_Some v f us :
  face_index v = Some f -> no_visit_of v us = true ->
  forallb (fun u => negb (on_face f u)) us = true.
Proof. unfold no_visit_of. now intros ->. Qed.

Lemma internal_visit_recorded blocks st0 st pre v post a :
  MESH.copy_face_info blocks st0 = Normal tt st ->
  visits blocks = pre ++ v :: post ->
  v_adj v = Some a -> no_visit_of v post = true ->
  internal_face_recorded st (v_block v) (v_cur v) a (v_face v) (copied v).
Proof.
  intros Hrun Hsplit Ha Hlast.
  rewrite copy_face_info_visits, Hsplit in Hrun.
  apply run_split in Hrun as (s1 & s2 & Hpre & Hv & Hpost & _).
  unfold visit_step in Hv. rewrite Ha in Hv.
  apply bind_normal in Hv as (c & s3 & Hc & Hv).
  apply lift_normal in Hc as [Hc ->].
  apply bind_normal in Hv as (adj & s3 & Hadj & Hv).
  apply lift_normal in Hadj as [Hadj ->].
  apply internal_face_normal in Hv as (f & l & Hf & Hl & Hrec & _ & _).
  exists c, adj, f, l. repeat (split; [assumption|]).
  pose proof (@face_index_Some _ _ _ Hc Hf) as Hfi.
  destruct (@run_frame f _ _ _ Hpost (@no_visit_of_Some _ _ _ Hfi Hlast)) as [E _].
  now rewrite E.
Qed.

Lemma surface_visit_recorded blocks st0 st pre v post :
  MESH.copy_face_info blocks st0 = Normal tt st ->
  visits blocks = pre ++ v :: post ->
  v_adj v = None -> no_visit_of v pre = true ->
  exists c f l sf s1,
    let record := fun left =>
      FACE.mk (match SURF.neighbourSurf sf with
               | None => true
               | Some _ => false
               end)
              FACE.QUADRILATERAL l left (CELL.CellSeq c) in
    cell_at (v_block v) (v_cur v) = inr c
    /\ CELL.FaceSeq c (v_face v) = inr f
    /\ nodes_of c (copied v) = map inr l
    /\ Block3D.surf (v_block v) (v_surf v) = inr sf
    /\ pass_until pre v (cleared st0) = Normal tt s1
    /\ face_of s1 f = Some (record 0)
    /\ (no_visit_of v post = true -> face_of st f = Some (record 0))
    /\ (no_internal_visit_of v post = true -> CELL.CellSeq c <> 0 ->
        exists left, face_of st f = Some (record left)).
Proof.
  intros Hrun Hsplit Ha Hfirst.
  rewrite copy_face_info_visits, Hsplit in Hrun.
  apply run_split in Hrun as (s1 & s2 & Hpre & Hv & Hpost & Huntil).
  pose proof Hv as Hstep.
  unfold visit_step in Hv. rewrite Ha in Hv.
  apply bind_normal in Hv as (c & s3 & Hc & Hv).
  apply lift_normal in Hc as [Hc ->].
  apply surface_face_normal in Hv as (f & sf & Hf & Hsf & Hseen & _ & Hcase).
  pose proof (@face_index_Some _ _ _ Hc Hf) as Hfi.
  destruct (@run_frame f _ _ _ Hpre (@no_visit_of_Some _ _ _ Hfi Hfirst)) as [_ E].
  rewrite E, seen_cleared in Hcase. destruct Hcase as (l & Hl & Hrec).
  exists c, f, l, sf, s2. cbv zeta.
  repeat (split; [assumption|]). split.
  - intros Hlast.
    destruct (@run_frame f _ _ _ Hpost (@no_visit_of_Some _ _ _ Hfi Hlast)) as [E1 _].
    now rewrite E1.
  - intros Hsurf Hnum. unfold no_internal_visit_of in Hsurf.
    rewrite Hfi in Hsurf.
    exact (@run_surface_kept _ _ _ _ _ _ Hnum _ _ _ Hpost Hsurf Hseen Hrec).
Qed.

Lemma surface_nodes_ordering s : 1 <= s <= 6 -> surface_nodes s = ordering s.
Proof.
  intros H.
  assert (s = 1 \/ s = 2 \/ s = 3 \/ s = 4 \/ s = 5 \/ s = 6) as
      [-> | [-> | [-> | [-> | [-> | ->]]]]] by lia; reflexivity.
Qed.

(** C10. When the face pass returns, the face records follow the
    face-node-ordering table relative to the right cell.  Every cell that
    has an internal face on its low side (I: 2 <= i <= nI-1, and likewise
    for J and K) is visited for it; after the last visit of its face, an
    I-internal face has the cell (i-1,j,k) on the left, the cell (i,j,k) on
    the right and the nodes c1,c5,c8,c4 of the right cell, a J-internal
    face has (i,j-1,k) on the left and the nodes c6,c5,c1,c2, a K-internal
    face has (i,j,k-1) on the left and the nodes c4,c3,c2,c1.  A face of
    surface [s] takes, on the first visit of the face, the ordering of the
    table for [s], the cell behind it as right cell and 0 as left cell;
    this is the record of the assembled mesh when the face is not visited
    again, and with another left cell when it is visited again by the
    surface loops only and the right cell has a non-zero id. *)
Theorem C10_face_node_ordering blocks st0 st :
  MESH.copy_face_info blocks st0 = Normal tt st ->
  (forall b d i j k,
      In b blocks -> has_internal_face b d i j k ->
      In (internal_visit b d i j k) (visits blocks))
  /\ forall pre v post b i j k,
      visits blocks = pre ++ v :: post ->
      (v = internal_visit b 1 i j k -> no_visit_of v post = true ->
       internal_face_recorded st b (i, j, k) (i - 1, j, k) 1 [1; 5; 8; 4])
      /\ (v = internal_visit b 3 i j k -> no_visit_of v post = true ->
          internal_face_recorded st b (i, j, k) (i, j - 1, k) 3 [6; 5; 1; 2])
      /\ (v = internal_visit b 5 i j k -> no_visit_of v post = true ->
          internal_face_recorded st b (i, j, k) (i, j, k - 1) 5 [4; 3; 2; 1])
      /\ (forall s,
             1 <= s <= 6 -> v = surface_visit b s i j k ->
             no_visit_of v pre = true ->
             (exists s1,
                 pass_until pre v (cleared st0) = Normal tt s1
                 /\ surface_face_recorded s1 b (i, j, k) s (ordering s) 0)
             /\ (no_visit_of v post = true ->
                 surface_face_recorded st b (i, j, k) s (ordering s) 0)
             /\ (no_internal_visit_of v post = true ->
                 cell_numbered b (i, j, k) = true ->
                 exists left,
                   surface_face_recorded st b (i, j, k) s (ordering s) left)).
Proof.
  intros Hrun. split.
  { intros b d i j k. apply internal_faces_visited. }
  intros pre v post b i j k Hsplit.
  assert (Hint : forall d a,
             v = internal_visit b d i j k -> v_adj v = Some a ->
             no_visit_of v post = true ->
             internal_face_recorded st b (i, j, k) a (v_face v) (copied v)).
  { intros d a Hv Ha Hlast.
    pose proof (@internal_visit_recorded _ _ _ _ _ _ a Hrun Hsplit Ha Hlast)
      as H.
    rewrite Hv in H at 1 2.
    unfold internal_visit in H.
    destruct (d =? 1); [exact H|]. destruct (d =? 3); exact H. }
  split; [|split; [|split]].
  - intros Hv Hlast.
    destruct (Hint 1 (wrap (i - 1), j, k) Hv) as (c & a & f & l & H);
      [now rewrite Hv|auto|].
    rewrite Hv in H. simpl in H. rewrite cell_wrap_i in H.
    exists c, a, f, l. exact H.
  - intros Hv Hlast.
    destruct (Hint 3 (i, wrap (j - 1), k) Hv) as (c & a & f & l & H);
      [now rewrite Hv|auto|].
    rewrite Hv in H. simpl in H. rewrite cell_wrap_j in H.
    exists c, a, f, l. exact H.
  - intros Hv Hlast.
    destruct (Hint 5 (i, j, wrap (k - 1)) Hv) as (c & a & f & l & H);
      [now rewrite Hv|auto|].
    rewrite Hv in H. simpl in H. rewrite cell_wrap_k in H.
    exists c, a, f, l. exact H.
  - intros s Hs Hv Hfirst.
    assert (Ha : v_adj v = None) by now rewrite Hv.
    destruct (@surface_visit_recorded _ _ _ _ _ _ Hrun Hsplit Ha Hfirst)
      as (c & f & l & sf & s1 & Hc & Hf & Hl & Hsf & Hs1 & H1 & H2 & H3).
    rewrite Hv in Hc, Hf, Hl, Hsf. simpl in Hc, Hf, Hsf.
    unfold copied in Hl. simpl v_nodes in Hl.
    assert (Hl' : nodes_of c (ordering s) = map inr l).
    { rewrite <- Hl, <- (surface_nodes_ordering Hs).
      assert (s = 1 \/ s = 2 \/ s = 3 \/ s = 4 \/ s = 5 \/ s = 6) as
          [-> | [-> | [-> | [-> | [-> | ->]]]]] by lia; reflexivity. }
    split; [|split].
    + exists s1. split; [exact Hs1|]. exists c, f, l, sf.
      repeat (split; [assumption|]); assumption.
    + intros Hlast. exists c, f, l, sf.
      repeat (split; [assumption|]); auto.
    + intros Hsurf Hnum.
      assert (Hne : CELL.CellSeq c <> 0).
      { unfold cell_numbered, cell_at in Hnum. rewrite Hc in Hnum.
        destruct (CELL.CellSeq c =? 0) eqn:E; [discriminate|]. lia. }
      destruct (H3 Hsurf Hne) as (left & Hleft).
      exists left, c, f, l, sf.
      repeat (split; [assumption|]); assumption.
Qed.

(** The theorem on the slab: the face that its two cells share is
    recorded with cell 1 on the left, cell 2 on the right and the nodes
    c1,c5,c8,c4 of cell 2; its I-MIN face is recorded with the nodes
    c1,c5,c8,c4 of cell 1, no left cell and cell 1 on the right. *)
Lemma C10_face_node_ordering_witness :
  MESH.copy_face_info [slab] slab_faces = Normal tt slab_assembled
  /\ face_of slab_assembled 2
     = Some (FACE.mk false FACE.QUADRILATERAL [2; 8; 11; 5] 1 2)
  /\ face_of slab_assembled 1
     = Some (FACE.mk true FACE.QUADRILATERAL [1; 7; 10; 4] 0 1).
Proof.
  assert (Hrun : MESH.copy_face_info [slab] slab_faces
                 = Normal tt slab_assembled) by (vm_compute; reflexivity).
  split; [exact Hrun|].
  destruct (C10_face_node_ordering [slab] slab_faces Hrun) as [_ H].
  split.
  - destruct (H [] (internal_visit slab 1 2 1 1) (tl (visits [slab]))
                slab 2 1 1 eq_refl) as (H1 & _).
    destruct (H1 eq_refl eq_refl) as (c & a & f & l & Hc & Ha & Hf & Hl & Hr).
    vm_compute in Hc, Ha, Hf, Hl.
    injection Hc as <-. injection Ha as <-. injection Hf as <-.
    destruct l as [|n1 [|n2 [|n3 [|n4 [|]]]]]; try discriminate.
    injection Hl as <- <- <- <-. exact Hr.
  - destruct (H [internal_visit slab 1 2 1 1] (surface_visit slab 1 1 1 1)
                (tl (tl (visits [slab]))) slab 1 1 1 eq_refl)
      as (_ & _ & _ & H4).
    destruct (H4 1 ltac:(lia) eq_refl eq_refl) as (_ & H5 & _).
    destruct (H5 eq_refl) as (c & f & l & sf & Hc & Hf & Hl & Hsf & Hr).
    vm_compute in Hc, Hf, Hl, Hsf.
    injection Hc as <-. injection Hf as <-. injection Hsf as <-.
    destruct l as [|n1 [|n2 [|n3 [|n4 [|]]]]]; try discriminate.
    injection Hl as <- <- <- <-. exact Hr.
Defined.

(* ------------------------------------------------------------------ *)
(** ** Keywords of the boundary conditions *)

Lemma formalize_map s : BC.str_formalize s = Cstr.map formalize_char s.
Proof.
  unfold BC.str_formalize, formalize_char.
  induction s as [|c s IH]; simpl; [reflexivity|]. now rewrite IH.
Qed.

Lemma formalize_char_twice c : formalize_char (formalize_char c) = formalize_char c.
Proof.
  destruct c as [[] [] [] [] [] [] [] []]; reflexivity.
Qed.

Lemma str_formalize_twice s :
  BC.str_formalize (BC.str_formalize s) = BC.str_formalize s.
Proof.
  rewrite !formalize_map.
  induction s as [|c s IH]; simpl; [reflexivity|].
  now rewrite formalize_char_twice, IH.
Qed.

Lemma valid_idx_range x : BC.isValidBCIdx x = true <-> 1 <= x <= 13.
Proof.
  unfold BC.isValidBCIdx. rewrite existsb_exists. split.
  - intros (y & Hy & E). apply Z.eqb_eq in E. subst y.
    simpl in Hy. cbv [BC.COLLAPSED BC.ONE_TO_ONE BC.PATCHED BC.POLE_DIR1
      BC.POLE_DIR2 BC.SYM_X BC.SYM_Y BC.SYM_Z BC.UNPROCESSED BC.WALL BC.SYM
      BC.INFLOW BC.OUTFLOW] in Hy. lia.
  - intros H. exists x. split; [|apply Z.eqb_refl].
    assert (x = 1 \/ x = 2 \/ x = 3 \/ x = 4 \/ x = 5 \/ x = 6 \/ x = 7
            \/ x = 8 \/ x = 9 \/ x = 10 \/ x = 11 \/ x = 12 \/ x = 13)
      as E by lia.
    simpl. cbv [BC.COLLAPSED BC.ONE_TO_ONE BC.PATCHED BC.POLE_DIR1
      BC.POLE_DIR2 BC.SYM_X BC.SYM_Y BC.SYM_Z BC.UNPROCESSED BC.WALL BC.SYM
      BC.INFLOW BC.OUTFLOW]. lia.
Qed.

(** X1. Names and indices of the boundary conditions: [idx2str] is defined
    exactly on 1..13 and throws "Not found!" elsewhere; the name it gives
    is one [isValidBCStr] accepts and [str2idx] maps back to the index. *)
Theorem bc_index_name_round_trip x :
  (BC.isValidBCIdx x = true <-> 1 <= x <= 13)
  /\ (BC.isValidBCIdx x = true ->
      exists s, BC.idx2str x = inr s /\ BC.str2idx s = inr x
                /\ BC.isValidBCStr s = true)
  /\ (BC.isValidBCIdx x = false ->
      BC.idx2str x = inl (runtime_error "Not found!")).
Proof.
  split; [apply valid_idx_range|]. split.
  - intros H. apply valid_idx_range in H.
    assert (x = 1 \/ x = 2 \/ x = 3 \/ x = 4 \/ x = 5 \/ x = 6 \/ x = 7
            \/ x = 8 \/ x = 9 \/ x = 10 \/ x = 11 \/ x = 12 \/ x = 13)
      as E by lia.
    repeat (destruct E as [-> | E]; [eexists; repeat split; reflexivity|]).
    subst x. eexists; repeat split; reflexivity.
  - intros H.
    assert (~ 1 <= x <= 13) as Hn.
    { intros Hr. apply valid_idx_range in Hr. congruence. }
    unfold BC.idx2str, BC.find.
    cbv [BC.COLLAPSED BC.ONE_TO_ONE BC.PATCHED BC.POLE_DIR1
      BC.POLE_DIR2 BC.SYM_X BC.SYM_Y BC.SYM_Z BC.UNPROCESSED BC.WALL BC.SYM
      BC.INFLOW BC.OUTFLOW].
    repeat match goal with
           | |- context [x =? ?k] =>
               let E := fresh in
               destruct (Z.eqb_spec x k) as [E|E]; [exfalso; lia|]
           end.
    reflexivity.
Qed.

Lemma bc_index_name_round_trip_witness :
  (exists s, BC.idx2str BC.WALL = inr s /\ BC.str2idx s = inr BC.WALL
             /\ BC.isValidBCStr s = true)
  /\ BC.idx2str 14 = inl (runtime_error "Not found!").
Proof.
  destruct (bc_index_name_round_trip BC.WALL) as (_ & H1 & _).
  destruct (bc_index_name_round_trip 14) as (_ & _ & H2).
  split; [apply H1 | apply H2]; reflexivity.
Defined.

(** X2. The keywords are read without regard to case, with ['-'] for
    ['_']: normalising a name twice changes nothing more, and the lookups
    give the same answer on a name and on its normal form. *)
Theorem bc_keyword_normal_form s :
  BC.str_formalize (BC.str_formalize s) = BC.str_formalize s
  /\ BC.str2idx (BC.str_formalize s) = BC.str2idx s
  /\ BC.isValidBCStr (BC.str_formalize s) = BC.isValidBCStr s.
Proof.
  unfold BC.str2idx, BC.isValidBCStr. now rewrite str_formalize_twice.
Qed.

Ltac case_name t :=
  repeat match goal with
         | H : context [String.eqb t ?k] |- _ =>
             let E := fresh "E" in
             destruct (String.eqb_spec t k) as [E|E];
             [try (rewrite E in *; clear E)|]
         | |- context [String.eqb t ?k] =>
             let E := fresh "E" in
             destruct (String.eqb_spec t k) as [E|E];
             [try (rewrite E in *; clear E)|]
         end.

(** X3. [str2idx] knows one name more than [isValidBCStr]: every name the
    latter accepts is mapped to an index in 1..13, a name that is mapped
    is accepted unless its normal form is SYMMETRY, and SYMMETRY, which
    [str2idx] maps to [SYM], is refused by the constructor of an entry. *)
Theorem bc_symmetry_is_refused s :
  (BC.isValidBCStr s = true ->
   exists x, BC.str2idx s = inr x /\ BC.isValidBCIdx x = true)
  /\ (forall x, BC.str2idx s = inr x ->
         BC.isValidBCIdx x = true
         /\ (BC.isValidBCStr s = true \/ BC.str_formalize s = "SYMMETRY"))
  /\ (BC.str_formalize s = "SYMMETRY" ->
      BC.str2idx s = inr BC.SYM
      /\ BC.isValidBCStr s = false
      /\ forall c0 c1 f,
          ENTRY.new_single s c0
          = inl (runtime_error
                   ("Unsupported B.C. name: " ++ dquote ++ s ++ dquote))
          /\ ENTRY.new_double s c0 c1 f
             = inl (runtime_error
                      ("Unsupported B.C. name: " ++ dquote ++ s ++ dquote))).
Proof.
  unfold ENTRY.new_single, ENTRY.new_double, ENTRY.new_bc.
  unfold BC.isValidBCStr, BC.str2idx.
  generalize (BC.str_formalize s) as t. intros t.
  split; [|split].
  - intros H. simpl in H. unfold BC.find.
    case_name t; try discriminate; eexists; split; reflexivity.
  - intros x H. unfold BC.find in H. simpl existsb.
    case_name t; try discriminate; apply inr_inj in H; subst x;
      split; try reflexivity; auto.
  - intros ->. repeat split.
Qed.

Lemma bc_symmetry_is_refused_witness :
  BC.str2idx "Symmetry" = inr BC.SYM
  /\ ENTRY.new_single "Symmetry" [1; 1; 1; 2; 1; 2]
     = inl (runtime_error
              ("Unsupported B.C. name: " ++ dquote ++ "Symmetry" ++ dquote)).
Proof.
  destruct (bc_symmetry_is_refused "Symmetry") as (_ & _ & H).
  destruct (H eq_refl) as (H1 & _ & H2).
  split; [exact H1 | apply (H2 [1; 1; 1; 2; 1; 2] [] false)].
Defined.

(* ------------------------------------------------------------------ *)
(** ** 1-based indexing *)

Lemma at_inr {A} (v : list A) n :
  0 <= n < Z.of_nat (length v) ->
  exists x, at_ v n = inr x /\ nth_error v (Z.to_nat n) = Some x.
Proof.
  intros H. unfold at_.
  assert (E : (0 <=? n) && (n <? Z.of_nat (length v)) = true) by lia.
  rewrite E.
  destruct (nth_error v (Z.to_nat n)) as [x|] eqn:En; [eauto|].
  apply nth_error_None in En. lia.
Qed.

(** X4. [Array1D::operator()] of the NMF header takes the indices 1..N
    from the front and -N..-1 from the back, [-1] being the last element;
    0 and every index beyond N on either side is an [invalid_argument]
    that quotes the index. *)
Theorem nmf_array1d_indexing {A} (v : list A) (i : Z) :
  let N := Z.of_nat (length v) in
  (1 <= i <= N ->
   exists x, Array1D.get v i = inr x
             /\ nth_error v (Z.to_nat (i - 1)) = Some x)
  /\ (- N <= i <= -1 -> Array1D.get v i = Array1D.get v (i + N + 1))
  /\ (i = 0 \/ i < - N \/ N < i ->
      Array1D.get v i
      = inl (invalid_argument
               (dquote ++ Cstr.to_string i ++ dquote
                ++ " is not a valid 1-based index."))).
Proof.
  intros N. unfold Array1D.get, Array1D.index. fold N.
  split; [|split].
  - intros H.
    assert (E : (1 <=? i) && (i <=? N) = true) by lia. rewrite E.
    apply at_inr. lia.
  - intros H.
    assert (E1 : (1 <=? i) && (i <=? N) = false) by lia.
    assert (E2 : (- N <=? i) && (i <=? -1) = true) by lia.
    assert (E3 : (1 <=? i + N + 1) && (i + N + 1 <=? N) = true) by lia.
    rewrite E1, E2, E3. f_equal. lia.
  - intros H.
    assert (E1 : (1 <=? i) && (i <=? N) = false) by lia.
    assert (E2 : (- N <=? i) && (i <=? -1) = false) by lia.
    now rewrite E1, E2.
Qed.

Lemma nmf_array1d_indexing_witness :
  Array1D.get [10; 20; 30] (-1) = inr 30
  /\ Array1D.get [10; 20; 30] 3 = inr 30.
Proof.
  destruct (nmf_array1d_indexing [10; 20; 30] (-1)) as (_ & H & _).
  split; [|reflexivity].
  rewrite H by (simpl; lia). reflexivity.
Defined.

(* ------------------------------------------------------------------ *)
(** ** Construction of a block *)

(** X5. The constructor of [Block3D] refuses a dimension below 2 with
    [invalid_argument], before anything is allocated.  A block that it
    returns has dimensions of at least 2, index 0, the dimensions given,
    one cell record per cell (their number counted as [cell_num()] does,
    modulo 2^64), all without ids, and twelve edges and six surfaces that
    know their 1-based position and the block, with no neighbour yet. *)
Theorem block3d_constructor this nI nJ nK :
  (nI < 2 \/ nJ < 2 \/ nK < 2 ->
   Block3D.new this nI nJ nK = inl (invalid_argument "Invalid dimension."))
  /\ (forall b,
        Block3D.new this nI nJ nK = inr b ->
        nI <= INT_MAX -> nJ <= INT_MAX -> nK <= INT_MAX ->
        2 <= nI /\ 2 <= nJ /\ 2 <= nK
        /\ Block3D.index b = 0
        /\ (Block3D.IDIM b, Block3D.JDIM b, Block3D.KDIM b) = (nI, nJ, nK)
        /\ Block3D.m_cell b
           = repeat (CELL.mk 0 (repeat 0 8) (repeat 0 6))
                    (Z.to_nat ((nI - 1) * (nJ - 1) * (nK - 1) mod 2 ^ 64))
        /\ map EDGE.local_index (Block3D.m_edge b) = zseq 1 12
        /\ map SURF.local_index (Block3D.m_surf b) = zseq 1 6
        /\ Forall (fun e => EDGE.dependentBlock e = Some this
                            /\ EDGE.global_index e = 0) (Block3D.m_edge b)
        /\ Forall (fun s => SURF.dependentBlock s = Some this
                            /\ SURF.neighbourSurf s = None)
                  (Block3D.m_surf b)).
Proof.
  split.
  - intros H. unfold Block3D.new, BLOCK.new.
    assert (E : (nI <? 2) || (nJ <? 2) || (nK <? 2) = true) by lia.
    now rewrite E.
  - intros b Hb HI HJ HK. unfold Block3D.new, BLOCK.new in Hb.
    destruct ((nI <? 2) || (nJ <? 2) || (nK <? 2)) eqn:E; [discriminate Hb|].
    injection Hb as <-.
    assert (D : 2 <= nI /\ 2 <= nJ /\ 2 <= nK) by lia.
    destruct D as (DI & DJ & DK).
    split; [exact DI|]. split; [exact DJ|]. split; [exact DK|].
    unfold INT_MAX in *.
    split; [reflexivity|]. split.
    { unfold Block3D.IDIM, Block3D.JDIM, Block3D.KDIM; simpl.
      rewrite !wrap_small by lia. reflexivity. }
    split.
    { cbn [Block3D.m_cell]. f_equal. f_equal.
      unfold BLOCK.cell_num, BLOCK.is3D, BLOCK.IDIM, BLOCK.JDIM, BLOCK.KDIM.
      cbn [BLOCK.m_is3D BLOCK.m_nI BLOCK.m_nJ BLOCK.m_nK].
      fold (wrap ((nI - 1) * (nJ - 1) * (nK - 1))). wrap_ring. }
    split; [reflexivity|]. split; [reflexivity|].
    split; repeat constructor.
Qed.

(** The theorem on the block of 3 x 2 x 2 nodes, which has two cells, and
    on 3 x 1 x 2. *)
Lemma block3d_constructor_witness :
  exists b, Block3D.new 1 3 2 2 = inr b
            /\ length (Block3D.m_cell b) = 2%nat
            /\ map EDGE.local_index (Block3D.m_edge b) = zseq 1 12
            /\ Block3D.new 1 3 1 2 = inl (invalid_argument "Invalid dimension.").
Proof.
  destruct (Block3D.new 1 3 2 2) as [e|b] eqn:Hb;
    [vm_compute in Hb; discriminate Hb|].
  exists b. split; [reflexivity|].
  destruct (proj2 (block3d_constructor 1 3 2 2) b Hb)
    as (_ & _ & _ & _ & _ & Hc & He & _); try (unfold INT_MAX; lia).
  split; [rewrite Hc; reflexivity|]. split; [exact He|].
  apply (proj1 (block3d_constructor 1 3 1 2)). lia.
Defined.

(* ------------------------------------------------------------------ *)
(** ** Access to the cells, edges and surfaces of a block *)

Lemma lattice_inj a c i j k i' j' k' :
  0 <= i < a -> 0 <= j < c -> 0 <= i' < a -> 0 <= j' < c ->
  i + a * (j + c * k) = i' + a * (j' + c * k') ->
  i = i' /\ j = j' /\ k = k'.
Proof.
  intros Hi Hj Hi' Hj' E.
  assert (E1 : i = i').
  { transitivity ((i + a * (j + c * k)) mod a).
    - rewrite Z.mul_comm, Z_mod_plus_full. symmetry. apply Z.mod_small. lia.
    - rewrite E, Z.mul_comm, Z_mod_plus_full. apply Z.mod_small. lia. }
  assert (E2 : j + c * k = j' + c * k').
  { assert (H : a * (j + c * k) = a * (j' + c * k')) by lia.
    apply Z.mul_reg_l in H; lia. }
  assert (E3 : j = j').
  { transitivity ((j + c * k) mod c).
    - rewrite Z.mul_comm, Z_mod_plus_full. symmetry. apply Z.mod_small. lia.
    - rewrite E2, Z.mul_comm, Z_mod_plus_full. apply Z.mod_small. lia. }
  assert (E4 : c * k = c * k') by lia.
  apply Z.mul_reg_l in E4; [|lia]. auto.
Qed.

Lemma lattice_bounds nx ny nz i j k :
  1 <= nx -> 1 <= ny -> 1 <= nz ->
  0 <= i < nx -> 0 <= j < ny -> 0 <= k < nz ->
  0 <= nx * j /\ 0 <= nx * ny * k /\ nx * ny <= nx * ny * nz
  /\ 0 <= i + nx * (j + ny * k) < nx * ny * nz.
Proof.
  intros Hx Hy Hz Hi Hj Hk.
  assert (H0 : 0 <= nx * ny) by (apply Z.mul_nonneg_nonneg; lia).
  assert (H1 : 0 <= nx * j) by (apply Z.mul_nonneg_nonneg; lia).
  assert (H2 : 0 <= nx * ny * k) by (apply Z.mul_nonneg_nonneg; lia).
  assert (H3 : nx * ny <= nx * ny * nz).
  { rewrite <- (Z.mul_1_r (nx * ny)) at 1.
    apply Z.mul_le_mono_nonneg_l; lia. }
  assert (H4 : j + ny * k <= ny * nz - 1).
  { assert (ny * k <= ny * (nz - 1)) by (apply Z.mul_le_mono_nonneg_l; lia).
    lia. }
  assert (H5 : nx * (j + ny * k) <= nx * (ny * nz - 1))
    by (apply Z.mul_le_mono_nonneg_l; lia).
  assert (H6 : 0 <= ny * k) by (apply Z.mul_nonneg_nonneg; lia).
  assert (H7 : 0 <= nx * (j + ny * k)) by (apply Z.mul_nonneg_nonneg; lia).
  repeat split; try assumption; lia.
Qed.

Lemma cell_pos_in_range b i j k :
  block_wf b ->
  1 <= i < Block3D.IDIM b -> 1 <= j < Block3D.JDIM b ->
  1 <= k < Block3D.KDIM b ->
  Block3D.cell_pos b i j k = cell_offset b i j k
  /\ 0 <= cell_offset b i j k < Z.of_nat (length (Block3D.m_cell b)).
Proof.
  intros (_ & HI & HJ & HK & Hfit & Hlen) Hi Hj Hk.
  unfold block_cells in *.
  pose proof (offset_arith Hi Hj Hk) as (A1 & A2 & A3 & A4 & A5 & A6 & A7 & A8).
  assert (Hlen' : Z.of_nat (length (Block3D.m_cell b))
                  = (Block3D.IDIM b - 1) * (Block3D.JDIM b - 1)
                    * (Block3D.KDIM b - 1)).
  { rewrite Hlen. apply Z2Nat.id.
    repeat apply Z.mul_nonneg_nonneg; lia. }
  split.
  - unfold Block3D.cell_pos, cell_offset. cbv zeta.
    rewrite (wrap_small (a := i - 1)) by lia.
    rewrite (wrap_small (a := j - 1)) by lia.
    rewrite (wrap_small (a := k - 1)) by lia.
    rewrite (wrap_small (a := Block3D.IDIM b - 1)) by lia.
    rewrite (wrap_small (a := Block3D.JDIM b - 1)) by lia.
    rewrite (wrap_small (a := (Block3D.JDIM b - 1) * (k - 1))) by lia.
    rewrite (wrap_small
               (a := j - 1 + (Block3D.JDIM b - 1) * (k - 1))) by lia.
    rewrite (wrap_small
               (a := (Block3D.IDIM b - 1)
                     * (j - 1 + (Block3D.JDIM b - 1) * (k - 1)))) by lia.
    apply wrap_small. lia.
  - unfold cell_offset. rewrite Hlen'. lia.
Qed.

Lemma cell_offset_inj b i j k i' j' k' :
  1 <= i < Block3D.IDIM b -> 1 <= j < Block3D.JDIM b ->
  1 <= i' < Block3D.IDIM b -> 1 <= j' < Block3D.JDIM b ->
  cell_offset b i j k = cell_offset b i' j' k' ->
  (i, j, k) = (i', j', k').
Proof.
  unfold cell_offset. intros Hi Hj Hi' Hj' E.
  destruct (@lattice_inj (Block3D.IDIM b - 1) (Block3D.JDIM b - 1)
              (i - 1) (j - 1) (k - 1) (i' - 1) (j' - 1) (k' - 1))
    as (E1 & E2 & E3); try lia.
  f_equal; [f_equal|]; lia.
Qed.

(** X6. [Block3D::cell] on a well-formed block: every cell [(i, j, k)]
    with [1 <= i < nI], [1 <= j < nJ], [1 <= k < nK] is there, an
    assignment to its id is read back from it and leaves the id of every
    other cell in these bounds alone.  The bounds are checked on the
    position in the storage only: [cell(nI, j, k)] is not refused, it is
    the cell [(1, j + 1, k)]. *)
Theorem block3d_cell_access b :
  (block_wf b ->
   forall i j k v,
     1 <= i < Block3D.IDIM b -> 1 <= j < Block3D.JDIM b ->
     1 <= k < Block3D.KDIM b ->
     exists c b',
       Block3D.cell b i j k = inr c
       /\ Block3D.set_cell_CellSeq b i j k v = inr b'
       /\ Block3D.cell b' i j k = inr (CELL.set_CellSeq c v)
       /\ forall i' j' k',
            1 <= i' < Block3D.IDIM b -> 1 <= j' < Block3D.JDIM b ->
            1 <= k' < Block3D.KDIM b -> (i', j', k') <> (i, j, k) ->
            Block3D.cell b' i' j' k' = Block3D.cell b i' j' k')
  /\ (forall j k,
        Block3D.cell b (Block3D.IDIM b) j k = Block3D.cell b 1 (j + 1) k).
Proof.
  split.
  - intros Hwf i j k v Hi Hj Hk.
    destruct (cell_pos_in_range Hwf Hi Hj Hk) as [Hp Hr].
    unfold Block3D.set_cell_CellSeq, Block3D.cell. rewrite Hp.
    destruct (at_inr (Block3D.m_cell b) Hr) as (c & Hc & Hn).
    rewrite Hc. exists c. eexists. split; [reflexivity|].
    split; [reflexivity|].
    assert (Hpos : forall i' j' k',
               Block3D.cell_pos
                 (Block3D.set_m_cell
                    (set_nth (Z.to_nat (cell_offset b i j k))
                             (CELL.set_CellSeq c v) (Block3D.m_cell b)) b)
                 i' j' k'
               = Block3D.cell_pos b i' j' k') by reflexivity.
    split.
    + rewrite Hpos, Hp. cbn [Block3D.m_cell Block3D.set_m_cell].
      unfold at_. rewrite length_set_nth.
      assert (E : (0 <=? cell_offset b i j k)
                  && (cell_offset b i j k
                      <? Z.of_nat (length (Block3D.m_cell b))) = true) by lia.
      rewrite E. rewrite nth_error_set_nth_eq by lia. reflexivity.
    + intros i' j' k' Hi' Hj' Hk' Hne.
      destruct (cell_pos_in_range Hwf Hi' Hj' Hk') as [Hp' Hr'].
      rewrite Hpos, Hp'. cbn [Block3D.m_cell Block3D.set_m_cell].
      unfold at_. rewrite length_set_nth.
      rewrite nth_error_set_nth_neq; [reflexivity|].
      intros E. apply Hne. symmetry.
      apply (@cell_offset_inj b i j k i' j' k'); auto. lia.
  - intros j k. unfold Block3D.cell. f_equal.
    unfold Block3D.cell_pos. cbv zeta.
    apply eqm64_wrap. repeat setoid_rewrite wrap_eqm64.
    match goal with |- eqm64 ?x ?y => replace x with y by ring end.
    reflexivity.
Qed.

Lemma block3d_cell_access_witness :
  exists b b', Block3D.new 1 3 3 2 = inr b
    /\ Block3D.set_cell_CellSeq b 2 1 1 7 = inr b'
    /\ option_map CELL.CellSeq
         (match Block3D.cell b' 2 1 1 with inr c => Some c | _ => None end)
       = Some 7.
Proof.
  assert (Hb : exists b, Block3D.new 1 3 3 2 = inr b) by (eexists; reflexivity).
  destruct Hb as (b & Hb). exists b.
  assert (Hwf : block_wf b).
  { apply inr_inj in Hb. subst b. solve_concrete. }
  assert (HI : Block3D.IDIM b = 3) by (apply inr_inj in Hb; now subst b).
  assert (HJ : Block3D.JDIM b = 3) by (apply inr_inj in Hb; now subst b).
  assert (HK : Block3D.KDIM b = 2) by (apply inr_inj in Hb; now subst b).
  destruct (proj1 (block3d_cell_access b) Hwf 2 1 1 7)
    as (c & b' & Hc & Hs & Hg & _); try lia.
  exists b'. split; [exact Hb|]. split; [exact Hs|].
  rewrite Hg. reflexivity.
Defined.

Lemma surf_edge_lists this nI nJ nK b :
  Block3D.new this nI nJ nK = inr b ->
  map SURF.local_index (Block3D.m_surf b) = zseq 1 6
  /\ map EDGE.local_index (Block3D.m_edge b) = zseq 1 12.
Proof.
  unfold Block3D.new. destruct (BLOCK.new nI nJ nK); [discriminate|].
  intros H. apply inr_inj in H. subst b. split; reflexivity.
Qed.

Lemma at_map_index {A} (f : A -> Z) (v : list A) n lo :
  map f v = zseq lo (length v) ->
  0 <= n < Z.of_nat (length v) ->
  exists x, at_ v n = inr x /\ f x = lo + n.
Proof.
  intros Hm Hn. destruct (at_inr v Hn) as (x & Hx & Hnth).
  exists x. split; [exact Hx|].
  assert (Hz : forall k lo, (k < length v)%nat ->
                            nth_error (zseq lo (length v)) k
                            = Some (lo + Z.of_nat k)).
  { generalize (length v). intros m k. revert m.
    induction k as [|k IH]; intros m lo' Hk; destruct m as [|m]; simpl;
      try lia.
    - f_equal; lia.
    - rewrite IH by lia. f_equal; lia. }
  assert (Hk : (Z.to_nat n < length v)%nat) by lia.
  specialize (Hz _ lo Hk). rewrite <- Hm, nth_error_map, Hnth in Hz.
  simpl in Hz. injection Hz as ->. lia.
Qed.

(** X7. [Block3D::surf] and [Block3D::edge] on a block just built: the
    index [n] in 1..6 (1..12 for an edge) gives the surface (edge) whose
    [local_index] is [n]; a negative index counts from the back, [-1]
    being surface 6 (edge 12); any other index is an [invalid_argument]
    that quotes it. *)
Theorem block3d_surf_edge_access this nI nJ nK b n :
  Block3D.new this nI nJ nK = inr b ->
  (1 <= n <= 6 ->
   exists s, Block3D.surf b n = inr s /\ SURF.local_index s = n)
  /\ (-6 <= n <= -1 -> Block3D.surf b n = Block3D.surf b (n + 7))
  /\ (n = 0 \/ n < -6 \/ 6 < n ->
      Block3D.surf b n
      = inl (invalid_argument
               (dquote ++ Cstr.to_string n ++ dquote
                ++ " is not a valid 1-based surface index for a block.")))
  /\ (1 <= n <= 12 ->
      exists e, Block3D.edge b n = inr e /\ EDGE.local_index e = n)
  /\ (-12 <= n <= -1 -> Block3D.edge b n = Block3D.edge b (n + 13))
  /\ (n = 0 \/ n < -12 \/ 12 < n ->
      Block3D.edge b n
      = inl (invalid_argument
               (dquote ++ Cstr.to_string n ++ dquote
                ++ " is not a valid edge index for a 3D block."))).
Proof.
  intros Hb. destruct (surf_edge_lists _ _ _ _ Hb) as [Hs He].
  assert (Ls : length (Block3D.m_surf b) = 6%nat).
  { rewrite <- (length_map SURF.local_index), Hs. reflexivity. }
  assert (Le : length (Block3D.m_edge b) = 12%nat).
  { rewrite <- (length_map EDGE.local_index), He. reflexivity. }
  unfold Block3D.surf, Block3D.surf_pos, Block3D.edge, Block3D.edge_pos,
    Block3D.NumOfSurf, Block3D.NumOfEdge.
  cbn [Z.opp].
  repeat split.
  - intros H. assert (E : (1 <=? n) && (n <=? 6) = true) by lia. rewrite E.
    destruct (@at_map_index _ SURF.local_index (Block3D.m_surf b) (n - 1) 1)
      as (s & H1 & H2).
    + now rewrite Ls.
    + rewrite Ls. lia.
    + exists s. split; [auto|lia].
  - intros H.
    assert (E1 : (1 <=? n) && (n <=? 6) = false) by lia.
    assert (E2 : (-6 <=? n) && (n <=? -1) = true) by lia.
    assert (E3 : (1 <=? n + 7) && (n + 7 <=? 6) = true) by lia.
    rewrite E1, E2, E3. f_equal. lia.
  - intros H.
    assert (E1 : (1 <=? n) && (n <=? 6) = false) by lia.
    assert (E2 : (-6 <=? n) && (n <=? -1) = false) by lia.
    now rewrite E1, E2.
  - intros H. assert (E : (1 <=? n) && (n <=? 12) = true) by lia. rewrite E.
    destruct (@at_map_index _ EDGE.local_index (Block3D.m_edge b) (n - 1) 1)
      as (s & H1 & H2).
    + now rewrite Le.
    + rewrite Le. lia.
    + exists s. split; [auto|lia].
  - intros H.
    assert (E1 : (1 <=? n) && (n <=? 12) = false) by lia.
    assert (E2 : (-12 <=? n) && (n <=? -1) = true) by lia.
    assert (E3 : (1 <=? n + 13) && (n + 13 <=? 12) = true) by lia.
    rewrite E1, E2, E3. f_equal. lia.
  - intros H.
    assert (E1 : (1 <=? n) && (n <=? 12) = false) by lia.
    assert (E2 : (-12 <=? n) && (n <=? -1) = false) by lia.
    now rewrite E1, E2.
Qed.

Lemma block3d_surf_edge_access_witness :
  exists b s, Block3D.new 1 2 2 2 = inr b
    /\ Block3D.surf b (-1) = inr s /\ SURF.local_index s = 6.
Proof.
  assert (Hb : exists b, Block3D.new 1 2 2 2 = inr b) by (eexists; reflexivity).
  destruct Hb as (b & Hb). exists b.
  destruct (@block3d_surf_edge_access 1 2 2 2 b (-1) Hb) as (_ & H2 & _).
  destruct (@block3d_surf_edge_access 1 2 2 2 b 6 Hb) as (H1 & _).
  destruct H1 as (s & Hs & Hl); [lia|].
  exists s. split; [exact Hb|]. split; [|exact Hl].
  rewrite H2 by lia. exact Hs.
Defined.

(* ------------------------------------------------------------------ *)
(** ** The counts of a range *)

Ltac wrap_poly :=
  apply eqm64_wrap; repeat setoid_rewrite wrap_eqm64;
  match goal with |- eqm64 ?x ?y => replace x with y by ring end;
  reflexivity.

Lemma range_formulas_mod r :
  let p := RANGE.E1 r - RANGE.S1 r + 1 in
  let q := RANGE.E2 r - RANGE.S2 r + 1 in
  RANGE.node_num r = wrap (p * q)
  /\ RANGE.edge_num r = wrap ((p - 1) * q + (q - 1) * p)
  /\ RANGE.face_num r = wrap ((p - 1) * (q - 1)).
Proof.
  unfold RANGE.node_num, RANGE.edge_num, RANGE.face_num, RANGE.pri_node_num,
    RANGE.sec_node_num, RANGE.E1, RANGE.S1, RANGE.E2, RANGE.S2.
  cbv zeta. repeat split; wrap_poly.
Qed.

(** X8. The counts a range gives for its interface: on a range whose ends
    are in order they are the numbers of nodes, edges and quads of a
    [p] x [q] lattice of nodes, and in every case, also when the unsigned
    arithmetic wraps, nodes - edges + quads = 1 modulo 2^64. *)
Theorem range_counts r :
  let p := RANGE.E1 r - RANGE.S1 r + 1 in
  let q := RANGE.E2 r - RANGE.S2 r + 1 in
  wrap (RANGE.node_num r - RANGE.edge_num r + RANGE.face_num r) = 1
  /\ (1 <= p -> 1 <= q -> 2 * (p * q) < 2 ^ 64 ->
      RANGE.pri_node_num r = p /\ RANGE.sec_node_num r = q
      /\ RANGE.node_num r = p * q
      /\ RANGE.edge_num r = (p - 1) * q + (q - 1) * p
      /\ RANGE.face_num r = (p - 1) * (q - 1)).
Proof.
  intros p q.
  destruct (range_formulas_mod r) as (Hn & He & Hf). fold p q in Hn, He, Hf.
  split.
  - rewrite Hn, He, Hf. change 1 with (wrap 1) at 5. wrap_poly.
  - intros Hp Hq Hfit.
    assert (Hpq : p <= p * q).
    { rewrite <- (Z.mul_1_r p) at 1. apply Z.mul_le_mono_nonneg_l; lia. }
    assert (Hqp : q <= p * q).
    { rewrite <- (Z.mul_1_l q) at 1. apply Z.mul_le_mono_nonneg_r; lia. }
    assert (H1 : 0 <= (p - 1) * q <= p * q).
    { split; [apply Z.mul_nonneg_nonneg; lia|].
      apply Z.mul_le_mono_nonneg_r; lia. }
    assert (H2 : 0 <= (q - 1) * p <= p * q).
    { split; [apply Z.mul_nonneg_nonneg; lia|].
      rewrite (Z.mul_comm p q). apply Z.mul_le_mono_nonneg_r; lia. }
    assert (H3 : 0 <= (p - 1) * (q - 1) <= (p - 1) * q).
    { split; [apply Z.mul_nonneg_nonneg; lia|].
      apply Z.mul_le_mono_nonneg_l; lia. }
    rewrite Hn, He, Hf.
    rewrite !wrap_small by lia.
    repeat split; try reflexivity.
    + unfold RANGE.pri_node_num, p, RANGE.E1, RANGE.S1.
      rewrite wrap_add_l. apply wrap_small. fold (RANGE.E1 r) (RANGE.S1 r).
      fold p. lia.
    + unfold RANGE.sec_node_num, q, RANGE.E2, RANGE.S2.
      rewrite wrap_add_l. apply wrap_small. fold (RANGE.E2 r) (RANGE.S2 r).
      fold q. lia.
Qed.

Lemma range_counts_witness :
  RANGE.node_num (RANGE.mk 1 2 1 3 1 4) = 12
  /\ RANGE.edge_num (RANGE.mk 1 2 1 3 1 4) = 17
  /\ RANGE.face_num (RANGE.mk 1 2 1 3 1 4) = 6.
Proof.
  destruct (range_counts (RANGE.mk 1 2 1 3 1 4)) as (_ & H).
  destruct H as (_ & _ & H1 & H2 & H3); try (simpl; lia).
  rewrite H1, H2, H3. repeat split.
Defined.

(* ------------------------------------------------------------------ *)
(** ** What [readFromFile] does to the model it is called on *)

Lemma bind_ret_l {S A B} (a : A) (f : A -> M S B) s :
  bind (ret a) f s = f a s.
Proof. reflexivity. Qed.

Lemma bind_release_all {B} (f : unit -> M Mapping3D.t B) m :
  bind Mapping3D.release_all f m = f tt (Mapping3D.mk [] []).
Proof. reflexivity. Qed.

(** X9. [readFromFile] replaces the model, it does not add to it.  Either
    it ends in the same way, with the same model, whatever the model it is
    called on; or it throws before anything is released, with the model
    untouched, and then the file could not be opened, its first line that
    is neither blank nor a comment is not a number, or the number is 0 or
    does not fit an [int].  When it returns, it returns 0. *)
Theorem readFromFile_replaces_model fs path m0 m1 :
  (Mapping3D.readFromFile fs path m0 = Mapping3D.readFromFile fs path m1
   \/ exists e,
       Mapping3D.readFromFile fs path m0 = Raised e m0
       /\ Mapping3D.readFromFile fs path m1 = Raised e m1
       /\ (e = runtime_error
                 ("Can not open target input file: " ++ dquote ++ path
                  ++ dquote ++ ".")
           \/ e = runtime_error
                    "Failed to match the single line, where only the num of blocks is specified."
           \/ e = out_of_range "stoi"
           \/ exists r1, e = runtime_error
                               ("Invalid num of blocks: " ++ dquote ++ r1
                                ++ dquote ++ ".")))
  /\ forall r m, Mapping3D.readFromFile fs path m0 = Normal r m -> r = 0.
Proof.
  split.
  - unfold Mapping3D.readFromFile.
    destruct (fs_file fs path) as [text|]; [|right; eexists; eauto].
    destruct (Mapping3D.skip (Cstr.split_lines text) "") as [[s mfp]|];
      [|left; reflexivity].
    destruct (regex_match_pattern1 s) as [r1|];
      [|right; eexists; eauto 6].
    unfold stoi.
    destruct (Cstr.digits_value 0 r1 <=? INT_MAX).
    + cbn [lift]. rewrite !bind_ret_l.
      destruct (Cstr.digits_value 0 r1 <=? 0).
      * right. eexists. split; [reflexivity|]. split; [reflexivity|].
        right. right. right. eexists. reflexivity.
      * left. rewrite !bind_release_all. reflexivity.
    + right. eexists. split; [reflexivity|]. split; [reflexivity|]. auto.
  - intros r m H. unfold Mapping3D.readFromFile in H.
    destruct (fs_file fs path) as [text|]; [|discriminate].
    destruct (Mapping3D.skip (Cstr.split_lines text) "") as [[s mfp]|];
      [|discriminate].
    destruct (regex_match_pattern1 s) as [r1|]; [|discriminate].
    apply bind_normal in H as (N & s1 & _ & H).
    destruct (N <=? 0); [discriminate|].
    apply bind_normal in H as ([] & s2 & _ & H).
    apply bind_normal in H as ([] & s3 & _ & H).
    apply bind_normal in H as ([s' mfp'] & s4 & _ & H).
    destruct (Mapping3D.skip mfp' s') as [[s'' mfp'']|]; [|discriminate].
    apply bind_normal in H as ([] & s5 & _ & H).
    apply bind_normal in H as (mm & s6 & _ & H).
    apply bind_normal in H as ([] & s7 & _ & H).
    apply bind_normal in H as ([] & s8 & _ & H).
    unfold ret in H. now injection H as <- _.
Qed.

Lemma readFromFile_replaces_model_witness :
  exists m, parse nmf_two_cubes = Some m
    /\ Mapping3D.readFromFile (one_file "in.nmf" nmf_two_cubes) "in.nmf" m
       = Normal 0 m.
Proof.
  assert (H : exists m, Mapping3D.readFromFile
                          (one_file "in.nmf" nmf_two_cubes) "in.nmf"
                          Mapping3D.new = Normal 0 m)
    by (eexists; vm_compute; reflexivity).
  destruct H as (m & H). exists m. split.
  - unfold parse. rewrite H. reflexivity.
  - destruct (readFromFile_replaces_model
                (one_file "in.nmf" nmf_two_cubes) "in.nmf" Mapping3D.new m)
      as ([E | (e & E & _)] & _).
    + rewrite <- E. exact H.
    + rewrite H in E. discriminate.
Defined.

(* ------------------------------------------------------------------ *)
(** ** Files with nothing to read *)

Lemma skip_all_skippable mfp s :
  Mapping3D.skippable s = true ->
  Forall (fun x => Mapping3D.skippable x = true) mfp ->
  Mapping3D.skip mfp s = None.
Proof.
  intros Hs H. revert s Hs.
  induction H as [|x mfp Hx _ IH]; intros s Hs; simpl.
  - now rewrite Hs.
  - rewrite Hx. now apply IH.
Qed.

(** X10. A file in which every line is blank or a comment, the empty file
    among them, is never given up: the loop that skips the header reads
    past the end of the file, where [getline] leaves the line as it is,
    and [readFromFile] does not terminate. *)
Theorem readFromFile_header_only_diverges fs path text m :
  fs_file fs path = Some text ->
  Forall (fun x => Mapping3D.skippable x = true) (Cstr.split_lines text) ->
  Mapping3D.readFromFile fs path m = Diverges.
Proof.
  intros Hf Hs. unfold Mapping3D.readFromFile. rewrite Hf.
  rewrite skip_all_skippable; auto.
Qed.

Lemma readFromFile_header_only_diverges_witness :
  Mapping3D.readFromFile (one_file "in.nmf" "") "in.nmf" Mapping3D.new
  = Diverges
  /\ Mapping3D.readFromFile
       (one_file "in.nmf" (text ["# a comment"; "   "; "  # another"]))
       "in.nmf" Mapping3D.new
     = Diverges.
Proof.
  split.
  - apply (@readFromFile_header_only_diverges _ _ ""); [reflexivity|].
    repeat constructor.
  - eapply readFromFile_header_only_diverges; [reflexivity|].
    repeat constructor.
Defined.

(* ------------------------------------------------------------------ *)
(** ** Characters, digits and tokens *)

Lemma isdigit_val c : Cstr.isdigit c = true -> 0 <= Cstr.digit_val c <= 9.
Proof.
  unfold Cstr.isdigit, Cstr.digit_val, Cstr.code. intros H.
  apply andb_prop in H as [H1 H2].
  apply Nat.leb_le in H1, H2. lia.
Qed.

Lemma digit_char_val d :
  0 <= d <= 9 ->
  Cstr.isdigit (Cstr.digit_char d) = true
  /\ Cstr.digit_val (Cstr.digit_char d) = d.
Proof.
  intros H.
  assert (d = 0 \/ d = 1 \/ d = 2 \/ d = 3 \/ d = 4 \/ d = 5 \/ d = 6
          \/ d = 7 \/ d = 8 \/ d = 9) as E by lia.
  repeat (destruct E as [-> | E]; [split; reflexivity|]).
  subst d. split; reflexivity.
Qed.

Lemma span_forallb p s : Cstr.forallb p (fst (Cstr.span p s)) = true.
Proof.
  induction s as [|c s IH]; simpl; [reflexivity|].
  destruct (p c) eqn:E; [|reflexivity].
  destruct (Cstr.span p s) as [a b]. simpl in *. now rewrite E.
Qed.

Lemma span_app p a b :
  Cstr.forallb p a = true ->
  match b with EmptyString => True | String c _ => p c = false end ->
  Cstr.span p (a ++ b) = (a, b).
Proof.
  intros Ha Hb. induction a as [|c a IH]; simpl in *.
  - destruct b as [|c b]; [reflexivity|]. simpl. now rewrite Hb.
  - apply andb_prop in Ha as [Hc Ha]. rewrite Hc, (IH Ha). reflexivity.
Qed.

Lemma digits_value_nonneg s : forall a,
  Cstr.forallb Cstr.isdigit s = true -> 0 <= a -> 0 <= Cstr.digits_value a s.
Proof.
  induction s as [|c s IH]; intros a Hs Ha;
    cbn [Cstr.digits_value Cstr.forallb] in *; [exact Ha|].
  apply andb_prop in Hs as [Hc Hs]. apply isdigit_val in Hc.
  apply IH; [exact Hs|lia].
Qed.

Lemma to_digits_value f : forall n acc,
  (1 <= f)%nat -> 0 <= n < 2 ^ Z.of_nat f ->
  Cstr.digits_value 0 (Cstr.to_digits f n acc) = Cstr.digits_value n acc.
Proof.
  induction f as [|f IH]; intros n acc Hf Hn; [lia|].
  simpl Cstr.to_digits.
  assert (Hm : 0 <= n mod 10 <= 9) by (pose proof (Z.mod_pos_bound n 10); lia).
  destruct (digit_char_val Hm) as [_ Hv].
  destruct (n / 10 =? 0) eqn:E.
  - apply Z.eqb_eq in E.
    assert (n = n mod 10) by (rewrite (Z.div_mod n 10) at 1; lia).
    cbn [Cstr.digits_value]. rewrite Hv. f_equal. lia.
  - apply Z.eqb_neq in E.
    assert (Hd : 0 < n / 10) by (pose proof (Z.div_pos n 10); lia).
    assert (Hn10 : 10 <= n).
    { destruct (Z_lt_le_dec n 10) as [Hlt|]; [|assumption].
      rewrite Z.div_small in Hd by lia. lia. }
    assert (Hlt : n / 10 < 2 ^ Z.of_nat f).
    { apply Z.div_lt_upper_bound; [lia|].
      rewrite Nat2Z.inj_succ, Z.pow_succ_r in Hn by lia.
      pose proof (Z.pow_pos_nonneg 2 (Z.of_nat f)). lia. }
    assert (Hf1 : (1 <= f)%nat).
    { destruct f; [|lia]. simpl in Hlt. lia. }
    rewrite IH by (auto; lia).
    cbn [Cstr.digits_value]. rewrite Hv. f_equal.
    symmetry. apply Z.div_mod. lia.
Qed.

Lemma to_digits_isdigit f : forall n acc,
  0 <= n ->
  Cstr.forallb Cstr.isdigit acc = true ->
  Cstr.forallb Cstr.isdigit (Cstr.to_digits f n acc) = true.
Proof.
  induction f as [|f IH]; intros n acc Hn Hacc; simpl; [exact Hacc|].
  assert (Hm : 0 <= n mod 10 <= 9) by (pose proof (Z.mod_pos_bound n 10); lia).
  destruct (digit_char_val Hm) as [Hd _].
  destruct (n / 10 =? 0).
  - simpl. now rewrite Hd.
  - apply IH; [apply Z.div_pos; lia|]. simpl. now rewrite Hd.
Qed.

Lemma to_digits_length f : forall n acc k,
  0 <= n < 10 ^ Z.of_nat k -> (1 <= k)%nat -> (1 <= f)%nat ->
  (String.length acc < String.length (Cstr.to_digits f n acc)
   <= k + String.length acc)%nat.
Proof.
  induction f as [|f IH]; intros n acc k Hn Hk Hf; [lia|].
  simpl Cstr.to_digits.
  destruct (n / 10 =? 0) eqn:E.
  - simpl. lia.
  - apply Z.eqb_neq in E.
    assert (Hn10 : 10 <= n).
    { destruct (Z_lt_le_dec n 10) as [Hlt|]; [|assumption].
      rewrite Z.div_small in E by lia. lia. }
    destruct k as [|[|k]]; [lia|simpl in Hn; lia|].
    assert (Hlt : 0 <= n / 10 < 10 ^ Z.of_nat (S k)).
    { split; [apply Z.div_pos; lia|].
      apply Z.div_lt_upper_bound; [lia|].
      rewrite (Nat2Z.inj_succ (S k)), Z.pow_succ_r in Hn by lia.
      pose proof (Z.pow_pos_nonneg 10 (Z.of_nat (S k))). lia. }
    destruct f as [|f].
    + simpl. lia.
    + specialize (IH (n / 10) (String (Cstr.digit_char (n mod 10)) acc)
                     (S k) Hlt ltac:(lia) ltac:(lia)).
      cbn [String.length] in IH. lia.
Qed.

Lemma log2_fuel n : 0 <= n -> 0 <= n < 2 ^ Z.of_nat (S (Z.to_nat (Z.log2 n))).
Proof.
  intros Hn. split; [exact Hn|].
  rewrite Nat2Z.inj_succ, Z2Nat.id by apply Z.log2_nonneg.
  destruct (Z.eq_dec n 0) as [->|Hne]; [reflexivity|].
  apply Z.log2_spec. lia.
Qed.

(** Printing a number and reading it back. *)
Lemma to_string_value n :
  0 <= n ->
  Cstr.forallb Cstr.isdigit (Cstr.to_string n) = true
  /\ Cstr.to_string n <> ""
  /\ Cstr.digits_value 0 (Cstr.to_string n) = n.
Proof.
  intros Hn. unfold Cstr.to_string.
  assert (E : (n <? 0) = false) by lia. rewrite E.
  split; [apply to_digits_isdigit; auto|]. split.
  - intros H.
    pose proof (@to_digits_length (S (Z.to_nat (Z.log2 n))) n ""
                  (S (Z.to_nat n))) as L.
    rewrite H in L. cbn [String.length] in L.
    assert (n < 10 ^ Z.of_nat (S (Z.to_nat n))).
    { rewrite Nat2Z.inj_succ, Z2Nat.id by lia.
      pose proof (Z.pow_gt_lin_r 10 (Z.succ n)). lia. }
    lia.
  - rewrite to_digits_value by (try apply log2_fuel; lia). reflexivity.
Qed.

Lemma to_string_length n k :
  0 <= n < 10 ^ Z.of_nat k -> (1 <= k)%nat ->
  (String.length (Cstr.to_string n) <= k)%nat.
Proof.
  intros Hn Hk. unfold Cstr.to_string.
  assert (E : (n <? 0) = false) by lia. rewrite E.
  pose proof (@to_digits_length (S (Z.to_nat (Z.log2 n))) n "" k Hn Hk) as L.
  cbn [String.length] in L. lia.
Qed.

(* ------------------------------------------------------------------ *)
(** ** More on the face pass *)

Lemma run_seen_kept f us : forall s s',
  for_each us visit_step s = Normal tt s' ->
  seen s f = true -> seen s' f = true.
Proof.
  induction us as [|u us IH]; intros s s' H Hs.
  - simpl in H. now injection H as <-.
  - simpl in H. apply bind_normal in H as ([] & s1 & H1 & H).
    apply (IH _ _ H).
    apply visit_step_frame in H1 as (g & Hg & Hsg & He).
    destruct (Z.eq_dec f g) as [->|Hne]; [exact Hsg|].
    destruct (He f Hne) as [_ E]. now rewrite E.
Qed.

Lemma run_seen_visited f us : forall s s',
  for_each us visit_step s = Normal tt s' ->
  List.existsb (on_face f) us = true -> seen s' f = true.
Proof.
  induction us as [|u us IH]; intros s s' H Hex; [discriminate|].
  simpl in H, Hex. apply bind_normal in H as ([] & s1 & H1 & H).
  destruct (on_face f u) eqn:Eon.
  - apply (@run_seen_kept f us s1 s' H).
    apply visit_step_frame in H1 as (g & Hg & Hsg & _).
    unfold on_face in Eon. rewrite Hg in Eon.
    apply Z.eqb_eq in Eon. now subst g.
  - apply (IH _ _ H). exact Hex.
Qed.

Lemma forallb_negb_existsb {A} (p : A -> bool) l :
  List.forallb (fun x => negb (p x)) l = negb (List.existsb p l).
Proof.
  induction l as [|x l IH]; simpl; [reflexivity|].
  rewrite IH. now destruct (p x).
Qed.

(** X11. What the face pass leaves alone and what it marks: when it
    returns, the flag [visited] of a face is set exactly when one of the
    visits recorded the face, and the record of a face that no visit
    recorded is the one the mesh had before. *)
Theorem face_pass_marks_visited_faces blocks st0 st f :
  MESH.copy_face_info blocks st0 = Normal tt st ->
  seen st f = List.existsb (on_face f) (visits blocks)
  /\ (List.existsb (on_face f) (visits blocks) = false ->
      face_of st f = face_of st0 f).
Proof.
  intros Hrun. rewrite copy_face_info_visits in Hrun.
  destruct (List.existsb (on_face f) (visits blocks)) eqn:Ex.
  - split; [|discriminate]. eapply run_seen_visited; eauto.
  - assert (Hn : List.forallb (fun u => negb (on_face f u)) (visits blocks)
                 = true) by (rewrite forallb_negb_existsb, Ex; reflexivity).
    destruct (@run_frame f _ _ _ Hrun Hn) as [E1 E2].
    split; [now rewrite E2, seen_cleared|]. intros _. exact E1.
Qed.

Lemma face_pass_marks_visited_faces_witness :
  map (seen slab_assembled) [1; 2; 11; 12]
  = [true; true; true; false].
Proof.
  assert (Hrun : MESH.copy_face_info [slab] slab_faces
                 = Normal tt slab_assembled) by (vm_compute; reflexivity).
  cbn [map].
  rewrite (proj1 (@face_pass_marks_visited_faces _ _ _ 1 Hrun)).
  rewrite (proj1 (@face_pass_marks_visited_faces _ _ _ 2 Hrun)).
  rewrite (proj1 (@face_pass_marks_visited_faces _ _ _ 11 Hrun)).
  rewrite (proj1 (@face_pass_marks_visited_faces _ _ _ 12 Hrun)).
  vm_compute. reflexivity.
Defined.

Lemma face_of_face s f x :
  face_of s f = Some x -> 0 < f /\ MESH.face f s = Normal x s.
Proof.
  unfold face_of, MESH.face, at_.
  destruct (f <=? 0) eqn:E; [discriminate|]. intros H.
  assert (E0 : (f =? 0) = false) by lia. rewrite E0.
  assert (Hl : (Z.to_nat (f - 1) < length (MESH.m_face s))%nat).
  { apply nth_error_Some. congruence. }
  assert (Eb : (0 <=? f - 1) && (f - 1 <? Z.of_nat (length (MESH.m_face s)))
               = true) by lia.
  rewrite Eb, H. split; [lia|reflexivity].
Qed.

Lemma seen_get_visited s f :
  seen s f = true -> MESH.get_visited (f - 1) s = Normal true s.
Proof.
  unfold seen, MESH.get_visited. intros H.
  apply andb_prop in H as [Hf Hn].
  assert (Hl : (Z.to_nat (f - 1) < length (MESH.visited s))%nat).
  { destruct (Nat.lt_ge_cases (Z.to_nat (f - 1)) (length (MESH.visited s)))
      as [|Hge]; [assumption|].
    rewrite nth_overflow in Hn by exact Hge. discriminate. }
  assert (Eb : (0 <=? f - 1) && (f - 1 <? Z.of_nat (length (MESH.visited s)))
               = true) by lia.
  now rewrite Eb, Hn.
Qed.

(** A visit from a surface loop to a face already visited. *)
Lemma surface_face_again b c fs ss n1 n2 n3 n4 s f sf old :
  CELL.FaceSeq c fs = inr f -> Block3D.surf b ss = inr sf ->
  face_of s f = Some old -> seen s f = true ->
  MESH.surface_face b c fs ss n1 n2 n3 n4 s
  = if FACE.atBdry old then
      Raised (runtime_error "Boundary face shouldn't appear twice!") s
    else if FACE.leftCell old =? 0 then
      Normal tt (MESH.mk (upd_nth (Z.to_nat (f - 1))
                                  (FACE.set_leftCell (CELL.CellSeq c))
                                  (MESH.m_face s)) (MESH.visited s))
    else if FACE.rightCell old =? 0 then
      Normal tt (MESH.mk (upd_nth (Z.to_nat (f - 1))
                                  (FACE.set_rightCell (CELL.CellSeq c))
                                  (MESH.m_face s)) (MESH.visited s))
    else
      Raised (runtime_error
                "Double-Sided face should not appear more than twice!") s.
Proof.
  intros Hf Hsf Hold Hseen. unfold MESH.surface_face.
  rewrite Hf. cbn [lift]. rewrite bind_ret_l.
  destruct (face_of_face _ _ Hold) as [Hpos Hface].
  unfold bind at 1. rewrite Hface.
  rewrite Hsf. cbn [lift]. rewrite bind_ret_l.
  unfold bind at 1. rewrite (seen_get_visited _ _ Hseen).
  destruct (FACE.atBdry old); cbn [negb]; [reflexivity|].
  destruct (FACE.leftCell old =? 0); [reflexivity|].
  destruct (FACE.rightCell old =? 0); reflexivity.
Qed.

Lemma for_each_raised {S X} (f : X -> M S unit) l1 x l2 s0 s1 e s :
  for_each l1 f s0 = Normal tt s1 -> f x s1 = Raised e s ->
  for_each (l1 ++ x :: l2) f s0 = Raised e s.
Proof.
  intros H1 H2. rewrite for_each_app. unfold bind. rewrite H1.
  simpl. unfold bind. now rewrite H2.
Qed.

Lemma face_index_inv v f :
  face_index v = Some f ->
  exists c, cell_at (v_block v) (v_cur v) = inr c
            /\ CELL.FaceSeq c (v_face v) = inr f.
Proof.
  unfold face_index.
  destruct (cell_at (v_block v) (v_cur v)) as [e|c]; [discriminate|].
  destruct (CELL.FaceSeq c (v_face v)) as [e|g] eqn:E; [discriminate|].
  intros H. injection H as <-. eauto.
Qed.

(** A visit from a surface loop to a face already visited. *)
Lemma surface_step_again u s f c sf old :
  v_adj u = None ->
  cell_at (v_block u) (v_cur u) = inr c ->
  CELL.FaceSeq c (v_face u) = inr f ->
  Block3D.surf (v_block u) (v_surf u) = inr sf ->
  face_of s f = Some old -> seen s f = true ->
  visit_step u s
  = if FACE.atBdry old then
      Raised (runtime_error "Boundary face shouldn't appear twice!") s
    else if FACE.leftCell old =? 0 then
      Normal tt (MESH.mk (upd_nth (Z.to_nat (f - 1))
                                  (FACE.set_leftCell (CELL.CellSeq c))
                                  (MESH.m_face s)) (MESH.visited s))
    else if FACE.rightCell old =? 0 then
      Normal tt (MESH.mk (upd_nth (Z.to_nat (f - 1))
                                  (FACE.set_rightCell (CELL.CellSeq c))
                                  (MESH.m_face s)) (MESH.visited s))
    else
      Raised (runtime_error
                "Double-Sided face should not appear more than twice!") s.
Proof.
  intros Ha Hc Hf Hsf Hold Hseen. unfold visit_step.
  rewrite Hc, Ha. cbn [lift]. rewrite bind_ret_l.
  now apply surface_face_again with (sf := sf).
Qed.

(** The state right after the first visit of a face, when the visit comes
    from a surface loop. *)
Lemma first_surface_visit pre v s0 s2 :
  for_each (pre ++ [v]) visit_step (cleared s0) = Normal tt s2 ->
  v_adj v = None -> no_visit_of v pre = true ->
  exists c f l sf,
    cell_at (v_block v) (v_cur v) = inr c
    /\ CELL.FaceSeq c (v_face v) = inr f
    /\ nodes_of c (copied v) = map inr l
    /\ Block3D.surf (v_block v) (v_surf v) = inr sf
    /\ seen s2 f = true
    /\ face_of s2 f
       = Some (FACE.mk (match SURF.neighbourSurf sf with
                        | None => true
                        | Some _ => false
                        end)
                       FACE.QUADRILATERAL l 0 (CELL.CellSeq c)).
Proof.
  intros Hrun Ha Hfirst.
  apply run_split in Hrun as (s1 & s2' & Hpre & Hv & Hpost & _).
  simpl in Hpost. injection Hpost as <-.
  unfold visit_step in Hv. rewrite Ha in Hv.
  apply bind_normal in Hv as (c & s3 & Hc & Hv).
  apply lift_normal in Hc as [Hc ->].
  apply surface_face_normal in Hv as (f & sf & Hf & Hsf & Hseen & _ & Hcase).
  pose proof (@face_index_Some _ _ _ Hc Hf) as Hfi.
  destruct (@run_frame f _ _ _ Hpre (@no_visit_of_Some _ _ _ Hfi Hfirst))
    as [_ E].
  rewrite E, seen_cleared in Hcase. destruct Hcase as (l & Hl & Hrec).
  exists c, f, l, sf. repeat (split; [assumption|]). assumption.
Qed.

Lemma for_each_snoc {S X} (f : X -> M S unit) l x s0 s1 s2 :
  for_each l f s0 = Normal tt s1 -> f x s1 = Normal tt s2 ->
  for_each (l ++ [x]) f s0 = Normal tt s2.
Proof.
  intros H1 H2. rewrite for_each_app. unfold bind. rewrite H1.
  simpl. unfold bind. now rewrite H2.
Qed.

(** X12. The second round of a double-sided face: when the pass returns
    and exactly two visits record a face, both from surface loops, the
    surface of the first has a neighbour, and the record keeps the nodes
    and the right cell of the first visit and takes the cell of the second
    as left cell. *)
Theorem face_pass_second_round blocks st0 st pre v1 mid v2 post :
  MESH.copy_face_info blocks st0 = Normal tt st ->
  visits blocks = pre ++ v1 :: mid ++ v2 :: post ->
  v_adj v1 = None -> v_adj v2 = None ->
  face_index v2 = face_index v1 ->
  no_visit_of v1 pre = true -> no_visit_of v1 mid = true ->
  no_visit_of v1 post = true ->
  exists c1 c2 f l sf,
    cell_at (v_block v1) (v_cur v1) = inr c1
    /\ cell_at (v_block v2) (v_cur v2) = inr c2
    /\ CELL.FaceSeq c1 (v_face v1) = inr f
    /\ nodes_of c1 (copied v1) = map inr l
    /\ Block3D.surf (v_block v1) (v_surf v1) = inr sf
    /\ SURF.neighbourSurf sf <> None
    /\ face_of st f
       = Some (FACE.mk false FACE.QUADRILATERAL l
                       (CELL.CellSeq c2) (CELL.CellSeq c1)).
Proof.
  intros Hrun Hsplit Ha1 Ha2 Hsame Hpre Hmid Hpost.
  rewrite copy_face_info_visits, Hsplit in Hrun.
  apply run_split in Hrun as (s1 & s2 & Hr1 & Hv1 & Hrest & Huntil).
  apply run_split in Hrest as (s3 & s4 & Hr2 & Hv2 & Hr3 & _).
  destruct (@first_surface_visit _ _ _ _ Huntil Ha1 Hpre)
    as (c1 & f & l & sf & Hc1 & Hf1 & Hl & Hsf & Hseen2 & Hrec2).
  pose proof (@face_index_Some _ _ _ Hc1 Hf1) as Hfi.
  destruct (@run_frame f _ _ _ Hr2 (@no_visit_of_Some _ _ _ Hfi Hmid))
    as [E1 E2].
  rewrite <- E1 in Hrec2. rewrite <- E2 in Hseen2.
  rewrite Hfi in Hsame.
  destruct (face_index_inv _ Hsame) as (c2 & Hc2 & Hf2).
  assert (Hsf2 : exists sf2, Block3D.surf (v_block v2) (v_surf v2) = inr sf2).
  { pose proof Hv2 as Hv. unfold visit_step in Hv. rewrite Ha2, Hc2 in Hv.
    cbn [lift] in Hv. rewrite bind_ret_l in Hv.
    apply surface_face_normal in Hv as (g & sf2 & _ & Hs & _). eauto. }
  destruct Hsf2 as (sf2 & Hsf2).
  rewrite (@surface_step_again _ _ _ _ _ _ Ha2 Hc2 Hf2 Hsf2 Hrec2 Hseen2)
    in Hv2.
  cbn [FACE.atBdry FACE.leftCell] in Hv2.
  destruct (SURF.neighbourSurf sf) as [p|] eqn:En; [|discriminate].
  cbn [Z.eqb] in Hv2. injection Hv2 as <-.
  exists c1, c2, f, l, sf. repeat (split; [assumption|]).
  split; [congruence|].
  destruct (@run_frame f _ _ _ Hr3 (@no_visit_of_Some _ _ _ Hfi Hpost))
    as [E3 _].
  rewrite E3. destruct s3 as [fl vis].
  erewrite face_of_upd_same by exact Hrec2. reflexivity.
Qed.

(** X13. A face that the surface loops reach too often stops the pass:
    after the first visit of a face on a surface without neighbour, the
    next visit of the face from a surface loop throws "Boundary face
    shouldn't appear twice!"; after two visits from surface loops by cells
    with non-zero ids, the third throws "Double-Sided face should not
    appear more than twice!".  The mesh is left as the visits before
    made it. *)
Theorem face_pass_refuses_revisits blocks st0 :
  (forall pre v mid u post s c sf sfu,
      visits blocks = pre ++ v :: mid ++ u :: post ->
      for_each (pre ++ v :: mid) visit_step (cleared st0) = Normal tt s ->
      v_adj v = None -> v_adj u = None ->
      face_index u = face_index v ->
      no_visit_of v pre = true -> no_visit_of v mid = true ->
      cell_at (v_block v) (v_cur v) = inr c ->
      Block3D.surf (v_block v) (v_surf v) = inr sf ->
      SURF.neighbourSurf sf = None ->
      Block3D.surf (v_block u) (v_surf u) = inr sfu ->
      MESH.copy_face_info blocks st0
      = Raised (runtime_error "Boundary face shouldn't appear twice!") s)
  /\ (forall pre v1 mid1 v2 mid2 u post s c1 c2 sfu,
         visits blocks = pre ++ v1 :: mid1 ++ v2 :: mid2 ++ u :: post ->
         for_each (pre ++ v1 :: mid1 ++ v2 :: mid2) visit_step (cleared st0)
         = Normal tt s ->
         v_adj v1 = None -> v_adj v2 = None -> v_adj u = None ->
         face_index v2 = face_index v1 -> face_index u = face_index v1 ->
         no_visit_of v1 pre = true -> no_visit_of v1 mid1 = true ->
         no_visit_of v1 mid2 = true ->
         cell_at (v_block v1) (v_cur v1) = inr c1 ->
         cell_at (v_block v2) (v_cur v2) = inr c2 ->
         CELL.CellSeq c1 <> 0 -> CELL.CellSeq c2 <> 0 ->
         Block3D.surf (v_block u) (v_surf u) = inr sfu ->
         MESH.copy_face_info blocks st0
         = Raised (runtime_error
                     "Double-Sided face should not appear more than twice!")
                  s).
Proof.
  split.
  - intros pre v mid u post s c sf sfu Hsplit Hrun Ha Hau Hsame Hpre Hmid
           Hc Hsf Hnone Hsfu.
    rewrite copy_face_info_visits, Hsplit.
    replace (pre ++ v :: mid ++ u :: post)
      with ((pre ++ v :: mid) ++ u :: post)
      by (rewrite <- app_assoc; reflexivity).
    apply for_each_raised with (s1 := s); [exact Hrun|].
    replace (pre ++ v :: mid) with ((pre ++ [v]) ++ mid) in Hrun
      by (rewrite <- app_assoc; reflexivity).
    rewrite for_each_app in Hrun.
    apply bind_normal in Hrun as ([] & s2 & Huntil & Hr2).
    destruct (@first_surface_visit _ _ _ _ Huntil Ha Hpre)
      as (c' & f & l & sf' & Hc' & Hf & Hl & Hsf' & Hseen & Hrec).
    rewrite Hc in Hc'. apply inr_inj in Hc'. subst c'.
    rewrite Hsf in Hsf'. apply inr_inj in Hsf'. subst sf'.
    rewrite Hnone in Hrec.
    pose proof (@face_index_Some _ _ _ Hc Hf) as Hfi.
    destruct (@run_frame f _ _ _ Hr2 (@no_visit_of_Some _ _ _ Hfi Hmid))
      as [E1 E2].
    rewrite <- E1 in Hrec. rewrite <- E2 in Hseen.
    rewrite Hfi in Hsame.
    destruct (face_index_inv _ Hsame) as (cu & Hcu & Hfu).
    rewrite (@surface_step_again _ _ _ _ _ _ Hau Hcu Hfu Hsfu Hrec Hseen).
    reflexivity.
  - intros pre v1 mid1 v2 mid2 u post s c1 c2 sfu Hsplit Hrun Ha1 Ha2 Hau
           Hs2 Hsu Hpre Hmid1 Hmid2 Hc1 Hc2 Hn1 Hn2 Hsfu.
    rewrite copy_face_info_visits, Hsplit.
    replace (pre ++ v1 :: mid1 ++ v2 :: mid2 ++ u :: post)
      with ((pre ++ v1 :: mid1 ++ v2 :: mid2) ++ u :: post)
      by (rewrite <- !app_assoc; cbn [app]; rewrite <- !app_assoc;
          reflexivity).
    apply for_each_raised with (s1 := s); [exact Hrun|].
    apply run_split in Hrun as (s1 & s2 & Hr1 & Hv1 & Hrest & Huntil).
    apply run_split in Hrest as (s3 & s4 & Hr2 & Hv2 & Hr3 & _).
    destruct (@first_surface_visit _ _ _ _ Huntil Ha1 Hpre)
      as (c' & f & l & sf & Hc' & Hf & Hl & Hsf & Hseen & Hrec).
    rewrite Hc1 in Hc'. apply inr_inj in Hc'. subst c'.
    pose proof (@face_index_Some _ _ _ Hc1 Hf) as Hfi.
    destruct (@run_frame f _ _ _ Hr2 (@no_visit_of_Some _ _ _ Hfi Hmid1))
      as [E1 E2].
    rewrite <- E1 in Hrec. rewrite <- E2 in Hseen.
    rewrite Hfi in Hs2, Hsu.
    destruct (face_index_inv _ Hs2) as (c' & Hc' & Hf2).
    rewrite Hc2 in Hc'. apply inr_inj in Hc'. subst c'.
    assert (Hsf2 : exists sf2, Block3D.surf (v_block v2) (v_surf v2) = inr sf2).
    { pose proof Hv2 as Hv. unfold visit_step in Hv. rewrite Ha2, Hc2 in Hv.
      cbn [lift] in Hv. rewrite bind_ret_l in Hv.
      apply surface_face_normal in Hv as (g & sf2 & _ & Hs & _). eauto. }
    destruct Hsf2 as (sf2 & Hsf2).
    rewrite (@surface_step_again _ _ _ _ _ _ Ha2 Hc2 Hf2 Hsf2 Hrec Hseen)
      in Hv2.
    cbn [FACE.atBdry FACE.leftCell] in Hv2.
    destruct (SURF.neighbourSurf sf) as [p|] eqn:En; [|discriminate].
    cbn [Z.eqb] in Hv2. injection Hv2 as <-.
    assert (Hrec4 : face_of
                      (MESH.mk (upd_nth (Z.to_nat (f - 1))
                                  (FACE.set_leftCell (CELL.CellSeq c2))
                                  (MESH.m_face s3)) (MESH.visited s3)) f
                    = Some (FACE.mk false FACE.QUADRILATERAL l
                                    (CELL.CellSeq c2) (CELL.CellSeq c1))).
    { destruct s3 as [fl vis].
      erewrite face_of_upd_same by exact Hrec. reflexivity. }
    assert (Hseen4 : seen (MESH.mk (upd_nth (Z.to_nat (f - 1))
                                  (FACE.set_leftCell (CELL.CellSeq c2))
                                  (MESH.m_face s3)) (MESH.visited s3)) f
                     = true) by exact Hseen.
    destruct (@run_frame f _ _ _ Hr3 (@no_visit_of_Some _ _ _ Hfi Hmid2))
      as [E3 E4].
    rewrite <- E3 in Hrec4. rewrite <- E4 in Hseen4.
    destruct (face_index_inv _ Hsu) as (cu & Hcu & Hfu).
    rewrite (@surface_step_again _ _ _ _ _ _ Hau Hcu Hfu Hsfu Hrec4 Hseen4).
    cbn [FACE.atBdry FACE.leftCell FACE.rightCell].
    apply Z.eqb_neq in Hn1, Hn2. rewrite Hn1, Hn2. reflexivity.
Qed.

Lemma face_pass_second_round_witness :
  face_of (state_after (MESH.copy_face_info glued_cubes slab_faces) slab_faces)
          2
  = Some (FACE.mk false FACE.QUADRILATERAL [2; 5; 11; 8] 2 1).
Proof.
  set (vs := visits glued_cubes).
  assert (Hrun : MESH.copy_face_info glued_cubes slab_faces
                 = Normal tt (state_after
                                (MESH.copy_face_info glued_cubes slab_faces)
                                slab_faces))
    by (vm_compute; reflexivity).
  destruct (@face_pass_second_round glued_cubes slab_faces _
              (firstn 1 vs) (nth 1 vs (surface_visit slab 0 0 0 0))
              (firstn 4 (skipn 2 vs))
              (nth 6 vs (surface_visit slab 0 0 0 0)) (skipn 7 vs) Hrun)
    as (c1 & c2 & f & l & sf & Hc1 & Hc2 & Hf & Hl & _ & _ & Hr);
    [vm_compute; reflexivity ..|].
  vm_compute in Hc1. apply inr_inj in Hc1. subst c1.
  vm_compute in Hc2. apply inr_inj in Hc2. subst c2.
  vm_compute in Hf. apply inr_inj in Hf. subst f.
  vm_compute in Hl.
  destruct l as [|n1 [|n2 [|n3 [|n4 [|]]]]]; try discriminate.
  injection Hl as <- <- <- <-. exact Hr.
Defined.

Lemma face_pass_refuses_revisits_witness :
  (exists s, MESH.copy_face_info cube_face_twice slab_faces
             = Raised (runtime_error "Boundary face shouldn't appear twice!") s)
  /\ (exists s, MESH.copy_face_info glued_face_thrice slab_faces
                = Raised (runtime_error
                            "Double-Sided face should not appear more than twice!")
                         s).
Proof.
  split.
  - set (vs := visits cube_face_twice).
    set (d := surface_visit slab 0 0 0 0).
    eexists.
    eapply (proj1 (face_pass_refuses_revisits cube_face_twice slab_faces)
              [] (nth 0 vs d) [] (nth 1 vs d) (skipn 2 vs));
      try (vm_compute; reflexivity).
  - set (vs := visits glued_face_thrice).
    set (d := surface_visit slab 0 0 0 0).
    eexists.
    eapply (proj2 (face_pass_refuses_revisits glued_face_thrice slab_faces)
              (firstn 1 vs) (nth 1 vs d) (firstn 4 (skipn 2 vs)) (nth 6 vs d)
              [] (nth 7 vs d) (skipn 8 vs));
      try (vm_compute; reflexivity); vm_compute; discriminate.
Defined.

(* ------------------------------------------------------------------ *)
(** ** The containers of [common.h] *)

Lemma at_out_of_range {A} (v : list A) n :
  Z.of_nat (length v) <= n ->
  at_ v n = inl (out_of_range "vector::_M_range_check").
Proof.
  intros H. unfold at_.
  assert (E : (0 <=? n) && (n <? Z.of_nat (length v)) = false) by lia.
  now rewrite E.
Qed.

(** X14. [Array1D::operator()] of [common.h] on a vector of [N] elements
    and an [int] index: on 1..N and on -N..-1 it designates the element
    the [Array1D] of the NMF header designates; 0 is a [logic_error]; an
    index beyond N on either side is left to [std::vector::at], which
    throws [out_of_range] (for a negative index through the wrap-around
    of [size() + i]). *)
Theorem common_array1d_indexing {A} (v : list A) (i : Z) :
  let N := Z.of_nat (length v) in
  N < 2 ^ 63 -> - 2 ^ 31 <= i < 2 ^ 31 ->
  ((1 <= i <= N \/ - N <= i <= -1) ->
   COMMON.Array1D.get v i = Array1D.get v i
   /\ exists x, COMMON.Array1D.get v i = inr x)
  /\ (i = 0 ->
      COMMON.Array1D.get v i
      = inl (logic_error
               (dquote ++ "0" ++ dquote
                ++ " is invalid when using 1-based index.")))
  /\ (i < - N \/ N < i ->
      COMMON.Array1D.get v i = inl (out_of_range "vector::_M_range_check")).
Proof.
  cbv zeta. intros HN Hi.
  unfold COMMON.Array1D.get, Array1D.get, Array1D.index.
  set (N := Z.of_nat (length v)) in *. split; [|split].
  - intros [H|H].
    + assert (E1 : (i >=? 1) = true) by lia.
      assert (E2 : (1 <=? i) && (i <=? N) = true) by lia.
      rewrite E1, E2. split; [reflexivity|].
      destruct (@at_inr _ v (i - 1)) as (x & Hx & _); [lia|eauto].
    + assert (E1 : (i >=? 1) = false) by lia.
      assert (E2 : (i <=? -1) = true) by lia.
      assert (E3 : (1 <=? i) && (i <=? N) = false) by lia.
      assert (E4 : (- N <=? i) && (i <=? -1) = true) by lia.
      rewrite E1, E3, E4, E2. rewrite wrap_small by lia.
      split; [reflexivity|].
      destruct (@at_inr _ v (N + i)) as (x & Hx & _); [lia|eauto].
  - intros ->. reflexivity.
  - intros [H|H].
    + assert (E1 : (i >=? 1) = false) by lia.
      assert (E2 : (i <=? -1) = true) by lia.
      rewrite E1, E2. apply at_out_of_range.
      unfold wrap.
      replace ((N + i) mod 2 ^ 64) with (N + i + 2 ^ 64).
      * lia.
      * apply Z.mod_unique with (q := -1); lia.
    + assert (E1 : (i >=? 1) = true) by lia.
      rewrite E1. apply at_out_of_range. lia.
Qed.

Lemma common_array1d_indexing_witness :
  COMMON.Array1D.get [10; 20; 30] (-3) = inr 10
  /\ COMMON.Array1D.get [10; 20; 30] (-4)
     = inl (out_of_range "vector::_M_range_check").
Proof.
  pose proof (@common_array1d_indexing Z [10; 20; 30] (-3)) as Ha.
  pose proof (@common_array1d_indexing Z [10; 20; 30] (-4)) as Hb.
  cbv zeta in Ha, Hb.
  destruct Ha as (H1 & _); [simpl; lia | lia |].
  destruct Hb as (_ & _ & H2); [simpl; lia | lia |].
  split.
  - destruct H1 as [E _]; [simpl; lia|]. rewrite E. reflexivity.
  - apply H2. simpl. lia.
Defined.

Lemma contains2_loop_spec {A} (eqb : A -> A -> bool) a b v :
  forall fa fb,
    fa && fb = false ->
    COMMON.Array1D.contains2_loop eqb a b fa fb v
    = (fa || COMMON.Array1D.contains eqb v a)
      && (fb || COMMON.Array1D.contains eqb v b).
Proof.
  induction v as [|x v IH]; intros fa fb H; simpl.
  - rewrite !orb_false_r. symmetry. exact H.
  - destruct fa, fb; try discriminate; simpl;
      destruct (eqb a x), (eqb b x); simpl;
      try reflexivity; rewrite IH by reflexivity; simpl;
      rewrite ?orb_true_r, ?andb_true_r; reflexivity.
Qed.

(** X15. [Array1D::contains(a, b)] is the conjunction of [contains(a)] and
    [contains(b)]: it returns [true] exactly when both elements occur in
    the vector, in whatever order, also when they are equal; on the empty
    vector both return [false]. *)
Theorem common_array1d_contains_both {A} (eqb : A -> A -> bool) v a b :
  COMMON.Array1D.contains2 eqb v a b
  = COMMON.Array1D.contains eqb v a && COMMON.Array1D.contains eqb v b.
Proof.
  unfold COMMON.Array1D.contains2. now rewrite contains2_loop_spec.
Qed.

Section ArrayND3.

Variable A : Type.
Variables nx ny nz : Z.
Variable val : A.
Hypothesis Hx : 1 <= nx.
Hypothesis Hy : 1 <= ny.
Hypothesis Hz : 1 <= nz.
Hypothesis Hfit : nx * ny * nz < 2 ^ 64.

Let data0 : list A := repeat val (Z.to_nat (wrap (wrap (nx * ny) * nz))).

Lemma arraynd_idx3 (d : list A) i j k :
1 <= i <= nx -> 1 <= j <= ny -> 1 <= k <= nz ->
COMMON.ArrayND.idx3 (COMMON.ArrayND.mk nx ny nz d (wrap (nx * ny)))
(wrap (i - 1)) (wrap (j - 1)) (wrap (k - 1))
= (i - 1) + nx * ((j - 1) + ny * (k - 1))
/\ 0 <= (i - 1) + nx * ((j - 1) + ny * (k - 1)) < nx * ny * nz.
Proof.
intros Hi Hj Hk.
destruct (@lattice_bounds nx ny nz (i - 1) (j - 1) (k - 1))
as (B1 & B2 & B3 & B4); try lia.
split; [|exact B4].
unfold COMMON.ArrayND.idx3. cbn [COMMON.ArrayND.m_Nx COMMON.ArrayND.m_NXY].
assert (B0 : 0 <= nx * ny) by (apply Z.mul_nonneg_nonneg; lia).
assert (Bx : nx <= nx * ny).
{ rewrite <- (Z.mul_1_r nx) at 1. apply Z.mul_le_mono_nonneg_l; lia. }
assert (By : ny <= nx * ny).
{ rewrite <- (Z.mul_1_l ny) at 1. apply Z.mul_le_mono_nonneg_r; lia. }
assert (Bz : nz <= nx * ny * nz).
{ rewrite <- (Z.mul_1_l nz) at 1. apply Z.mul_le_mono_nonneg_r; lia. }
assert (E : (i - 1) + nx * ((j - 1) + ny * (k - 1))
= (i - 1) + nx * (j - 1) + nx * ny * (k - 1)) by ring.
rewrite (wrap_small (a := i - 1)) by lia.
rewrite (wrap_small (a := j - 1)) by lia.
rewrite (wrap_small (a := k - 1)) by lia.
rewrite (wrap_small (a := nx * ny)) by lia.
rewrite (wrap_small (a := nx * (j - 1))) by lia.
rewrite (wrap_small (a := i - 1 + nx * (j - 1))) by lia.
rewrite (wrap_small (a := nx * ny * (k - 1))) by lia.
rewrite wrap_small by lia. lia.
Qed.

Lemma arraynd_length :
Z.of_nat (length data0) = nx * ny * nz.
Proof.
unfold data0. rewrite repeat_length.
assert (B0 : 0 <= nx * ny) by (apply Z.mul_nonneg_nonneg; lia).
assert (B1 : 0 <= nx * ny * nz) by (apply Z.mul_nonneg_nonneg; lia).
assert (B3 : nx * ny <= nx * ny * nz).
{ rewrite <- (Z.mul_1_r (nx * ny)) at 1.
apply Z.mul_le_mono_nonneg_l; lia. }
rewrite (wrap_small (a := nx * ny)) by lia.
rewrite wrap_small by lia. lia.
Qed.

Lemma arraynd_new3 a :
COMMON.ArrayND.new3 nx ny nz val = inr a ->
a = COMMON.ArrayND.mk nx ny nz data0 (wrap (nx * ny)).
Proof.
unfold COMMON.ArrayND.new3, COMMON.ArrayND.nI, COMMON.ArrayND.nJ,
COMMON.ArrayND.nK. cbn [COMMON.ArrayND.m_Nx COMMON.ArrayND.m_Ny
COMMON.ArrayND.m_Nz].
destruct (nx =? 0); [discriminate|].
destruct (ny =? 0); [discriminate|].
destruct (nz =? 0); [discriminate|].
intros H. injection H as <-. reflexivity.
Qed.

Lemma arraynd_get_set i j k v :
1 <= i <= nx -> 1 <= j <= ny -> 1 <= k <= nz ->
let a := COMMON.ArrayND.mk nx ny nz data0 (wrap (nx * ny)) in
COMMON.ArrayND.get3 a i j k = Some val
/\ exists a',
COMMON.ArrayND.set3 a i j k v = Some a'
/\ COMMON.ArrayND.get3 a' i j k = Some v
/\ forall i' j' k',
1 <= i' <= nx -> 1 <= j' <= ny -> 1 <= k' <= nz ->
(i', j', k') <> (i, j, k) ->
COMMON.ArrayND.get3 a' i' j' k' = COMMON.ArrayND.get3 a i' j' k'.
Proof.
intros Hi Hj Hk a.
destruct (arraynd_idx3 data0 Hi Hj Hk) as [Hidx Hr].
pose proof arraynd_length as Hlen.
unfold COMMON.ArrayND.get3, COMMON.ArrayND.at3, COMMON.ArrayND.set3,
COMMON.ArrayND.set_at3, COMMON.ArrayND.data_get, COMMON.ArrayND.data_set.
subst a. rewrite !Hidx.
cbn [COMMON.ArrayND.m_data COMMON.ArrayND.m_Nx COMMON.ArrayND.m_Ny
COMMON.ArrayND.m_Nz COMMON.ArrayND.m_NXY].
split.
- destruct (nth_error data0 _) as [x|] eqn:E.
+ apply nth_error_In in E. unfold data0 in E.
apply repeat_spec in E. now subst x.
+ apply nth_error_None in E. lia.
- assert (El : ((i - 1) + nx * ((j - 1) + ny * (k - 1))
<? Z.of_nat (length data0)) = true) by lia.
rewrite El. eexists. split; [reflexivity|]. split.
+ destruct (arraynd_idx3
(set_nth (Z.to_nat (i - 1 + nx * (j - 1 + ny * (k - 1))))
v data0) Hi Hj Hk) as [Hidx2 _].
rewrite Hidx2. cbn [COMMON.ArrayND.m_data].
apply nth_error_set_nth_eq. lia.
+ intros i' j' k' Hi' Hj' Hk' Hne.
destruct (arraynd_idx3
(set_nth (Z.to_nat (i - 1 + nx * (j - 1 + ny * (k - 1))))
v data0) Hi' Hj' Hk') as [Hidx' Hr'].
destruct (arraynd_idx3 data0 Hi' Hj' Hk') as [Hidx'' _].
rewrite Hidx', Hidx''.
cbn [COMMON.ArrayND.m_data].
apply nth_error_set_nth_neq. intros E.
apply Hne.
destruct (@lattice_inj nx ny (i - 1) (j - 1) (k - 1)
(i' - 1) (j' - 1) (k' - 1)) as (E1 & E2 & E3); try lia.
f_equal; [f_equal|]; lia.
Qed.

End ArrayND3.

(** X16. [ArrayND] in three dimensions: the constructor refuses a zero
    dimension, in the order I, J, K.  On an array it returns for [nx] x
    [ny] x [nz] elements, every triple of 1-based indices within the
    dimensions designates an element of its own: it reads the initial
    value, an assignment to it is read back and changes what no other
    triple within the dimensions reads.  An index beyond its dimension is
    not noticed: [(nx + 1, j, k)] designates what [(1, j + 1, k)]
    designates. *)
Theorem common_arraynd_access {A} (nx ny nz : Z) (val : A) :
  (nx = 0 ->
   COMMON.ArrayND.new3 nx ny nz val
   = inl (logic_error (dquote ++ "0" ++ dquote ++ " in I-dim.")))
  /\ (nx <> 0 -> ny = 0 ->
      COMMON.ArrayND.new3 nx ny nz val
      = inl (logic_error (dquote ++ "0" ++ dquote ++ " in J-dim.")))
  /\ (nx <> 0 -> ny <> 0 -> nz = 0 ->
      COMMON.ArrayND.new3 nx ny nz val
      = inl (logic_error (dquote ++ "0" ++ dquote ++ " in K-dim.")))
  /\ (forall a,
        COMMON.ArrayND.new3 nx ny nz val = inr a ->
        1 <= nx -> 1 <= ny -> 1 <= nz -> nx * ny * nz < 2 ^ 64 ->
        (forall j k,
            COMMON.ArrayND.get3 a (nx + 1) j k
            = COMMON.ArrayND.get3 a 1 (j + 1) k)
        /\ forall i j k v,
            1 <= i <= nx -> 1 <= j <= ny -> 1 <= k <= nz ->
            COMMON.ArrayND.get3 a i j k = Some val
            /\ exists a',
                COMMON.ArrayND.set3 a i j k v = Some a'
                /\ COMMON.ArrayND.get3 a' i j k = Some v
                /\ forall i' j' k',
                    1 <= i' <= nx -> 1 <= j' <= ny -> 1 <= k' <= nz ->
                    (i', j', k') <> (i, j, k) ->
                    COMMON.ArrayND.get3 a' i' j' k'
                    = COMMON.ArrayND.get3 a i' j' k').
Proof.
  split; [|split; [|split]].
  - intros ->. reflexivity.
  - intros H1 ->. unfold COMMON.ArrayND.new3, COMMON.ArrayND.nI,
      COMMON.ArrayND.nJ.
    cbn [COMMON.ArrayND.m_Nx COMMON.ArrayND.m_Ny].
    apply Z.eqb_neq in H1. now rewrite H1.
  - intros H1 H2 ->. unfold COMMON.ArrayND.new3, COMMON.ArrayND.nI,
      COMMON.ArrayND.nJ, COMMON.ArrayND.nK.
    cbn [COMMON.ArrayND.m_Nx COMMON.ArrayND.m_Ny COMMON.ArrayND.m_Nz].
    apply Z.eqb_neq in H1, H2. now rewrite H1, H2.
  - intros a Ha Hx Hy Hz Hfit.
    apply arraynd_new3 in Ha. subst a. split.
    + intros j k. unfold COMMON.ArrayND.get3, COMMON.ArrayND.at3.
      f_equal. unfold COMMON.ArrayND.idx3.
      cbn [COMMON.ArrayND.m_Nx COMMON.ArrayND.m_NXY].
      apply eqm64_wrap. repeat setoid_rewrite wrap_eqm64.
      match goal with |- eqm64 ?x ?y => replace x with y by ring end.
      reflexivity.
    + intros i j k v Hi Hj Hk.
      exact (@arraynd_get_set A nx ny nz val Hx Hy Hz Hfit i j k v Hi Hj Hk).
Qed.

(** The theorem on an array of 2 x 3 x 2 integers. *)
Lemma common_arraynd_access_witness :
  exists a a',
    COMMON.ArrayND.new3 2 3 2 0 = inr a
    /\ COMMON.ArrayND.set3 a 2 3 1 7 = Some a'
    /\ COMMON.ArrayND.get3 a' 2 3 1 = Some 7
    /\ COMMON.ArrayND.get3 a' 1 1 2 = Some 0.
Proof.
  destruct (COMMON.ArrayND.new3 2 3 2 0) as [e|a] eqn:Ha;
    [vm_compute in Ha; discriminate Ha|].
  destruct (@common_arraynd_access Z 2 3 2 0) as (_ & _ & _ & H).
  destruct (H a Ha) as (_ & H'); try lia.
  destruct (H' 2 3 1 7) as (_ & a' & Hs & Hg & Ho); try lia.
  exists a, a'. repeat split; auto.
  rewrite Ho by (try lia; discriminate).
  destruct (H' 1 1 2 7) as (Hv & _); try lia. exact Hv.
Defined.

(* ------------------------------------------------------------------ *)
(** ** What a successful [readFromFile] leaves *)

Lemma preserves_normal {S A} (P : S -> Prop) (c : M S A) s a s' :
  preserves P c -> P s -> c s = Normal a s' -> P s'.
Proof. intros Hc Hs E. specialize (Hc s Hs). now rewrite E in Hc. Qed.

Lemma ss_get_size_t_range ss v ss' n :
  0 <= v <= SIZE_MAX -> ss_get_size_t ss v = (ss', n) -> 0 <= n <= SIZE_MAX.
Proof.
  unfold ss_get_size_t. intros Hv.
  destruct (ss_good ss); [|intros H; injection H as _ <-; exact Hv].
  destruct (is_empty (Cstr.dropWhile Cstr.isspace (ss_buf ss)));
    [intros H; injection H as _ <-; exact Hv|].
  match goal with |- context [Cstr.span Cstr.isdigit ?r] =>
    pose proof (span_forallb Cstr.isdigit r) as Hd;
    destruct (Cstr.span Cstr.isdigit r) as [ds rest]
  end.
  simpl in Hd.
  destruct (is_empty ds).
  - intros H; injection H as _ <-. unfold SIZE_MAX. lia.
  - destruct (Cstr.digits_value 0 ds <=? SIZE_MAX) eqn:E.
    + intros H; injection H as _ <-. split; [|lia].
      apply digits_value_nonneg; [exact Hd|lia].
    + intros H; injection H as _ <-. unfold SIZE_MAX. lia.
Qed.

Lemma ss_get_size_ts_range n : forall ss ss' vs,
  ss_get_size_ts n ss = (ss', vs) ->
  Forall (fun x => 0 <= x <= SIZE_MAX) vs.
Proof.
  induction n as [|n IH]; intros ss ss' vs; simpl.
  - intros H; injection H as _ <-. constructor.
  - destruct (ss_get_size_t ss 0) as [ss1 v] eqn:E1.
    destruct (ss_get_size_ts n ss1) as [ss2 vs'] eqn:E2.
    intros H; injection H as _ <-. constructor.
    + apply (@ss_get_size_t_range ss 0 ss1 v); [unfold SIZE_MAX; lia|exact E1].
    + eapply IH; eauto.
Qed.

Lemma range_new_size_t vs :
  Forall (fun x => 0 <= x <= SIZE_MAX) vs -> size_t_range (RANGE.new vs) = true.
Proof.
  intros H.
  assert (Hn : forall k, 0 <= nth k vs 0 <= SIZE_MAX).
  { intros k. destruct (nth_in_or_default k vs 0) as [Hin | ->].
    - rewrite Forall_forall in H. apply H. exact Hin.
    - unfold SIZE_MAX. lia. }
  unfold size_t_range, RANGE.new, RANGE.B, RANGE.F, RANGE.S1, RANGE.E1,
    RANGE.S2, RANGE.E2. cbn [List.forallb RANGE.m_blk RANGE.m_face RANGE.m_s1
    RANGE.m_e1 RANGE.m_s2 RANGE.m_e2].
  pose proof (Hn 0%nat). pose proof (Hn 1%nat). pose proof (Hn 2%nat).
  pose proof (Hn 3%nat). pose proof (Hn 4%nat). pose proof (Hn 5%nat).
  repeat (apply andb_true_intro; split); try reflexivity; lia.
Qed.

Lemma valid_str_idx t :
  BC.isValidBCStr t = true ->
  exists x, BC.str2idx t = inr x /\ BC.isValidBCIdx x = true.
Proof.
  unfold BC.isValidBCStr, BC.str2idx.
  generalize (BC.str_formalize t) as u. intros u H.
  simpl in H. unfold BC.find.
  case_name u; try discriminate; eexists; split; reflexivity.
Qed.

Lemma new_bc_inv t bc :
  ENTRY.new_bc t = inr bc -> BC.str2idx t = inr bc /\ BC.isValidBCIdx bc = true.
Proof.
  unfold ENTRY.new_bc. destruct (BC.isValidBCStr t) eqn:E; [|discriminate].
  destruct (valid_str_idx _ E) as (x & Hx & Hv). rewrite Hx.
  intros H. apply inr_inj in H. subst x. auto.
Qed.

(** One entry is appended by each line read. *)
Lemma read_entry_normal s ss m ss' m' :
  Mapping3D.read_entry s ss m = Normal ss' m' ->
  exists e, entry_ok e = true
            /\ m' = Mapping3D.set_m_entry (Mapping3D.m_entry m ++ [e]) m.
Proof.
  unfold Mapping3D.read_entry.
  destruct (ss_get_string _ _) as [ss1 bc_str].
  intros H. apply bind_normal in H as (bc & m1 & Hbc & H).
  apply lift_normal in Hbc as [Hbc ->].
  destruct (bc =? BC.ONE_TO_ONE) eqn:Eb.
  - destruct (ss_get_size_ts 6 ss1) as [ss2 c0] eqn:E0.
    destruct (ss_get_size_ts 6 ss2) as [ss3 c1] eqn:E1.
    destruct (ss_get_string ss3 "") as [ss4 swp].
    apply bind_normal in H as (p & m1 & Hp & H).
    apply lift_normal in Hp as [Hp ->].
    unfold ENTRY.new_double in Hp.
    destruct (ENTRY.new_bc bc_str) as [e|bc'] eqn:Enb; [discriminate|].
    apply inr_inj in Hp. subst p.
    destruct (new_bc_inv _ Enb) as [Hs Hv].
    rewrite Hbc in Hs. apply inr_inj in Hs. subst bc'.
    apply bind_normal in H as ([] & m1 & Hm & H).
    unfold modify in Hm. injection Hm as <-.
    unfold ret in H. injection H as _ <-.
    eexists. split; [|reflexivity].
    unfold entry_ok. cbn [ENTRY.Type_]. rewrite Hv, Eb.
    rewrite !range_new_size_t by (eapply ss_get_size_ts_range; eauto).
    reflexivity.
  - destruct (ss_get_size_ts 6 ss1) as [ss2 c0] eqn:E0.
    apply bind_normal in H as (p & m1 & Hp & H).
    apply lift_normal in Hp as [Hp ->].
    unfold ENTRY.new_single in Hp.
    destruct (ENTRY.new_bc bc_str) as [e|bc'] eqn:Enb; [discriminate|].
    apply inr_inj in Hp. subst p.
    destruct (new_bc_inv _ Enb) as [Hs Hv].
    rewrite Hbc in Hs. apply inr_inj in Hs. subst bc'.
    apply bind_normal in H as ([] & m1 & Hm & H).
    unfold modify in Hm. injection Hm as <-.
    unfold ret in H. injection H as _ <-.
    eexists. split; [|reflexivity].
    unfold entry_ok. cbn [ENTRY.Type_]. rewrite Hv, Eb.
    rewrite !range_new_size_t by (eapply ss_get_size_ts_range; eauto).
    reflexivity.
Qed.

Lemma read_connections_normal mfp : forall s ss m m',
  Mapping3D.read_connections mfp s ss m = Normal tt m' ->
  exists es, es <> [] /\ List.forallb entry_ok es = true
             /\ m' = Mapping3D.set_m_entry (Mapping3D.m_entry m ++ es) m.
Proof.
  assert (Hone : forall s ss m ss' m1,
             Mapping3D.read_entry s ss m = Normal ss' m1 ->
             forall m', m' = m1 ->
             exists es, es <> [] /\ List.forallb entry_ok es = true
                        /\ m' = Mapping3D.set_m_entry
                                  (Mapping3D.m_entry m ++ es) m).
  { intros s ss m ss' m1 H m' ->.
    apply read_entry_normal in H as (e & He & ->).
    exists [e]. split; [discriminate|]. split; [simpl; now rewrite He|].
    reflexivity. }
  assert (Hmore : forall s ss m ss' m1 m',
             Mapping3D.read_entry s ss m = Normal ss' m1 ->
             (exists es, es <> [] /\ List.forallb entry_ok es = true
                /\ m' = Mapping3D.set_m_entry (Mapping3D.m_entry m1 ++ es) m1) ->
             exists es, es <> [] /\ List.forallb entry_ok es = true
                        /\ m' = Mapping3D.set_m_entry
                                  (Mapping3D.m_entry m ++ es) m).
  { intros s ss m ss' m1 m' H (es & Hne & Hok & ->).
    apply read_entry_normal in H as (e & He & ->).
    exists (e :: es). split; [discriminate|].
    split; [simpl; now rewrite He, Hok|].
    destruct m as [bl en]. unfold Mapping3D.set_m_entry; simpl.
    now rewrite <- app_assoc. }
  induction mfp as [|x rest IH]; intros s ss m m' H.
  - simpl in H. apply bind_normal in H as (ss' & m1 & H1 & H).
    unfold ret in H. injection H as <-. eapply Hone; eauto.
  - cbn [Mapping3D.read_connections] in H.
    apply bind_normal in H as (ss' & m1 & H1 & H).
    destruct rest as [|y rest'].
    + destruct (String.eqb x "").
      * unfold ret in H. injection H as <-. eapply Hone; eauto.
      * eapply Hmore; eauto.
    + eapply Hmore; eauto.
Qed.

Lemma read_block_normal N s m m' :
  Mapping3D.read_block N s m = Normal tt m' ->
  exists idx i j k b,
    1 <= idx <= N /\ idx <= Mapping3D.nBlk m
    /\ 1 <= i <= INT_MAX /\ 1 <= j <= INT_MAX /\ 1 <= k <= INT_MAX
    /\ Block3D.new idx i j k = inr b
    /\ m' = Mapping3D.set_m_blk
              (set_nth (Z.to_nat (idx - 1))
                       (Some (Block3D.set_index (wrap idx) b))
                       (Mapping3D.m_blk m)) m.
Proof.
  unfold Mapping3D.read_block.
  destruct (regex_match_pattern2 s) as [[[[r1 r2] r3] r4]|]; [|discriminate].
  intros H.
  apply bind_normal in H as (idx & m1 & H1 & H).
  apply lift_normal in H1 as [H1 ->].
  apply bind_normal in H as (i & m1 & H2 & H).
  apply lift_normal in H2 as [H2 ->].
  apply bind_normal in H as (j & m1 & H3 & H).
  apply lift_normal in H3 as [H3 ->].
  apply bind_normal in H as (k & m1 & H4 & H).
  apply lift_normal in H4 as [H4 ->].
  apply stoi_bound in H1, H2, H3, H4.
  destruct ((idx <? 1) || (idx >? N)) eqn:Hidx; [discriminate|].
  destruct (i <? 1) eqn:Hi; [discriminate|].
  destruct (j <? 1) eqn:Hj; [discriminate|].
  destruct (k <? 1) eqn:Hk; [discriminate|].
  apply bind_normal in H as (mm & m1 & Hg & H).
  unfold get_state in Hg. injection Hg as <- <-.
  apply bind_normal in H as (n & m1 & Hn & H).
  apply lift_normal in Hn as [Hn ->].
  apply bind_normal in H as (b & m1 & Hb & H).
  apply lift_normal in Hb as [Hb ->].
  unfold put_state in H. injection H as <-.
  assert (Hr : 1 <= idx <= N) by lia.
  unfold Array1D.index in Hn.
  destruct ((1 <=? idx) && (idx <=? Mapping3D.nBlk m)) eqn:E1.
  - apply inr_inj in Hn. subst n.
    exists idx, i, j, k, b. repeat split; auto; lia.
  - destruct ((- Mapping3D.nBlk m <=? idx) && (idx <=? -1)) eqn:E2;
      [lia|discriminate].
Qed.

Lemma read_blocks_shape n : forall N mfp s m x m',
  Mapping3D.read_blocks n N mfp s m = Normal x m' ->
  Mapping3D.nBlk m' = Mapping3D.nBlk m
  /\ Mapping3D.m_entry m' = Mapping3D.m_entry m.
Proof.
  induction n as [|n IH]; intros N mfp s m x m' H; simpl in H.
  - unfold ret in H. injection H as _ <-. auto.
  - destruct (getline mfp s) as [[ok s1] mfp1].
    apply bind_normal in H as ([] & m1 & H1 & H).
    apply read_block_normal in H1
      as (idx & i & j & k & b & _ & _ & _ & _ & _ & _ & ->).
    apply IH in H as [E1 E2]. rewrite E1, E2.
    unfold Mapping3D.nBlk. simpl. now rewrite length_set_nth.
Qed.

Lemma connect_pass_shape es : forall m m',
  for_each es Mapping3D.connect m = Normal tt m' ->
  Mapping3D.nBlk m' = Mapping3D.nBlk m
  /\ Mapping3D.m_entry m' = Mapping3D.m_entry m.
Proof.
  induction es as [|e es IH]; intros m m' H; simpl in H.
  - unfold ret in H. injection H as <-. auto.
  - apply bind_normal in H as ([] & m1 & H1 & H).
    apply IH in H as [E1 E2]. rewrite E1, E2.
    destruct (@connect_normal _ _ _ H1)
      as [[_ ->]|(_ & n1 & f1 & n2 & f2 & _ & _ & ->)]; auto.
    rewrite !set_neighbourSurf_nBlk, !set_neighbourSurf_entry. auto.
Qed.

(** The stages of a [readFromFile] that returns. *)
Lemma readFromFile_stages fs path m0 r m :
  Mapping3D.readFromFile fs path m0 = Normal r m ->
  exists text N s mfp s' mfp' s'' mfp'' m4 m5,
    fs_file fs path = Some text
    /\ declared_blocks text = Some N /\ 1 <= N <= INT_MAX
    /\ Mapping3D.skip (Cstr.split_lines text) "" = Some (s, mfp)
    /\ Mapping3D.read_blocks (Z.to_nat N) N mfp s
         (Mapping3D.mk (repeat None (Z.to_nat N)) [])
       = Normal (s', mfp') m4
    /\ Mapping3D.skip mfp' s' = Some (s'', mfp'')
    /\ Mapping3D.read_connections mfp'' s'' (mkss "" true) m4 = Normal tt m5
    /\ for_each (Mapping3D.m_entry m5) Mapping3D.connect m5 = Normal tt m.
Proof.
  intros H. unfold Mapping3D.readFromFile in H.
  destruct (fs_file fs path) as [text|] eqn:Ef; [|discriminate].
  destruct (Mapping3D.skip (Cstr.split_lines text) "") as [[s mfp]|] eqn:Es;
    [|discriminate].
  destruct (regex_match_pattern1 s) as [r1|] eqn:Er; [|discriminate].
  apply bind_normal in H as (N & s1 & HN & H).
  apply lift_normal in HN as [HN ->].
  destruct (N <=? 0) eqn:EN; [discriminate|].
  rewrite bind_release_all in H.
  apply bind_normal in H as ([] & s3 & Hm & H).
  unfold modify in Hm. injection Hm as <-.
  apply bind_normal in H as ([s' mfp'] & m4 & Hrb & H).
  destruct (Mapping3D.skip mfp' s') as [[s'' mfp'']|] eqn:Es2; [|discriminate].
  apply bind_normal in H as ([] & m5 & Hrc & H).
  apply bind_normal in H as (mm & m6 & Hg & H).
  unfold get_state in Hg. injection Hg as <- <-.
  apply bind_normal in H as ([] & m7 & Hc & H).
  apply bind_normal in H as ([] & m8 & Hcp & H).
  unfold ret in H. injection H as _ <-.
  apply counterpart_pass in Hcp. subst m8.
  exists text, N, s, mfp, s', mfp', s'', mfp'', m4, m5.
  split; [reflexivity|]. split.
  { unfold declared_blocks. now rewrite Es, Er, HN. }
  split.
  { apply stoi_bound in HN. lia. }
  repeat split; auto.
Qed.

(** X17. What a model that [readFromFile] returns looks like: it has as
    many slots as the file declares blocks, at least 1 and at most
    [INT_MAX]; it has at least one entry; the type of every entry is one of
    the thirteen boundary conditions, an entry is double-sided exactly
    when its type is [ONE_TO_ONE], and the fields of its ranges are values
    of a [size_t]; every [ONE_TO_ONE] entry designates two surfaces of the
    model. *)
Theorem readFromFile_result fs path m0 r m :
  Mapping3D.readFromFile fs path m0 = Normal r m ->
  exists text,
    fs_file fs path = Some text
    /\ declared_blocks text = Some (Mapping3D.nBlk m)
    /\ 1 <= Mapping3D.nBlk m <= INT_MAX
    /\ Mapping3D.m_entry m <> []
    /\ List.forallb entry_ok (Mapping3D.m_entry m) = true
    /\ forall e, In e (Mapping3D.m_entry m) ->
                 ENTRY.Type_ e = BC.ONE_TO_ONE ->
                 designated (Mapping3D.nBlk m) e <> None.
Proof.
  intros H.
  apply readFromFile_stages in H
    as (text & N & s & mfp & s' & mfp' & s'' & mfp'' & m4 & m5
        & Hf & Hd & HN & _ & Hrb & _ & Hrc & Hc).
  apply read_blocks_shape in Hrb as [B1 B2].
  apply read_connections_normal in Hrc as (es & Hne & Hok & ->).
  cbn [Mapping3D.m_entry] in B2. rewrite B2 in Hc.
  cbn [app Mapping3D.m_entry Mapping3D.set_m_entry] in Hc.
  destruct (@connect_pass_shape _ _ _ Hc) as [C1 C2].
  cbn [Mapping3D.m_entry] in C2.
  assert (HNm : Mapping3D.nBlk m = N).
  { rewrite C1. unfold Mapping3D.nBlk in *. unfold Mapping3D.set_m_entry.
    cbn [Mapping3D.m_blk] in *. rewrite B1, repeat_length. lia. }
  exists text. rewrite HNm, C2.
  repeat split; auto; try lia.
  intros e Hin Hty.
  pose proof (@connect_pass_designated _ _ _ Hc e Hin Hty) as D.
  rewrite <- HNm, C1. exact D.
Qed.

Lemma readFromFile_result_witness :
  exists m, parse nmf_two_cubes = Some m
    /\ Mapping3D.nBlk m = 2
    /\ List.forallb entry_ok (Mapping3D.m_entry m) = true.
Proof.
  assert (H : exists m, Mapping3D.readFromFile
                          (one_file "in.nmf" nmf_two_cubes) "in.nmf"
                          Mapping3D.new = Normal 0 m)
    by (eexists; vm_compute; reflexivity).
  destruct H as (m & H). exists m.
  destruct (readFromFile_result _ _ _ H) as (text & Hf & Hd & _ & _ & Hok & _).
  split; [unfold parse; now rewrite H|]. split; [|exact Hok].
  change (Some nmf_two_cubes = Some text) in Hf. injection Hf as <-.
  assert (E : declared_blocks nmf_two_cubes = Some 2)
    by (vm_compute; reflexivity).
  rewrite E in Hd. now injection Hd as <-.
Defined.

(* ------------------------------------------------------------------ *)
(** ** Writing a model and reading it back *)


(* ------------------------------------------------------------------ *)
(** ** The text [writeToFile] writes *)

Lemma sapp_assoc (a b c : string) : ((a ++ b) ++ c = a ++ (b ++ c))%string.
Proof. induction a as [|x a IH]; simpl; [reflexivity|]. now rewrite IH. Qed.

Lemma sapp_nil_r (a : string) : (a ++ "" = a)%string.
Proof. induction a as [|x a IH]; simpl; [reflexivity|]. now rewrite IH. Qed.

Lemma out_num_field w n acc :
  Mapping3D.out_num w n acc = Normal tt (acc ++ field w n)%string.
Proof. reflexivity. Qed.

Lemma out_app s acc : Mapping3D.out s acc = Normal tt (acc ++ s)%string.
Proof. reflexivity. Qed.

Lemma bind_normal_l {S A B} (c : M S A) (f : A -> M S B) s a s1 :
  c s = Normal a s1 -> bind c f s = f a s1.
Proof. intros H. unfold bind. now rewrite H. Qed.

Lemma write_range_head_text r acc :
  Mapping3D.write_range_head r acc = Normal tt (acc ++ range_head r)%string.
Proof.
  unfold Mapping3D.write_range_head, range_head.
  repeat (erewrite bind_normal_l by apply out_num_field).
  rewrite out_num_field. now rewrite !sapp_assoc.
Qed.

Lemma write_range_tail_text r acc :
  Mapping3D.write_range_tail r acc = Normal tt (acc ++ range_tail r)%string.
Proof.
  unfold Mapping3D.write_range_tail, range_tail.
  repeat (erewrite bind_normal_l by apply out_num_field).
  rewrite out_num_field. now rewrite !sapp_assoc.
Qed.

Lemma write_block_text m i b acc :
  nth_error (Mapping3D.m_blk m) i = Some (Some b) ->
  Mapping3D.write_block m i acc
  = Normal tt (acc ++ block_line i b ++ Cstr.endl)%string.
Proof.
  intros H. unfold Mapping3D.write_block, block_line. rewrite H.
  repeat (erewrite bind_normal_l by apply out_num_field).
  rewrite out_app. now rewrite !sapp_assoc.
Qed.

Lemma write_blocks_text m bs : forall done acc,
  Mapping3D.m_blk m = done ++ map Some bs ->
  for_each (seq (length done) (length bs)) (Mapping3D.write_block m) acc
  = Normal tt (acc ++ text (block_lines (length done) bs))%string.
Proof.
  induction bs as [|b bs IH]; intros done acc Hm; simpl.
  - now rewrite sapp_nil_r.
  - erewrite bind_normal_l.
    2:{ apply write_block_text. rewrite Hm, nth_error_app2 by lia.
        rewrite Nat.sub_diag. reflexivity. }
    specialize (IH (done ++ [Some b])).
    rewrite length_app in IH. simpl in IH.
    rewrite Nat.add_1_r in IH. rewrite IH.
    + now rewrite !sapp_assoc.
    + rewrite Hm, <- app_assoc. reflexivity.
Qed.

Lemma entry_ok_inv e :
  entry_ok e = true ->
  BC.isValidBCIdx (ENTRY.Type_ e) = true
  /\ match e with
     | ENTRY.SingleSideEntry bc r =>
         bc <> BC.ONE_TO_ONE /\ size_t_range r = true
     | ENTRY.DoubleSideEntry bc r1 r2 _ =>
         bc = BC.ONE_TO_ONE /\ size_t_range r1 = true
         /\ size_t_range r2 = true
     end.
Proof.
  unfold entry_ok. intros H. apply andb_prop in H as [Hv H].
  split; [exact Hv|]. destruct e as [bc r|bc r1 r2 sw].
  - apply andb_prop in H as [H1 H2]. split; [|exact H2].
    destruct (Z.eqb_spec bc BC.ONE_TO_ONE); [discriminate|assumption].
  - apply andb_prop in H as [H H3]. apply andb_prop in H as [H1 H2].
    apply Z.eqb_eq in H1. auto.
Qed.

Lemma idx_name x :
  BC.isValidBCIdx x = true ->
  BC.idx2str x = inr (bc_name x) /\ BC.str2idx (bc_name x) = inr x
  /\ BC.isValidBCStr (bc_name x) = true
  /\ BC.str_formalize (bc_name x) = bc_name x
  /\ (String.length (bc_name x) <= 11)%nat
  /\ Cstr.forallb (fun c => negb (Cstr.isspace c)) (bc_name x) = true
  /\ bc_name x <> "".
Proof.
  intros H. apply valid_idx_range in H.
  assert (x = 1 \/ x = 2 \/ x = 3 \/ x = 4 \/ x = 5 \/ x = 6 \/ x = 7
          \/ x = 8 \/ x = 9 \/ x = 10 \/ x = 11 \/ x = 12 \/ x = 13)
    as E by lia.
  repeat (destruct E as [-> | E];
          [repeat split; try reflexivity; try (vm_compute; lia);
           discriminate|]).
  subst x. repeat split; try reflexivity; try (vm_compute; lia); discriminate.
Qed.

Lemma write_entry_text e acc :
  entry_ok e = true ->
  Mapping3D.write_entry e acc
  = Normal tt (acc ++ entry_line e ++ Cstr.endl)%string.
Proof.
  intros Hok. destruct (entry_ok_inv _ Hok) as [Hv Hs].
  destruct (idx_name _ Hv) as (Hn & _).
  unfold Mapping3D.write_entry, entry_line. rewrite Hn. cbn [lift].
  rewrite bind_ret_l.
  erewrite bind_normal_l by apply out_app.
  erewrite bind_normal_l by apply write_range_head_text.
  destruct e as [bc r|bc r1 r2 sw]; cbn [ENTRY.Type_ ENTRY.Range1] in *.
  - destruct Hs as [Hne _]. apply Z.eqb_neq in Hne. rewrite Hne.
    rewrite bind_ret_l, out_app. now rewrite !sapp_assoc.
  - destruct Hs as [-> _]. cbn [Z.eqb BC.ONE_TO_ONE Pos.eqb].
    erewrite bind_normal_l.
    2:{ erewrite bind_normal_l by apply write_range_tail_text.
        apply out_app. }
    rewrite out_app. now rewrite !sapp_assoc.
Qed.

Lemma write_entries_text es : forall acc,
  List.forallb entry_ok es = true ->
  for_each es Mapping3D.write_entry acc
  = Normal tt (acc ++ text (map entry_line es))%string.
Proof.
  induction es as [|e es IH]; intros acc H; simpl.
  - now rewrite sapp_nil_r.
  - simpl in H. apply andb_prop in H as [He H].
    erewrite bind_normal_l by (apply write_entry_text; exact He).
    rewrite IH by exact H. now rewrite !sapp_assoc.
Qed.

Lemma text_app l1 l2 : text (l1 ++ l2) = (text l1 ++ text l2)%string.
Proof.
  induction l1 as [|x l1 IH]; simpl; [reflexivity|].
  now rewrite IH, !sapp_assoc.
Qed.

Lemma allocated_blocks m :
  allocated m -> Mapping3D.m_blk m = map Some (blocks m).
Proof.
  unfold allocated, blocks. induction 1 as [|o l Ho _ IH]; simpl.
  - reflexivity.
  - destruct o as [b|]; [|congruence]. simpl. now rewrite <- IH.
Qed.

Lemma write_text_lines m :
  allocated m -> List.forallb entry_ok (Mapping3D.m_entry m) = true ->
  Mapping3D.write_text m "" = Normal tt (text (file_lines m)).
Proof.
  intros Ha Hok. unfold Mapping3D.write_text, file_lines.
  pose proof (allocated_blocks Ha) as Hb.
  assert (HN : Z.to_nat (Mapping3D.nBlk m) = length (blocks m)).
  { unfold Mapping3D.nBlk. rewrite Hb, length_map. lia. }
  repeat (erewrite bind_normal_l by apply out_app).
  erewrite bind_normal_l.
  2:{ rewrite HN. apply (@write_blocks_text m (blocks m) []). exact Hb. }
  repeat (erewrite bind_normal_l by apply out_app).
  rewrite write_entries_text by exact Hok.
  rewrite !text_app. cbn [text header_lines separator_lines length].
  rewrite !sapp_assoc. reflexivity.
Qed.

(* ------------------------------------------------------------------ *)
(** ** Reading back what was written: lines *)

Lemma forallb_sapp p a b :
  Cstr.forallb p (a ++ b) = Cstr.forallb p a && Cstr.forallb p b.
Proof.
  induction a as [|c a IH]; simpl; [reflexivity|].
  now rewrite IH, andb_assoc.
Qed.

Lemma forallb_spaces p n : p " "%char = true -> Cstr.forallb p (Cstr.spaces n) = true.
Proof. intros H. induction n as [|n IH]; simpl; [reflexivity|]. now rewrite H. Qed.

Lemma forallb_impl (p q : ascii -> bool) s :
  (forall c, p c = true -> q c = true) ->
  Cstr.forallb p s = true -> Cstr.forallb q s = true.
Proof.
  intros H. induction s as [|c s IH]; simpl; [reflexivity|].
  intros E. apply andb_prop in E as [E1 E2]. now rewrite (H c E1), IH.
Qed.

Lemma forallb_field p w n :
  blank_or_digit_ok p -> 0 <= n -> Cstr.forallb p (field w n) = true.
Proof.
  intros [Hs Hd] Hn. unfold field, Cstr.setw_right.
  rewrite forallb_sapp, forallb_spaces by exact Hs.
  destruct (to_string_value Hn) as (Hdig & _).
  now rewrite (@forallb_impl _ _ _ Hd Hdig).
Qed.

Lemma split_lines_line l rest :
  Cstr.forallb not_newline l = true ->
  Cstr.split_lines (l ++ Cstr.endl ++ rest) = l :: Cstr.split_lines rest.
Proof.
  induction l as [|c l IH]; intros H.
  - reflexivity.
  - cbn [Cstr.forallb] in H. apply andb_prop in H as [Hc Hl].
    cbn [append Cstr.split_lines]. unfold not_newline in Hc.
    destruct (Ascii.eqb c "010"); [discriminate|].
    now rewrite (IH Hl).
Qed.

Lemma split_lines_text ls :
  Forall (fun l => Cstr.forallb not_newline l = true) ls ->
  Cstr.split_lines (text ls) = ls ++ [""].
Proof.
  induction 1 as [|l ls Hl _ IH]; [reflexivity|].
  cbn [text]. rewrite split_lines_line by exact Hl. now rewrite IH.
Qed.

(* ------------------------------------------------------------------ *)
(** ** Reading back what was written: tokens *)

Lemma isdigit_not_space c : Cstr.isdigit c = true -> Cstr.isspace c = false.
Proof.
  unfold Cstr.isdigit, Cstr.isspace. intros H.
  apply andb_prop in H as [H1 H2]. apply Nat.leb_le in H1, H2.
  apply orb_false_intro.
  - apply Nat.eqb_neq. lia.
  - apply andb_false_intro2. apply Nat.leb_gt. lia.
Qed.

Lemma isdigit_not_plus c : Cstr.isdigit c = true -> Ascii.eqb c "+" = false.
Proof.
  intros H. destruct (Ascii.eqb_spec c "+") as [->|]; [discriminate|reflexivity].
Qed.

Lemma span_stop p a b :
  Cstr.forallb p a = true -> stops p b -> Cstr.span p (a ++ b) = (a, b).
Proof. intros Ha Hb. now apply span_app. Qed.

Lemma dropWhile_stop p a b :
  Cstr.forallb p a = true -> stops p b -> Cstr.dropWhile p (a ++ b) = b.
Proof. intros Ha Hb. unfold Cstr.dropWhile. now rewrite span_stop. Qed.

Lemma spaces_isspace k : Cstr.forallb Cstr.isspace (Cstr.spaces k) = true.
Proof. now apply forallb_spaces. Qed.

Lemma stops_digits p ds rest :
  ds <> "" -> Cstr.forallb Cstr.isdigit ds = true ->
  (forall c, Cstr.isdigit c = true -> p c = false) ->
  stops p (ds ++ rest).
Proof.
  intros Hne Hd Hp. destruct ds as [|c ds]; [congruence|].
  simpl in *. apply andb_prop in Hd as [Hc _]. now apply Hp.
Qed.

Lemma is_empty_app_l a b : a <> "" -> is_empty (a ++ b) = false.
Proof. destruct a; [congruence|reflexivity]. Qed.

(** [ss >> v] on blanks, a number, and a rest that does not go on with a
    digit. *)
Lemma get_number k ds rest v :
  Cstr.forallb Cstr.isdigit ds = true -> ds <> "" ->
  Cstr.digits_value 0 ds <= SIZE_MAX ->
  stops Cstr.isdigit rest ->
  ss_get_size_t (mkss (Cstr.spaces k ++ ds ++ rest) true) v
  = (mkss rest (negb (is_empty rest)), Cstr.digits_value 0 ds).
Proof.
  intros Hd Hne Hmax Hrest. unfold ss_get_size_t. cbn [ss_good ss_buf].
  rewrite dropWhile_stop
    by (try apply spaces_isspace;
        apply stops_digits; auto using isdigit_not_space).
  rewrite is_empty_app_l by exact Hne.
  assert (Hplus : match (ds ++ rest)%string with
                  | String c r' => if Ascii.eqb c "+" then r' else (ds ++ rest)%string
                  | EmptyString => (ds ++ rest)%string
                  end = (ds ++ rest)%string).
  { destruct ds as [|c ds]; [congruence|]. simpl in *.
    apply andb_prop in Hd as [Hc _]. now rewrite (isdigit_not_plus _ Hc). }
  rewrite Hplus, span_stop by auto.
  destruct ds as [|c ds]; [congruence|]. cbn [is_empty].
  apply Z.leb_le in Hmax. now rewrite Hmax.
Qed.

(** [ss >> str] on blanks, a word, and a rest that goes on with a blank. *)
Lemma get_word k w rest str :
  Cstr.forallb (fun c => negb (Cstr.isspace c)) w = true -> w <> "" ->
  stops (fun c => negb (Cstr.isspace c)) rest ->
  ss_get_string (mkss (Cstr.spaces k ++ w ++ rest) true) str
  = (mkss rest (negb (is_empty rest)), w).
Proof.
  intros Hw Hne Hrest. unfold ss_get_string. cbn [ss_good ss_buf].
  assert (Hst : stops Cstr.isspace (w ++ rest)).
  { destruct w as [|c w]; [congruence|]. simpl in *.
    apply andb_prop in Hw as [Hc _]. now destruct (Cstr.isspace c). }
  rewrite dropWhile_stop by (auto using spaces_isspace).
  rewrite is_empty_app_l by exact Hne.
  now rewrite span_stop.
Qed.

Lemma field_shape w n :
  0 <= n ->
  let ds := Cstr.to_string n in
  field w n = (Cstr.spaces (w - String.length ds) ++ ds)%string
  /\ Cstr.forallb Cstr.isdigit ds = true /\ ds <> ""
  /\ Cstr.digits_value 0 ds = n
  /\ (narrow w n = true -> (2 <= w)%nat -> (1 <= w - String.length ds)%nat).
Proof.
  intros Hn ds. destruct (to_string_value Hn) as (H1 & H2 & H3).
  repeat split; auto.
  intros Hnar Hw. unfold narrow in Hnar. apply andb_prop in Hnar as [_ Hlt].
  apply Z.ltb_lt in Hlt.
  pose proof (@to_string_length n (w - 1)) as L.
  assert (String.length ds <= w - 1)%nat by (apply L; lia). lia.
Qed.

Lemma fields_head r : fields (head_columns r) = range_head r.
Proof. unfold fields, head_columns, range_head. now rewrite sapp_nil_r. Qed.

Lemma fields_tail r : fields (tail_columns r) = range_tail r.
Proof. unfold fields, tail_columns, range_tail. now rewrite sapp_nil_r. Qed.

Lemma spaces_app a b :
  (Cstr.spaces a ++ Cstr.spaces b)%string = Cstr.spaces (a + b).
Proof. induction a as [|a IH]; simpl; [reflexivity|]. now rewrite IH. Qed.

Lemma stops_field p w n rest :
  0 <= n -> narrow w n = true -> (2 <= w)%nat -> p " "%char = false ->
  stops p (field w n ++ rest).
Proof.
  intros Hn Hnar Hw Hp.
  destruct (field_shape w Hn) as (E & _ & _ & _ & Hk).
  specialize (Hk Hnar Hw). rewrite E.
  destruct (w - String.length (Cstr.to_string n))%nat as [|k]; [lia|].
  simpl. exact Hp.
Qed.

Lemma is_empty_app_r a b : b <> "" -> is_empty (a ++ b) = false.
Proof. destruct a; [|reflexivity]. destruct b; [congruence|reflexivity]. Qed.

(** Reading a sequence of numbers from their columns: every number but
    the first is narrower than its column. *)
Lemma get_numbers l : forall k0 rest,
  l <> [] ->
  Forall (fun x => 0 <= snd x <= SIZE_MAX) l ->
  Forall (fun x => narrow (fst x) (snd x) = true /\ (2 <= fst x)%nat) (tl l) ->
  stops Cstr.isdigit rest ->
  ss_get_size_ts (length l) (mkss (Cstr.spaces k0 ++ fields l ++ rest) true)
  = (mkss rest (negb (is_empty rest)), map snd l).
Proof.
  induction l as [|[w n] l IH]; intros k0 rest Hne Hr Hnar Hrest;
    [congruence|].
  inversion Hr as [|x l' [Hn0 Hn1] Hr']; subst. cbn [snd] in *.
  cbn [length ss_get_size_ts fields map snd tl] in *.
  destruct (field_shape w Hn0) as (E & Hd & Hds & Hv & _).
  assert (Hbuf : (Cstr.spaces k0 ++ (field w n ++ fields l) ++ rest)%string
                 = (Cstr.spaces (k0 + (w - String.length (Cstr.to_string n)))
                    ++ Cstr.to_string n ++ (fields l ++ rest))%string).
  { rewrite E, !sapp_assoc, <- spaces_app, !sapp_assoc. reflexivity. }
  rewrite Hbuf.
  assert (Hst : stops Cstr.isdigit (fields l ++ rest)).
  { destruct l as [|[w' n'] l'']; [exact Hrest|].
    inversion Hnar as [|y l3 [Hy1 Hy2] _]; subst. cbn [fst snd] in *.
    inversion Hr' as [|y l3 [Hy3 _] _]; subst. cbn [snd] in *.
    cbn [fields]. rewrite sapp_assoc.
    apply stops_field; auto. }
  rewrite get_number by (auto; lia).
  rewrite Hv.
  destruct l as [|[w' n'] l''].
  - reflexivity.
  - assert (Hg : negb (is_empty (fields ((w', n') :: l'') ++ rest)) = true).
    { inversion Hr' as [|y l3 [Hy3 _] _]; subst. cbn [snd] in *.
      destruct (field_shape w' Hy3) as (E' & _ & Hds' & _).
      cbn [fields]. rewrite E', !sapp_assoc.
      rewrite is_empty_app_r; [reflexivity|].
      intros H0. apply (f_equal is_empty) in H0.
      rewrite is_empty_app_l in H0 by exact Hds'. discriminate. }
    rewrite Hg.
    specialize (IH 0%nat rest ltac:(discriminate) Hr').
    cbn [Cstr.spaces append] in IH. rewrite IH.
    + reflexivity.
    + inversion Hnar; subst. assumption.
    + exact Hrest.
Qed.

Lemma formalize_sapp a b :
  BC.str_formalize (a ++ b) = (BC.str_formalize a ++ BC.str_formalize b)%string.
Proof.
  rewrite !formalize_map.
  induction a as [|c a IH]; simpl; [reflexivity|]. now rewrite IH.
Qed.

Lemma formalize_fixed s :
  Cstr.forallb fixed s = true -> BC.str_formalize s = s.
Proof.
  rewrite formalize_map.
  induction s as [|c s IH]; simpl; [reflexivity|].
  intros H. apply andb_prop in H as [Hc Hs]. unfold fixed in Hc.
  apply Ascii.eqb_eq in Hc. now rewrite Hc, IH.
Qed.

Lemma digit_fixed c : Cstr.isdigit c = true -> fixed c = true.
Proof.
  destruct c as [[] [] [] [] [] [] [] []]; try discriminate; reflexivity.
Qed.

Lemma fixed_ok : blank_or_digit_ok fixed.
Proof. split; [reflexivity|apply digit_fixed]. Qed.

Lemma not_newline_ok : blank_or_digit_ok not_newline.
Proof.
  split; [reflexivity|].
  intros c. destruct c as [[] [] [] [] [] [] [] []]; try discriminate;
    reflexivity.
Qed.

Lemma forallb_fields p l :
  blank_or_digit_ok p -> Forall (fun x => 0 <= snd x) l ->
  Cstr.forallb p (fields l) = true.
Proof.
  intros Hp. induction 1 as [|[w n] l Hn _ IH]; [reflexivity|].
  cbn [fields]. rewrite forallb_sapp, forallb_field by auto. exact IH.
Qed.

(* ------------------------------------------------------------------ *)
(** ** Reading back what was written: entries *)

Lemma size_t_range_inv r :
  size_t_range r = true ->
  Forall (fun x : nat * Z => 0 <= snd x <= SIZE_MAX) (head_columns r)
  /\ Forall (fun x : nat * Z => 0 <= snd x <= SIZE_MAX) (tail_columns r).
Proof.
  unfold size_t_range. cbn [List.forallb]. intros H.
  apply andb_prop in H as [H1 H]. apply andb_prop in H as [H2 H].
  apply andb_prop in H as [H3 H]. apply andb_prop in H as [H4 H].
  apply andb_prop in H as [H5 H]. apply andb_prop in H as [H6 _].
  unfold head_columns, tail_columns.
  split; repeat (apply Forall_cons; [cbn [snd]; lia|]); apply Forall_nil.
Qed.

Lemma head_fits_inv r :
  range_head_fits r = true ->
  Forall (fun x => narrow (fst x) (snd x) = true /\ (2 <= fst x)%nat)
         (tl (head_columns r)).
Proof.
  unfold range_head_fits. intros H.
  apply andb_prop in H as [H H5]. apply andb_prop in H as [H H4].
  apply andb_prop in H as [H H3]. apply andb_prop in H as [H1 H2].
  unfold head_columns. cbn [tl].
  repeat (apply Forall_cons; [cbn [fst snd]; split; [assumption|lia]|]).
  apply Forall_nil.
Qed.

Lemma tail_fits_inv r :
  range_tail_fits r = true ->
  Forall (fun x => narrow (fst x) (snd x) = true /\ (2 <= fst x)%nat)
         (tail_columns r).
Proof.
  unfold range_tail_fits. intros H.
  apply andb_prop in H as [H H6].
  apply andb_prop in H as [H H5]. apply andb_prop in H as [H H4].
  apply andb_prop in H as [H H3]. apply andb_prop in H as [H1 H2].
  unfold tail_columns.
  repeat (apply Forall_cons; [cbn [fst snd]; split; [assumption|lia]|]).
  apply Forall_nil.
Qed.

Lemma range_new_columns r : RANGE.new (map snd (head_columns r)) = r
                            /\ RANGE.new (map snd (tail_columns r)) = r.
Proof. destruct r; split; reflexivity. Qed.

Lemma forallb_weaken (p q : ascii -> bool) s :
  (forall c, p c = true -> q c = true) ->
  Cstr.forallb p s = true -> Cstr.forallb q s = true.
Proof. apply forallb_impl. Qed.

Lemma entry_line_formal e :
  entry_ok e = true -> BC.str_formalize (entry_line e) = entry_line e.
Proof.
  intros Hok. destruct (entry_ok_inv _ Hok) as [Hv Hs].
  destruct (idx_name _ Hv) as (_ & _ & _ & Hf & _).
  unfold entry_line, Cstr.setw_left.
  rewrite !formalize_sapp, Hf.
  f_equal. f_equal.
  - apply formalize_fixed. now apply forallb_spaces.
  - f_equal.
    + apply formalize_fixed. rewrite <- fields_head.
      apply forallb_fields; [apply fixed_ok|].
      destruct e as [bc r|bc r1 r2 sw]; cbn [ENTRY.Range1].
      * destruct Hs as [_ Hr]. apply size_t_range_inv in Hr as [Hr _].
        eapply Forall_impl; [|exact Hr]. cbn beta. intros; lia.
      * destruct Hs as (_ & Hr & _). apply size_t_range_inv in Hr as [Hr _].
        eapply Forall_impl; [|exact Hr]. cbn beta. intros; lia.
    + destruct e as [bc r|bc r1 r2 sw]; [reflexivity|].
      destruct Hs as (_ & _ & Hr). apply size_t_range_inv in Hr as [_ Hr].
      rewrite formalize_sapp. f_equal.
      * apply formalize_fixed. rewrite <- fields_tail.
        apply forallb_fields; [apply fixed_ok|].
        eapply Forall_impl; [|exact Hr]. cbn beta. intros; lia.
      * destruct sw; reflexivity.
Qed.

Lemma setw_left_name x :
  BC.isValidBCIdx x = true ->
  exists k, (2 <= k)%nat
            /\ Cstr.setw_left 13 (bc_name x)
               = (bc_name x ++ Cstr.spaces k)%string.
Proof.
  intros Hv. destruct (idx_name _ Hv) as (_ & _ & _ & _ & Hl & _).
  exists (13 - String.length (bc_name x))%nat. split; [lia|reflexivity].
Qed.

Lemma stops_spaces p k rest :
  (1 <= k)%nat -> p " "%char = false -> stops p (Cstr.spaces k ++ rest).
Proof. intros Hk Hp. destruct k; [lia|]. exact Hp. Qed.

(** The line of an entry gives the entry back. *)
Lemma read_entry_line e ss m :
  entry_ok e = true -> entry_fits e = true -> ss_buf ss = "" ->
  exists ss',
    Mapping3D.read_entry (entry_line e) ss m
    = Normal ss' (Mapping3D.set_m_entry (Mapping3D.m_entry m ++ [e]) m)
    /\ ss_buf ss' = "".
Proof.
  intros Hok Hfit Hbuf. destruct (entry_ok_inv _ Hok) as [Hv Hs].
  destruct (idx_name _ Hv)
    as (Hi2s & Hs2i & Hvs & Hf & Hl & Hword & Hne).
  destruct (setw_left_name _ Hv) as (k & Hk & Hname).
  unfold Mapping3D.read_entry.
  rewrite (entry_line_formal _ Hok).
  unfold ss_clear, ss_put. cbn [ss_good ss_buf]. rewrite Hbuf.
  cbn [append].
  unfold entry_line. rewrite Hname, !sapp_assoc.
  change (bc_name (ENTRY.Type_ e) ++ Cstr.spaces k ++ ?r)%string
    with (Cstr.spaces 0 ++ bc_name (ENTRY.Type_ e)
          ++ (Cstr.spaces k ++ r))%string.
  rewrite get_word
    by (first [assumption | apply stops_spaces; [lia|reflexivity]]).
  rewrite Hs2i. cbn [lift]. rewrite bind_ret_l.
  assert (Hgood : forall r, negb (is_empty (Cstr.spaces k ++ r)) = true).
  { intros r. destruct k; [lia|reflexivity]. }
  rewrite Hgood.
  destruct e as [bc r|bc r1 r2 sw]; cbn [ENTRY.Type_ ENTRY.Range1] in *.
  - destruct Hs as [Hbc Hr]. apply Z.eqb_neq in Hbc. rewrite Hbc.
    apply size_t_range_inv in Hr as [Hr _].
    rewrite <- fields_head.
    change 6%nat with (length (head_columns r)) at 1.
    rewrite get_numbers
      by (auto using head_fits_inv; try discriminate; exact I).
    unfold ENTRY.new_single, ENTRY.new_bc. rewrite Hvs, Hs2i.
    cbn [lift]. rewrite bind_ret_l.
    rewrite (proj1 (range_new_columns r)).
    eexists. split; [reflexivity|reflexivity].
  - destruct Hs as (-> & Hr1 & Hr2). cbn [Z.eqb BC.ONE_TO_ONE Pos.eqb].
    apply size_t_range_inv in Hr1 as [Hr1 _].
    apply size_t_range_inv in Hr2 as [_ Hr2].
    cbn [entry_fits] in Hfit. apply andb_prop in Hfit as [Hf1 Hf2].
    pose proof (tail_fits_inv _ Hf2) as Ht.
    rewrite <- fields_head, <- fields_tail.
    change 6%nat with (length (head_columns r1)) at 1.
    assert (Hstop1 : stops Cstr.isdigit
                       (fields (tail_columns r2)
                        ++ Cstr.setw_right 10 (if sw then "TRUE" else "FALSE"))).
    { unfold tail_columns at 1. cbn [fields].
      inversion Ht as [|x l [Hx1 Hx2] _]; subst. cbn [fst snd] in *.
      inversion Hr2 as [|x l [Hx3 _] _]; subst. cbn [snd] in *.
      rewrite sapp_assoc. apply stops_field; auto. }
    rewrite get_numbers
      by (auto using head_fits_inv; try discriminate).
    assert (Hg2 : negb (is_empty
                          (fields (tail_columns r2)
                           ++ Cstr.setw_right 10
                                (if sw then "TRUE" else "FALSE"))) = true).
    { rewrite is_empty_app_r; [reflexivity|]. destruct sw; discriminate. }
    rewrite Hg2.
    change (fields (tail_columns r2) ++ ?r)%string
      with (Cstr.spaces 0 ++ fields (tail_columns r2) ++ r)%string.
    change 6%nat with (length (tail_columns r2)) at 1.
    rewrite get_numbers.
    2: discriminate.
    2: exact Hr2.
    2:{ inversion Ht; subst; assumption. }
    2:{ destruct sw; reflexivity. }
    assert (Hsw : ss_get_string
                    (mkss (Cstr.setw_right 10 (if sw then "TRUE" else "FALSE"))
                          (negb (is_empty
                                   (Cstr.setw_right 10
                                      (if sw then "TRUE" else "FALSE"))))) ""
                  = (mkss "" false, if sw then "TRUE" else "FALSE")).
    { destruct sw; reflexivity. }
    rewrite Hsw.
    unfold ENTRY.new_double, ENTRY.new_bc. rewrite Hvs, Hs2i.
    cbn [lift]. rewrite bind_ret_l.
    rewrite (proj1 (range_new_columns r1)), (proj2 (range_new_columns r2)).
    assert (Esw : String.eqb (if sw then "TRUE" else "FALSE") "TRUE" = sw)
      by (destruct sw; reflexivity).
    rewrite Esw.
    eexists. split; reflexivity.
Qed.

(** *** Reading the count and the block lines *)

Lemma stops_all p ds :
  ds <> "" -> Cstr.forallb Cstr.isdigit ds = true ->
  (forall c, Cstr.isdigit c = true -> p c = false) -> stops p ds.
Proof.
  intros H1 H2 H3. pose proof (@stops_digits p ds "" H1 H2 H3) as H.
  rewrite sapp_nil_r in H. exact H.
Qed.

Lemma span_all p a : Cstr.forallb p a = true -> Cstr.span p a = (a, "").
Proof.
  intros H. pose proof (@span_stop p a "" H I) as X.
  rewrite sapp_nil_r in X. exact X.
Qed.

Lemma is_empty_false s : s <> "" -> is_empty s = false.
Proof. destruct s; [congruence | reflexivity]. Qed.

Lemma stoi_to_string n : 0 <= n <= INT_MAX -> stoi (Cstr.to_string n) = inr n.
Proof.
  intros [H0 H1]. destruct (field_shape 0 H0) as (_ & _ & _ & E & _).
  unfold stoi. rewrite E.
  assert (L : (n <=? INT_MAX) = true) by (apply Z.leb_le; lia).
  rewrite L. reflexivity.
Qed.

Lemma pattern1_field w n :
  0 <= n -> regex_match_pattern1 (field w n) = Some (Cstr.to_string n).
Proof.
  intros Hn. destruct (field_shape w Hn) as (E & Hd & Hne & _).
  unfold regex_match_pattern1. rewrite E.
  rewrite dropWhile_stop;
    [| apply spaces_isspace
     | apply stops_all; auto using isdigit_not_space].
  rewrite span_all by exact Hd.
  rewrite is_empty_false by exact Hne. reflexivity.
Qed.

Lemma digits_spaces ds k rest :
  Cstr.forallb Cstr.isdigit ds = true -> ds <> "" -> (1 <= k)%nat ->
  stops Cstr.isspace rest ->
  regex_digits_spaces (ds ++ Cstr.spaces k ++ rest) = Some (ds, rest).
Proof.
  intros Hd Hne Hk Hs. unfold regex_digits_spaces.
  rewrite span_stop; [| exact Hd | apply stops_spaces; [lia | reflexivity]].
  rewrite is_empty_false by exact Hne.
  rewrite span_stop; [| apply spaces_isspace | exact Hs].
  destruct k; [lia | reflexivity].
Qed.

Lemma pattern2_fields w n1 n2 n3 n4 :
  0 <= n1 -> 0 <= n2 -> 0 <= n3 -> 0 <= n4 ->
  narrow 8 n2 = true -> narrow 8 n3 = true -> narrow 8 n4 = true ->
  regex_match_pattern2 (field w n1 ++ field 8 n2 ++ field 8 n3 ++ field 8 n4)
  = Some (Cstr.to_string n1, Cstr.to_string n2, Cstr.to_string n3,
          Cstr.to_string n4).
Proof.
  intros H1 H2 H3 H4 N2 N3 N4.
  destruct (field_shape w H1) as (E1 & D1 & Z1 & _).
  destruct (field_shape 8 H2) as (E2 & D2 & Z2 & _ & K2).
  destruct (field_shape 8 H3) as (E3 & D3 & Z3 & _ & K3).
  destruct (field_shape 8 H4) as (E4 & D4 & Z4 & _ & K4).
  specialize (K2 N2 ltac:(lia)). specialize (K3 N3 ltac:(lia)).
  specialize (K4 N4 ltac:(lia)).
  rewrite E1, E2, E3, E4. rewrite !sapp_assoc.
  unfold regex_match_pattern2.
  rewrite dropWhile_stop;
    [| apply spaces_isspace
     | apply stops_digits; auto using isdigit_not_space].
  rewrite digits_spaces;
    [| assumption | assumption | assumption
     | apply stops_digits; auto using isdigit_not_space].
  rewrite digits_spaces;
    [| assumption | assumption | assumption
     | apply stops_digits; auto using isdigit_not_space].
  rewrite digits_spaces;
    [| assumption | assumption | assumption
     | apply stops_all; auto using isdigit_not_space].
  rewrite span_all by exact D4.
  rewrite is_empty_false by exact Z4. reflexivity.
Qed.

Lemma narrow_bounds w n : narrow w n = true -> 0 <= n < 10 ^ Z.of_nat (w - 1).
Proof.
  unfold narrow. intros H. apply andb_prop in H as [H1 H2].
  apply Z.leb_le in H1. apply Z.ltb_lt in H2. lia.
Qed.

Lemma block_fits_inv b :
  block_fits b = true ->
  2 <= Block3D.IDIM b < 10 ^ 7 /\ 2 <= Block3D.JDIM b < 10 ^ 7
  /\ 2 <= Block3D.KDIM b < 10 ^ 7
  /\ narrow 8 (Block3D.IDIM b) = true /\ narrow 8 (Block3D.JDIM b) = true
  /\ narrow 8 (Block3D.KDIM b) = true.
Proof.
  unfold block_fits. intros H.
  apply andb_prop in H as [H K2]. apply andb_prop in H as [H K1].
  apply andb_prop in H as [H J2]. apply andb_prop in H as [H J1].
  apply andb_prop in H as [I1 I2].
  apply Z.leb_le in I1, J1, K1.
  pose proof (narrow_bounds _ _ I2) as BI.
  pose proof (narrow_bounds _ _ J2) as BJ.
  pose proof (narrow_bounds _ _ K2) as BK.
  change (Z.of_nat (8 - 1)) with 7 in BI, BJ, BK.
  repeat split; try assumption; lia.
Qed.

Lemma new_rebuilt i b :
  block_fits b = true ->
  exists b', Block3D.new (Z.of_nat i + 1) (Block3D.IDIM b) (Block3D.JDIM b)
                         (Block3D.KDIM b) = inr b'
             /\ rebuilt i b = Block3D.set_index (wrap (Z.of_nat i + 1)) b'
             /\ Block3D.IDIM (rebuilt i b) = Block3D.IDIM b
             /\ Block3D.JDIM (rebuilt i b) = Block3D.JDIM b
             /\ Block3D.KDIM (rebuilt i b) = Block3D.KDIM b.
Proof.
  intros H. apply block_fits_inv in H as (HI & HJ & HK & _).
  unfold rebuilt, Block3D.new, BLOCK.new.
  assert (E : (Block3D.IDIM b <? 2) || (Block3D.JDIM b <? 2)
              || (Block3D.KDIM b <? 2) = false).
  { rewrite !orb_false_iff, !Z.ltb_ge. lia. }
  rewrite E. eexists. split; [reflexivity|]. split; [reflexivity|].
  assert (P : 10 ^ 7 < 2 ^ 64) by reflexivity.
  unfold Block3D.IDIM, Block3D.JDIM, Block3D.KDIM in *. simpl.
  rewrite !wrap_small by lia. auto.
Qed.

Lemma read_block_line i b m :
  Z.of_nat i < Mapping3D.nBlk m -> Mapping3D.nBlk m <= INT_MAX ->
  block_fits b = true ->
  Mapping3D.read_block (Mapping3D.nBlk m) (block_line i b) m
  = Normal tt (Mapping3D.set_m_blk
                 (set_nth i (Some (rebuilt i b)) (Mapping3D.m_blk m)) m).
Proof.
  intros Hi HN Hb.
  destruct (@new_rebuilt i _ Hb) as (b' & Hnew & Hre & _).
  apply block_fits_inv in Hb as (HI & HJ & HK & NI & NJ & NK).
  assert (P : 10 ^ 7 < INT_MAX) by reflexivity.
  unfold Mapping3D.read_block, block_line.
  rewrite pattern2_fields by (assumption || lia).
  rewrite !stoi_to_string by lia. change (@lift Mapping3D.t Z (inr ?x)) with (@ret Mapping3D.t Z x).
  rewrite !bind_ret_l.
  assert (E1 : (Z.of_nat i + 1 <? 1) || (Z.of_nat i + 1 >? Mapping3D.nBlk m)
               = false).
  { rewrite orb_false_iff, Z.ltb_ge. split; [lia|].
    rewrite Z.gtb_ltb. apply Z.ltb_ge. lia. }
  rewrite E1.
  assert (E2 : (Block3D.IDIM b <? 1) = false) by (apply Z.ltb_ge; lia).
  assert (E3 : (Block3D.JDIM b <? 1) = false) by (apply Z.ltb_ge; lia).
  assert (E4 : (Block3D.KDIM b <? 1) = false) by (apply Z.ltb_ge; lia).
  rewrite E2, E3, E4.
  assert (E5 : (1 <=? Z.of_nat i + 1) && (Z.of_nat i + 1 <=? Mapping3D.nBlk m)
               = true).
  { rewrite andb_true_iff, !Z.leb_le. lia. }
  unfold bind, get_state, lift, put_state, ret, Array1D.index.
  rewrite E5, Hnew, Hre.
  replace (Z.to_nat (Z.of_nat i + 1 - 1)) with i by lia. reflexivity.
Qed.

Lemma set_nth_middle {A} (a : list A) x y b n :
  n = length a -> set_nth n x (a ++ y :: b) = a ++ x :: b.
Proof.
  intros ->. induction a as [|z a IH]; simpl; [reflexivity | now rewrite IH].
Qed.

Lemma getline_more x rest s :
  rest <> [] -> getline (x :: rest) s = (true, x, rest).
Proof. destruct rest; [congruence | reflexivity]. Qed.

Lemma read_blocks_lines bs : forall done s m rest,
  Mapping3D.m_blk m = map Some done ++ repeat None (length bs) ->
  Mapping3D.nBlk m <= INT_MAX ->
  List.forallb block_fits bs = true -> rest <> [] ->
  exists s',
    Mapping3D.read_blocks (length bs) (Mapping3D.nBlk m)
                          (block_lines (length done) bs ++ rest) s m
    = Normal (s', rest)
             (Mapping3D.set_m_blk
                (map Some (done ++ rebuild (length done) bs)) m).
Proof.
  induction bs as [|b bs IH]; intros done s m rest Hm HN Hf Hr.
  - exists s. cbn. rewrite app_nil_r. destruct m as [blk en].
    cbn in Hm |- *. rewrite app_nil_r in Hm. subst blk. reflexivity.
  - cbn [forallb] in Hf. apply andb_prop in Hf as [Hb Hf].
    cbn [length block_lines rebuild app Mapping3D.read_blocks].
    assert (Hne : block_lines (S (length done)) bs ++ rest <> []).
    { intros E. apply app_eq_nil in E as [_ E]. contradiction. }
    rewrite getline_more by exact Hne.
    assert (Hlen : Mapping3D.nBlk m = Z.of_nat (length done + S (length bs))).
    { unfold Mapping3D.nBlk. rewrite Hm, length_app, length_map, repeat_length.
      reflexivity. }
    erewrite bind_normal_l
      by (apply read_block_line; [lia | assumption | assumption]).
    rewrite Hm. cbn [repeat length].
    rewrite set_nth_middle by (symmetry; apply length_map).
    set (m1 := Mapping3D.set_m_blk _ m).
    assert (Hm1 : Mapping3D.m_blk m1
                  = map Some (done ++ [rebuilt (length done) b])
                    ++ repeat None (length bs)).
    { unfold m1. cbn. rewrite map_app, <- app_assoc. reflexivity. }
    assert (HN1 : Mapping3D.nBlk m1 = Mapping3D.nBlk m).
    { unfold Mapping3D.nBlk. rewrite Hm1, Hm. f_equal.
      rewrite !length_app, !length_map, length_app. cbn. lia. }
    destruct (IH (done ++ [rebuilt (length done) b])
                 (block_line (length done) b) m1 rest Hm1
                 ltac:(rewrite HN1; exact HN) Hf Hr) as (s' & Hs).
    exists s'. rewrite HN1 in Hs.
    replace (length (done ++ [rebuilt (length done) b]))
      with (S (length done)) in Hs by (rewrite length_app; cbn; lia).
    rewrite Hs. rewrite <- app_assoc. reflexivity.
Qed.

Lemma rebuild_dims bs : forall i,
  List.forallb block_fits bs = true ->
  map (fun b => (Block3D.IDIM b, Block3D.JDIM b, Block3D.KDIM b))
      (rebuild i bs)
  = map (fun b => (Block3D.IDIM b, Block3D.JDIM b, Block3D.KDIM b)) bs.
Proof.
  induction bs as [|b bs IH]; intros i Hf; [reflexivity|].
  cbn [forallb] in Hf. apply andb_prop in Hf as [Hb Hf].
  cbn [rebuild map]. rewrite IH by assumption.
  destruct (@new_rebuilt i _ Hb) as (_ & _ & _ & -> & -> & ->). reflexivity.
Qed.

Lemma rebuild_length bs : forall i, length (rebuild i bs) = length bs.
Proof. induction bs as [|b bs IH]; intros i; cbn; auto. Qed.

(** *** Skipping the comment lines *)

Lemma skip_comments hs : forall x rest s,
  List.forallb Mapping3D.skippable hs = true ->
  Mapping3D.skippable x = false ->
  Mapping3D.skip (hs ++ x :: rest) s = Some (x, rest).
Proof.
  induction hs as [|h hs IH]; intros x rest s Hh Hx; cbn [app Mapping3D.skip].
  - rewrite Hx. reflexivity.
  - cbn [forallb] in Hh. apply andb_prop in Hh as [H1 H2].
    rewrite H1. apply IH; assumption.
Qed.

Lemma isdigit_not_white c :
  Cstr.isdigit c = true ->
  Mapping3D.isWhite c = false /\ Ascii.eqb c "#" = false.
Proof.
  intros H.
  destruct c as [[] [] [] [] [] [] [] []]; vm_compute in H;
    try discriminate H; split; reflexivity.
Qed.

Lemma digits_not_skippable k ds :
  ds <> "" -> Cstr.forallb Cstr.isdigit ds = true ->
  Mapping3D.skippable (Cstr.spaces k ++ ds) = false.
Proof.
  intros Hne Hd. destruct ds as [|c ds]; [congruence|].
  cbn [Cstr.forallb] in Hd. apply andb_prop in Hd as [Hc _].
  apply isdigit_not_white in Hc as [W H].
  unfold Mapping3D.skippable, Mapping3D.isBlankLine.
  induction k as [|k IH]; cbn [Cstr.spaces String.append Cstr.forallb
                                Mapping3D.checkStarting].
  - rewrite W, H. reflexivity.
  - change (Mapping3D.isWhite " ") with true. cbn [andb]. exact IH.
Qed.

Lemma field_not_skippable w n :
  0 <= n -> Mapping3D.skippable (field w n) = false.
Proof.
  intros Hn. destruct (field_shape w Hn) as (E & Hd & Hne & _).
  rewrite E. apply digits_not_skippable; assumption.
Qed.

Lemma name_not_skippable x rest :
  BC.isValidBCIdx x = true ->
  Mapping3D.skippable (bc_name x ++ rest) = false.
Proof.
  intros H. apply valid_idx_range in H.
  assert (C : x = 1 \/ x = 2 \/ x = 3 \/ x = 4 \/ x = 5 \/ x = 6 \/ x = 7
              \/ x = 8 \/ x = 9 \/ x = 10 \/ x = 11 \/ x = 12 \/ x = 13) by lia.
  repeat (destruct C as [-> | C]; [reflexivity|]). subst x. reflexivity.
Qed.

(** *** Reading the entries, one line after another *)

Lemma entry_line_not_skippable e :
  entry_ok e = true -> Mapping3D.skippable (entry_line e) = false.
Proof.
  intros Hok. destruct (entry_ok_inv _ Hok) as [Hv _].
  destruct (setw_left_name _ Hv) as (k & _ & Hname).
  unfold entry_line. rewrite Hname, !sapp_assoc.
  apply name_not_skippable. exact Hv.
Qed.

Lemma read_connections_cons x rest s ss :
  rest <> [] ->
  Mapping3D.read_connections (x :: rest) s ss
  = (ss' <- Mapping3D.read_entry s ss ;;
     Mapping3D.read_connections rest x ss').
Proof. destruct rest; [congruence | reflexivity]. Qed.

Lemma read_connections_lines es : forall e0 ss m,
  List.forallb entry_ok (e0 :: es) = true ->
  List.forallb entry_fits (e0 :: es) = true ->
  ss_buf ss = "" ->
  Mapping3D.read_connections (map entry_line es ++ [""]) (entry_line e0) ss m
  = Normal tt (Mapping3D.set_m_entry (Mapping3D.m_entry m ++ e0 :: es) m).
Proof.
  induction es as [|e1 es IH]; intros e0 ss m Hok Hfit Hbuf;
    cbn [forallb] in Hok, Hfit;
    apply andb_prop in Hok as [Hok0 Hok]; apply andb_prop in Hfit as [Hfit0 Hfit];
    destruct (@read_entry_line e0 ss m Hok0 Hfit0 Hbuf) as (ss' & Hre & Hbuf').
  - cbn [map app Mapping3D.read_connections].
    erewrite bind_normal_l by exact Hre. reflexivity.
  - cbn [map app]. rewrite read_connections_cons.
    2:{ intros E. apply app_eq_nil in E as [_ E]. discriminate. }
    erewrite bind_normal_l by exact Hre.
    rewrite IH by assumption. cbn [Mapping3D.m_entry Mapping3D.set_m_entry].
    rewrite <- app_assoc. reflexivity.
Qed.

(** *** The two passes on the entries *)

Lemma counterpart_pass_total es : forall m,
  allocated m ->
  (forall e, In e es -> ENTRY.Type_ e = BC.ONE_TO_ONE ->
             designated (Mapping3D.nBlk m) e <> None) ->
  for_each es Mapping3D.counterpart m = Normal tt m.
Proof.
  induction es as [|e es IH]; intros m Ha Hd; [reflexivity|].
  cbn [for_each].
  assert (H : Mapping3D.counterpart e m = Normal tt m).
  { unfold Mapping3D.counterpart.
    destruct (ENTRY.Type_ e =? BC.ONE_TO_ONE) eqn:E; [|reflexivity].
    apply Z.eqb_eq in E.
    destruct (designated (Mapping3D.nBlk m) e) as [x|] eqn:D.
    - erewrite bind_normal_l by (apply lookup_surfaces_total; eassumption).
      reflexivity.
    - exfalso. apply (Hd e); [now left | exact E | exact D]. }
  erewrite bind_normal_l by exact H.
  apply IH; [exact Ha|]. intros e' Hin. apply Hd. now right.
Qed.

Lemma set_neighbourSurf_dims n f v m :
  slot_dims (Mapping3D.set_neighbourSurf n f v m) = slot_dims m.
Proof.
  unfold slot_dims, Mapping3D.set_neighbourSurf.
  cbn [Mapping3D.m_blk Mapping3D.set_m_blk].
  apply map_upd_nth_same. intros [b|]; reflexivity.
Qed.

Lemma connect_pass_keeps es : forall m m',
  for_each es Mapping3D.connect m = Normal tt m' ->
  slot_dims m' = slot_dims m /\ (allocated m -> allocated m').
Proof.
  induction es as [|e es IH]; intros m m' H; simpl in H.
  - unfold ret in H. injection H as <-. auto.
  - apply bind_normal in H as ([] & m1 & H1 & H).
    apply IH in H as [E1 E2]. rewrite E1.
    destruct (@connect_normal _ _ _ H1)
      as [[_ ->]|(_ & n1 & f1 & n2 & f2 & _ & _ & ->)]; auto.
    rewrite !set_neighbourSurf_dims. split; [reflexivity|].
    intros Ha. apply E2. now do 2 apply set_neighbourSurf_allocated.
Qed.

(** *** The lines of the file hold no newline *)

Lemma word_no_newline s :
  Cstr.forallb (fun c => negb (Cstr.isspace c)) s = true ->
  Cstr.forallb not_newline s = true.
Proof.
  apply forallb_impl. intros c.
  destruct c as [[] [] [] [] [] [] [] []]; try discriminate; reflexivity.
Qed.

Lemma block_line_no_newline i b :
  block_fits b = true -> Cstr.forallb not_newline (block_line i b) = true.
Proof.
  intros Hb. apply block_fits_inv in Hb as (HI & HJ & HK & _).
  unfold block_line.
  rewrite !forallb_sapp, !forallb_field by (apply not_newline_ok || lia).
  reflexivity.
Qed.

Lemma block_lines_no_newline bs : forall i,
  List.forallb block_fits bs = true ->
  Forall (fun l => Cstr.forallb not_newline l = true) (block_lines i bs).
Proof.
  induction bs as [|b bs IH]; intros i Hf; [constructor|].
  cbn [forallb] in Hf. apply andb_prop in Hf as [Hb Hf].
  constructor; [now apply block_line_no_newline | now apply IH].
Qed.

Lemma entry_line_no_newline e :
  entry_ok e = true -> Cstr.forallb not_newline (entry_line e) = true.
Proof.
  intros Hok. destruct (entry_ok_inv _ Hok) as [Hv Hs].
  destruct (idx_name _ Hv) as (_ & _ & _ & _ & _ & Hword & _).
  unfold entry_line, Cstr.setw_left.
  rewrite !forallb_sapp, word_no_newline by exact Hword.
  rewrite forallb_spaces by reflexivity.
  rewrite <- fields_head. rewrite forallb_fields; [|apply not_newline_ok|].
  2:{ destruct e as [bc r|bc r1 r2 sw]; cbn [ENTRY.Range1].
      - destruct Hs as [_ Hr]. apply size_t_range_inv in Hr as [Hr _].
        eapply Forall_impl; [|exact Hr]. cbn beta. intros; lia.
      - destruct Hs as (_ & Hr & _). apply size_t_range_inv in Hr as [Hr _].
        eapply Forall_impl; [|exact Hr]. cbn beta. intros; lia. }
  destruct e as [bc r|bc r1 r2 sw]; [reflexivity|].
  destruct Hs as (_ & _ & Hr). apply size_t_range_inv in Hr as [_ Hr].
  rewrite forallb_sapp, <- fields_tail.
  rewrite forallb_fields; [|apply not_newline_ok|].
  2:{ eapply Forall_impl; [|exact Hr]. cbn beta. intros; lia. }
  destruct sw; reflexivity.
Qed.

Lemma entry_lines_no_newline es :
  List.forallb entry_ok es = true ->
  Forall (fun l => Cstr.forallb not_newline l = true) (map entry_line es).
Proof.
  induction es as [|e es IH]; intros Hf; [constructor|].
  cbn [forallb] in Hf. apply andb_prop in Hf as [He Hf].
  constructor; [now apply entry_line_no_newline | now apply IH].
Qed.

Lemma file_lines_no_newline m :
  0 <= Mapping3D.nBlk m ->
  List.forallb block_fits (blocks m) = true ->
  List.forallb entry_ok (Mapping3D.m_entry m) = true ->
  Forall (fun l => Cstr.forallb not_newline l = true) (file_lines m).
Proof.
  intros HN Hb He. unfold file_lines.
  apply Forall_app; split.
  { unfold header_lines.
    repeat (apply Forall_cons; [vm_compute; reflexivity|]). apply Forall_nil. }
  apply Forall_app; split.
  { apply Forall_cons; [|apply Forall_nil].
    apply forallb_field; [apply not_newline_ok|lia]. }
  apply Forall_app; split; [now apply block_lines_no_newline|].
  apply Forall_app; split; [|now apply entry_lines_no_newline].
  unfold separator_lines.
  repeat (apply Forall_cons; [vm_compute; reflexivity|]). apply Forall_nil.
Qed.

(** *** The whole file *)

Lemma fs_file_write fs path content :
  fs_file (fs_write fs path content) path = Some content.
Proof. unfold fs_write. cbn [fs_file]. now rewrite String.eqb_refl. Qed.

Lemma slot_dims_rebuild bs :
  List.forallb block_fits bs = true ->
  map (option_map (fun b => (Block3D.IDIM b, Block3D.JDIM b, Block3D.KDIM b)))
      (map Some (rebuild 0 bs))
  = map (option_map (fun b => (Block3D.IDIM b, Block3D.JDIM b, Block3D.KDIM b)))
        (map Some bs).
Proof.
  intros Hf. rewrite !map_map. cbn [option_map].
  rewrite <- !(map_map (fun b => (Block3D.IDIM b, Block3D.JDIM b, Block3D.KDIM b))
                      Some).
  now rewrite rebuild_dims.
Qed.

Lemma allocated_map_Some bs en : allocated (Mapping3D.mk (map Some bs) en).
Proof.
  unfold allocated. cbn [Mapping3D.m_blk]. apply Forall_forall.
  intros o Ho. apply in_map_iff in Ho as (b & <- & _). discriminate.
Qed.

Lemma blocks_length m :
  allocated m -> Mapping3D.nBlk m = Z.of_nat (length (blocks m)).
Proof.
  intros Ha. unfold Mapping3D.nBlk. rewrite (allocated_blocks Ha) at 1.
  now rewrite length_map.
Qed.

Lemma bind_lift_inr {S A B} (x : A) (f : A -> M S B) s :
  bind (lift (inr x)) f s = f x s.
Proof. reflexivity. Qed.

Lemma read_to_entries m m0 fs path cs1 cs2 e0 others :
  allocated m -> 1 <= Mapping3D.nBlk m <= INT_MAX ->
  List.forallb block_fits (blocks m) = true -> entry_ok e0 = true ->
  List.forallb Mapping3D.skippable cs1 = true ->
  List.forallb Mapping3D.skippable cs2 = true ->
  Forall (fun l => Cstr.forallb not_newline l = true) (cs1 ++ cs2 ++ others) ->
  fs_file fs path
  = Some (text (cs1 ++ field 8 (Mapping3D.nBlk m)
                :: block_lines 0 (blocks m) ++ cs2
                   ++ entry_line e0 :: others)) ->
  Mapping3D.readFromFile fs path m0
  = (Mapping3D.read_connections (others ++ [""]) (entry_line e0)
                                (mkss "" true) ;;;
     (m' <- get_state ;;
      for_each (Mapping3D.m_entry m') Mapping3D.connect ;;;
      for_each (Mapping3D.m_entry m') Mapping3D.counterpart ;;;
      ret 0))
      (Mapping3D.mk (map Some (rebuild 0 (blocks m))) []).
Proof.
  intros Ha HN Hb Hok0 Hs1 Hs2 Hnn Hf.
  pose proof (blocks_length Ha) as HL.
  apply Forall_app in Hnn as [Hn1 Hnn]. apply Forall_app in Hnn as [Hn2 Hn3].
  unfold Mapping3D.readFromFile. rewrite Hf.
  rewrite split_lines_text.
  2:{ apply Forall_app; split; [exact Hn1|].
      apply Forall_cons; [apply forallb_field; [apply not_newline_ok|lia]|].
      apply Forall_app; split; [now apply block_lines_no_newline|].
      apply Forall_app; split; [exact Hn2|].
      apply Forall_cons; [now apply entry_line_no_newline | exact Hn3]. }
  repeat (rewrite <- app_assoc; cbn [app]).
  rewrite (@skip_comments cs1); [| exact Hs1 | apply field_not_skippable; lia].
  rewrite pattern1_field by lia.
  rewrite stoi_to_string by lia. rewrite bind_lift_inr.
  assert (E0 : (Mapping3D.nBlk m <=? 0) = false) by (apply Z.leb_gt; lia).
  rewrite E0. rewrite bind_release_all.
  unfold modify at 1. cbn [bind].
  set (m1 := Mapping3D.set_m_blk _ _).
  assert (Hm1 : Mapping3D.m_blk m1
                = map Some [] ++ repeat None (length (blocks m))).
  { unfold m1. cbn. now rewrite HL, Nat2Z.id. }
  assert (HN1 : Mapping3D.nBlk m1 = Mapping3D.nBlk m).
  { unfold Mapping3D.nBlk at 1. rewrite Hm1. cbn [map app].
    rewrite repeat_length. now rewrite HL. }
  destruct (@read_blocks_lines (blocks m) [] (field 8 (Mapping3D.nBlk m)) m1
              (cs2 ++ entry_line e0 :: others ++ [""])
              Hm1 ltac:(rewrite HN1; lia) Hb
              ltac:(intros E; apply app_eq_nil in E as [_ E]; discriminate))
    as (s' & Hrb).
  rewrite HN1 in Hrb. cbn [length app] in Hrb.
  replace (Z.to_nat (Mapping3D.nBlk m)) with (length (blocks m)) by lia.
  erewrite bind_normal_l by exact Hrb. cbv beta iota.
  rewrite (@skip_comments cs2);
    [| exact Hs2 | now apply entry_line_not_skippable].
  reflexivity.
Qed.

Lemma file_lines_with m :
  file_lines m = lines_with header_lines separator_lines m [].
Proof. unfold file_lines, lines_with. now rewrite app_nil_r. Qed.

Lemma header_lines_ok : lines_ok (header_lines ++ separator_lines).
Proof.
  unfold lines_ok, header_lines, separator_lines. cbn [app].
  repeat (apply Forall_cons; [vm_compute; reflexivity|]). apply Forall_nil.
Qed.

(** A file with comments before the number of blocks and before the
    entries. *)
Lemma read_commented m m0 fs path cs1 cs2 :
  round_trips m ->
  List.forallb Mapping3D.skippable cs1 = true ->
  List.forallb Mapping3D.skippable cs2 = true ->
  lines_ok (cs1 ++ cs2) ->
  fs_file fs path = Some (text (lines_with cs1 cs2 m [])) ->
  exists m',
    Mapping3D.readFromFile fs path m0 = Normal 0 m'
    /\ slot_dims m' = slot_dims m
    /\ Mapping3D.m_entry m' = Mapping3D.m_entry m.
Proof.
  intros (Ha & HN & Hb & Hne & Hok & Hfit & Hd) Hs1 Hs2 Hcs Hf.
  destruct (Mapping3D.m_entry m) as [|e0 es] eqn:Een; [congruence|].
  cbn [forallb] in Hok. pose proof Hok as Hok'.
  apply andb_prop in Hok' as [Hok0 Hoks].
  apply Forall_app in Hcs as [Hc1 Hc2].
  assert (Hf' : fs_file fs path
                = Some (text (cs1 ++ field 8 (Mapping3D.nBlk m)
                              :: block_lines 0 (blocks m) ++ cs2
                                 ++ entry_line e0 :: map entry_line es))).
  { rewrite Hf. unfold lines_with. rewrite Een, app_nil_r. reflexivity. }
  rewrite (@read_to_entries m m0 fs path cs1 cs2 e0
             (map entry_line es) Ha HN Hb Hok0 Hs1 Hs2);
    [| | exact Hf'].
  2:{ apply Forall_app; split; [exact Hc1|].
      apply Forall_app; split; [exact Hc2|].
      now apply entry_lines_no_newline. }
  erewrite bind_normal_l
    by (apply read_connections_lines; [exact Hok | exact Hfit | reflexivity]).
  unfold get_state at 1. cbn [bind].
  set (m5 := Mapping3D.set_m_entry _ _).
  assert (Hm5 : m5 = Mapping3D.mk (map Some (rebuild 0 (blocks m))) (e0 :: es))
    by reflexivity.
  assert (Ha5 : allocated m5) by (rewrite Hm5; apply allocated_map_Some).
  assert (HN5 : Mapping3D.nBlk m5 = Mapping3D.nBlk m).
  { rewrite Hm5. unfold Mapping3D.nBlk at 1. cbn [Mapping3D.m_blk].
    rewrite length_map, rebuild_length. symmetry. now apply blocks_length. }
  assert (Hd5 : forall e, In e (e0 :: es) ->
                          ENTRY.Type_ e = BC.ONE_TO_ONE ->
                          designated (Mapping3D.nBlk m5) e <> None).
  { rewrite HN5. exact Hd. }
  change (Mapping3D.m_entry m5) with (e0 :: es).
  destruct (@connect_pass_total (e0 :: es) m5 Ha5 Hd5) as (m6 & Hc).
  erewrite bind_normal_l by exact Hc.
  destruct (@connect_pass_shape _ _ _ Hc) as [C1 C2].
  destruct (@connect_pass_keeps _ _ _ Hc) as [C3 C4].
  erewrite bind_normal_l.
  2:{ apply counterpart_pass_total; [now apply C4|].
      rewrite C1. exact Hd5. }
  exists m6. split; [reflexivity|]. split.
  - rewrite C3, Hm5. unfold slot_dims. cbn [Mapping3D.m_blk].
    rewrite (allocated_blocks Ha). now apply slot_dims_rebuild.
  - rewrite C2. reflexivity.
Qed.

Lemma read_written m m0 fs path :
  round_trips m ->
  fs_file fs path = Some (text (file_lines m)) ->
  exists m',
    Mapping3D.readFromFile fs path m0 = Normal 0 m'
    /\ slot_dims m' = slot_dims m
    /\ Mapping3D.m_entry m' = Mapping3D.m_entry m.
Proof.
  intros Hrt Hf. rewrite file_lines_with in Hf.
  apply (@read_commented m m0 fs path header_lines separator_lines Hrt);
    [vm_compute; reflexivity | vm_compute; reflexivity
     | apply header_lines_ok | exact Hf].
Qed.

(** *** What [writeToFile] does *)

Lemma write_block_outcome m i acc :
  match nth_error (Mapping3D.m_blk m) i with
  | Some (Some b) =>
      Mapping3D.write_block m i acc
      = Normal tt (acc ++ block_line i b ++ Cstr.endl)%string
  | _ => Mapping3D.write_block m i acc = Undefined
  end.
Proof.
  destruct (nth_error (Mapping3D.m_blk m) i) as [[b|]|] eqn:E.
  - now apply write_block_text.
  - unfold Mapping3D.write_block. rewrite E.
    erewrite bind_normal_l by apply out_num_field. reflexivity.
  - unfold Mapping3D.write_block. rewrite E.
    erewrite bind_normal_l by apply out_num_field. reflexivity.
Qed.

Lemma write_blocks_null m l : forall acc,
  (exists i, In i l /\ nth_error (Mapping3D.m_blk m) i = Some None) ->
  for_each l (Mapping3D.write_block m) acc = Undefined.
Proof.
  induction l as [|j l IH]; intros acc (i & Hin & Hi); [destruct Hin|].
  cbn [for_each]. pose proof (write_block_outcome m j acc) as Hj.
  destruct (nth_error (Mapping3D.m_blk m) j) as [[b|]|] eqn:E.
  - erewrite bind_normal_l by exact Hj.
    apply IH. exists i. split; [|exact Hi].
    destruct Hin as [-> | Hin]; [congruence | exact Hin].
  - unfold bind. now rewrite Hj.
  - unfold bind. now rewrite Hj.
Qed.

Lemma write_text_null m :
  ~ allocated m -> Mapping3D.write_text m "" = Undefined.
Proof.
  intros Hn.
  assert (H : exists i, In i (seq 0 (Z.to_nat (Mapping3D.nBlk m)))
                        /\ nth_error (Mapping3D.m_blk m) i = Some None).
  { unfold Mapping3D.nBlk. rewrite Nat2Z.id.
    unfold allocated in Hn. rewrite Forall_forall in Hn.
    destruct (List.forallb (fun o : option Block3D.t =>
                              match o with Some _ => true | None => false end)
                           (Mapping3D.m_blk m)) eqn:E.
    - exfalso. apply Hn. intros o Ho.
      rewrite forallb_forall in E. specialize (E o Ho).
      destruct o; [discriminate | discriminate E].
    - assert (Hex : exists o, In o (Mapping3D.m_blk m) /\ o = None).
      { clear Hn. induction (Mapping3D.m_blk m) as [|o l IH];
          [discriminate|].
        cbn [forallb] in E. destruct o as [b|].
        - destruct (IH E) as (o & Ho & ->). exists None. split; [now right|auto].
        - exists None. split; [now left|auto]. }
      destruct Hex as (o & Ho & ->).
      apply In_nth_error in Ho as (i & Hi). exists i. split; [|exact Hi].
      apply in_seq. split; [lia|]. cbn.
      apply nth_error_Some. congruence. }
  unfold Mapping3D.write_text.
  repeat (erewrite bind_normal_l by apply out_app).
  unfold bind at 1. now rewrite write_blocks_null.
Qed.

(** X18. [writeToFile] on a path that cannot be opened throws
    [runtime_error] with the path in the message and writes nothing.  On
    a path that can be opened, a model whose slots all hold a block and
    whose entries are well-formed is written as the four header lines,
    the number of blocks, one line per block, the three separator lines
    and one line per entry, and 0 is returned; a model with a null slot
    makes it dereference a null pointer. *)
Theorem writeToFile_outcome m path fs :
  (fs_writable fs path = false ->
   Mapping3D.writeToFile m path fs
   = Raised (runtime_error ("Can not open target output file: " ++ path)) fs)
  /\ (fs_writable fs path = true -> allocated m ->
      List.forallb entry_ok (Mapping3D.m_entry m) = true ->
      Mapping3D.writeToFile m path fs
      = Normal 0 (fs_write fs path (text (file_lines m))))
  /\ (fs_writable fs path = true -> ~ allocated m ->
      Mapping3D.writeToFile m path fs = Undefined).
Proof.
  unfold Mapping3D.writeToFile. repeat split.
  - intros ->. reflexivity.
  - intros -> Ha Hok. now rewrite write_text_lines.
  - intros -> Hn. now rewrite write_text_null.
Qed.

(** X19. Writing a model and reading the file back gives the same block
    dimensions, slot by slot, and the same entries in the same order,
    whenever the model has the shape of a parsed one (every slot holds a
    block, at least one entry, well-formed entries that designate blocks
    and surfaces of the model) and every number is narrower than the
    column it is written in. *)
Theorem write_then_read m m0 fs path :
  round_trips m -> fs_writable fs path = true ->
  exists fs' m',
    Mapping3D.writeToFile m path fs = Normal 0 fs'
    /\ Mapping3D.readFromFile fs' path m0 = Normal 0 m'
    /\ slot_dims m' = slot_dims m
    /\ Mapping3D.m_entry m' = Mapping3D.m_entry m.
Proof.
  intros Hrt Hw. pose proof Hrt as (Ha & _ & _ & _ & Hok & _).
  destruct (@read_written m m0 (fs_write fs path (text (file_lines m))) path
              Hrt (fs_file_write _ _ _)) as (m' & Hr & Hd & He).
  exists (fs_write fs path (text (file_lines m))), m'.
  split; [|auto].
  unfold Mapping3D.writeToFile. rewrite Hw. now rewrite write_text_lines.
Qed.

Lemma two_cubes_round_trips :
  exists m, parse nmf_two_cubes = Some m /\ round_trips m.
Proof.
  eexists. split; [vm_compute; reflexivity|].
  unfold round_trips. split.
  { unfold allocated. cbn [Mapping3D.m_blk].
    repeat (apply Forall_cons; [discriminate|]). apply Forall_nil. }
  split; [vm_compute; split; discriminate|].
  split; [vm_compute; reflexivity|].
  split; [discriminate|].
  split; [vm_compute; reflexivity|].
  split; [vm_compute; reflexivity|].
  intros e Hin Hty. cbn [Mapping3D.m_entry In] in Hin.
  repeat (destruct Hin as [<- | Hin];
          [first [vm_compute; discriminate | discriminate Hty]|]).
  destruct Hin.
Qed.

Lemma write_then_read_witness :
  exists m fs' m',
    parse nmf_two_cubes = Some m
    /\ Mapping3D.writeToFile m "out.nmf" (one_file "in.nmf" nmf_two_cubes)
       = Normal 0 fs'
    /\ Mapping3D.readFromFile fs' "out.nmf" Mapping3D.new = Normal 0 m'
    /\ slot_dims m' = slot_dims m
    /\ Mapping3D.m_entry m' = Mapping3D.m_entry m.
Proof.
  destruct two_cubes_round_trips as (m & Hp & Hrt).
  destruct (@write_then_read m Mapping3D.new
              (one_file "in.nmf" nmf_two_cubes) "out.nmf" Hrt eq_refl)
    as (fs' & m' & H1 & H2 & H3 & H4).
  exists m, fs', m'. auto.
Defined.

Lemma writeToFile_outcome_witness :
  exists m,
    parse nmf_two_cubes = Some m
    /\ Mapping3D.writeToFile m "out.nmf" (one_file "in.nmf" nmf_two_cubes)
       = Normal 0 (fs_write (one_file "in.nmf" nmf_two_cubes) "out.nmf"
                            (text (file_lines m)))
    /\ Mapping3D.writeToFile m "out.nmf" (mkfs (fun _ => None) (fun _ => false))
       = Raised (runtime_error "Can not open target output file: out.nmf")
                (mkfs (fun _ => None) (fun _ => false)).
Proof.
  destruct two_cubes_round_trips as (m & Hp & Hrt).
  destruct Hrt as (Ha & _ & _ & _ & Hok & _).
  exists m. split; [exact Hp|]. split.
  - destruct (writeToFile_outcome m "out.nmf"
                (one_file "in.nmf" nmf_two_cubes)) as (_ & H & _).
    apply H; [reflexivity | exact Ha | exact Hok].
  - destruct (writeToFile_outcome m "out.nmf"
                (mkfs (fun _ => None) (fun _ => false))) as (H & _).
    apply H. reflexivity.
Defined.

(* ------------------------------------------------------------------ *)
(** ** Comments and blank lines *)









(* ------------------------------------------------------------------ *)
(** ** A line of dimensions that is refused *)

Lemma read_blocks_first n N x rest s m :
  n <> 0%nat -> rest <> [] ->
  Mapping3D.read_blocks n N (x :: rest) s m
  = (Mapping3D.read_block N x ;;;
     Mapping3D.read_blocks (pred n) N rest x) m.
Proof.
  intros Hn Hr. destruct n as [|n]; [congruence|].
  cbn [Mapping3D.read_blocks pred]. now rewrite getline_more.
Qed.

(** The file up to its first line of dimensions. *)
Lemma read_to_first_block m0 fs path N idx nI nJ nK rest :
  1 <= N <= INT_MAX -> 0 <= idx <= INT_MAX ->
  narrow 8 nI = true -> narrow 8 nJ = true -> narrow 8 nK = true ->
  lines_ok rest ->
  fs_file fs path = Some (text (field 8 N :: dims_line idx nI nJ nK :: rest)) ->
  forall e,
    (if (idx <? 1) || (idx >? N)
     then throw (runtime_error ("Invalid order of block: "
                                ++ Cstr.to_string idx))
     else if nI <? 1
     then throw (runtime_error ("Invalid I dimension: " ++ Cstr.to_string nI))
     else if nJ <? 1
     then throw (runtime_error ("Invalid J dimension: " ++ Cstr.to_string nJ))
     else if nK <? 1
     then throw (runtime_error ("Invalid K dimension: " ++ Cstr.to_string nK))
     else lift (Block3D.new idx nI nJ nK) ;;; ret tt)
      (Mapping3D.mk (repeat None (Z.to_nat N)) [])
    = Raised e (Mapping3D.mk (repeat None (Z.to_nat N)) []) ->
    Mapping3D.readFromFile fs path m0
    = Raised e (Mapping3D.mk (repeat None (Z.to_nat N)) []).
Proof.
  intros HN Hidx NI NJ NK Hr Hf e He.
  pose proof (narrow_bounds _ _ NI) as BI.
  pose proof (narrow_bounds _ _ NJ) as BJ.
  pose proof (narrow_bounds _ _ NK) as BK.
  change (Z.of_nat (8 - 1)) with 7 in BI, BJ, BK.
  assert (P : 10 ^ 7 < INT_MAX) by reflexivity.
  unfold Mapping3D.readFromFile. rewrite Hf.
  rewrite split_lines_text.
  2:{ apply Forall_cons; [apply forallb_field; [apply not_newline_ok|lia]|].
      apply Forall_cons; [|exact Hr].
      unfold dims_line.
      rewrite !forallb_sapp, !forallb_field by (apply not_newline_ok || lia).
      reflexivity. }
  cbn [app].
  cbn [Mapping3D.skip]. rewrite field_not_skippable by lia.
  rewrite pattern1_field by lia.
  rewrite stoi_to_string by lia. rewrite bind_lift_inr.
  assert (E0 : (N <=? 0) = false) by (apply Z.leb_gt; lia).
  rewrite E0. rewrite bind_release_all.
  unfold modify at 1. cbn [bind].
  change (Mapping3D.set_m_blk (repeat None (Z.to_nat N))
            {| Mapping3D.m_blk := []; Mapping3D.m_entry := [] |})
    with (Mapping3D.mk (repeat None (Z.to_nat N)) []).
  set (m1 := Mapping3D.mk (repeat None (Z.to_nat N)) []) in *.
  unfold bind at 1.
  rewrite read_blocks_first;
    [| lia | intros E; apply app_eq_nil in E as [_ E]; discriminate].
  unfold bind at 1.
  assert (Hrb : Mapping3D.read_block N (dims_line idx nI nJ nK) m1
                = Raised e m1).
  { unfold Mapping3D.read_block, dims_line.
    rewrite pattern2_fields by (assumption || lia).
    rewrite !stoi_to_string by lia. rewrite !bind_lift_inr.
    destruct ((idx <? 1) || (idx >? N)) eqn:E1; [exact He|].
    destruct (nI <? 1) eqn:E2; [exact He|].
    destruct (nJ <? 1) eqn:E3; [exact He|].
    destruct (nK <? 1) eqn:E4; [exact He|].
    unfold bind at 1. unfold get_state.
    assert (HL : Mapping3D.nBlk m1 = N).
    { unfold m1, Mapping3D.nBlk. cbn [Mapping3D.m_blk].
      rewrite repeat_length. lia. }
    rewrite HL.
    assert (E5 : Array1D.index N idx = inr (idx - 1)).
    { unfold Array1D.index.
      apply orb_false_iff in E1 as [A B]. apply Z.ltb_ge in A.
      rewrite Z.gtb_ltb in B. apply Z.ltb_ge in B.
      assert (E : (1 <=? idx) && (idx <=? N) = true).
      { rewrite andb_true_iff, !Z.leb_le. lia. }
      now rewrite E. }
    rewrite E5, bind_lift_inr.
    unfold bind in He |- *.
    destruct (lift (Block3D.new idx nI nJ nK) m1) as [b s1|e1 s1| |] eqn:Eb;
      try discriminate He.
    exact He. }
  now rewrite Hrb.
Qed.

(** X21. A line of dimensions that is refused.  When the first line of
    dimensions of a file, set in the columns of [writeToFile], carries an
    index outside [1 .. N], or a dimension that is 0, [readFromFile]
    throws [runtime_error] with the number in the message; a dimension
    that is 1 passes that check and makes the constructor of the block
    throw [invalid_argument("Invalid dimension.")].  In each case the
    model the function was called on is gone: it is left with [N] null
    slots and no entry. *)
Theorem bad_dimension_line m0 fs path N idx nI nJ nK rest :
  1 <= N <= INT_MAX -> 0 <= idx <= INT_MAX ->
  narrow 8 nI = true -> narrow 8 nJ = true -> narrow 8 nK = true ->
  lines_ok rest ->
  fs_file fs path = Some (text (field 8 N :: dims_line idx nI nJ nK :: rest)) ->
  let failed e :=
    Mapping3D.readFromFile fs path m0
    = Raised e (Mapping3D.mk (repeat None (Z.to_nat N)) []) in
  (idx = 0 \/ N < idx ->
   failed (runtime_error ("Invalid order of block: " ++ Cstr.to_string idx)))
  /\ (1 <= idx <= N -> nI = 0 ->
      failed (runtime_error "Invalid I dimension: 0"))
  /\ (1 <= idx <= N -> 1 <= nI -> nJ = 0 ->
      failed (runtime_error "Invalid J dimension: 0"))
  /\ (1 <= idx <= N -> 1 <= nI -> 1 <= nJ -> nK = 0 ->
      failed (runtime_error "Invalid K dimension: 0"))
  /\ (1 <= idx <= N -> 1 <= nI -> 1 <= nJ -> 1 <= nK ->
      nI = 1 \/ nJ = 1 \/ nK = 1 ->
      failed (invalid_argument "Invalid dimension.")).
Proof.
  intros HN Hidx NI NJ NK Hr Hf failed.
  pose proof (@read_to_first_block m0 fs path N idx nI nJ nK rest
                HN Hidx NI NJ NK Hr Hf) as H.
  assert (In1 : forall a, 1 <= a <= N -> (a <? 1) || (a >? N) = false).
  { intros a Ha. rewrite orb_false_iff, Z.ltb_ge, Z.gtb_ltb, Z.ltb_ge. lia. }
  assert (Ge1 : forall a, 1 <= a -> (a <? 1) = false)
    by (intros a Ha; apply Z.ltb_ge; lia).
  unfold failed. repeat split.
  - intros Hbad. apply H.
    assert (E : (idx <? 1) || (idx >? N) = true).
    { rewrite orb_true_iff, Z.ltb_lt, Z.gtb_ltb, Z.ltb_lt. lia. }
    now rewrite E.
  - intros Hi ->. apply H. rewrite In1 by assumption. reflexivity.
  - intros Hi HI ->. apply H. rewrite In1, Ge1 by assumption. reflexivity.
  - intros Hi HI HJ ->. apply H. rewrite In1, !Ge1 by assumption. reflexivity.
  - intros Hi HI HJ HK Hone. apply H. rewrite In1, !Ge1 by assumption.
    unfold Block3D.new, BLOCK.new.
    assert (E : (nI <? 2) || (nJ <? 2) || (nK <? 2) = true).
    { rewrite !orb_true_iff, !Z.ltb_lt. lia. }
    now rewrite E.
Qed.

Lemma bad_dimension_line_witness :
  Mapping3D.readFromFile
    (one_file "in.nmf" (text [field 8 2; dims_line 1 0 2 2; "anything"]))
    "in.nmf" Mapping3D.new
  = Raised (runtime_error "Invalid I dimension: 0")
           (Mapping3D.mk [None; None] [])
  /\ Mapping3D.readFromFile
       (one_file "in.nmf" (text [field 8 2; dims_line 1 1 2 2; "anything"]))
       "in.nmf" Mapping3D.new
     = Raised (invalid_argument "Invalid dimension.")
              (Mapping3D.mk [None; None] []).
Proof.
  assert (Hr : lines_ok ["anything"]).
  { unfold lines_ok. apply Forall_cons; [reflexivity | apply Forall_nil]. }
  assert (HN : 1 <= 2 <= INT_MAX) by (unfold INT_MAX; lia).
  assert (Hi : 0 <= 1 <= INT_MAX) by (unfold INT_MAX; lia).
  split.
  - pose proof (@bad_dimension_line Mapping3D.new
                  (one_file "in.nmf"
                     (text [field 8 2; dims_line 1 0 2 2; "anything"]))
                  "in.nmf" 2 1 0 2 2 ["anything"]
                  HN Hi eq_refl eq_refl eq_refl Hr eq_refl) as H.
    cbv zeta in H. destruct H as (_ & H & _).
    apply H; [lia | reflexivity].
  - pose proof (@bad_dimension_line Mapping3D.new
                  (one_file "in.nmf"
                     (text [field 8 2; dims_line 1 1 2 2; "anything"]))
                  "in.nmf" 2 1 1 2 2 ["anything"]
                  HN Hi eq_refl eq_refl eq_refl Hr eq_refl) as H.
    cbv zeta in H. destruct H as (_ & _ & _ & _ & H).
    apply H; lia.
Defined.

(* ------------------------------------------------------------------ *)
(** ** The points of a range *)

Lemma count_interval s e n : forall lo,
  length (filter (fun p => (s <=? p) && (p <=? e)) (zseq lo n))
  = Z.to_nat (Z.min e (lo + Z.of_nat n - 1) - Z.max s lo + 1).
Proof.
  induction n as [|n IH]; intros lo.
  - cbn [zseq filter length]. lia.
  - cbn [zseq filter].
    destruct ((s <=? lo) && (lo <=? e)) eqn:E; cbn [length]; rewrite IH.
    + apply andb_prop in E as [E1 E2]. apply Z.leb_le in E1, E2. lia.
    + apply andb_false_iff in E as [E | E]; apply Z.leb_gt in E; lia.
Qed.

Lemma count_product {A B} (f : A -> bool) (g : B -> bool) l2 : forall l1,
  length (filter (fun x => f (fst x) && g (snd x)) (list_prod l1 l2))
  = (length (filter f l1) * length (filter g l2))%nat.
Proof.
  induction l1 as [|a l1 IH]; [reflexivity|].
  cbn [list_prod filter]. rewrite filter_app, length_app, IH.
  assert (E : length (filter (fun x : A * B => f (fst x) && g (snd x))
                             (map (fun y => (a, y)) l2))
              = if f a then length (filter g l2) else 0%nat).
  { clear. induction l2 as [|b l2 IH]; cbn [map filter fst snd].
    - now destruct (f a).
    - destruct (f a) eqn:Ea; cbn [andb].
      + destruct (g b); cbn [length]; rewrite IH; reflexivity.
      + exact IH. }
  rewrite E. destruct (f a); cbn [length]; lia.
Qed.

(** X22. [node_num] counts the points that [constains] accepts: a range
    whose ends are in order contains [(E1 - S1 + 1) * (E2 - S2 + 1)]
    points, which is what [node_num] returns modulo 2^64.  A range
    written backwards in one direction contains no point at all, whatever
    [node_num] returns. *)
Theorem range_membership_counts r n1 n2 :
  size_t_range r = true ->
  RANGE.E1 r < Z.of_nat n1 -> RANGE.E2 r < Z.of_nat n2 ->
  (RANGE.S1 r <= RANGE.E1 r -> RANGE.S2 r <= RANGE.E2 r ->
   Z.of_nat (length (range_points r n1 n2))
   = (RANGE.E1 r - RANGE.S1 r + 1) * (RANGE.E2 r - RANGE.S2 r + 1)
   /\ RANGE.node_num r = wrap (Z.of_nat (length (range_points r n1 n2))))
  /\ (RANGE.E1 r < RANGE.S1 r \/ RANGE.E2 r < RANGE.S2 r ->
      forall pri sec, RANGE.constains r pri sec = false).
Proof.
  intros Hr H1 H2.
  apply size_t_range_inv in Hr as [Hr _].
  unfold head_columns in Hr.
  inversion Hr as [|? ? _ Hr1]; subst. inversion Hr1 as [|? ? _ Hr2]; subst.
  inversion Hr2 as [|? ? Hs1 Hr3]; subst. inversion Hr3 as [|? ? He1 Hr4]; subst.
  inversion Hr4 as [|? ? Hs2 Hr5]; subst. inversion Hr5 as [|? ? He2 _]; subst.
  cbn [snd] in Hs1, He1, Hs2, He2.
  split.
  - intros O1 O2.
    assert (E : Z.of_nat (length (range_points r n1 n2))
                = (RANGE.E1 r - RANGE.S1 r + 1) * (RANGE.E2 r - RANGE.S2 r + 1)).
    { unfold range_points, RANGE.constains. cbv zeta.
      rewrite (count_product
                 (fun p => (RANGE.m_s1 r <=? p) && (p <=? RANGE.m_e1 r))
                 (fun p => (RANGE.m_s2 r <=? p) && (p <=? RANGE.m_e2 r))).
      rewrite !count_interval. unfold RANGE.S1, RANGE.E1, RANGE.S2, RANGE.E2 in *.
      rewrite Nat2Z.inj_mul. f_equal; lia. }
    split; [exact E|]. rewrite E.
    destruct (range_formulas_mod r) as (Hn & _). exact Hn.
  - intros Hback pri sec. unfold RANGE.constains. cbv zeta.
    unfold RANGE.S1, RANGE.E1, RANGE.S2, RANGE.E2 in *.
    destruct Hback as [Hb | Hb].
    + assert (E : (RANGE.m_s1 r <=? pri) && (pri <=? RANGE.m_e1 r) = false).
      { apply andb_false_iff.
        destruct (Z.leb_spec (RANGE.m_s1 r) pri); [right|now left].
        apply Z.leb_gt. lia. }
      now rewrite E.
    + assert (E : (RANGE.m_s2 r <=? sec) && (sec <=? RANGE.m_e2 r) = false).
      { apply andb_false_iff.
        destruct (Z.leb_spec (RANGE.m_s2 r) sec); [right|now left].
        apply Z.leb_gt. lia. }
      rewrite E. apply andb_false_r.
Qed.

Lemma range_membership_counts_witness :
  length (range_points (RANGE.mk 1 2 1 3 1 4) 5 5) = 12%nat
  /\ RANGE.node_num (RANGE.mk 1 2 1 3 1 4) = 12
  /\ RANGE.constains (RANGE.mk 1 2 3 1 1 4) 2 2 = false
  /\ RANGE.node_num (RANGE.mk 1 2 3 1 1 4) = 2 ^ 64 - 4.
Proof.
  destruct (@range_membership_counts (RANGE.mk 1 2 1 3 1 4) 5 5 eq_refl
              eq_refl eq_refl) as [H _].
  destruct H as [H1 H2]; [discriminate | discriminate |].
  destruct (@range_membership_counts (RANGE.mk 1 2 3 1 1 4) 5 5 eq_refl
              eq_refl eq_refl) as [_ H].
  split; [|split; [|split]].
  - apply Nat2Z.inj. rewrite H1. reflexivity.
  - rewrite H2, H1. reflexivity.
  - apply H. left. reflexivity.
  - reflexivity.
Defined.

(* ------------------------------------------------------------------ *)
(** ** [Block2D] *)

Lemma at_repeat {A} (c : A) n p :
  0 <= p < Z.of_nat n -> at_ (repeat c n) p = inr c.
Proof.
  intros H. unfold at_. rewrite repeat_length.
  assert (E : (0 <=? p) && (p <? Z.of_nat n) = true).
  { rewrite andb_true_iff, Z.leb_le, Z.ltb_lt. lia. }
  rewrite E, nth_error_repeat by lia. reflexivity.
Qed.

Lemma plane_inj a i j i' j' :
  0 <= i < a -> 0 <= i' < a -> i + a * j = i' + a * j' -> i = i' /\ j = j'.
Proof.
  intros Hi Hi' E.
  assert (E1 : i = i').
  { transitivity ((i + a * j) mod a).
    - rewrite Z.mul_comm, Z_mod_plus_full. symmetry. apply Z.mod_small. lia.
    - rewrite E, Z.mul_comm, Z_mod_plus_full. apply Z.mod_small. lia. }
  split; [exact E1|]. subst i'.
  assert (H : a * j = a * j') by lia. apply Z.mul_reg_l in H; lia.
Qed.

Lemma plane_bounds a c i j :
  0 <= i < a -> 0 <= j < c -> 0 <= a * j /\ 0 <= i + a * j < a * c.
Proof.
  intros Hi Hj.
  assert (H1 : 0 <= a * j) by (apply Z.mul_nonneg_nonneg; lia).
  assert (H2 : a * j <= a * (c - 1)) by (apply Z.mul_le_mono_nonneg_l; lia).
  split; [exact H1 | lia].
Qed.

Lemma int_products a c :
  1 <= a <= INT_MAX -> 1 <= c <= INT_MAX -> 0 <= a * c < 2 ^ 62.
Proof.
  unfold INT_MAX. intros Ha Hc.
  assert (H1 : 0 <= a * c) by (apply Z.mul_nonneg_nonneg; lia).
  assert (H2 : a * c <= (2 ^ 31 - 1) * (2 ^ 31 - 1))
    by (apply Z.mul_le_mono_nonneg; lia).
  assert (P : (2 ^ 31 - 1) * (2 ^ 31 - 1) < 2 ^ 62) by reflexivity.
  lia.
Qed.

(** X24. The constructor of [Block2D] refuses a dimension below 2 with
    [invalid_argument], before anything is allocated.  A block that it
    returns has dimensions of at least 2, is not 3D, has index 0, the
    dimensions given and [KDIM] 1, [(nI - 1) * (nJ - 1)] quadrilateral
    cells without ids and four edges that know their 1-based position.
    Its counts are those of an [nI] x [nJ] lattice, with
    nodes - faces + cells = 1.  [cell(i, j)] with [1 <= i < nI] and
    [1 <= j < nJ] is the cell at position [(i - 1) + (nI - 1) * (j - 1)],
    a position of its own; the bounds are checked on the position only:
    [cell(nI, j)] is the cell [(1, j + 1)].  [edge(n)] for [n] in 1..4
    is the edge whose [local_index] is [n]; 0 and an index beyond 4 on
    either side is an [invalid_argument] that quotes it. *)
Theorem block2d_constructor_and_cells nI nJ :
  (nI < 2 \/ nJ < 2 ->
   Block2D.new nI nJ = inl (invalid_argument "Invalid dimension."))
  /\ (forall b,
        Block2D.new nI nJ = inr b -> nI <= INT_MAX -> nJ <= INT_MAX ->
        2 <= nI /\ 2 <= nJ
        /\ BLOCK.is3D (Block2D.base b) = false
        /\ BLOCK.index (Block2D.base b) = 0
        /\ (Block2D.IDIM b, Block2D.JDIM b, Block2D.KDIM b) = (nI, nJ, 1)
        /\ Block2D.node_num b = nI * nJ
        /\ Block2D.face_num b = (nI - 1) * nJ + nI * (nJ - 1)
        /\ Block2D.cell_num b = (nI - 1) * (nJ - 1)
        /\ Block2D.node_num b - Block2D.face_num b + Block2D.cell_num b = 1
        /\ Block2D.m_cell b
           = repeat (CELL.mk 0 (repeat 0 4) (repeat 0 4))
                    (Z.to_nat ((nI - 1) * (nJ - 1)))
        /\ map Block2D.EDGE.local_index (Block2D.m_edge b) = zseq 1 4
        /\ (forall i j, 1 <= i < nI -> 1 <= j < nJ ->
              Block2D.cell_pos b i j = (i - 1) + (nI - 1) * (j - 1)
              /\ Block2D.cell b i j = inr QUAD_CELL)
        /\ (forall i j i' j',
              1 <= i < nI -> 1 <= j < nJ -> 1 <= i' < nI -> 1 <= j' < nJ ->
              Block2D.cell_pos b i j = Block2D.cell_pos b i' j' ->
              (i, j) = (i', j'))
        /\ (forall j, Block2D.cell b nI j = Block2D.cell b 1 (j + 1))
        /\ (forall n, 1 <= n <= 4 ->
              exists e, Block2D.edge b n = inr e
                        /\ Block2D.EDGE.local_index e = n)
        /\ (forall n, n = 0 \/ n < -4 \/ 4 < n ->
              Block2D.edge b n
              = inl (invalid_argument
                       (dquote ++ Cstr.to_string n ++ dquote
                        ++ " is not a valid edge index for a 2D block.")))).
Proof.
  split.
  - intros H. unfold Block2D.new, Block2D.new_base.
    assert (E : (nI <? 2) || (nJ <? 2) = true).
    { rewrite orb_true_iff, !Z.ltb_lt. lia. }
    now rewrite E.
  - intros b Hb HI' HJ'. unfold Block2D.new, Block2D.new_base in Hb.
    destruct ((nI <? 2) || (nJ <? 2)) eqn:E; [discriminate Hb|].
    cbn [DIM.of_bool] in Hb. injection Hb as <-.
    assert (HI : 2 <= nI <= INT_MAX).
    { rewrite orb_false_iff, !Z.ltb_ge in E. lia. }
    assert (HJ : 2 <= nJ <= INT_MAX).
    { rewrite orb_false_iff, !Z.ltb_ge in E. lia. }
    split; [lia|]. split; [lia|].
    assert (P : 2 ^ 62 < 2 ^ 64) by reflexivity.
    assert (P' : INT_MAX < 2 ^ 62) by reflexivity.
    pose proof (@int_products nI nJ ltac:(lia) ltac:(lia)) as B1.
    pose proof (@int_products (nI - 1) nJ ltac:(lia) ltac:(lia)) as B2.
    pose proof (@int_products nI (nJ - 1) ltac:(lia) ltac:(lia)) as B3.
    pose proof (@int_products (nI - 1) (nJ - 1) ltac:(lia) ltac:(lia)) as B4.
    assert (WI : wrap nI = nI) by (apply wrap_small; lia).
    assert (WJ : wrap nJ = nJ) by (apply wrap_small; lia).
    assert (WI1 : wrap (nI - 1) = nI - 1) by (apply wrap_small; lia).
    assert (WJ1 : wrap (nJ - 1) = nJ - 1) by (apply wrap_small; lia).
    assert (Hn : BLOCK.node_num (BLOCK.mk false 2 0 (wrap nI) (wrap nJ) 1)
                 = nI * nJ).
    { unfold BLOCK.node_num, BLOCK.is3D, BLOCK.IDIM, BLOCK.JDIM.
      cbn [BLOCK.m_is3D BLOCK.m_nI BLOCK.m_nJ]. rewrite WI, WJ.
      apply wrap_small. lia. }
    assert (Hf : BLOCK.face_num (BLOCK.mk false 2 0 (wrap nI) (wrap nJ) 1)
                 = (nI - 1) * nJ + nI * (nJ - 1)).
    { unfold BLOCK.face_num, BLOCK.is3D, BLOCK.IDIM, BLOCK.JDIM.
      cbn [BLOCK.m_is3D BLOCK.m_nI BLOCK.m_nJ]. cbv zeta.
      rewrite WI, WJ, WI1, WJ1.
      rewrite (wrap_small (a := (nI - 1) * nJ)) by lia.
      rewrite (wrap_small (a := nI * (nJ - 1))) by lia.
      rewrite (wrap_small (a := 0 + (nI - 1) * nJ)) by lia.
      apply wrap_small. lia. }
    assert (Hc : BLOCK.cell_num (BLOCK.mk false 2 0 (wrap nI) (wrap nJ) 1)
                 = (nI - 1) * (nJ - 1)).
    { unfold BLOCK.cell_num, BLOCK.is3D, BLOCK.IDIM, BLOCK.JDIM.
      cbn [BLOCK.m_is3D BLOCK.m_nI BLOCK.m_nJ]. rewrite WI, WJ, WI1, WJ1.
      apply wrap_small. lia. }
    assert (Hpos : forall i j, 1 <= i < nI -> 1 <= j < nJ ->
               wrap (wrap (i - 1) + wrap (wrap (wrap nI - 1) * wrap (j - 1)))
               = (i - 1) + (nI - 1) * (j - 1)
               /\ 0 <= (i - 1) + (nI - 1) * (j - 1) < (nI - 1) * (nJ - 1)).
    { intros i j Hi Hj.
      destruct (@plane_bounds (nI - 1) (nJ - 1) (i - 1) (j - 1))
        as [Q1 Q2]; try lia.
      rewrite WI, WI1.
      rewrite (wrap_small (a := i - 1)) by lia.
      rewrite (wrap_small (a := j - 1)) by lia.
      rewrite (wrap_small (a := (nI - 1) * (j - 1))) by lia.
      split; [apply wrap_small; lia | exact Q2]. }
    unfold Block2D.IDIM, Block2D.JDIM, Block2D.KDIM, Block2D.node_num,
      Block2D.face_num, Block2D.cell_num, Block2D.cell, Block2D.cell_pos.
    cbn [Block2D.base Block2D.m_cell Block2D.m_edge].
    rewrite Hn, Hf, Hc.
    split; [reflexivity|]. split; [reflexivity|].
    split.
    { unfold BLOCK.IDIM, BLOCK.JDIM, BLOCK.KDIM.
      cbn [BLOCK.m_nI BLOCK.m_nJ BLOCK.m_nK]. now rewrite WI, WJ. }
    split; [reflexivity|]. split; [reflexivity|]. split; [reflexivity|].
    split; [ring|]. split; [reflexivity|]. split; [reflexivity|].
    cbv zeta. unfold Block2D.IDIM, BLOCK.IDIM.
    cbn [Block2D.base BLOCK.m_nI].
    split; [|split; [|split; [|split]]].
    + intros i j Hi Hj. destruct (Hpos i j Hi Hj) as [E1 E2].
      split; [exact E1|]. rewrite E1. apply at_repeat. lia.
    + intros i j i' j' Hi Hj Hi' Hj' Epos.
      destruct (Hpos i j Hi Hj) as [E1 _].
      destruct (Hpos i' j' Hi' Hj') as [E2 _].
      rewrite E1, E2 in Epos.
      destruct (@plane_inj (nI - 1) (i - 1) (j - 1) (i' - 1) (j' - 1))
        as [A B]; try lia.
      f_equal; lia.
    + intros j. f_equal. rewrite WI.
      apply eqm64_wrap. repeat setoid_rewrite wrap_eqm64.
      match goal with |- eqm64 ?x ?y => replace x with y by ring end.
      reflexivity.
    + intros n Hn4.
      assert (C : n = 1 \/ n = 2 \/ n = 3 \/ n = 4) by lia.
      destruct C as [-> | [-> | [-> | ->]]]; eexists; split; reflexivity.
    + intros n Hn4. unfold Block2D.edge, Block2D.edge_pos, Block2D.NumOfEdge.
      cbn [Z.opp].
      assert (E1 : (1 <=? n) && (n <=? 4) = false).
      { rewrite andb_false_iff, !Z.leb_gt. lia. }
      assert (E2 : (-4 <=? n) && (n <=? -1) = false).
      { rewrite andb_false_iff, !Z.leb_gt. lia. }
      now rewrite E1, E2.
Qed.

(** The theorem on the block of 3 x 4 nodes, and on 3 x 1. *)
Lemma block2d_constructor_and_cells_witness :
  Block2D.new 3 1 = inl (invalid_argument "Invalid dimension.")
  /\ exists b, Block2D.new 3 4 = inr b
               /\ Block2D.cell_num b = 6
               /\ Block2D.cell b 2 3 = inr QUAD_CELL
               /\ Block2D.cell b 3 1 = Block2D.cell b 1 2.
Proof.
  destruct (block2d_constructor_and_cells 3 1) as [H1 _].
  destruct (block2d_constructor_and_cells 3 4) as [_ H2].
  split; [apply H1; lia|].
  destruct (Block2D.new 3 4) as [e|b] eqn:Hb;
    [vm_compute in Hb; discriminate Hb|].
  destruct (H2 b eq_refl)
    as (_ & _ & _ & _ & _ & _ & _ & Hc & _ & _ & _ & Hcell & _ & Hw & _);
    [unfold INT_MAX; lia | unfold INT_MAX; lia |].
  exists b. split; [reflexivity|]. split; [exact Hc|].
  split; [apply Hcell; lia | apply (Hw 1)].
Defined.


(* ------------------------------------------------------------------ *)
(** ** [coloring()] *)

Lemma lift_inr {S A} (r : exn + A) (x : A) (s : S) :
  r = inr x -> lift r s = Normal x s.
Proof. intros ->. reflexivity. Qed.

Lemma to_llong_small z : 0 <= z < 2 ^ 63 -> to_llong z = z.
Proof.
  intros H. unfold to_llong. cbv zeta.
  assert (P : 2 ^ 63 < 2 ^ 64) by reflexivity.
  rewrite Z.mod_small by lia.
  assert (E : (z <? 2 ^ 63) = true) by (apply Z.ltb_lt; lia).
  now rewrite E.
Qed.

Lemma to_int_small z : 0 <= z < 2 ^ 31 -> to_int z = z.
Proof.
  intros H. unfold to_int. cbv zeta.
  assert (P : 2 ^ 31 < 2 ^ 32) by reflexivity.
  rewrite Z.mod_small by lia.
  assert (E : (z <? 2 ^ 31) = true) by (apply Z.ltb_lt; lia).
  now rewrite E.
Qed.

Lemma at_nth {A} (v : list A) n x :
  nth_error v n = Some x -> at_ v (Z.of_nat n) = inr x.
Proof.
  intros H. unfold at_.
  assert (Hn : (n < length v)%nat) by (apply nth_error_Some; congruence).
  assert (E : (0 <=? Z.of_nat n) && (Z.of_nat n <? Z.of_nat (length v)) = true).
  { rewrite andb_true_iff, Z.leb_le, Z.ltb_lt. lia. }
  rewrite E, Nat2Z.id, H. reflexivity.
Qed.

Lemma upd_nth_middle {A} (f : A -> A) (a : list A) x b n :
  n = length a -> upd_nth n f (a ++ x :: b) = a ++ f x :: b.
Proof.
  intros ->. induction a as [|z a IH]; simpl; [reflexivity | now rewrite IH].
Qed.

Lemma upd_nth_same {A} (f : A -> A) (l : list A) n x :
  nth_error l n = Some x -> f x = x -> upd_nth n f l = l.
Proof.
  revert n; induction l as [|a l IH]; intros [|n] H E; simpl in *;
    try discriminate.
  - injection H as ->. now rewrite E.
  - now rewrite (IH n).
Qed.

Lemma viewed_lengths this b :
  viewed this b ->
  length (Block3D.m_surf b) = 6%nat /\ length (Block3D.m_edge b) = 12%nat.
Proof.
  unfold viewed, wiring_view, expected_view. intros H.
  injection H as H1 H2.
  apply (f_equal (@length _)) in H1, H2. rewrite length_map in H1, H2. auto.
Qed.

Lemma viewed_edge this b k e :
  viewed this b -> nth_error (Block3D.m_edge b) k = Some e ->
  exists a1 a2,
    EDGE.dependentSurf e = [Some (mkptr this a1); Some (mkptr this a2)]
    /\ 0 <= a1 < 6 /\ 0 <= a2 < 6.
Proof.
  unfold viewed, wiring_view, expected_view. intros H Hk.
  injection H as _ H2.
  apply (map_nth_error (fun e => (EDGE.local_index e, EDGE.dependentSurf e)))
    in Hk.
  rewrite H2 in Hk.
  do 12 (destruct k as [|k];
         [injection Hk as _ <-; do 2 eexists; split; [reflexivity|lia]|]).
  destruct k; discriminate.
Qed.

Lemma viewed_set_edges this b es :
  map (fun e => (EDGE.local_index e, EDGE.dependentSurf e)) es
  = map (fun e => (EDGE.local_index e, EDGE.dependentSurf e)) (Block3D.m_edge b) ->
  viewed this b -> viewed this (Block3D.set_m_edge es b).
Proof.
  unfold viewed, wiring_view. intros E H. rewrite <- H.
  cbn [Block3D.m_surf Block3D.m_edge Block3D.set_m_edge]. now rewrite E.
Qed.

Lemma number_edges_view c es :
  map (fun e => (EDGE.local_index e, EDGE.dependentSurf e)) (number_edges c es)
  = map (fun e => (EDGE.local_index e, EDGE.dependentSurf e)) es.
Proof.
  revert c; induction es as [|e es IH]; intros c; cbn; [reflexivity|].
  now rewrite IH.
Qed.

Lemma read_neighbourSurf_total m n b a :
  nth_error (Mapping3D.m_blk m) n = Some (Some b) ->
  0 <= a < Z.of_nat (length (Block3D.m_surf b)) ->
  exists v,
    Mapping3D.read_neighbourSurf (mkptr (Z.of_nat n + 1) a) m = Normal v m.
Proof.
  intros Hb Ha. unfold Mapping3D.read_neighbourSurf. cbn [p_block p_pos].
  assert (E : (Z.of_nat n + 1 <? 1) || (a <? 0) = false).
  { rewrite orb_false_iff, !Z.ltb_ge. lia. }
  rewrite E. replace (Z.to_nat (Z.of_nat n + 1 - 1)) with n by lia.
  rewrite Hb.
  destruct (nth_error (Block3D.m_surf b) (Z.to_nat a)) as [f|] eqn:Ef.
  - eexists. reflexivity.
  - apply nth_error_None in Ef. lia.
Qed.

Lemma with_edges_same n b m :
  nth_error (Mapping3D.m_blk m) n = Some (Some b) ->
  with_edges n (Block3D.m_edge b) m = m.
Proof.
  intros Hb. unfold with_edges.
  rewrite (@upd_nth_same _ _ _ _ _ Hb) by (destruct b; reflexivity).
  destruct m; reflexivity.
Qed.

Lemma with_edges_set_global n p v es m :
  with_edges n es (Mapping3D.set_global_index (Z.of_nat n) p v m)
  = with_edges n es m.
Proof.
  unfold with_edges, Mapping3D.set_global_index.
  cbn [Mapping3D.m_blk Mapping3D.set_m_blk Mapping3D.m_entry].
  rewrite Nat2Z.id, upd_nth_twice.
  erewrite upd_nth_ext; [reflexivity|]. intros [b|]; reflexivity.
Qed.

(** One edge that has no colour yet. *)
Lemma color_edge_fresh n b j e c m :
  nth_error (Mapping3D.m_blk m) n = Some (Some b) ->
  viewed (Z.of_nat n + 1) b ->
  Mapping3D.nBlk m <= INT_MAX ->
  nth_error (Block3D.m_edge b) j = Some e ->
  EDGE.global_index e = 0 -> 0 <= c < INT_MAX ->
  Mapping3D.color_edge (Z.of_nat n + 1) (Z.of_nat j + 1) c m
  = Normal (c + 1)
           (Mapping3D.set_global_index (Z.of_nat n) (Z.of_nat j) (c + 1) m).
Proof.
  intros Hb Hv HN He H0 Hc.
  destruct (viewed_lengths Hv) as [L6 L12].
  destruct (viewed_edge _ Hv He) as (a1 & a2 & Hd & R1 & R2).
  assert (Hn : (n < length (Mapping3D.m_blk m))%nat)
    by (apply nth_error_Some; congruence).
  assert (Hj : (j < 12)%nat) by (rewrite <- L12; apply nth_error_Some; congruence).
  assert (P : INT_MAX < 2 ^ 31) by reflexivity.
  assert (P' : 2 ^ 31 < 2 ^ 63) by reflexivity.
  unfold Mapping3D.nBlk in HN.
  unfold Mapping3D.color_edge.
  erewrite bind_normal_l by reflexivity.
  erewrite bind_normal_l.
  2:{ apply lift_inr. rewrite to_llong_small by lia. unfold Array1D.index.
      assert (E : (1 <=? Z.of_nat n + 1)
                  && (Z.of_nat n + 1 <=? Mapping3D.nBlk m) = true).
      { unfold Mapping3D.nBlk. rewrite andb_true_iff, !Z.leb_le. lia. }
      rewrite E. reflexivity. }
  replace (Z.of_nat n + 1 - 1) with (Z.of_nat n) by lia.
  erewrite bind_normal_l by (apply lift_inr, at_nth; exact Hb).
  cbv beta iota.
  erewrite bind_normal_l.
  2:{ apply lift_inr. rewrite to_int_small by lia. unfold Block3D.edge_pos.
      assert (E : (1 <=? Z.of_nat j + 1)
                  && (Z.of_nat j + 1 <=? Block3D.NumOfEdge) = true).
      { unfold Block3D.NumOfEdge. rewrite andb_true_iff, !Z.leb_le. lia. }
      rewrite E. reflexivity. }
  replace (Z.of_nat j + 1 - 1) with (Z.of_nat j) by lia.
  erewrite bind_normal_l by (apply lift_inr, at_nth; exact He).
  rewrite H0. cbn [Z.eqb negb].
  assert (E : (c =? INT_MAX) = false) by (apply Z.eqb_neq; lia).
  rewrite E. cbv zeta.
  erewrite bind_normal_l by reflexivity.
  rewrite Hd.
  set (m1 := Mapping3D.set_global_index (Z.of_nat n) (Z.of_nat j) (c + 1) m).
  assert (Hb1 : exists b1, nth_error (Mapping3D.m_blk m1) n = Some (Some b1)
                           /\ Block3D.m_surf b1 = Block3D.m_surf b).
  { eexists. split.
    - unfold m1, Mapping3D.set_global_index.
      cbn [Mapping3D.m_blk Mapping3D.set_m_blk].
      rewrite Nat2Z.id, nth_error_upd_nth_eq, Hb. reflexivity.
    - reflexivity. }
  destruct Hb1 as (b1 & Hb1 & Hs1).
  destruct (@read_neighbourSurf_total m1 n b1 a1 Hb1) as (v1 & Hr1);
    [rewrite Hs1; lia|].
  destruct (@read_neighbourSurf_total m1 n b1 a2 Hb1) as (v2 & Hr2);
    [rewrite Hs1; lia|].
  erewrite bind_normal_l by exact Hr1.
  erewrite bind_normal_l by exact Hr2.
  reflexivity.
Qed.

(** One edge that has a colour. *)
Lemma color_edge_done n b j e c m :
  nth_error (Mapping3D.m_blk m) n = Some (Some b) ->
  Mapping3D.nBlk m < 2 ^ 63 ->
  nth_error (Block3D.m_edge b) j = Some e -> (j < 12)%nat ->
  EDGE.global_index e <> 0 ->
  Mapping3D.color_edge (Z.of_nat n + 1) (Z.of_nat j + 1) c m = Normal c m.
Proof.
  intros Hb HN He Hj H0.
  assert (Hn : (n < length (Mapping3D.m_blk m))%nat)
    by (apply nth_error_Some; congruence).
  unfold Mapping3D.nBlk in HN.
  unfold Mapping3D.color_edge.
  erewrite bind_normal_l by reflexivity.
  erewrite bind_normal_l.
  2:{ apply lift_inr. rewrite to_llong_small by lia. unfold Array1D.index.
      assert (E : (1 <=? Z.of_nat n + 1)
                  && (Z.of_nat n + 1 <=? Mapping3D.nBlk m) = true).
      { unfold Mapping3D.nBlk. rewrite andb_true_iff, !Z.leb_le. lia. }
      rewrite E. reflexivity. }
  replace (Z.of_nat n + 1 - 1) with (Z.of_nat n) by lia.
  erewrite bind_normal_l by (apply lift_inr, at_nth; exact Hb).
  cbv beta iota.
  erewrite bind_normal_l.
  2:{ apply lift_inr. rewrite to_int_small by lia. unfold Block3D.edge_pos.
      assert (E : (1 <=? Z.of_nat j + 1)
                  && (Z.of_nat j + 1 <=? Block3D.NumOfEdge) = true).
      { unfold Block3D.NumOfEdge. rewrite andb_true_iff, !Z.leb_le. lia. }
      rewrite E. reflexivity. }
  replace (Z.of_nat j + 1 - 1) with (Z.of_nat j) by lia.
  erewrite bind_normal_l by (apply lift_inr, at_nth; exact He).
  apply Z.eqb_neq in H0. rewrite H0. reflexivity.
Qed.

(** The loop on the edges of a block none of which has a colour. *)
Lemma color_edges_fresh n : forall rest done c m b,
  nth_error (Mapping3D.m_blk m) n = Some (Some b) ->
  Block3D.m_edge b = done ++ rest ->
  viewed (Z.of_nat n + 1) b -> Mapping3D.nBlk m <= INT_MAX ->
  Forall (fun e => EDGE.global_index e = 0) rest ->
  0 <= c -> c + Z.of_nat (length rest) <= INT_MAX ->
  foldM (zseq (Z.of_nat (length done) + 1) (length rest)) c
        (fun j cnt => Mapping3D.color_edge (Z.of_nat n + 1) j cnt) m
  = Normal (c + Z.of_nat (length rest))
           (with_edges n (done ++ number_edges c rest) m).
Proof.
  induction rest as [|e rest IH]; intros done c m b Hb He Hv HN H0 Hc Hc'.
  - cbn [length zseq foldM number_edges]. rewrite app_nil_r in *.
    rewrite <- He, with_edges_same by exact Hb.
    unfold ret. f_equal. cbn. lia.
  - cbn [length zseq foldM number_edges]. cbn [length] in Hc'.
    inversion H0 as [|? ? H0e H0r]; subst.
    erewrite bind_normal_l.
    2:{ apply (@color_edge_fresh n b (length done) e c m Hb Hv HN);
          [|exact H0e|lia].
        rewrite He, nth_error_app2, Nat.sub_diag by lia. reflexivity. }
    set (e' := EDGE.set_global_index (c + 1) e).
    set (m1 := Mapping3D.set_global_index _ _ _ m).
    set (b1 := Block3D.set_m_edge (done ++ e' :: rest) b).
    assert (Hb1 : nth_error (Mapping3D.m_blk m1) n = Some (Some b1)).
    { unfold m1, Mapping3D.set_global_index.
      cbn [Mapping3D.m_blk Mapping3D.set_m_blk].
      rewrite !Nat2Z.id, nth_error_upd_nth_eq, Hb. cbn [option_map].
      rewrite He, upd_nth_middle by reflexivity. reflexivity. }
    assert (Hv1 : viewed (Z.of_nat n + 1) b1).
    { apply viewed_set_edges; [|exact Hv].
      rewrite He, !map_app. reflexivity. }
    assert (HN1 : Mapping3D.nBlk m1 <= INT_MAX).
    { unfold m1, Mapping3D.nBlk, Mapping3D.set_global_index.
      cbn [Mapping3D.m_blk Mapping3D.set_m_blk]. rewrite length_upd_nth.
      exact HN. }
    assert (He1 : Block3D.m_edge b1 = (done ++ [e']) ++ rest).
    { unfold b1. cbn [Block3D.m_edge Block3D.set_m_edge].
      now rewrite <- app_assoc. }
    pose proof (IH (done ++ [e']) (c + 1) m1 b1 Hb1 He1 Hv1 HN1 H0r
                   ltac:(lia) ltac:(lia)) as Hrun.
    replace (Z.of_nat (length (done ++ [e'])) + 1)
      with (Z.of_nat (length done) + 1 + 1) in Hrun
      by (rewrite length_app; cbn [length]; lia).
    rewrite Hrun. unfold m1. rewrite with_edges_set_global.
    rewrite <- app_assoc. cbn [app]. f_equal. lia.
Qed.

(** The loop on the edges of a block all of which have a colour. *)
Lemma color_edges_done n : forall rest done c m b,
  nth_error (Mapping3D.m_blk m) n = Some (Some b) ->
  Block3D.m_edge b = done ++ rest ->
  (length done + length rest = 12)%nat -> Mapping3D.nBlk m < 2 ^ 63 ->
  Forall (fun e => EDGE.global_index e <> 0) rest ->
  foldM (zseq (Z.of_nat (length done) + 1) (length rest)) c
        (fun j cnt => Mapping3D.color_edge (Z.of_nat n + 1) j cnt) m
  = Normal c m.
Proof.
  induction rest as [|e rest IH]; intros done c m b Hb He Hl HN H0;
    [reflexivity|].
  cbn [length zseq foldM]. cbn [length] in Hl.
  inversion H0 as [|? ? H0e H0r]; subst.
  erewrite bind_normal_l.
  2:{ apply (@color_edge_done n b (length done) e c m Hb HN);
        [|lia|exact H0e].
      rewrite He, nth_error_app2, Nat.sub_diag by lia. reflexivity. }
  pose proof (IH (done ++ [e]) c m b Hb
                 ltac:(rewrite He, <- app_assoc; reflexivity)
                 ltac:(rewrite length_app; cbn [length]; lia) HN H0r) as Hrun.
  replace (Z.of_nat (length (done ++ [e])) + 1)
    with (Z.of_nat (length done) + 1 + 1) in Hrun
    by (rewrite length_app; cbn [length]; lia).
  exact Hrun.
Qed.

(** The loop on the blocks, none of whose edges has a colour. *)
Lemma color_blocks_fresh : forall rest done c m,
  Mapping3D.m_blk m = done ++ rest ->
  (forall k, (k < length rest)%nat ->
     exists b, nth_error rest k = Some (Some b)
               /\ viewed (Z.of_nat (length done + k) + 1) b
               /\ Forall (fun e => EDGE.global_index e = 0) (Block3D.m_edge b)) ->
  Mapping3D.nBlk m <= INT_MAX ->
  0 <= c -> c + 12 * Z.of_nat (length rest) <= INT_MAX ->
  foldM (zseq (Z.of_nat (length done) + 1) (length rest)) c
        (fun i cnt =>
           foldM (range 1 (Block3D.NumOfEdge + 1)) cnt
                 (fun j cnt => Mapping3D.color_edge i j cnt)) m
  = Normal (c + 12 * Z.of_nat (length rest))
           (Mapping3D.set_m_blk (done ++ colour_blocks c rest) m).
Proof.
  induction rest as [|o rest IH]; intros done c m Hm Hall HN Hc Hc'.
  - cbn [length zseq foldM colour_blocks]. rewrite app_nil_r in *.
    rewrite <- Hm. unfold ret. f_equal; [cbn; lia | destruct m; reflexivity].
  - cbn [length zseq foldM colour_blocks]. cbn [length] in Hc'.
    destruct (Hall 0%nat ltac:(cbn; lia)) as (b & Hb & Hv & H0).
    cbn [nth_error] in Hb. injection Hb as ->.
    rewrite Nat.add_0_r in Hv.
    destruct (viewed_lengths Hv) as [_ L12].
    assert (Hb : nth_error (Mapping3D.m_blk m) (length done) = Some (Some b)).
    { rewrite Hm, nth_error_app2, Nat.sub_diag by lia. reflexivity. }
    set (b1 := Block3D.set_m_edge (number_edges c (Block3D.m_edge b)) b).
    set (m1 := with_edges (length done) (number_edges c (Block3D.m_edge b)) m).
    assert (Hin : foldM (range 1 (Block3D.NumOfEdge + 1)) c
                    (fun j cnt =>
                       Mapping3D.color_edge (Z.of_nat (length done) + 1) j cnt) m
                  = Normal (c + 12) m1).
    { pose proof (@color_edges_fresh (length done) (Block3D.m_edge b) [] c m b
                    Hb eq_refl Hv HN H0 Hc ltac:(rewrite L12; lia)) as X.
      rewrite L12 in X. exact X. }
    erewrite bind_normal_l by exact Hin.
    cbn [app option_map].
    assert (Hm1 : Mapping3D.m_blk m1 = (done ++ [Some b1]) ++ rest).
    { unfold m1, with_edges. cbn [Mapping3D.m_blk Mapping3D.set_m_blk].
      rewrite Hm, upd_nth_middle by reflexivity.
      now rewrite <- app_assoc. }
    assert (HN1 : Mapping3D.nBlk m1 <= INT_MAX).
    { unfold m1, Mapping3D.nBlk, with_edges.
      cbn [Mapping3D.m_blk Mapping3D.set_m_blk]. rewrite length_upd_nth.
      exact HN. }
    pose proof (IH (done ++ [Some b1]) (c + 12) m1 Hm1) as Hrun.
    replace (Z.of_nat (length (done ++ [Some b1])) + 1)
      with (Z.of_nat (length done) + 1 + 1) in Hrun
      by (rewrite length_app; cbn [length]; lia).
    rewrite Hrun; [| |exact HN1|lia|lia].
    + rewrite <- app_assoc. cbn [app]. f_equal. lia.
    + intros k Hk. destruct (Hall (S k) ltac:(cbn; lia)) as (bk & Hbk & Hvk & Hk0).
      exists bk. split; [exact Hbk|]. split; [|exact Hk0].
      replace (length (done ++ [Some b1]) + k)%nat with (length done + S k)%nat
        by (rewrite length_app; cbn [length]; lia).
      exact Hvk.
Qed.

(** The loop on the blocks, all of whose edges have a colour. *)
Lemma color_blocks_done : forall rest done c m,
  Mapping3D.m_blk m = done ++ rest ->
  (forall k, (k < length rest)%nat ->
     exists b, nth_error rest k = Some (Some b)
               /\ length (Block3D.m_edge b) = 12%nat
               /\ Forall (fun e => EDGE.global_index e <> 0) (Block3D.m_edge b)) ->
  Mapping3D.nBlk m < 2 ^ 63 ->
  foldM (zseq (Z.of_nat (length done) + 1) (length rest)) c
        (fun i cnt =>
           foldM (range 1 (Block3D.NumOfEdge + 1)) cnt
                 (fun j cnt => Mapping3D.color_edge i j cnt)) m
  = Normal c m.
Proof.
  induction rest as [|o rest IH]; intros done c m Hm Hall HN; [reflexivity|].
  cbn [length zseq foldM].
  destruct (Hall 0%nat ltac:(cbn; lia)) as (b & Hb & L12 & H0).
  cbn [nth_error] in Hb. injection Hb as ->.
  assert (Hb : nth_error (Mapping3D.m_blk m) (length done) = Some (Some b)).
  { rewrite Hm, nth_error_app2, Nat.sub_diag by lia. reflexivity. }
  assert (Hin : foldM (range 1 (Block3D.NumOfEdge + 1)) c
                  (fun j cnt =>
                     Mapping3D.color_edge (Z.of_nat (length done) + 1) j cnt) m
                = Normal c m).
  { pose proof (@color_edges_done (length done) (Block3D.m_edge b) [] c m b
                  Hb eq_refl ltac:(cbn [length]; lia) HN H0) as X.
    rewrite L12 in X. exact X. }
  erewrite bind_normal_l by exact Hin.
  pose proof (IH (done ++ [Some b]) c m
                 ltac:(rewrite Hm, <- app_assoc; reflexivity)) as Hrun.
  replace (Z.of_nat (length (done ++ [Some b])) + 1)
    with (Z.of_nat (length done) + 1 + 1) in Hrun
    by (rewrite length_app; cbn [length]; lia).
  apply Hrun; [|exact HN].
  intros k Hk. apply (Hall (S k)). cbn. lia.
Qed.

Lemma number_edges_colours es : forall c,
  map EDGE.global_index (number_edges c es) = zseq (c + 1) (length es).
Proof.
  induction es as [|e es IH]; intros c; cbn; [reflexivity|]. now rewrite IH.
Qed.

Lemma number_edges_length es : forall c, length (number_edges c es) = length es.
Proof. induction es as [|e es IH]; intros c; cbn; auto. Qed.

Lemma colour_blocks_length bs : forall c, length (colour_blocks c bs) = length bs.
Proof. induction bs as [|o bs IH]; intros c; cbn; auto. Qed.

Lemma colour_blocks_nth bs : forall c k b,
  nth_error bs k = Some (Some b) ->
  nth_error (colour_blocks c bs) k
  = Some (Some (Block3D.set_m_edge
                  (number_edges (c + 12 * Z.of_nat k) (Block3D.m_edge b)) b)).
Proof.
  induction bs as [|o bs IH]; intros c [|k] b H; cbn in H |- *;
    try discriminate.
  - injection H as ->. cbn. now rewrite Z.add_0_r.
  - rewrite (IH (c + 12) k b H). do 4 f_equal. lia.
Qed.

Lemma colour_blocks_colours bs : forall n,
  Forall (fun o : option Block3D.t => o <> None) bs ->
  (forall k b, nth_error bs k = Some (Some b) ->
               length (Block3D.m_edge b) = 12%nat) ->
  map (fun b => map EDGE.global_index (Block3D.m_edge b))
      (slot_blocks (colour_blocks (12 * Z.of_nat n) bs))
  = map (fun k => zseq (12 * Z.of_nat k + 1) 12) (seq n (length bs)).
Proof.
  induction bs as [|o bs IH]; intros n Ha Hl; [reflexivity|].
  inversion Ha as [|? ? Ho Ha']; subst. destruct o as [b|]; [|congruence].
  cbn [colour_blocks option_map slot_blocks flat_map app map length seq
       Block3D.m_edge Block3D.set_m_edge].
  rewrite number_edges_colours, (Hl 0%nat b eq_refl). f_equal.
  replace (12 * Z.of_nat n + 12) with (12 * Z.of_nat (S n)) by lia.
  apply (IH (S n) Ha'). intros k bk Hk. apply (Hl (S k) bk Hk).
Qed.

Lemma number_edges_coloured es : forall c,
  0 <= c -> Forall (fun e => EDGE.global_index e <> 0) (number_edges c es).
Proof.
  induction es as [|e es IH]; intros c Hc; cbn; constructor.
  - cbn. lia.
  - apply IH. lia.
Qed.

Lemma parsed_blocks_ready fs path m0 r m :
  Mapping3D.readFromFile fs path m0 = Normal r m -> allocated m ->
  forall k, (k < length (Mapping3D.m_blk m))%nat ->
    exists b, nth_error (Mapping3D.m_blk m) k = Some (Some b)
              /\ viewed (Z.of_nat k + 1) b
              /\ Forall (fun e => EDGE.global_index e = 0) (Block3D.m_edge b).
Proof.
  intros H Ha k Hk.
  pose proof (readFromFile_viewed _ _ _ H) as Hv.
  pose proof (readFromFile_all_fresh _ _ _ H) as Hf.
  destruct (nth_error (Mapping3D.m_blk m) k) as [o|] eqn:E;
    [|apply nth_error_None in E; lia].
  unfold allocated in Ha. rewrite Forall_forall in Ha.
  pose proof (Ha o (nth_error_In _ _ E)) as Ho.
  destruct o as [b|]; [|congruence].
  exists b. split; [reflexivity|]. split; [exact (Hv k b E)|].
  destruct (Hf k b E) as (nI & nJ & nK & _ & _ & _ & _ & _ & H0).
  clear - H0. revert H0. generalize 12%nat.
  induction (Block3D.m_edge b) as [|e es IH]; intros n H0; [constructor|].
  destruct n as [|n]; [discriminate|]. cbn in H0. injection H0 as H1 H2.
  constructor; [exact H1 | exact (IH n H2)].
Qed.

(** X23. On a model that [readFromFile] returned with a block in every
    slot, [coloring()] returns with edge [j] of block [i] coloured
    [12 * (i - 1) + j] and nothing else changed, as long as the twelve
    edges of every block can be counted in an [int]: every edge gets a
    colour of its own, also where two blocks are glued.  A second run
    changes nothing. *)
Theorem coloring_numbers_every_edge fs path m0 r m :
  Mapping3D.readFromFile fs path m0 = Normal r m ->
  allocated m -> 12 * Mapping3D.nBlk m <= INT_MAX ->
  Mapping3D.coloring m = Normal tt (coloured m)
  /\ edge_colours (coloured m)
     = map (fun n => zseq (12 * Z.of_nat n + 1) 12)
           (seq 0 (length (Mapping3D.m_blk m)))
  /\ Mapping3D.coloring (coloured m) = Normal tt (coloured m).
Proof.
  intros H Ha HN.
  pose proof (parsed_blocks_ready _ _ _ H Ha) as Hall.
  assert (P : INT_MAX < 2 ^ 63) by reflexivity.
  assert (HL : Mapping3D.nBlk m = Z.of_nat (length (Mapping3D.m_blk m)))
    by reflexivity.
  assert (Hr : forall m', Mapping3D.nBlk m' = Mapping3D.nBlk m ->
             range 1 (Mapping3D.nBlk m' + 1)
             = zseq (Z.of_nat (@length (option Block3D.t) []) + 1)
                    (length (Mapping3D.m_blk m))).
  { intros m' ->. unfold range. rewrite HL. cbn [length]. f_equal. lia. }
  split; [|split].
  - unfold Mapping3D.coloring.
    erewrite bind_normal_l by reflexivity.
    rewrite (Hr m eq_refl).
    erewrite bind_normal_l.
    2:{ apply (@color_blocks_fresh (Mapping3D.m_blk m) [] 0 m eq_refl);
          [exact Hall | lia | lia | lia]. }
    reflexivity.
  - unfold edge_colours, blocks, coloured.
    cbn [Mapping3D.m_blk Mapping3D.set_m_blk].
    apply (@colour_blocks_colours (Mapping3D.m_blk m) 0%nat Ha).
    intros k b Hk.
    assert (Hlt : (k < length (Mapping3D.m_blk m))%nat)
      by (apply nth_error_Some; congruence).
    destruct (Hall k Hlt) as (b' & Hb' & Hv & _).
    rewrite Hk in Hb'. injection Hb' as <-.
    apply (viewed_lengths Hv).
  - assert (HNc : Mapping3D.nBlk (coloured m) = Mapping3D.nBlk m).
    { unfold coloured, Mapping3D.nBlk. cbn [Mapping3D.m_blk Mapping3D.set_m_blk].
      now rewrite colour_blocks_length. }
    unfold Mapping3D.coloring.
    erewrite bind_normal_l by reflexivity.
    rewrite (Hr _ HNc).
    replace (length (Mapping3D.m_blk m))
      with (length (Mapping3D.m_blk (coloured m)))
      by (unfold coloured; cbn [Mapping3D.m_blk Mapping3D.set_m_blk];
          apply colour_blocks_length).
    erewrite bind_normal_l.
    2:{ apply (@color_blocks_done (Mapping3D.m_blk (coloured m)) [] 0
                 (coloured m) eq_refl); [|rewrite HNc; lia].
        intros k Hk. unfold coloured in Hk |- *.
        cbn [Mapping3D.m_blk Mapping3D.set_m_blk] in Hk |- *.
        rewrite colour_blocks_length in Hk.
        destruct (Hall k Hk) as (b & Hb & Hv & _).
        eexists. split; [apply colour_blocks_nth; exact Hb|].
        cbn [Block3D.m_edge Block3D.set_m_edge].
        split; [rewrite number_edges_length; apply (viewed_lengths Hv)|].
        apply number_edges_coloured. lia. }
    reflexivity.
Qed.

Lemma coloring_numbers_every_edge_witness :
  exists m,
    parse nmf_two_cubes = Some m
    /\ Mapping3D.coloring m = Normal tt (coloured m)
    /\ edge_colours (coloured m) = [zseq 1 12; zseq 13 12].
Proof.
  assert (H : exists m, Mapping3D.readFromFile
                          (one_file "in.nmf" nmf_two_cubes) "in.nmf"
                          Mapping3D.new = Normal 0 m)
    by (eexists; vm_compute; reflexivity).
  destruct H as (m & H). exists m.
  assert (Hp : parse nmf_two_cubes = Some m) by (unfold parse; now rewrite H).
  assert (Hl : length (Mapping3D.m_blk m) = 2%nat).
  { vm_compute in Hp. injection Hp as <-. reflexivity. }
  assert (Ha : allocated m).
  { vm_compute in Hp. injection Hp as <-. unfold allocated.
    cbn [Mapping3D.m_blk].
    repeat (apply Forall_cons; [discriminate|]). apply Forall_nil. }
  assert (HN : 12 * Mapping3D.nBlk m <= INT_MAX).
  { unfold Mapping3D.nBlk. rewrite Hl. vm_compute. discriminate. }
  destruct (coloring_numbers_every_edge _ _ _ H Ha HN) as (H1 & H2 & _).
  split; [exact Hp|]. split; [exact H1|].
  rewrite H2, Hl. reflexivity.
Defined.
